(* ===== verification/_CoqProject ===== *)
-Q . S2P
Prelude.v
RustStd.v
Error.v
Protocol.v
Config.v
Demux.v
Connection.v
TcpServer.v
Client.v
LoadBalancer.v
Http.v
Rzid.v
Resolver.v
Topology.v
App.v
Process.v
ClusterSync.v
ClusterProps.v
SyncSteps.v
Execute.v
System.v
SystemProps.v
Recovery.v
ReadRecovery.v
Requests.v
Tracking.v
Spec.v
Discovered.v
Bridge.v
Locks.v
