(* ===== verification/Prelude.v ===== *)
(** * rzbridge: a verification development

    rzbridge stands between routers and the nodes of one shard of a roomzin
    cluster.  It accepts TCP connections from routers, decodes their frames,
    sends every request to a node of the shard over one of a few shared
    connections, and writes the answer back.  Writes go to the leader, reads to
    the followers; who is leader and follower is found out by asking the nodes.
    This library models the bridge as a shallow embedding and proves what makes
    it correct, and where it is not.  Paths are relative to [src/src/] of the
    repository.

    ** The parts and where they are modelled

    - [Prelude.v], this file: [Result], bytes and little-endian integers,
      slices and indexing with panics as [None], iteration orders of hash maps,
      tactics and hint databases.  [RustStd.v]: the string functions of Rust's
      standard library that the code calls (UTF-8 validation, trimming,
      formatting).
    - [Error.v], [Config.v]: [error.rs], [config.rs] and the counters of
      [metrics.rs].
    - [Protocol.v]: [protocol.rs], the router frames (magic 0xFE) and the shard
      frames (magic 0xFF), with the grammar of both as the specification.
    - [Demux.v]: [demux.rs], the map from correlation id to waiting request.
    - [Connection.v]: [connection.rs], a connection to a node.  The code shares
      it through [Arc]s, the model keeps it in a [Store] under a reference; the
      store also holds the oneshot channels of the waiting requests, the
      counters that name fresh references, and the clock.
    - [TcpServer.v]: [tcp_server.rs], the handler of one router connection and
      [TcpServer::run]: an iteration of its accept loop ([run_step]), the task
      that counts the closed connections, and their steps with the handlers'.
    - [LoadBalancer.v], [ClusterSync.v], [Execute.v], [Locks.v]:
      [cluster_handler.rs].  Respectively: the shared state ([HandlerInner])
      and the selection of a connection; the synchronisation of the tables with
      the cluster; [execute], the life of one request; the order in which all
      of these take the locks.  [ClusterProps.v] has the properties of the
      synchronisation.  [SyncSteps.v] has the synchronisation again as a
      resumption ([Prog]), which stops at every [.await] and goes on from the
      state the other tasks have left, the proof that it is the one of
      [ClusterSync.v], what each of its segments guarantees, and the start of
      [sync_task], whose timer panics on a probe interval of zero.
    - [Http.v], [Rzid.v], [Resolver.v], [Topology.v]: the HTTP clients
      ([rzid.rs], [resolver.rs]) and the discovery of leader and followers
      ([topology.rs]).
    - [System.v], [SystemProps.v], [Requests.v]: the requests, the read and
      write loops of all connections and the synchronisation, interleaved over
      one state, and the properties of requests in the running system.
      [Recovery.v], [ReadRecovery.v]: what a synchronisation restores after a
      loss, for writes and for reads.
      [Tracking.v]: that a waiting request stays registered where its answer
      will arrive.  [Discovered.v]: that every connection a request is put on
      goes to a host the discovery elected.
    - [Spec.v]: the specification of the request service as an abstract machine
      of five rules ([spec_step]), and the abstraction function ([abs]) under
      which [System.v] refines it.
    - [Bridge.v]: the router side over the node side.  The interface of the
      handler to its world ([TcpServer.HandlerEnv]) is implemented by the running
      system, where [execute] is a request run from its start to its end.
    - [App.v]: [lib.rs], [main.rs], [api.rs], [metrics.rs] and the state of
      [TopologyDiscovery]: the order in which the parts are built, what ends the
      process, the routes of the HTTP API.  [Process.v]: the tasks that run
      after the start-up, the cancellation token they share, and how the process
      ends.
    - [Client.v]: [tests/common/] and [tests/happy_path.rs], the client of the
      integration tests: the command encoder, the client's own reader of shard
      frames, the decoder of the response and the helper that starts a bridge.

    ** How the code is read

    A panic (index or slice out of range, [usize] underflow, [unwrap] of
    [None]) is [None] or a constructor [Panicked]; that it does not happen is a
    theorem.  Errors are values of [Result].  Machine integers are [Z] with the
    wrap-around written out ([w32]), bytes are [list byte], times and durations
    are nanoseconds in [Z].

    Tasks of the runtime interleave.  What a task does between two points on
    which another task can change the state it uses is one step; the store, the
    tables and the load balancer are shared by all tasks.  The choice of a leader
    connection ([LoadBalancer.next_leader_conn]) is one step, since it holds the
    load balancer's mutex and the lock of the slots throughout.  The search for a
    follower connection ([next_follower_conn]) is not: it takes the load
    balancer's mutex for the number of nodes, lets it go, and takes it again in
    every iteration, so that it is one step for the number of nodes and one per
    iteration ([LoadBalancer.follower_turn]); [LoadBalancer.follower_scan] takes
    what the other tasks do before each iteration as an argument.  The second look
    of [execute] at [is_closed] with the new correlation id, the store into the
    correlation map, the sending and the waiting are steps of their own
    ([Execute.exec_step]), so that a connection can close between any two of
    them.  A synchronisation is interrupted at every await: in [ClusterSync.v] by
    an environment [env], which the theorems require to be [ClusterSync.env_ok]
    ([ClusterProps.hstep] uses the operations of the other tasks, which are
    proved to satisfy its rely condition); in [System.v] by the steps of the
    other tasks, the resumption being kept in the state until it is resumed.

    While a synchronisation files new follower connections it holds the write
    guard of the follower table and awaits the load balancer's lock again and
    again: a suspension says whether the guard is held, and then an iteration of
    a read's search that would lock the table, which it does when the next index
    belongs to a node, is not a step ([System.waits_guard]).  In the code that
    read holds the load balancer while it waits, and the synchronisation waits
    for it: the runs in which that happens are the deadlocked ones, and
    [System.v] has the others.  [Locks.v] is the model of the locks themselves,
    where each acquisition is a step and the acquisitions of a selection are
    computed from the state it starts in and what the others do meanwhile; there
    the deadlock is shown.

    The panics on the way of a request are those of slices and of [cleanup],
    which subtracts the age of expiry (twice the timeout, in [u64]) from the
    clock: a selection that panics is [None], and [Connection.clock_covers] says
    that the subtraction is defined.  [SystemProps.system_never_panics] has the
    configurations for which nothing panics.

    The iteration order of a [HashMap] or [HashSet] is any: the classes
    [HashIter] and [HashSetIter] give some permutation, the theorems are
    proved for all instances, and [list_order], [set_order] are concrete ones
    for the witnesses.

    Recursion follows the data where it can.  The fuel elsewhere is enough: the
    frame loop consumes a byte per iteration ([TcpServer.drain] gives it the
    length of the buffer plus one, [TcpServer.drain_loop_terminates]); the scans
    of the selection are bounded by the code's own loop bounds; the read loop
    takes its fuel as an argument and [Connection.read_loop_total] says which is
    enough; trimming removes at least a byte per step.

    Third-party code is a parameter: the errors of [reqwest] (class [Reqwest]),
    the answers of HTTP servers ([Get], [Post]), whether a TCP connection
    attempt succeeds, the clock, the number of cores.  The bytes a socket
    delivers and the way it cuts them into reads are arguments.  The handler of
    a router connection sees the cluster through the class
    [TcpServer.HandlerEnv]; [TcpServer.Reliable] states what it needs of it to
    serve, [Bridge.Answers] what it needs to answer properly.  In [Bridge.v] the
    number of turns a request is given is an argument; a request that has not
    ended by then has not returned, and its handler is stuck in it.

    ** What the theorems show

    - Wire formats: the decoder of router frames accepts exactly the grammar,
      never panics and its answers are stable under more input; encoding and
      decoding are inverse; the reader of shard frames depends on the bytes and
      not on the reads, and leaves what follows a frame untouched; the error
      reply is one well-formed frame under the client's id.
    - Router side: what is executed is a function of the byte stream, however
      it is chunked; encoded requests are executed once, in order, and answered
      in order; a failed request is answered by an [ERROR] frame; every
      connection is closed exactly once; the counters add up; never more than
      [max_connections] handlers.  How much comes over a connection does not
      matter, only what of an incomplete frame is in the buffer.
    - Node side: answers reach the request registered under their correlation
      id; correlation ids do not repeat within [2^32]; a lost peer closes the
      connection; expiry removes exactly the old entries.
    - Selection: a write takes the next open leader slot, a read that is not
      disturbed the next follower node and connection in rotation; exactly when
      one is found.
    - Synchronisation: the invariant of the tables under interference; what a
      leader change and a follower change establish and preserve; the first
      synchronisation is complete; every segment keeps its contract with the
      other tasks.
    - Discovery: the leader and followers of the elected id, independence of
      iteration order, retries, and remembered seeds; after the start-up the
      bridge follows the live cluster without RzID.
    - Requests in the system: no task panics, with a probe interval that is not
      zero; a request gets the answer to its own frame, and completes with it once
      it is read; its frame is changed in the id only; its own steps are finitely
      many, and it can take the next one unless it has to wait; writes go to the
      leader.
    - Recovery: the flag that serialises synchronisations never gets stuck, and
      after any loss, refused connection or change of leader a synchronisation
      over nodes that are reachable from then on brings the leader connections
      back; when all follower connections are lost, one failing read and one
      synchronisation bring them back, and the read's next attempt finds one.
    - Specification: every run of the system is, through [abs], a run of the
      abstract machine, which says what a request may come to and from whom its
      answer is.
    - No request is lost: a request that waits has its answer, or will retry, or
      is in the correlation map under the id of its frame.
    - Routing: writes go to the leader, reads to the followers of a topology
      that was elected by the nodes probed in the round of its discovery.
    - Process: it ends exactly when the wait for Ctrl-C is over, and never with an
      error.
    - Client: the response decoder accepts exactly its grammar; a command sent
      through the bridge comes back decoded, and the test of the repository
      passes when the node's answer is what it expects.
    - End to end: whatever a router sends gets one reply per request, in order:
      the error reply under the request's own id, or the response a node gave to
      this very frame, with the router's id put back.
    - Locks: without the synchronisation of the followers there is no deadlock;
      with it there is one, and it stops every request.

    The theorems also show defects: a read and a synchronisation can deadlock
    ([Locks.read_sync_deadlock]); a request in flight when its connection is lost
    waits forever ([SystemProps.orphaned_request_hangs]); an expired request
    succeeds with an empty answer ([SystemProps.expired_request_succeeds_empty]);
    a probe interval of zero ends the synchronisation at its start
    ([SystemProps.zero_interval_never_serves]); two reads at a time miss an open
    connection ([LoadBalancer.concurrent_reads_miss]);
    connected followers that reads never use
    ([ClusterProps.lone_follower_unreachable],
    [ClusterProps.duplicate_index_unreachable]); closed follower connections that
    are not replaced ([ClusterProps.closed_followers_not_replaced]); the dead
    close-on-error rule ([Connection.error_close_unreachable]).

    ** Not modelled

    Logging; the parsing of the command line (clap); the internals of tokio,
    axum, reqwest, serde, prometheus, uuid and chrono, whose outcomes are
    arguments ([Uuid::to_string] and tomorrow's date among them). *)

From stdpp Require Export base tactics list option numbers gmap strings.
From Stdlib Require Export ZArith Lia Strings.Byte.

#[export] Set Default Goal Selector "!".
Local Open Scope Z_scope.

(** ** Hint databases of the development *)

Create HintDb rz discriminated.
Create Rewrite HintDb rzlen.
Create Rewrite HintDb zl.

(** ** Rust's [Result] *)

Inductive Result (A E : Type) : Type :=
| Ok (a : A)
| Err (e : E).
Arguments Ok {A E} a.
Arguments Err {A E} e.

Definition is_ok {A E} (r : Result A E) : bool :=
  match r with Ok _ => true | Err _ => false end.

#[export] Instance Result_eq_dec {A E} `{EqDecision A, EqDecision E} : EqDecision (Result A E).
Proof. solve_decision. Defined.

(** ** Bytes and machine-width integers *)

#[export] Instance byte_eq_dec : EqDecision byte := Byte.byte_eq_dec.

Abbreviation bytes := (list byte).

(** [usize] length of a slice. *)
Definition zlen {A} (l : list A) : Z := Z.of_nat (length l).

Definition u8 (b : byte) : Z := Z.of_N (Byte.to_N b).

Definition byte_of_Z (z : Z) : byte :=
  match Byte.of_N (Z.to_N (z mod 256)) with Some b => b | None => x00 end.

(** [u32] wrap-around (release arithmetic and atomic [fetch_add]). *)
Definition w32 (z : Z) : Z := z mod 2 ^ 32.

(** [u64] wrap-around. *)
Definition w64 (z : Z) : Z := z mod 2 ^ 64.

(** [to_le_bytes] on [n] bytes and [from_le_bytes]. *)
Fixpoint le_bytes (n : nat) (z : Z) : bytes :=
  match n with
  | O => []
  | S k => byte_of_Z z :: le_bytes k (z / 256)
  end.

Fixpoint le_val (b : bytes) : Z :=
  match b with
  | [] => 0
  | x :: r => u8 x + 256 * le_val r
  end.

(** ** Panicking slice operations

    An indexing or slicing expression of the code that can panic is an
    [option]: [None] is the panic. *)

Definition idx {A} (b : list A) (i : Z) : option A :=
  if 0 <=? i then (if i <? zlen b then b !! Z.to_nat i else None) else None.

(** [&b[lo..hi]] *)
Definition slice {A} (b : list A) (lo hi : Z) : option (list A) :=
  if (0 <=? lo) && (lo <=? hi) && (hi <=? zlen b)
  then Some (take (Z.to_nat (hi - lo)) (drop (Z.to_nat lo) b))
  else None.

(** [b[lo..lo + new.len()].copy_from_slice(new)] *)
Definition patch {A} (b : list A) (lo : Z) (new : list A) : option (list A) :=
  if (0 <=? lo) && (lo + zlen new <=? zlen b)
  then Some (take (Z.to_nat lo) b ++ new ++ drop (Z.to_nat (lo + zlen new)) b)
  else None.

(** ** Time

    [Duration] and [Instant] in nanoseconds; the zero of an [Instant] is that of
    the monotonic clock of the system. *)
Abbreviation Duration := Z (only parsing).
Abbreviation Instant := Z (only parsing).
Definition from_secs (s : Z) : Duration := s * 1000000000.

(** [Instant - Duration] on Unix, where an [Instant] has its seconds in an
    [i64]: it panics if the result has none that fit. *)
Definition instant_min : Instant := - 2 ^ 63 * 1000000000.
Definition instant_sub (t : Instant) (d : Duration) : option Instant :=
  if instant_min <=? t - d then Some (t - d) else None.
Definition from_millis (ms : Z) : Duration := ms * 1000000.

(** [tokio::time::interval] panics on a period of zero. *)
Definition interval (period : Duration) : option Duration := if period =? 0 then None else Some period.

(** ** [HashMap] *)

(** Iteration over a [HashMap] yields its entries in some order that depends
    on the hasher: any permutation.  Every function of the development that
    iterates takes the order as an instance of this class, and the theorems
    hold for every instance. *)
Class HashIter (K V : Type) `{Countable K} := {
  hiter : gmap K V -> list (K * V);
  hiter_perm : forall m, hiter m ≡ₚ map_to_list m
}.

(** The order of [map_to_list], for concrete runs. *)
Definition list_order K V `{Countable K} : HashIter K V :=
  {| hiter := map_to_list; hiter_perm := fun m => reflexivity (map_to_list m) |}.

(** The same for a [HashSet]. *)
Class HashSetIter (K : Type) `{Countable K} := {
  siter : gset K -> list K;
  siter_perm : forall s, siter s ≡ₚ elements s
}.

Definition set_order K `{Countable K} : HashSetIter K :=
  {| siter := elements; siter_perm := fun s => reflexivity (elements s) |}.

(** Notations of the development. *)
Declare Scope rz_scope.
Delimit Scope rz_scope with rz.
Notation "b .[ lo ; hi ]" := (slice b lo hi)
  (at level 1, lo at level 60, hi at level 60, format "b .[ lo ;  hi ]") : rz_scope.
Notation "b .[ i ]" := (idx b i)
  (at level 1, i at level 60, format "b .[ i ]") : rz_scope.
Open Scope rz_scope.

(** ** Tactics *)

(** Break the first boolean comparison or [if]/[match] of the goal. *)
Ltac zbool :=
  repeat match goal with
  | H : andb _ _ = true |- _ => apply andb_true_iff in H as [? ?]
  | H : orb _ _ = false |- _ => apply orb_false_iff in H as [? ?]
  | H : negb _ = true |- _ => apply negb_true_iff in H
  | H : negb _ = false |- _ => apply negb_false_iff in H
  | H : (_ <=? _) = true |- _ => apply Z.leb_le in H
  | H : (_ <=? _) = false |- _ => apply Z.leb_gt in H
  | H : (_ <? _) = true |- _ => apply Z.ltb_lt in H
  | H : (_ <? _) = false |- _ => apply Z.ltb_ge in H
  | H : (_ =? _) = true |- _ => apply Z.eqb_eq in H
  | H : (_ =? _) = false |- _ => apply Z.eqb_neq in H
  end.

Ltac zcase :=
  match goal with
  | |- context [?a <=? ?b] => destruct (Z.leb_spec a b)
  | |- context [?a <? ?b] => destruct (Z.ltb_spec a b)
  | |- context [?a =? ?b] => destruct (Z.eqb_spec a b)
  end.

(** Walk, head first, through a hypothesis [computation = result -> ...] in the
    panic monad, dropping the branches that contradict the result. *)
Ltac head_step :=
  cbv zeta; lazymatch goal with
  | |- (if ?a <? ?b then _ else _) = _ -> _ => destruct (Z.ltb_spec a b)
  | |- (if ?a <=? ?b then _ else _) = _ -> _ => destruct (Z.leb_spec a b)
  | |- (if negb (bool_decide ?P) then _ else _) = _ -> _ =>
      destruct (bool_decide_reflect P); simpl negb; cbn iota
  | |- (if bool_decide ?P then _ else _) = _ -> _ => destruct (bool_decide_reflect P)
  | |- mbind _ ?m = _ -> _ =>
      let x := fresh "x" in let E := fresh "E" in
      destruct m as [x|] eqn:E; cbn [mbind option_bind]
  | |- match ?m with _ => _ end = _ -> _ => let E := fresh "E" in destruct m eqn:E
  end; try (intros; discriminate).

(** Decide the comparisons of the goal that arithmetic settles. *)
Ltac guards :=
  repeat match goal with
  | |- context [?a <? ?b] =>
      first [ rewrite (proj2 (Z.ltb_lt a b)) by lia | rewrite (proj2 (Z.ltb_ge a b)) by lia ]
  | |- context [?a <=? ?b] =>
      first [ rewrite (proj2 (Z.leb_le a b)) by lia | rewrite (proj2 (Z.leb_gt a b)) by lia ]
  end; cbn iota.

(** Normalise lengths and finish with [lia]. *)
Ltac zlen_solve :=
  unfold zlen in *; autorewrite with rzlen in *; simpl length in *; lia.

(** Open a hypothesis that a monadic (panicking) computation returned. *)
Ltac panic_inv :=
  repeat match goal with
  | H : mbind ?f ?m = Some _ |- _ =>
      let x := fresh "x" in let E := fresh "E" in
      destruct m as [x|] eqn:E; simpl in H; [|discriminate H]
  | H : Some _ = Some _ |- _ => injection H as H
  end.

(** ** Lengths *)

#[export] Hint Rewrite @length_app @length_take @length_drop @length_cons @length_nil
  @length_insert @length_replicate : rzlen.

Lemma zlen_nonneg {A} (l : list A) : 0 <= zlen l.
Proof. unfold zlen. lia. Qed.

Lemma zlen_nil {A} : zlen (@nil A) = 0.
Proof. reflexivity. Qed.

Lemma zlen_cons {A} (x : A) l : zlen (x :: l) = 1 + zlen l.
Proof. unfold zlen. simpl length. lia. Qed.

Lemma zlen_app {A} (l k : list A) : zlen (l ++ k) = zlen l + zlen k.
Proof. zlen_solve. Qed.

Lemma zlen_take {A} n (l : list A) : zlen (take n l) = Z.min (Z.of_nat n) (zlen l).
Proof. zlen_solve. Qed.

Lemma zlen_drop {A} n (l : list A) : zlen (drop n l) = Z.max 0 (zlen l - Z.of_nat n).
Proof. zlen_solve. Qed.

Lemma zlen_0_nil {A} (l : list A) : zlen l <= 0 -> l = [].
Proof. destruct l; [done|]. rewrite zlen_cons. pose proof (zlen_nonneg l). lia. Qed.

#[export] Hint Rewrite @zlen_nil @zlen_cons @zlen_app @zlen_take @zlen_drop : zl.

(** Linear arithmetic over [zlen]: push [zlen] to variables, then [lia]. *)
Ltac zlen_pose l :=
  lazymatch goal with
  | H : 0 <= zlen l |- _ => fail
  | _ => pose proof (zlen_nonneg l)
  end.

Ltac zl :=
  autorewrite with zl in *;
  repeat match goal with
  | |- context [zlen ?l] => zlen_pose l
  | _ : context [zlen ?l] |- _ => zlen_pose l
  end; try lia.

(** ** Indexing and slicing *)

Lemma idx_Some {A} (b : list A) i : 0 <= i < zlen b -> is_Some (idx b i).
Proof.
  intros [Hi Hb]. unfold idx. do 2 (zcase; [|lia]).
  apply lookup_lt_is_Some. unfold zlen in *. lia.
Qed.

Lemma idx_inv {A} (b : list A) i x :
  idx b i = Some x -> 0 <= i < zlen b /\ b !! Z.to_nat i = Some x.
Proof. unfold idx. repeat zcase; done. Qed.

Lemma idx_app_l {A} (b c : list A) i : i < zlen b -> idx (b ++ c) i = idx b i.
Proof.
  intros Hi. unfold idx. destruct (Z.leb_spec 0 i) as [H0|]; [|done].
  destruct (Z.ltb_spec i (zlen b)); [|lia].
  destruct (Z.ltb_spec i (zlen (b ++ c))) as [|Hge]; [|rewrite zlen_app in Hge; pose proof (zlen_nonneg c); lia].
  apply lookup_app_l. unfold zlen in *. lia.
Qed.

Lemma idx_app_r {A} (b c : list A) i : zlen b <= i -> idx (b ++ c) i = idx c (i - zlen b).
Proof.
  intros Hi. pose proof (zlen_nonneg b). unfold idx. rewrite zlen_app.
  destruct (Z.leb_spec 0 i); [|lia]. destruct (Z.leb_spec 0 (i - zlen b)); [|lia].
  destruct (Z.ltb_spec i (zlen b + zlen c)), (Z.ltb_spec (i - zlen b) (zlen c)); try lia; try done.
  rewrite lookup_app_r; [|unfold zlen in *; lia]. f_equal. unfold zlen. lia.
Qed.

Lemma slice_Some {A} (b : list A) lo hi :
  0 <= lo <= hi -> hi <= zlen b -> is_Some (slice b lo hi).
Proof. intros. unfold slice. repeat (zcase; [|lia]). eauto. Qed.

Lemma slice_inv {A} (b : list A) lo hi s :
  slice b lo hi = Some s ->
  0 <= lo <= hi /\ hi <= zlen b /\ s = take (Z.to_nat (hi - lo)) (drop (Z.to_nat lo) b)
  /\ zlen s = hi - lo.
Proof.
  unfold slice. repeat zcase; simpl; try done.
  intros [= <-]. split_and!; try lia; [done|]. zl.
Qed.

Lemma slice_app_l {A} (b c : list A) lo hi :
  hi <= zlen b -> slice (b ++ c) lo hi = slice b lo hi.
Proof.
  intros Hh. unfold slice. rewrite zlen_app. pose proof (zlen_nonneg c).
  destruct (Z.leb_spec 0 lo); [|done]. destruct (Z.leb_spec lo hi); [|done].
  destruct (Z.leb_spec hi (zlen b)); [|lia]. destruct (Z.leb_spec hi (zlen b + zlen c)); [|lia].
  simpl. f_equal. unfold zlen in *.
  rewrite drop_app_le by lia. rewrite take_app_le; [done|]. rewrite length_drop. lia.
Qed.

Lemma slice_app_r {A} (b c : list A) lo hi :
  zlen b <= lo -> slice (b ++ c) lo hi = slice c (lo - zlen b) (hi - zlen b).
Proof.
  intros Hh. pose proof (zlen_nonneg b). unfold slice. rewrite zlen_app.
  destruct (Z.leb_spec 0 lo); [|lia]. destruct (Z.leb_spec 0 (lo - zlen b)); [|lia].
  destruct (Z.leb_spec lo hi), (Z.leb_spec (lo - zlen b) (hi - zlen b)); try lia; [|done].
  destruct (Z.leb_spec hi (zlen b + zlen c)), (Z.leb_spec (hi - zlen b) (zlen c)); try lia; [|done].
  simpl. rewrite drop_app_ge by (unfold zlen in *; lia).
  replace (hi - zlen b - (lo - zlen b)) with (hi - lo) by lia.
  replace (Z.to_nat (lo - zlen b)) with (Z.to_nat lo - length b)%nat by (unfold zlen; lia).
  done.
Qed.

Lemma slice_prefix {A} (b c : list A) n : n = zlen b -> slice (b ++ c) 0 n = Some b.
Proof.
  intros ->. rewrite slice_app_l by lia. unfold slice.
  pose proof (zlen_nonneg b). repeat (zcase; [|lia]). simpl.
  rewrite drop_0. rewrite firstn_all2; [done|]. unfold zlen. lia.
Qed.

(** A slice whose offset is the length of the prefix. *)
Lemma slice_mid {A} (a b c : list A) lo hi :
  lo = zlen a -> hi = zlen a + zlen b -> slice (a ++ b ++ c) lo hi = Some b.
Proof.
  intros -> ->. rewrite slice_app_r by lia. rewrite Z.sub_diag.
  apply slice_prefix. lia.
Qed.

(** Reading a buffer piece by piece: what is left after an offset starts with
    the byte or slice read there. *)
Lemma drop_idx {A} (b : list A) i x :
  idx b i = Some x -> drop (Z.to_nat i) b = x :: drop (Z.to_nat (i + 1)) b.
Proof.
  intros [Hi Hx]%idx_inv. replace (Z.to_nat (i + 1)) with (S (Z.to_nat i)) by lia.
  by apply drop_S.
Qed.

Lemma drop_slice {A} (b : list A) lo hi s :
  slice b lo hi = Some s -> drop (Z.to_nat lo) b = s ++ drop (Z.to_nat hi) b.
Proof.
  intros (Hlo & Hhi & -> & _)%slice_inv.
  replace (Z.to_nat hi) with (Z.to_nat lo + Z.to_nat (hi - lo))%nat by lia.
  rewrite <- drop_drop. by rewrite take_drop.
Qed.

Lemma slice_slice {A} (b s : list A) lo hi i j :
  slice b lo hi = Some s -> 0 <= i <= j -> j <= hi - lo ->
  slice s i j = slice b (lo + i) (lo + j).
Proof.
  intros (Hlo & Hhi & Hs & Hl)%slice_inv Hi Hj. unfold slice. rewrite Hl.
  repeat (zcase; [|lia]). simpl. f_equal. subst s.
  rewrite skipn_firstn_comm, firstn_firstn, drop_drop.
  f_equal; [lia|]. f_equal. lia.
Qed.

Lemma idx_slice {A} (b s : list A) lo hi i :
  slice b lo hi = Some s -> 0 <= i < hi - lo -> idx s i = idx b (lo + i).
Proof.
  intros (Hlo & Hhi & -> & Hl)%slice_inv Hi. unfold idx. rewrite Hl.
  repeat (zcase; [|lia]). rewrite lookup_take_lt by lia. rewrite lookup_drop. f_equal. lia.
Qed.

Lemma idx_0 {A} (b : list A) x : idx b 0 = Some x -> exists r, b = x :: r.
Proof. intros H%drop_idx. rewrite drop_0 in H. eauto. Qed.

Lemma idx_mid {A} (a : list A) x c i : i = zlen a -> idx (a ++ x :: c) i = Some x.
Proof.
  intros ->. rewrite idx_app_r by lia. rewrite Z.sub_diag. unfold idx. rewrite zlen_cons.
  pose proof (zlen_nonneg c). repeat (zcase; [|lia]). done.
Qed.

Lemma take_zlen_app {A} (a b : list A) : take (Z.to_nat (zlen a)) (a ++ b) = a.
Proof. unfold zlen. rewrite Nat2Z.id. apply take_app_length. Qed.

Lemma drop_zlen_app {A} (a b : list A) : drop (Z.to_nat (zlen a)) (a ++ b) = b.
Proof. unfold zlen. rewrite Nat2Z.id. apply drop_app_length. Qed.

Lemma patch_Some {A} (b : list A) lo new :
  0 <= lo -> lo + zlen new <= zlen b -> is_Some (patch b lo new).
Proof. intros. unfold patch. repeat (zcase; [|lia]). eauto. Qed.

Lemma patch_bounds {A} (b : list A) lo new b' : patch b lo new = Some b' -> lo + zlen new <= zlen b.
Proof. unfold patch. destruct (_ && _) eqn:E; [|done]. apply andb_true_iff in E as [_ ?%Z.leb_le]. lia. Qed.

Lemma patch_mid {A} (a b c new : list A) lo :
  lo = zlen a -> zlen new = zlen b -> patch (a ++ b ++ c) lo new = Some (a ++ new ++ c).
Proof.
  intros -> Hn. unfold patch. pose proof (zlen_nonneg a). pose proof (zlen_nonneg c).
  zcase; [|lia]. destruct (Z.leb_spec (zlen a + zlen new) (zlen (a ++ b ++ c))); [|zl].
  simpl. f_equal. unfold zlen in *. rewrite Nat2Z.id, take_app_length. do 2 f_equal.
  rewrite drop_app_ge by lia. rewrite drop_app_ge by lia.
  replace (Z.to_nat _ - length a - length b)%nat with 0%nat by lia. apply drop_0.
Qed.

(** What was patched in reads back. *)
Lemma patch_slice {A} (b new r : list A) lo :
  patch b lo new = Some r -> slice r lo (lo + zlen new) = Some new.
Proof.
  unfold patch. destruct (Z.leb_spec 0 lo); [|done]. destruct (Z.leb_spec (lo + zlen new) (zlen b)); [|done].
  simpl. intros [= <-]. pose proof (zlen_nonneg new).
  assert (Hlo : lo = zlen (take (Z.to_nat lo) b)) by (rewrite zlen_take; lia). apply slice_mid; lia.
Qed.

(** ** Bytes and little-endian integers *)

Lemma u8_range b : 0 <= u8 b < 256.
Proof. unfold u8. pose proof (Byte.to_N_bounded b). lia. Qed.

Lemma byte_of_Z_u8 b : byte_of_Z (u8 b) = b.
Proof.
  unfold byte_of_Z. rewrite Z.mod_small by apply u8_range.
  unfold u8. rewrite N2Z.id, Byte.of_to_N. done.
Qed.

Lemma u8_byte_of_Z z : u8 (byte_of_Z z) = z mod 256.
Proof.
  unfold byte_of_Z, u8. pose proof (Z.mod_pos_bound z 256 ltac:(lia)).
  destruct (Byte.of_N (Z.to_N (z mod 256))) eqn:E.
  - apply Byte.to_of_N in E. rewrite E. lia.
  - apply Byte.of_N_None_iff in E. lia.
Qed.

Lemma u8_inj a b : u8 a = u8 b -> a = b.
Proof. intros H. rewrite <- (byte_of_Z_u8 a), H. apply byte_of_Z_u8. Qed.

Lemma length_le_bytes n z : length (le_bytes n z) = n.
Proof. revert z; induction n; simpl; auto. Qed.
#[export] Hint Rewrite length_le_bytes : rzlen.

Lemma zlen_le_bytes n z : zlen (le_bytes n z) = Z.of_nat n.
Proof. unfold zlen. by rewrite length_le_bytes. Qed.
#[export] Hint Rewrite zlen_le_bytes : zl.

(** [from_le_bytes (to_le_bytes z) = z], modulo the width. *)
Lemma le_val_le_bytes n z : le_val (le_bytes n z) = z mod 256 ^ Z.of_nat n.
Proof.
  revert z; induction n as [|n IH]; intros z.
  - simpl. by rewrite Z.mod_1_r.
  - cbn [le_bytes le_val]. rewrite u8_byte_of_Z, IH, Nat2Z.inj_succ, Z.pow_succ_r by lia.
    rewrite (Z.rem_mul_r z 256) by lia. lia.
Qed.

Lemma le_val_range b : 0 <= le_val b < 256 ^ zlen b.
Proof.
  induction b as [|x b IH]; [done|]. cbn [le_val]. rewrite zlen_cons.
  pose proof (u8_range x). pose proof (zlen_nonneg b).
  rewrite Z.add_1_l, Z.pow_succ_r by lia. nia.
Qed.

(** [to_le_bytes (from_le_bytes b) = b]. *)
Lemma le_bytes_le_val b : le_bytes (length b) (le_val b) = b.
Proof.
  induction b as [|x b IH]; [done|]. cbn [le_val length le_bytes].
  pose proof (u8_range x). f_equal.
  - apply u8_inj. rewrite u8_byte_of_Z, Z.mul_comm, Z.mod_add, Z.mod_small; lia.
  - rewrite Z.mul_comm, Z.div_add, Z.div_small by lia. simpl. apply IH.
Qed.

Lemma le_val_u32 z : 0 <= z < 2 ^ 32 -> le_val (le_bytes 4 z) = z.
Proof. intros. rewrite le_val_le_bytes. apply Z.mod_small. simpl. lia. Qed.

Lemma le_val_u16 z : 0 <= z < 2 ^ 16 -> le_val (le_bytes 2 z) = z.
Proof. intros. rewrite le_val_le_bytes. apply Z.mod_small. simpl. lia. Qed.

Lemma w32_range z : 0 <= w32 z < 2 ^ 32.
Proof. apply Z.mod_pos_bound. lia. Qed.

Lemma w32_small z : 0 <= z < 2 ^ 32 -> w32 z = z.
Proof. apply Z.mod_small. Qed.

(** Pose the range of every byte in the context. *)
Ltac byte_ranges :=
  repeat match goal with
  | b : byte |- _ =>
      lazymatch goal with
      | H : 0 <= u8 b < 256 |- _ => fail
      | _ => pose proof (u8_range b)
      end
  end.

#[export] Hint Resolve zlen_nonneg u8_range w32_range le_val_range : rz.

(** ** Lists *)

Lemma Permutation_List_filter {A} (f : A -> bool) l l' :
  l ≡ₚ l' -> List.filter f l ≡ₚ List.filter f l'.
Proof.
  induction 1 as [|x l l' _ IH|x y l|l l' l'' _ IH1 _ IH2]; simpl; [done| | |by rewrite IH1].
  - destruct (f x); by rewrite IH.
  - destruct (f x), (f y); try done. apply perm_swap.
Qed.

Lemma Forall2_impl_in {A B} (P Q : A -> B -> Prop) l k :
  Forall2 P l k -> (forall x y, x ∈ l -> P x y -> Q x y) -> Forall2 Q l k.
Proof. induction 1; intros HI; constructor; [apply HI; set_solver|set_solver]. Qed.

Lemma hiter_lookup {K V} `{Countable K} {HI : HashIter K V} (m : gmap K V) k v :
  (k, v) ∈ hiter m <-> m !! k = Some v.
Proof. rewrite hiter_perm. apply elem_of_map_to_list. Qed.

Lemma hiter_NoDup {K V} `{Countable K} {HI : HashIter K V} (m : gmap K V) : NoDup (hiter m).*1.
Proof. rewrite hiter_perm. apply NoDup_fst_map_to_list. Qed.

Lemma hiter_empty {K V} `{Countable K} {HI : HashIter K V} : hiter (∅ : gmap K V) = [].
Proof. apply Permutation_nil_r. by rewrite hiter_perm, map_to_list_empty. Qed.

Lemma siter_elem {K} `{Countable K} {HI : HashSetIter K} (s : gset K) k : k ∈ siter s <-> k ∈ s.
Proof. rewrite siter_perm. apply elem_of_elements. Qed.

Lemma find_Some_elem {A} (p : A -> bool) l x : List.find p l = Some x -> x ∈ l /\ p x = true.
Proof. intros [Hin Hp]%find_some. split; [by apply list_elem_of_In|done]. Qed.

Lemma find_None_elem {A} (p : A -> bool) l x : List.find p l = None -> x ∈ l -> p x = false.
Proof. intros Hf Hin. apply (find_none _ _ Hf). by apply list_elem_of_In. Qed.

Lemma filter_map_comm {A B} (f : A -> B) (p : B -> bool) l :
  List.filter p (map f l) = map f (List.filter (fun x => p (f x)) l).
Proof. induction l as [|x l IH]; simpl; [done|]. rewrite IH. by destruct (p (f x)). Qed.

Lemma elem_of_List_filter {A} (p : A -> bool) l x : x ∈ List.filter p l <-> x ∈ l /\ p x = true.
Proof. by rewrite !list_elem_of_In, filter_In. Qed.

Lemma elem_of_map {A B} (f : A -> B) l y : y ∈ map f l <-> exists x, y = f x /\ x ∈ l.
Proof. apply list_elem_of_fmap. Qed.

Lemma NoDup_List_filter {A} (p : A -> bool) l : NoDup l -> NoDup (List.filter p l).
Proof.
  induction 1 as [|x l Hx Hl IH]; simpl; [constructor|]. destruct (p x); [|done].
  constructor; [|done]. by intros [? _]%elem_of_List_filter.
Qed.

(** A list without repetition whose elements are in another is no longer. *)
Lemma NoDup_incl_zlen {A} (l k : list A) : NoDup l -> (forall x, x ∈ l -> x ∈ k) -> zlen l <= zlen k.
Proof. intros Hn Hi. pose proof (submseteq_length _ _ (NoDup_submseteq _ _ Hn Hi)). unfold zlen. lia. Qed.

(** *** Membership and ranges of integers *)

Definition mem (i : Z) (l : list Z) : bool := existsb (Z.eqb i) l.

(** [0..n] *)
Definition zrange (n : Z) : list Z := map Z.of_nat (seq 0 (Z.to_nat n)).

Lemma mem_elem i l : mem i l = true <-> i ∈ l.
Proof.
  unfold mem. rewrite existsb_exists, list_elem_of_In. split.
  - intros (x & Hx & ->%Z.eqb_eq). done.
  - intros Hi. exists i. split; [done|apply Z.eqb_refl].
Qed.

Lemma mem_false i l : mem i l = false <-> i ∉ l.
Proof. rewrite <- mem_elem. by destruct (mem i l). Qed.

Lemma zrange_elem n i : i ∈ zrange n <-> 0 <= i < n.
Proof.
  unfold zrange. rewrite elem_of_map. split.
  - intros (k & -> & Hk%elem_of_seq). lia.
  - intros Hi. exists (Z.to_nat i). split; [lia|]. apply elem_of_seq. lia.
Qed.

Lemma zrange_NoDup n : NoDup (zrange n).
Proof. apply NoDup_fmap_2; [by intros ? ? ?%Nat2Z.inj|apply NoDup_seq]. Qed.

Lemma zlen_zrange n : 0 <= n -> zlen (zrange n) = n.
Proof. intros. unfold zlen, zrange. rewrite length_map, length_seq. lia. Qed.

Lemma zrange_snoc n : 0 <= n -> zrange (n + 1) = zrange n ++ [n].
Proof.
  intros Hn. unfold zrange. replace (Z.to_nat (n + 1)) with (S (Z.to_nat n)) by lia.
  rewrite seq_S, map_app. simpl. by rewrite Z2Nat.id.
Qed.

(** Taking [used] out of a range leaves at least [n - zlen used] numbers. *)
Lemma zrange_free n used :
  0 <= n -> n - zlen used <= zlen (List.filter (fun i => negb (mem i used)) (zrange n)).
Proof.
  intros Hn. enough (zlen (zrange n) <= zlen (used ++ List.filter (fun i => negb (mem i used)) (zrange n))) as Hl.
  { rewrite zlen_zrange, zlen_app in Hl; lia. }
  apply NoDup_incl_zlen; [apply zrange_NoDup|]. intros i Hi. apply elem_of_app.
  destruct (mem i used) eqn:E; [left; by apply mem_elem|right]. apply elem_of_List_filter. by rewrite E.
Qed.
