(* ===== verification/RustStd.v ===== *)
(** * The parts of Rust's standard library that rzbridge uses

    A Rust [String] or [&str] is the Stdlib [string] of its UTF-8 bytes.
    The file holds UTF-8 validation ([std::str::from_utf8]), the [str]
    methods [trim], [trim_start_matches] and [trim_end_matches], decimal and
    hexadecimal formatting, and their lemmas. *)

From S2P Require Import Prelude.
From stdpp Require Export pretty.
Local Open Scope Z_scope.

(** ** Strings as their bytes *)

Definition str_bytes (s : string) : bytes := String.list_byte_of_string s.
Definition bytes_str (b : bytes) : string := String.string_of_list_byte b.

(** ** [std::str::from_utf8]

    The validator follows the table of well-formed UTF-8 byte sequences of
    the Unicode standard, as [core::str::validations] does. *)

Definition in_range (lo hi : Z) (b : byte) : bool := (lo <=? u8 b) && (u8 b <=? hi).

Definition utf8_cont (b : byte) : bool := in_range 0x80 0xBF b.

(** The range of the second byte, by lead byte, of 3- and 4-byte sequences. *)
Definition utf8_second3 (b0 b1 : byte) : bool :=
  (in_range 0xE0 0xE0 b0 && in_range 0xA0 0xBF b1)
  || (in_range 0xE1 0xEC b0 && utf8_cont b1)
  || (in_range 0xED 0xED b0 && in_range 0x80 0x9F b1)
  || (in_range 0xEE 0xEF b0 && utf8_cont b1).

Definition utf8_second4 (b0 b1 : byte) : bool :=
  (in_range 0xF0 0xF0 b0 && in_range 0x90 0xBF b1)
  || (in_range 0xF1 0xF3 b0 && utf8_cont b1)
  || (in_range 0xF4 0xF4 b0 && in_range 0x80 0x8F b1).

Fixpoint utf8_valid (b : bytes) : bool :=
  match b with
  | [] => true
  | b0 :: r0 =>
      if u8 b0 <? 0x80 then utf8_valid r0
      else match r0 with
      | [] => false
      | b1 :: r1 =>
          if in_range 0xC2 0xDF b0 then utf8_cont b1 && utf8_valid r1
          else match r1 with
          | [] => false
          | b2 :: r2 =>
              if utf8_second3 b0 b1 then utf8_cont b2 && utf8_valid r2
              else match r2 with
              | [] => false
              | b3 :: r3 => utf8_second4 b0 b1 && utf8_cont b2 && utf8_cont b3 && utf8_valid r3
              end
          end
      end
  end.

Definition from_utf8 (b : bytes) : option string :=
  if utf8_valid b then Some (bytes_str b) else None.

(** ** [String::from_utf8_lossy]

    U+FFFD for every maximal part that can begin no character, as
    [core::str::lossy::Utf8Chunks] cuts them. *)
Definition replacement : bytes := [xef; xbf; xbd].

Fixpoint utf8_lossy (b : bytes) : bytes :=
  match b with
  | [] => []
  | b0 :: r0 =>
      if u8 b0 <? 0x80 then b0 :: utf8_lossy r0
      else if in_range 0xC2 0xDF b0 then
        match r0 with
        | b1 :: r1 => if utf8_cont b1 then b0 :: b1 :: utf8_lossy r1 else replacement ++ utf8_lossy r0
        | [] => replacement
        end
      else if in_range 0xE0 0xEF b0 then
        match r0 with
        | b1 :: r1 =>
            if utf8_second3 b0 b1 then
              match r1 with
              | b2 :: r2 => if utf8_cont b2 then b0 :: b1 :: b2 :: utf8_lossy r2 else replacement ++ utf8_lossy r1
              | [] => replacement
              end
            else replacement ++ utf8_lossy r0
        | [] => replacement
        end
      else
        match r0 with
        | b1 :: r1 =>
            if utf8_second4 b0 b1 then
              match r1 with
              | b2 :: r2 =>
                  if utf8_cont b2 then
                    match r2 with
                    | b3 :: r3 =>
                        if utf8_cont b3 then b0 :: b1 :: b2 :: b3 :: utf8_lossy r3 else replacement ++ utf8_lossy r2
                    | [] => replacement
                    end
                  else replacement ++ utf8_lossy r1
              | [] => replacement
              end
            else replacement ++ utf8_lossy r0
        | [] => replacement
        end
  end.

Definition from_utf8_lossy (b : bytes) : string := bytes_str (utf8_lossy b).

(** ** [str] methods *)

Fixpoint strip_prefix (p s : bytes) : option bytes :=
  match p, s with
  | [], _ => Some s
  | _ :: _, [] => None
  | x :: p', y :: s' => if decide (x = y) then strip_prefix p' s' else None
  end.

(** Strip the prefix as often as it occurs. *)
Fixpoint strip_all (fuel : nat) (p s : bytes) : bytes :=
  match fuel with
  | O => s
  | S k => match strip_prefix p s with Some r => strip_all k p r | None => s end
  end.

Definition trim_start_matches (p s : string) : string :=
  let b := str_bytes s in bytes_str (strip_all (length b) (str_bytes p) b).

Fixpoint drop_while {A} (f : A -> bool) (l : list A) : list A :=
  match l with
  | [] => []
  | x :: r => if f x then drop_while f r else l
  end.

(** [s.trim_end_matches(c)] for an ASCII character [c]. *)
Definition trim_end_matches (c : byte) (s : string) : string :=
  bytes_str (rev (drop_while (fun x => bool_decide (x = c)) (rev (str_bytes s)))).

(** The UTF-8 encodings of the characters with the [White_Space] property. *)
Definition white_space : list bytes :=
  [ [x09]; [x0a]; [x0b]; [x0c]; [x0d]; [x20]; [xc2; x85]; [xc2; xa0]; [xe1; x9a; x80];
    [xe2; x80; x80]; [xe2; x80; x81]; [xe2; x80; x82]; [xe2; x80; x83]; [xe2; x80; x84];
    [xe2; x80; x85]; [xe2; x80; x86]; [xe2; x80; x87]; [xe2; x80; x88]; [xe2; x80; x89];
    [xe2; x80; x8a]; [xe2; x80; xa8]; [xe2; x80; xa9]; [xe2; x80; xaf]; [xe2; x81; x9f];
    [xe3; x80; x80] ].

Fixpoint strip_any (ps : list bytes) (s : bytes) : option bytes :=
  match ps with
  | [] => None
  | p :: r => match strip_prefix p s with Some s' => Some s' | None => strip_any r s end
  end.

Fixpoint strip_any_all (fuel : nat) (ps : list bytes) (s : bytes) : bytes :=
  match fuel with
  | O => s
  | S k => match strip_any ps s with Some r => strip_any_all k ps r | None => s end
  end.

Definition trim (s : string) : string :=
  let b := str_bytes s in
  let b := strip_any_all (length b) white_space b in
  let r := rev b in
  bytes_str (rev (strip_any_all (length r) (map (@rev byte) white_space) r)).

(** [s.is_empty()] *)
Definition is_empty (s : string) : bool := bool_decide (s = EmptyString).

(** ** Formatting *)

(** [{}] of an unsigned integer. *)
Definition fmt_dec (z : Z) : string := pretty z.

Definition hex_digit (d : Z) : string :=
  match String.get (Z.to_nat d) "0123456789abcdef" with
  | Some c => String.String c EmptyString
  | None => EmptyString
  end.

(** [{:02x}] of a byte. *)
Definition fmt_02x (b : byte) : string := hex_digit (u8 b / 16) +:+ hex_digit (u8 b mod 16).

(** ** Lemmas *)

Lemma str_bytes_bytes_str b : str_bytes (bytes_str b) = b.
Proof. apply String.list_byte_of_string_of_list_byte. Qed.

Lemma bytes_str_str_bytes s : bytes_str (str_bytes s) = s.
Proof. apply String.string_of_list_byte_of_string. Qed.

Lemma bytes_str_inj a b : bytes_str a = bytes_str b -> a = b.
Proof. intros H. by rewrite <- (str_bytes_bytes_str a), H, str_bytes_bytes_str. Qed.

Lemma from_utf8_Some b s : from_utf8 b = Some s -> utf8_valid b = true /\ str_bytes s = b.
Proof.
  unfold from_utf8. destruct (utf8_valid b); [|done]. intros [= <-].
  by rewrite str_bytes_bytes_str.
Qed.

Lemma from_utf8_str_bytes s : utf8_valid (str_bytes s) = true -> from_utf8 (str_bytes s) = Some s.
Proof. unfold from_utf8. intros ->. by rewrite bytes_str_str_bytes. Qed.

(** Valid text is its own lossy reading. *)
Lemma utf8_second3_range b0 b1 : utf8_second3 b0 b1 = true -> in_range 0xE0 0xEF b0 = true.
Proof. unfold utf8_second3, in_range. rewrite !orb_true_iff, !andb_true_iff, !Z.leb_le. lia. Qed.

Lemma utf8_second4_range b0 b1 : utf8_second4 b0 b1 = true -> in_range 0xE0 0xEF b0 = false.
Proof.
  unfold utf8_second4, in_range. rewrite !orb_true_iff, !andb_true_iff, andb_false_iff, !Z.leb_le, !Z.leb_gt. lia.
Qed.

Lemma utf8_lossy_valid_short n b : (length b <= n)%nat -> utf8_valid b = true -> utf8_lossy b = b.
Proof.
  revert b. induction n as [|n IH]; intros [|b0 r0] Hl; try done; [simpl in Hl; lia|]. cbn [utf8_valid utf8_lossy].
  simpl in Hl. destruct (u8 b0 <? 0x80); [intros H; f_equal; apply IH; [lia|done]|].
  destruct r0 as [|b1 r1]; [done|]. simpl in Hl.
  destruct (in_range 0xC2 0xDF b0).
  { intros [-> H]%andb_true_iff. do 2 f_equal. apply IH; [lia|done]. }
  destruct r1 as [|b2 r2]; [done|]. simpl in Hl. destruct (utf8_second3 b0 b1) eqn:E3.
  { rewrite (utf8_second3_range _ _ E3). intros [-> H]%andb_true_iff. do 3 f_equal. apply IH; [lia|done]. }
  destruct r2 as [|b3 r3]; [done|]. simpl in Hl. intros [[[E4 ->]%andb_true_iff ->]%andb_true_iff H]%andb_true_iff.
  rewrite (utf8_second4_range _ _ E4), E4. do 4 f_equal. apply IH; [lia|done].
Qed.

Lemma utf8_lossy_valid b : utf8_valid b = true -> utf8_lossy b = b.
Proof. by apply utf8_lossy_valid_short with (length b). Qed.

(** ASCII text is valid UTF-8. *)
Lemma utf8_valid_ascii b : Forall (fun x => u8 x < 0x80) b -> utf8_valid b = true.
Proof.
  induction 1 as [|x l Hx _ IH]; [done|]. cbn [utf8_valid].
  destruct (Z.ltb_spec (u8 x) 0x80); [done|lia].
Qed.

Lemma strip_prefix_inv p s r : strip_prefix p s = Some r -> s = p ++ r.
Proof.
  revert s; induction p as [|x p IH]; intros s; simpl; [by intros [= ->]|].
  destruct s as [|y s]; [done|]. destruct (decide (x = y)) as [->|]; [|done].
  intros ->%IH. done.
Qed.

Lemma strip_prefix_app p r : strip_prefix p (p ++ r) = Some r.
Proof. induction p as [|x p IH]; simpl; [done|]. by rewrite decide_True. Qed.

(** With a non-empty pattern the fuel [length s] reaches the fixed point. *)
Lemma strip_all_none fuel p s :
  p <> [] -> (length s <= fuel)%nat -> strip_prefix p (strip_all fuel p s) = None.
Proof.
  intros Hp. revert s; induction fuel as [|k IH]; intros s Hl; simpl.
  - destruct s; [|simpl in Hl; lia]. by destruct p.
  - destruct (strip_prefix p s) as [r|] eqn:E; [|done].
    apply IH. apply strip_prefix_inv in E as ->. destruct p; [done|].
    rewrite length_app in Hl. simpl in Hl. lia.
Qed.

Lemma strip_all_id fuel p s : strip_prefix p s = None -> strip_all fuel p s = s.
Proof. destruct fuel; simpl; [done|]. by intros ->. Qed.

Lemma drop_while_id {A} (f : A -> bool) l :
  match l with x :: _ => f x = false | [] => True end -> drop_while f l = l.
Proof. destruct l; simpl; [done|]. by intros ->. Qed.

Lemma drop_while_head {A} (f : A -> bool) l :
  match drop_while f l with x :: _ => f x = false | [] => True end.
Proof.
  induction l as [|x l IH]; simpl; [done|]. destruct (f x) eqn:E; [apply IH|done].
Qed.

(** ** Examples *)

Example trim_ex : trim "  active_leader
 " = "active_leader".
Proof. reflexivity. Qed.

Example trim_start_matches_ex :
  trim_start_matches "http://" "http://http://rzid:8080" = "rzid:8080".
Proof. reflexivity. Qed.

Example trim_end_matches_ex : trim_end_matches x2f "rzid:8080//" = "rzid:8080".
Proof. reflexivity. Qed.

Example fmt_02x_ex : fmt_02x xfe = "fe".
Proof. reflexivity. Qed.

Example utf8_lossy_ex :
  map utf8_lossy [[x61; xe2; x82; x62]; [xc0; x80]; [xf0; x9f; x98]; [xe2; x82; xac]]
  = [[x61; xef; xbf; xbd; x62]; [xef; xbf; xbd; xef; xbf; xbd]; [xef; xbf; xbd]; [xe2; x82; xac]].
Proof. reflexivity. Qed.

Example utf8_ex : map utf8_valid [[xe2; x82; xac]; [xc0; x80]; [xed; xa0; x80]; [xf0; x9f; x98; x80]]
  = [true; false; false; true].
Proof. reflexivity. Qed.
