(* ===== verification/Error.v ===== *)
(** * [error.rs]: the error type of the bridge

    [RZError] with its [Display] text.  The payload of [Request] is
    [reqwest::Error], a type of a third-party crate: the class [Reqwest]
    carries it with its [Display].  [io::Error] is represented by its
    [Display] text, which is all the code looks at. *)

From S2P Require Import Prelude RustStd.
Local Open Scope Z_scope.

Class Reqwest := {
  reqwest_Error : Type;
  reqwest_display : reqwest_Error -> string
}.

Definition io_Error := string.

Inductive RZError `{Reqwest} : Type :=
| Cancelled
| Auth (s : string)
| ConfigError (s : string)
| Validation (s : string)
| ParseError (s : string)
| System (s : string)
| NoLeaderAvailable
| NoFollowerNodeAvailable
| Http (s : string)
| Resolver (s : string)
| Timeout
| Request (e : reqwest_Error)
| Io (e : io_Error).

(** [#[error("...")]] of each variant. *)
Definition display `{Reqwest} (e : RZError) : string :=
  match e with
  | Cancelled => "Operation cancelled"
  | Auth s => "Authentication error: " +:+ s
  | ConfigError s => "Config error: " +:+ s
  | Validation s => "Validation error: " +:+ s
  | ParseError s => "Parse error: " +:+ s
  | System s => "Internal error: " +:+ s
  | NoLeaderAvailable => "no leader found in cluster"
  | NoFollowerNodeAvailable => "no follower node found in cluster"
  | Http s => "HTTP error: " +:+ s
  | Resolver s => "Identity resolution error: " +:+ s
  | Timeout => "Request timeout"
  | Request e => "request failed: " +:+ reqwest_display e
  | Io e => "internal error: " +:+ e
  end.

(** A concrete instance for examples and witnesses. *)
Definition reqwest_text : Reqwest :=
  {| reqwest_Error := string; reqwest_display := fun s => s |}.
