(* ===== verification/Protocol.v ===== *)
(** * [protocol.rs]: the router and shard wire formats

    The decoder of router frames ([try_decode_router]), the reader of shard
    frames ([drain_frame_async]), the encoders ([prepend_header],
    [build_error_response]) and the resynchronisation scan.  Expressions that
    can panic are options, [None] being the panic.

    [router_frame] and [shard_frame] are the grammar of the two formats; the
    decoders are characterised by it. *)

From S2P Require Import Prelude RustStd Error.
Local Open Scope Z_scope.

Definition ROUTER_MAGIC : byte := xfe.
Definition SHARD_MAGIC : byte := xff.
Definition KEEPALIVE_SEGMENT : string := "__keepalive__".

Inductive ProtocolError : Type :=
| ShortFrame
| MissingMagic (b : byte)
| ShortPayload (s : string)
| ExtraBytes (n : Z)
| InvalidUtf8
| InvalidResponse (s : string).

Definition protocol_display (e : ProtocolError) : string :=
  match e with
  | ShortFrame => "incomplete frame"
  | MissingMagic b => "missing magic byte: got 0x" +:+ fmt_02x b
  | ShortPayload s => "short payload: " +:+ s
  | ExtraBytes n => "extra " +:+ fmt_dec n +:+ " bytes after parsing fields"
  | InvalidUtf8 => "invalid UTF-8 in status string"
  | InvalidResponse s => "invalid response: " +:+ s
  end.

(** [clr_id] is a [u32], [status_len] a [u8], [field_cnt] a [u16]. *)
Record Header := mkHeader {
  clr_id : Z;
  status_len : byte;
  field_cnt : Z
}.

(** ** Shard side *)

(** What one [read_buf] call on the reader yields: the bytes appended to the
    buffer (none at end of stream), or an I/O error.  A reader is the list of
    what its next calls yield; past the end of the list the stream is closed. *)
Inductive ReadEv : Type :=
| RdData (b : bytes)
| RdErr.

(** [while buf.len() < n { if reader.read_buf(buf).await? == 0 { return Err } }]:
    whether the buffer was filled, the reader and the buffer afterwards. *)
Fixpoint fill (n : Z) (reader : list ReadEv) (buf : bytes) : bool * list ReadEv * bytes :=
  if zlen buf <? n then
    match reader with
    | [] => (false, [], buf)
    | RdErr :: r => (false, r, buf)
    | RdData [] :: r => (false, r, buf)
    | RdData c :: r => fill n r (buf ++ c)
    end
  else (true, reader, buf).

Abbreviation drain_result := (Result (Header * bytes) ProtocolError * list ReadEv * bytes)%type.

Definition drain_frame_async (reader : list ReadEv) (buf : bytes) : option drain_result :=
  let '(ok, reader, buf) := fill 9 reader buf in
  if negb ok then Some (Err ShortFrame, reader, buf) else
  header_bytes ← buf.[0; 9];
  b0 ← header_bytes.[0];
  if negb (bool_decide (b0 = SHARD_MAGIC)) then Some (Err (MissingMagic b0), reader, buf) else
  id ← header_bytes.[1; 5];
  len ← header_bytes.[5; 9];
  let clr_id := le_val id in
  let payload_len := le_val len in
  let '(ok, reader, buf) := fill (9 + payload_len) reader buf in
  if negb ok then Some (Err ShortFrame, reader, buf) else
  (* buf.split_to(9 + payload_len) *)
  full_frame ← buf.[0; 9 + payload_len];
  let buf := drop (Z.to_nat (9 + payload_len)) buf in
  payload ← full_frame.[9; zlen full_frame];
  if bool_decide (payload = []) then Some (Err (ShortPayload "empty payload"), reader, buf) else
  sl ← payload.[0];
  let status_len := u8 sl in
  if zlen payload <? 1 + status_len + 2
  then Some (Err (ShortPayload "missing field count"), reader, buf) else
  fc ← payload.[1 + status_len; 1 + status_len + 2];
  Some (Ok (mkHeader clr_id sl (le_val fc), full_frame), reader, buf).

(** [payload.len() as u32] truncates. *)
Definition prepend_header (clr_id : Z) (payload : bytes) : bytes :=
  let total_len := w32 (zlen payload) in
  [xff] ++ le_bytes 4 clr_id ++ le_bytes 4 total_len ++ payload.

(** ** Router side *)

(** [shard_start + 5 > frame_len || buf[shard_start] != SHARD_MAGIC] *)
Definition missing_shard_magic (buf : bytes) (shard_start frame_len : Z) : option bool :=
  if frame_len <? shard_start + 5 then Some true
  else (m ← buf.[shard_start]; Some (negb (bool_decide (m = SHARD_MAGIC)))).

Section Router.
Context `{Reqwest}.

Inductive DecodeResult : Type :=
| NeedMore
| Frame (frame_len : Z) (segment : string) (is_write : bool) (shard_frame : bytes)
    (clrid_offset : Z) (original_clrid : Z)
| Error (e : RZError).

Definition try_decode_router (buf : bytes) : option DecodeResult :=
  if zlen buf <? 5 then Some NeedMore else
  b0 ← buf.[0];
  if negb (bool_decide (b0 = ROUTER_MAGIC)) then Some (Error (ParseError "bad router magic")) else
  lb ← buf.[1; 5];
  let total_len := le_val lb in
  if 16 * 1024 * 1024 <? total_len then Some (Error (ParseError "frame too large")) else
  let frame_len := 5 + total_len in
  if zlen buf <? frame_len then Some NeedMore else
  if total_len <? 2 then Some (Error (ParseError "router total_len too small")) else
  sl ← buf.[5];
  let seg_len := u8 sl in
  let seg_start := 6 in
  let is_write_pos := seg_start + seg_len in
  if frame_len <=? is_write_pos then Some (Error (ParseError "segment length out of range")) else
  sb ← buf.[seg_start; seg_start + seg_len];
  match from_utf8 sb with
  | None => Some (Error (ParseError "segment not utf-8"))
  | Some segment =>
      wb ← buf.[is_write_pos];
      let is_write := bool_decide (wb = x01) in
      let shard_start := is_write_pos + 1 in
      missing ← missing_shard_magic buf shard_start frame_len;
      if (missing : bool) then Some (Error (ParseError "missing shard magic")) else
      cb ← buf.[shard_start + 1; shard_start + 5];
      let original_clrid := le_val cb in
      let clrid_offset := shard_start + 1 in
      shard_frame ← buf.[shard_start; frame_len];
      Some (Frame frame_len segment is_write shard_frame clrid_offset original_clrid)
  end.

End Router.

(** [iter().position(p)] *)
Fixpoint position {A} (p : A -> bool) (l : list A) : option Z :=
  match l with
  | [] => None
  | x :: r => if p x then Some 0 else option_map (Z.add 1) (position p r)
  end.

Definition find_next_router_magic (buf : bytes) (from : Z) : option (option Z) :=
  s ← buf.[from; zlen buf];
  Some (option_map (Z.add from) (position (fun b => bool_decide (b = ROUTER_MAGIC)) s)).

Definition error_msg (error_code : Z) : bytes :=
  match error_code with
  | 1 => str_bytes "404"
  | 2 => str_bytes "503"
  | 3 => str_bytes "408"
  | _ => str_bytes "500"
  end.

Definition build_error_response (clrid : Z) (error_code : Z) : bytes :=
  let msg := error_msg error_code in
  let payload :=
    [x05] ++ str_bytes "ERROR" ++ le_bytes 2 1 ++ le_bytes 2 1 ++ [x01]
    ++ le_bytes 4 4 ++ le_bytes 4 (zlen msg) ++ msg in
  [xff] ++ le_bytes 4 clrid ++ le_bytes 4 (zlen payload) ++ payload.

(** ** The encoder the routers use

    [tests/common/command.rs], the client side of the router format. *)
Definition prepend_router_header (segment : string) (is_write : bool) (clrid : Z) (payload : bytes)
    : bytes :=
  let seg := str_bytes segment in
  let shard_total_len := w32 (zlen payload) in
  let shard_frame_len := w32 (9 + shard_total_len) in
  let segment_len := w32 (zlen seg) in
  let router_header_len := w32 (1 + segment_len + 1) in
  [ROUTER_MAGIC] ++ le_bytes 4 (w32 (router_header_len + shard_frame_len))
  ++ [byte_of_Z segment_len] ++ seg ++ [if is_write then x01 else x00]
  ++ [SHARD_MAGIC] ++ le_bytes 4 clrid ++ le_bytes 4 shard_total_len ++ payload.

(** The field reader of the response decoder ([read_field!]): id, type, data
    and the offset after the field. *)
Definition read_field (data : bytes) (offset : Z) : Result (option (Z * byte * bytes * Z)) string :=
  if zlen data <? offset + 7 then Err "Field header too short" else
  let field :=
    idb ← data.[offset; offset + 2];
    typ ← data.[offset + 2];
    lb ← data.[offset + 3; offset + 7];
    Some (le_val idb, typ, le_val lb) in
  match field with
  | None => Ok None
  | Some (id, typ, len) =>
      let offset := offset + 7 in
      if zlen data <? offset + len then Err "Field data too short" else
      Ok (d ← data.[offset; offset + len]; Some (id, typ, d, offset + len))
  end.

(** ** The grammar of the formats *)

(** A shard frame: magic, correlation id, payload length, payload. *)
Definition shard_frame (clr : Z) (payload : bytes) : bytes :=
  SHARD_MAGIC :: le_bytes 4 clr ++ le_bytes 4 (zlen payload) ++ payload.

(** The payload of a response: status length, status, field count, fields. *)
Definition response_payload (status : bytes) (field_cnt : Z) (fields : bytes) : bytes :=
  byte_of_Z (zlen status) :: status ++ le_bytes 2 field_cnt ++ fields.

(** A router frame around the bytes [sf] of a shard frame. *)
Definition router_frame (seg : bytes) (w : byte) (sf : bytes) : bytes :=
  ROUTER_MAGIC :: le_bytes 4 (2 + zlen seg + zlen sf)
  ++ byte_of_Z (zlen seg) :: seg ++ w :: sf.

(** What the decoder asks of the parts. *)
Definition router_wf (seg sf : bytes) : Prop :=
  zlen seg <= 255 /\ utf8_valid seg = true /\ 5 <= zlen sf
  /\ (exists r, sf = SHARD_MAGIC :: r) /\ 2 + zlen seg + zlen sf <= 16 * 1024 * 1024.

(** The bytes a reader delivers before its end of stream or first error. *)
Fixpoint stream (reader : list ReadEv) : bytes :=
  match reader with
  | RdData (x :: c) :: r => (x :: c) ++ stream r
  | _ => []
  end.

(** Reference parser of one shard frame at the front of all the bytes [t] the
    connection ever delivers: the result and the bytes left. *)
Definition parse_shard (t : bytes) : Result (Header * bytes) ProtocolError * bytes :=
  match t with
  | m :: i0 :: i1 :: i2 :: i3 :: l0 :: l1 :: l2 :: l3 :: r =>
      if negb (bool_decide (m = SHARD_MAGIC)) then (Err (MissingMagic m), t) else
      let n := le_val [l0; l1; l2; l3] in
      if zlen r <? n then (Err ShortFrame, t) else
      let payload := take (Z.to_nat n) r in
      let rest := drop (Z.to_nat n) r in
      match payload with
      | [] => (Err (ShortPayload "empty payload"), rest)
      | sl :: body =>
          match drop (Z.to_nat (u8 sl)) body with
          | f0 :: f1 :: _ =>
              (Ok (mkHeader (le_val [i0; i1; i2; i3]) sl (le_val [f0; f1]),
                   [m; i0; i1; i2; i3; l0; l1; l2; l3] ++ payload), rest)
          | _ => (Err (ShortPayload "missing field count"), rest)
          end
      end
  | _ => (Err ShortFrame, t)
  end.

(** ** Lemmas: the shard reader *)

Lemma fill_spec n reader buf :
  match fill n reader buf with
  | (true, r, b) => b ++ stream r = buf ++ stream reader /\ n <= zlen b
  | (false, _, _) => zlen (buf ++ stream reader) < n
  end.
Proof.
  revert buf. induction reader as [|[[|x c]|] r IH]; intros buf; cbn [fill stream];
    destruct (Z.ltb_spec (zlen buf) n); try (by rewrite app_nil_r); try done.
  specialize (IH (buf ++ x :: c)). destruct (fill n r (buf ++ x :: c)) as [[[] r'] b'];
    by rewrite <- app_assoc in IH.
Qed.

(** The first [9] bytes of a long enough buffer. *)
Lemma header_view (b : bytes) :
  9 <= zlen b ->
  exists m i0 i1 i2 i3 l0 l1 l2 l3 r, b = [m; i0; i1; i2; i3; l0; l1; l2; l3] ++ r.
Proof.
  intros Hb. unfold zlen in Hb.
  do 9 (destruct b as [|? b]; [simpl in Hb; lia|]). simpl. eauto 12.
Qed.

Lemma slice_take_app (a r x : bytes) n :
  0 <= n <= zlen r -> slice (a ++ r ++ x) 0 (zlen a + n) = Some (a ++ take (Z.to_nat n) r).
Proof.
  intros Hn. rewrite <- (take_drop (Z.to_nat n) r) at 1.
  rewrite <- app_assoc, app_assoc. apply slice_prefix. zl.
Qed.

(** Past the header, the reader and the reference parser take the same steps. *)
Lemma drain_body (hd r tail : bytes) m i0 i1 i2 i3 l0 l1 l2 l3 reader :
  hd = [m; i0; i1; i2; i3; l0; l1; l2; l3] ->
  let n := le_val [l0; l1; l2; l3] in
  n <= zlen r ->
  forall res, res = parse_shard (hd ++ r ++ tail) -> m = SHARD_MAGIC ->
  (full_frame ← slice (hd ++ r) 0 (9 + n);
   payload ← slice full_frame 9 (zlen full_frame);
   if bool_decide (payload = [])
   then Some (Err (ShortPayload "empty payload"), reader, drop (Z.to_nat (9 + n)) (hd ++ r)) else
   sl ← idx payload 0;
   if zlen payload <? 1 + u8 sl + 2
   then Some (Err (ShortPayload "missing field count"), reader, drop (Z.to_nat (9 + n)) (hd ++ r)) else
   fc ← slice payload (1 + u8 sl) (1 + u8 sl + 2);
   Some (Ok (mkHeader (le_val [i0; i1; i2; i3]) sl (le_val fc), full_frame), reader,
         drop (Z.to_nat (9 + n)) (hd ++ r)) : option drain_result)
  = Some (fst res, reader, drop (Z.to_nat (9 + n)) (hd ++ r))
  /\ drop (Z.to_nat (9 + n)) (hd ++ r) ++ tail = snd res.
Proof.
  intros Hhd n Hn res Hres ->.
  pose proof (le_val_range [l0; l1; l2; l3]) as [Hn0 _]. fold n in Hn0.
  assert (H9 : zlen hd = 9) by by subst hd.
  replace (9 + n) with (zlen hd + n) by lia.
  pose proof (slice_take_app hd r [] n ltac:(lia)) as Hs. rewrite !app_nil_r in Hs. rewrite Hs.
  cbn [mbind option_bind].
  rewrite zlen_app, <- (app_nil_r (take _ r)), (slice_mid hd _ []) by zl. cbn [mbind option_bind].
  rewrite app_nil_r.
  assert (Hd : drop (Z.to_nat (zlen hd + n)) (hd ++ r) = drop (Z.to_nat n) r).
  { rewrite drop_app_ge by (unfold zlen in *; lia). f_equal. unfold zlen in *. lia. }
  rewrite Hd. clear Hs Hd.
  subst hd res. cbn [app parse_shard]. fold n.
  rewrite (bool_decide_eq_true_2 (SHARD_MAGIC = SHARD_MAGIC)) by done. simpl negb. cbn [fst snd].
  destruct (Z.ltb_spec (zlen (r ++ tail)) n) as [Hlt|_]; [zl|].
  rewrite take_app_le, drop_app_le by (unfold zlen in *; lia).
  destruct (take (Z.to_nat n) r) as [|sl body] eqn:Ep.
  { rewrite bool_decide_eq_true_2 by done. done. }
  rewrite bool_decide_eq_false_2 by done.
  change (idx (sl :: body) 0) with (Some sl). cbn [mbind option_bind].
  pose proof (u8_range sl).
  destruct (drop (Z.to_nat (u8 sl)) body) as [|f0 [|f1 rest']] eqn:Ed.
  1,2: assert (length (drop (Z.to_nat (u8 sl)) body) <= 1)%nat as Hlen by (rewrite Ed; simpl; lia);
    rewrite length_drop in Hlen; destruct (Z.ltb_spec (zlen (sl :: body)) (1 + u8 sl + 2));
    [done|unfold zlen in *; simpl length in *; lia].
  assert (Hb : body = take (Z.to_nat (u8 sl)) body ++ [f0; f1] ++ rest').
  { rewrite <- (take_drop (Z.to_nat (u8 sl)) body) at 1. by rewrite Ed. }
  assert (Hl : (S (S (length rest')) = length body - Z.to_nat (u8 sl))%nat).
  { rewrite <- length_drop, Ed. done. }
  destruct (Z.ltb_spec (zlen (sl :: body)) (1 + u8 sl + 2)); [unfold zlen in *; simpl length in *; lia|].
  rewrite Hb at 1. change (sl :: take (Z.to_nat (u8 sl)) body ++ [f0; f1] ++ rest')
    with ((sl :: take (Z.to_nat (u8 sl)) body) ++ [f0; f1] ++ rest').
  rewrite slice_mid; [done| |]; rewrite zlen_cons, zlen_take; unfold zlen in *; simpl length in *; lia.
Qed.

(** The reader computes the reference parser on the delivered bytes, however
    they were cut into reads, and never panics. *)
Lemma drain_parse reader buf :
  exists r b, drain_frame_async reader buf = Some (fst (parse_shard (buf ++ stream reader)), r, b)
  /\ (is_ok (fst (parse_shard (buf ++ stream reader))) = true ->
      b ++ stream r = snd (parse_shard (buf ++ stream reader))).
Proof.
  unfold drain_frame_async. pose proof (fill_spec 9 reader buf) as Hf.
  destruct (fill 9 reader buf) as [[[] r1] b1].
  2: { simpl. set (t := buf ++ stream reader) in *. clearbody t.
    exists r1, b1. assert (parse_shard t = (Err ShortFrame, t)) as ->; [|done].
    unfold zlen in Hf. do 9 (destruct t as [|? t]; [done|]). simpl in Hf. lia. }
  destruct Hf as [Hs H9]. rewrite <- Hs. clear Hs reader buf. simpl negb. cbn [negb].
  apply header_view in H9 as (m & i0 & i1 & i2 & i3 & l0 & l1 & l2 & l3 & r & ->).
  set (hd := [m; i0; i1; i2; i3; l0; l1; l2; l3]).
  rewrite (slice_prefix hd r 9) by done. cbn [mbind option_bind].
  change (idx hd 0) with (Some m). cbn [mbind option_bind].
  destruct (bool_decide (m = SHARD_MAGIC)) eqn:Em; simpl negb.
  2: { eexists _, _. rewrite <- app_assoc. unfold hd. cbn [app parse_shard]. rewrite Em.
    simpl. split; [done|]. done. }
  change (slice hd 1 5) with (Some [i0; i1; i2; i3]).
  change (slice hd 5 9) with (Some [l0; l1; l2; l3]). cbn [mbind option_bind].
  set (n := le_val [l0; l1; l2; l3]).
  pose proof (le_val_range [l0; l1; l2; l3]) as [Hn _]. fold n in Hn.
  pose proof (fill_spec (9 + n) r1 (hd ++ r)) as Hf.
  destruct (fill (9 + n) r1 (hd ++ r)) as [[[] r2] b2]; simpl negb.
  - destruct Hf as [Hs Hb]. rewrite <- Hs.
    assert (exists q, b2 = hd ++ q) as [q ->].
    { rewrite <- app_assoc in Hs. assert (9 <= zlen b2) by lia.
      unfold zlen in *. do 9 (destruct b2 as [|? b2]; [simpl in *; lia|]).
      simpl in Hs. simplify_eq. eauto. }
    apply bool_decide_eq_true in Em. rewrite <- app_assoc.
    assert (n <= zlen q) as Hq. { rewrite zlen_app in Hb. change (zlen hd) with 9 in Hb. lia. }
    destruct (drain_body hd q (stream r2) m i0 i1 i2 i3 l0 l1 l2 l3 r2 eq_refl Hq _ eq_refl Em)
      as [He Hd].
    eexists _, _. split; [exact He|]. by intros _.
  - eexists _, _. rewrite <- app_assoc in *. unfold hd in *. cbn [app parse_shard].
    rewrite Em. simpl negb. fold n. cbn [app] in Hf.
    destruct (Z.ltb_spec (zlen (r ++ stream r1)) n) as [Hlt|Hge]; [done|].
    unfold zlen in *. simpl in Hf. lia.
Qed.

(** The reference parser on the grammar. *)
Lemma parse_shard_frame clr status cnt fields rest :
  let payload := response_payload status cnt fields in
  0 <= clr < 2 ^ 32 -> 0 <= cnt < 2 ^ 16 -> zlen status <= 255 -> zlen payload < 2 ^ 32 ->
  parse_shard (shard_frame clr payload ++ rest)
  = (Ok (mkHeader clr (byte_of_Z (zlen status)) cnt, shard_frame clr payload), rest).
Proof.
  intros payload Hc Hn Hs Hp. subst payload. set (payload := response_payload status cnt fields) in *.
  pose proof (zlen_nonneg payload). pose proof (zlen_nonneg status).
  assert (Hcl : le_val (le_bytes 4 clr) = clr) by by apply le_val_u32.
  assert (Hpl : le_val (le_bytes 4 (zlen payload)) = zlen payload) by by apply le_val_u32.
  assert (Hct : le_val (le_bytes 2 cnt) = cnt) by by apply le_val_u16.
  unfold shard_frame in *. cbn [le_bytes app] in *. cbn [parse_shard].
  rewrite (bool_decide_eq_true_2 (SHARD_MAGIC = SHARD_MAGIC)) by done. simpl negb. cbn iota.
  rewrite Hpl. destruct (Z.ltb_spec (zlen (payload ++ rest)) (zlen payload)); [zl|].
  rewrite !take_zlen_app, drop_zlen_app.
  unfold payload at 1, response_payload at 1. cbn [le_bytes app].
  rewrite u8_byte_of_Z, Z.mod_small, drop_zlen_app by lia.
  cbn [le_bytes] in Hct. by rewrite Hcl, Hct.
Qed.

Lemma shard_frame_prepend clr payload :
  zlen payload < 2 ^ 32 -> prepend_header clr payload = shard_frame clr payload.
Proof.
  intros H. unfold prepend_header, shard_frame. rewrite w32_small; [done|].
  pose proof (zlen_nonneg payload). lia.
Qed.

(** An [ERROR] reply is a shard frame of the grammar. *)
Lemma build_error_response_frame clr code :
  build_error_response clr code
  = shard_frame clr (response_payload (str_bytes "ERROR") 1
      (le_bytes 2 1 ++ [x01] ++ le_bytes 4 4 ++ le_bytes 4 3 ++ error_msg code)).
Proof.
  assert (H3 : zlen (error_msg code) = 3) by by destruct code as [|[[]|[]|]|].
  unfold build_error_response. rewrite H3. done.
Qed.

Lemma parse_error_frame clr code rest :
  0 <= clr < 2 ^ 32 ->
  let reply := shard_frame clr (response_payload (str_bytes "ERROR") 1
      (le_bytes 2 1 ++ [x01] ++ le_bytes 4 4 ++ le_bytes 4 3 ++ error_msg code)) in
  parse_shard (reply ++ rest) = (Ok (mkHeader clr x05 1, reply), rest).
Proof.
  intros Hc reply. apply parse_shard_frame; try done; try lia.
  assert (zlen (error_msg code) = 3) as H3
    by (destruct code as [|[[p|p|]|[p|p|]|]|]; reflexivity).
  assert (zlen (str_bytes "ERROR") = 5) by done. unfold response_payload. zl.
Qed.

Lemma error_frame_status clr cnt fields :
  slice (shard_frame clr (response_payload (str_bytes "ERROR") cnt fields)) 10 15
  = Some (str_bytes "ERROR").
Proof.
  unfold shard_frame, response_payload. set (n := le_bytes 4 (zlen _)).
  assert (zlen n = 4) as Hn4 by apply zlen_le_bytes. clearbody n.
  change (slice ((SHARD_MAGIC :: le_bytes 4 clr) ++ n ++ [byte_of_Z 5] ++ str_bytes "ERROR"
      ++ le_bytes 2 cnt ++ fields) 10 15 = Some (str_bytes "ERROR")).
  rewrite !app_assoc, <- 2 app_assoc. apply slice_mid; [zl|].
  change (zlen (str_bytes "ERROR")) with 5. zl.
Qed.

(** ** Lemmas: the router decoder *)

Section RouterLemmas.
Context `{Reqwest}.

(** Unfold the decoder along its guards; every slice it takes is in range. *)
Ltac decode_step :=
  match goal with
  | |- context [idx ?b ?i] =>
      let x := fresh "x" in let E := fresh "E" in
      destruct (idx_Some b i) as [x E]; [lia|]; rewrite E; cbn [mbind option_bind]
  | |- context [slice ?b ?i ?j] =>
      let x := fresh "s" in let E := fresh "S" in
      destruct (slice_Some b i j) as [x E]; [lia|lia|]; rewrite E; cbn [mbind option_bind]
  | |- context [if ?a <? ?b then _ else _] => destruct (Z.ltb_spec a b)
  | |- context [if ?a <=? ?b then _ else _] => destruct (Z.leb_spec a b)
  | |- context [bool_decide ?P] => let D := fresh "D" in destruct (bool_decide P) eqn:D; simpl negb; cbn iota
  | |- context [from_utf8 ?s] => let U := fresh "U" in destruct (from_utf8 s) eqn:U
  | s : bytes |- context [le_val ?s] =>
      lazymatch goal with H : 0 <= le_val s < _ |- _ => fail | _ => pose proof (le_val_range s) end
  | |- context [u8 ?s] =>
      lazymatch goal with H : 0 <= u8 s < _ |- _ => fail | _ => pose proof (u8_range s) end
  end.

Lemma decode_total buf : exists r, try_decode_router buf = Some r.
Proof.
  unfold try_decode_router, missing_shard_magic. repeat (cbn [mbind option_bind]; decode_step); eauto.
Qed.

(** A decoded frame is, byte for byte, a router frame of the grammar. *)
Lemma decode_sound buf fl seg w sf off c :
  try_decode_router buf = Some (Frame fl seg w sf off c) ->
  exists wb rest, buf = router_frame (str_bytes seg) wb sf ++ rest
  /\ router_wf (str_bytes seg) sf /\ w = bool_decide (wb = x01)
  /\ fl = 7 + zlen (str_bytes seg) + zlen sf /\ off = 8 + zlen (str_bytes seg)
  /\ option_map le_val (slice sf 1 5) = Some c.
Proof.
  unfold try_decode_router. repeat head_step. intros [= <- <- <- <- <- <-]. subst x4.
  revert E5. unfold missing_shard_magic. do 2 head_step. intros [= D%negb_false_iff%bool_decide_eq_true]. subst x4 x.
  apply from_utf8_Some in E3 as [U1 U2].
  pose proof (slice_slice _ _ _ _ 1 5 E8 ltac:(lia) ltac:(lia)) as Hid.
  pose proof (drop_idx _ _ _ E) as P0. pose proof (drop_slice _ _ _ _ E0) as P1.
  pose proof (drop_idx _ _ _ E1) as P5. pose proof (drop_slice _ _ _ _ E2) as P6.
  pose proof (drop_idx _ _ _ E4) as P7. pose proof (drop_slice _ _ _ _ E8) as P8.
  pose proof (drop_idx _ _ _ E5) as P9.
  apply slice_inv in E0 as (_ & _ & _ & L1), E2 as (_ & _ & _ & L2), E8 as (_ & _ & _ & L3).
  rewrite drop_0 in P0. change (0 + 1) with 1 in P0. change (5 + 1) with 6 in P5.
  assert (Hsf : exists r, x6 = SHARD_MAGIC :: r).
  { rewrite P9 in P8. destruct x6; [rewrite zlen_nil in L3; lia|]. simpl in P8. simplify_eq. eauto. }
  exists x3, (drop (Z.to_nat (5 + le_val x0)) buf). rewrite U2.
  split_and!; try done; try lia.
  - rewrite P0 at 1. rewrite P1, P5, P6, P7, P8. unfold router_frame.
    replace (2 + zlen x2 + zlen x6) with (le_val x0) by lia.
    replace (zlen x2) with (u8 x1) by lia. rewrite byte_of_Z_u8.
    replace 4%nat with (length x0) by (unfold zlen in L1; lia). rewrite le_bytes_le_val.
    simpl app. by rewrite <- !app_assoc, <- app_comm_cons, <- app_assoc.
  - pose proof (u8_range x1). unfold router_wf. split_and!; try done; lia.
  - rewrite Hid, E7. done.
Qed.

(** What the decoder reads at each offset of a buffer laid out as a frame. *)
Lemma layout_reads (L : bytes) sl seg wb sf rest buf :
  buf = ROUTER_MAGIC :: L ++ sl :: seg ++ wb :: sf ++ rest -> zlen L = 4 ->
  buf.[0] = Some ROUTER_MAGIC /\ buf.[1; 5] = Some L /\ buf.[5] = Some sl
  /\ buf.[6; 6 + zlen seg] = Some seg /\ buf.[6 + zlen seg] = Some wb
  /\ buf.[6 + zlen seg + 1; 7 + zlen seg + zlen sf] = Some sf
  /\ zlen buf = 7 + zlen seg + zlen sf + zlen rest.
Proof.
  intros -> HL. set (a := ROUTER_MAGIC :: L ++ [sl]). set (b := a ++ seg ++ [wb]).
  assert (Ha : zlen a = 6) by (unfold a; zl). assert (Hb : zlen b = 7 + zlen seg) by (unfold b; zl).
  replace (ROUTER_MAGIC :: L ++ sl :: seg ++ wb :: sf ++ rest) with (a ++ seg ++ wb :: sf ++ rest)
    by (unfold a; simpl; by rewrite <- app_assoc).
  split_and!.
  - done.
  - unfold a. simpl. rewrite <- app_assoc. apply (slice_mid [ROUTER_MAGIC]); zl.
  - unfold a. simpl. rewrite <- app_assoc. apply (idx_mid (ROUTER_MAGIC :: L)); zl.
  - apply slice_mid; lia.
  - rewrite app_assoc. apply idx_mid. zl.
  - replace (a ++ seg ++ wb :: sf ++ rest) with (b ++ sf ++ rest)
      by (unfold b; by rewrite <- !app_assoc). apply slice_mid; lia.
  - zl.
Qed.

(** The decoder accepts every router frame of the grammar at the front of the
    buffer, whatever follows it. *)
Lemma decode_complete seg wb sf rest :
  router_wf seg sf ->
  exists c, slice sf 1 5 = Some c /\
  try_decode_router (router_frame seg wb sf ++ rest)
  = Some (Frame (7 + zlen seg + zlen sf) (bytes_str seg) (bool_decide (wb = x01)) sf
      (8 + zlen seg) (le_val c)).
Proof.
  intros (Hs & Hu & Hf & [r Hr] & Ht). pose proof (zlen_nonneg seg). pose proof (zlen_nonneg rest).
  destruct (slice_Some sf 1 5) as [c Hc]; [lia|lia|]. exists c. split; [done|].
  set (L := le_bytes 4 (2 + zlen seg + zlen sf)).
  assert (HLv : le_val L = 2 + zlen seg + zlen sf) by (apply le_val_u32; lia).
  assert (Hsl : u8 (byte_of_Z (zlen seg)) = zlen seg) by (rewrite u8_byte_of_Z; apply Z.mod_small; lia).
  edestruct (layout_reads L (byte_of_Z (zlen seg)) seg wb sf rest) as (E0 & E1 & E5 & E6 & E7 & E8 & Hb);
    [done|apply zlen_le_bytes|].
  replace (router_frame seg wb sf ++ rest)
    with (ROUTER_MAGIC :: L ++ byte_of_Z (zlen seg) :: seg ++ wb :: sf ++ rest)
    by (unfold router_frame, L; simpl; by rewrite <- !app_assoc).
  revert E0 E1 E5 E6 E7 E8 Hb. generalize (ROUTER_MAGIC :: L ++ byte_of_Z (zlen seg) :: seg ++ wb :: sf ++ rest).
  intros buf E0 E1 E5 E6 E7 E8 Hb.
  pose proof (slice_slice _ _ _ _ 1 5 E8 ltac:(lia) ltac:(lia)) as Hid. rewrite Hc in Hid.
  assert (E9 : buf.[6 + zlen seg + 1] = Some SHARD_MAGIC).
  { rewrite <- (Z.add_0_r (6 + _ + 1)), <- (idx_slice _ _ _ _ 0 E8) by lia. by rewrite Hr. }
  unfold try_decode_router.
  rewrite E0, E1. cbn [mbind option_bind]. rewrite HLv, E5. cbn [mbind option_bind].
  rewrite Hsl, E6, E7. guards. rewrite (bool_decide_eq_true_2 (ROUTER_MAGIC = ROUTER_MAGIC)) by done.
  cbn [mbind option_bind negb]. unfold from_utf8. rewrite Hu. unfold missing_shard_magic. guards. rewrite E9, <- Hid.
  cbn [mbind option_bind].
  rewrite (bool_decide_eq_true_2 (SHARD_MAGIC = SHARD_MAGIC)) by done. cbn [mbind option_bind negb].
  replace (5 + (2 + zlen seg + zlen sf)) with (7 + zlen seg + zlen sf) by lia.
  rewrite E8. cbn [mbind option_bind].
  by replace (6 + zlen seg + 1 + 1) with (8 + zlen seg) by lia.
Qed.

Lemma missing_shard_magic_app buf x s n :
  0 <= s -> n <= zlen buf -> missing_shard_magic (buf ++ x) s n = missing_shard_magic buf s n.
Proof.
  intros. unfold missing_shard_magic. destruct (Z.ltb_spec n (s + 5)); [done|].
  by rewrite idx_app_l by lia.
Qed.

(** Once decided, more bytes do not change the decoder's answer. *)
Lemma decode_app buf x r :
  try_decode_router buf = Some r -> r <> NeedMore -> try_decode_router (buf ++ x) = Some r.
Proof.
  pose proof (zlen_nonneg x) as Hx.
  unfold try_decode_router. repeat head_step.
  all: intros [= <-] Hr; try done; byte_ranges.
  all: repeat match goal with
    | E : idx ?b ?i = Some _ |- context [idx (?b ++ ?x) ?i] =>
        rewrite (idx_app_l b x i) by (apply idx_inv in E; lia); rewrite E; cbn [mbind option_bind]
    | E : slice ?b ?i ?j = Some _ |- context [slice (?b ++ ?x) ?i ?j] =>
        rewrite (slice_app_l b x i j) by (apply slice_inv in E; lia); rewrite E; cbn [mbind option_bind]
    | E : from_utf8 _ = _ |- context [from_utf8 _] => rewrite E; cbn [mbind option_bind]
    | E : missing_shard_magic ?b ?s ?n = _ |- context [missing_shard_magic (?b ++ ?x) ?s ?n] =>
        rewrite (missing_shard_magic_app b x s n) by lia;
        rewrite E; cbn [mbind option_bind]
    | |- context [bool_decide (?a = ?b)] =>
        first [ rewrite (bool_decide_eq_true_2 (a = b)) by done
              | rewrite (bool_decide_eq_false_2 (a = b)) by done ]; cbn [negb]
    | |- context [zlen (_ ++ _)] => rewrite zlen_app; guards
    end; try done.
Qed.

(** The three ways the decoder starts. *)
Lemma decode_short buf : zlen buf < 5 -> try_decode_router buf = Some NeedMore.
Proof. intros. unfold try_decode_router. guards. done. Qed.

Lemma decode_bad_magic b r :
  b <> ROUTER_MAGIC -> 5 <= zlen (b :: r) ->
  try_decode_router (b :: r) = Some (Error (ParseError "bad router magic")).
Proof.
  intros Hb Hl. unfold try_decode_router. guards.
  change (idx (b :: r) 0) with (match zlen (b :: r) with Z0 => None | Zpos _ => Some b | Zneg _ => None end).
  destruct (zlen (b :: r)) eqn:E; try lia. cbn [mbind option_bind].
  by rewrite (bool_decide_eq_false_2 (b = ROUTER_MAGIC)).
Qed.

(** A frame is at least 12 bytes and lies within the buffer. *)
Lemma decode_frame_len buf fl seg w sf off c :
  try_decode_router buf = Some (Frame fl seg w sf off c) -> 12 <= fl <= zlen buf.
Proof.
  intros (wb & rest & -> & (_ & _ & Hsf & _) & _ & -> & _)%decode_sound.
  unfold router_frame. zl.
Qed.

(** The encoder of the routers stays in the grammar. *)
Lemma prepend_router_header_frame seg w clr payload :
  let s := str_bytes seg in
  zlen s <= 255 -> 11 + zlen s + zlen payload <= 16 * 1024 * 1024 ->
  prepend_router_header seg w clr payload
  = router_frame s (if w then x01 else x00) (shard_frame clr payload).
Proof.
  intros s Hs Ht. pose proof (zlen_nonneg s). pose proof (zlen_nonneg payload).
  unfold prepend_router_header. fold s.
  rewrite (w32_small (zlen s)), (w32_small (zlen payload)) by lia.
  rewrite (w32_small (9 + _)), (w32_small (1 + _ + 1)), w32_small by lia.
  replace (1 + zlen s + 1 + (9 + zlen payload)) with (2 + zlen s + zlen (shard_frame clr payload))
    by (unfold shard_frame; zl).
  done.
Qed.

(** The decoder on an encoded frame. *)
Lemma decode_encoded seg w clr payload rest :
  zlen (str_bytes seg) <= 255 -> utf8_valid (str_bytes seg) = true -> 0 <= clr < 2 ^ 32 ->
  11 + zlen (str_bytes seg) + zlen payload <= 16 * 1024 * 1024 ->
  let sent := prepend_router_header seg w clr payload in
  try_decode_router (sent ++ rest)
  = Some (Frame (zlen sent) seg w (prepend_header clr payload) (8 + zlen (str_bytes seg)) clr).
Proof.
  intros Hs Hu Hc Ht sent. pose proof (zlen_nonneg payload). pose proof (zlen_nonneg (str_bytes seg)).
  subst sent. rewrite prepend_router_header_frame, shard_frame_prepend by lia.
  set (sf := shard_frame clr payload). set (wb := if w then x01 else x00).
  assert (Hsf : zlen sf = 9 + zlen payload) by (unfold sf, shard_frame; zl).
  destruct (decode_complete (str_bytes seg) wb sf rest) as (c & Hcl & ->).
  { unfold router_wf. split_and!; [done|done|lia|by eexists|lia]. }
  assert (slice sf 1 5 = Some (le_bytes 4 clr)) as Hc'.
  { change sf with ([SHARD_MAGIC] ++ le_bytes 4 clr ++ le_bytes 4 (zlen payload) ++ payload).
    apply slice_mid; zl. }
  assert (c = le_bytes 4 clr) as -> by congruence. rewrite le_val_u32, bytes_str_str_bytes by done.
  replace (zlen (router_frame _ _ _)) with (7 + zlen (str_bytes seg) + zlen sf)
    by (unfold router_frame; zl).
  by destruct w.
Qed.

End RouterLemmas.

(** ** Properties *)

Section Properties.
Context `{Reqwest}.

(** C15. [try_decode_router] accepts exactly the router frames of the grammar
    at the front of its buffer and returns their parts: it yields a frame if
    and only if the buffer starts with the encoding of a UTF-8 segment of at
    most 255 bytes, a write flag and at least five bytes of a shard frame
    (0xFF first), of at most 16 MiB; the reported length is that of the
    encoding, the shard frame is returned unchanged, and the correlation id is
    its bytes 1 to 4. *)
Theorem try_decode_router_frame_iff buf fl seg w sf off c :
  try_decode_router buf = Some (Frame fl seg w sf off c)
  <-> exists wb rest, buf = router_frame (str_bytes seg) wb sf ++ rest
      /\ router_wf (str_bytes seg) sf /\ w = bool_decide (wb = x01)
      /\ fl = zlen (router_frame (str_bytes seg) wb sf) /\ off = 8 + zlen (str_bytes seg)
      /\ option_map le_val (slice sf 1 5) = Some c.
Proof.
  assert (Hlen : forall wb, zlen (router_frame (str_bytes seg) wb sf) = 7 + zlen (str_bytes seg) + zlen sf)
    by (intros; unfold router_frame; zl).
  split.
  - intros (wb & rest & Hb & Hw & Hd & Hf & Ho & Hc)%decode_sound. exists wb, rest.
    by rewrite Hlen.
  - intros (wb & rest & -> & Hw & -> & -> & -> & Hc).
    destruct (decode_complete (str_bytes seg) wb sf rest Hw) as (c' & Hc' & ->).
    rewrite Hc' in Hc. injection Hc as <-. by rewrite Hlen, bytes_str_str_bytes.
Qed.

(** C33. [try_decode_router] never panics (every index and slice it takes is in
    range, on any input), and its answer is final: once it is not [NeedMore],
    bytes that arrive later do not change it. *)
Theorem try_decode_router_total_stable buf :
  exists r, try_decode_router buf = Some r
  /\ forall more, r <> NeedMore -> try_decode_router (buf ++ more) = Some r.
Proof.
  destruct (decode_total buf) as [r Hr]. exists r. split; [done|].
  intros. by apply decode_app.
Qed.

(** C34. What a router encodes with [prepend_router_header], the bridge decodes:
    segment, write flag, shard frame (as [prepend_header] builds it) and
    correlation id come back, and the frame length is the number of bytes
    sent. *)
Theorem router_roundtrip seg w clr payload rest :
  zlen (str_bytes seg) <= 255 -> utf8_valid (str_bytes seg) = true -> 0 <= clr < 2 ^ 32 ->
  11 + zlen (str_bytes seg) + zlen payload <= 16 * 1024 * 1024 ->
  let sent := prepend_router_header seg w clr payload in
  try_decode_router (sent ++ rest)
  = Some (Frame (zlen sent) seg w (prepend_header clr payload) (8 + zlen (str_bytes seg)) clr).
Proof. intros. by apply decode_encoded. Qed.

(** C17. [drain_frame_async] does not depend on how the peer's bytes are cut
    into reads: it never panics, its result is that of the reference parser
    [parse_shard] on all the bytes the connection delivers, and after a frame
    it leaves exactly the bytes that follow it, in the buffer and the reader. *)
Theorem drain_frame_chunking reader buf :
  exists r b, drain_frame_async reader buf = Some (fst (parse_shard (buf ++ stream reader)), r, b)
  /\ (is_ok (fst (parse_shard (buf ++ stream reader))) = true ->
      b ++ stream r = snd (parse_shard (buf ++ stream reader))).
Proof. exact (drain_parse reader buf). Qed.

(** C35. A response encoded with [prepend_header] (status, field count and
    fields) that arrives in any number of reads is returned whole by
    [drain_frame_async], with its correlation id, status length and field
    count, and the next call starts at the byte after it. *)
Theorem drain_frame_roundtrip reader buf clr status cnt fields rest :
  let frame := prepend_header clr (response_payload status cnt fields) in
  0 <= clr < 2 ^ 32 -> 0 <= cnt < 2 ^ 16 -> zlen status <= 255 ->
  zlen (response_payload status cnt fields) < 2 ^ 32 ->
  buf ++ stream reader = frame ++ rest ->
  exists r b, drain_frame_async reader buf
    = Some (Ok (mkHeader clr (byte_of_Z (zlen status)) cnt, frame), r, b)
  /\ b ++ stream r = rest.
Proof.
  intros frame Hc Hn Hs Hp Hb. destruct (drain_parse reader buf) as (r & b & Hd & Hr).
  revert Hd Hr. rewrite Hb. unfold frame. rewrite shard_frame_prepend, parse_shard_frame by done.
  intros Hd Hr. exists r, b. auto.
Qed.

(** The error reply the bridge sends for a failed request is one complete
    shard frame: the peer's reader returns it whole with the client's own
    correlation id, status length 5 and one field, and its status is
    [ERROR]. *)
Theorem build_error_response_parses clr code rest :
  0 <= clr < 2 ^ 32 ->
  let reply := build_error_response clr code in
  parse_shard (reply ++ rest) = (Ok (mkHeader clr x05 1, reply), rest)
  /\ slice reply 10 15 = Some (str_bytes "ERROR").
Proof.
  intros Hc reply. unfold reply. rewrite build_error_response_frame. split.
  - by apply parse_error_frame.
  - apply error_frame_status.
Qed.

(** The field of an error reply does not decode as the protocol's fields
    do: its declared length is four, so a field reader takes the four bytes of
    the message length as the field's data and leaves the three bytes of the
    message (such as 500) behind as trailing bytes, which a decoder that
    checks for trailing data rejects. *)
Theorem error_reply_field_trailing clr code :
  let payload := drop 9 (build_error_response clr code) in
  read_field payload 8 = Ok (Some (1, x01, le_bytes 4 3, 19))
  /\ slice payload 19 (zlen payload) = Some (error_msg code) /\ zlen payload = 22.
Proof.
  unfold build_error_response. set (m := error_msg code).
  assert (exists a b c, m = [a; b; c]) as (a & b & c & ->)
    by (unfold m; destruct code as [|[[p|p|]|[p|p|]|]|]; repeat eexists).
  done.
Qed.

End Properties.

(** ** Witnesses *)

#[local] Existing Instance reqwest_text.

Lemma router_roundtrip_witness :
  try_decode_router (prepend_router_header "segment_1" true 7 (str_bytes "SET") ++ [xfe])
  = Some (Frame 28 "segment_1" true (prepend_header 7 (str_bytes "SET")) 17 7).
Proof.
  exact (router_roundtrip "segment_1" true 7 (str_bytes "SET") [xfe]
    ltac:(vm_compute; discriminate) eq_refl ltac:(lia) ltac:(vm_compute; discriminate)).
Defined.

Lemma drain_frame_roundtrip_witness :
  exists r b, drain_frame_async
    [RdData [xff; x07]; RdData [x00; x00; x00; x0a; x00; x00]; RdData [x00; x07; x53; x55; x43; x43];
     RdData [x45; x53; x53; x00; x00; xff; x09]] []
  = Some (Ok (mkHeader 7 x07 0, prepend_header 7 (response_payload (str_bytes "SUCCESS") 0 [])), r, b)
  /\ b ++ stream r = [xff; x09].
Proof.
  apply (drain_frame_roundtrip _ [] 7 (str_bytes "SUCCESS") 0 [] [xff; x09]);
    [lia|lia|vm_compute; discriminate|reflexivity|reflexivity].
Defined.

Lemma build_error_response_parses_witness :
  parse_shard (build_error_response 77 4 ++ [])
  = (Ok (mkHeader 77 x05 1, build_error_response 77 4), [])
  /\ slice (build_error_response 77 4) 10 15 = Some (str_bytes "ERROR").
Proof. exact (build_error_response_parses 77 4 [] ltac:(lia)). Defined.

