(* ===== verification/Config.v ===== *)
(** * [config.rs] and [metrics.rs]: configuration and counters

    The command-line configuration with its defaults and derived values, and
    the counters of [BridgeMetrics].  Parsing the command line is clap's; the
    number of physical cores ([num_cpus::get_physical]) is a parameter. *)

From S2P Require Import Prelude RustStd.
Local Open Scope Z_scope.

Record Config := mkConfig {
  zone_id : string;
  shard_id : string;
  bridge_id : string;
  rzid_addr : string;
  rzpoint_addr : string;
  roomzin_api_port : Z;               (* u16 *)
  roomzin_tcp_port : Z;               (* u16 *)
  rzid_heartbeat_interval_secs : Z;   (* u64 *)
  listen_host : string;
  listen_port : Z;                    (* u16 *)
  api_listening_addr : string;
  conn_per_roomzin_node : Z;          (* usize *)
  max_active_conns : Z;               (* usize *)
  max_connections : Z;                (* usize *)
  timeout_sec : Z;                    (* u64 *)
  http_timeout_sec : Z;               (* u64 *)
  keep_alive_sec : Z;                 (* u64 *)
  node_probe_interval_sec : Z;        (* u64 *)
  worker_threads : Z;                 (* usize *)
  frame_timeout_secs : Z;             (* u64 *)
  idle_timeout_secs : Z;              (* u64 *)
  max_buffer_size : Z;                (* usize *)
  max_frame_size : Z                  (* usize *)
}.

(** The [default_value]s; the five identifiers are required. *)
Definition default_config (zone shard bridge rzid rzpoint : string) : Config := {|
  zone_id := zone; shard_id := shard; bridge_id := bridge;
  rzid_addr := rzid; rzpoint_addr := rzpoint;
  roomzin_api_port := 8080; roomzin_tcp_port := 7777;
  rzid_heartbeat_interval_secs := 10;
  listen_host := "0.0.0.0"; listen_port := 9000;
  api_listening_addr := "0.0.0.0:9100";
  conn_per_roomzin_node := 1; max_active_conns := 10000; max_connections := 10000;
  timeout_sec := 2; http_timeout_sec := 2; keep_alive_sec := 15;
  node_probe_interval_sec := 2; worker_threads := 0;
  frame_timeout_secs := 20; idle_timeout_secs := 90;
  max_buffer_size := 262144; max_frame_size := 16384
|}.

(** The defaults with [n] connections per node, for concrete runs. *)
Definition sample_config (n : Z) : Config :=
  let c := default_config "zone1" "shard1" "bridge-1" "rzid" "rzpoint" in
  mkConfig (zone_id c) (shard_id c) (bridge_id c) (rzid_addr c) (rzpoint_addr c)
    (roomzin_api_port c) (roomzin_tcp_port c) (rzid_heartbeat_interval_secs c)
    (listen_host c) (listen_port c) (api_listening_addr c) n (max_active_conns c)
    (max_connections c) (timeout_sec c) (http_timeout_sec c) (keep_alive_sec c)
    (node_probe_interval_sec c) (worker_threads c) (frame_timeout_secs c)
    (idle_timeout_secs c) (max_buffer_size c) (max_frame_size c).

Definition listen_addr (c : Config) : string :=
  listen_host c +:+ ":" +:+ fmt_dec (listen_port c).

Definition effective_workers (get_physical : Z) (c : Config) : Z :=
  if worker_threads c =? 0 then Z.max get_physical 1 * 3 else worker_threads c.

Definition frame_timeout (c : Config) : Duration := from_secs (frame_timeout_secs c).
Definition idle_timeout (c : Config) : Duration := from_secs (idle_timeout_secs c).

(** ** The counters of [BridgeMetrics] *)

Inductive Counter :=
| connections_opened | connections_closed
| frames_received | frames_executed | bytes_received | bytes_sent
| keepalives_received
| client_errors | execute_errors | timeouts | resyncs.

#[export] Instance Counter_eq_dec : EqDecision Counter.
Proof. solve_decision. Defined.

(** The name under which [BridgeMetrics::new] registers each counter. *)
Definition counter_name (c : Counter) : string :=
  match c with
  | connections_opened => "rzbridge_connections_opened_total"
  | connections_closed => "rzbridge_connections_closed_total"
  | frames_received => "rzbridge_frames_received_total"
  | frames_executed => "rzbridge_frames_executed_total"
  | bytes_received => "rzbridge_bytes_received_total"
  | bytes_sent => "rzbridge_bytes_sent_total"
  | keepalives_received => "rzbridge_keepalives_received_total"
  | client_errors => "rzbridge_client_errors_total"
  | execute_errors => "rzbridge_execute_errors_total"
  | timeouts => "rzbridge_timeouts_total"
  | resyncs => "rzbridge_resyncs_total"
  end.

(** The runtime always has at least one worker thread. *)
Lemma effective_workers_pos cores c :
  0 <= worker_threads c -> 1 <= effective_workers cores c.
Proof. unfold effective_workers. intros. zcase; lia. Qed.

Example listen_addr_default :
  listen_addr (default_config "zone1" "shard1" "bridge-1" "" "") = "0.0.0.0:9000".
Proof. reflexivity. Qed.

Lemma counter_name_inj a b : counter_name a = counter_name b -> a = b.
Proof. by destruct a, b. Qed.
