(* ===== verification/Demux.v ===== *)
(** * [demux.rs]: the correlation map of a connection

    [DemuxMap] maps a correlation id to the sender half of the oneshot channel
    of the waiting request and to the time it was sent.  A sender is named by
    the number of its channel.  The lock makes each operation atomic. *)

From S2P Require Import Prelude.
Local Open Scope Z_scope.

(** [oneshot::Sender<Bytes>], by channel number. *)
Abbreviation Sender := nat (only parsing).

Abbreviation DemuxMap := (gmap Z (nat * Z)) (only parsing).

Definition demux_new : DemuxMap := ∅.

(** [store]: the new map, and the sender that [insert] replaced and dropped. *)
Definition store (m : DemuxMap) (corr_id : Z) (tx : Sender) (sent_at : Instant)
    : DemuxMap * option Sender :=
  (<[corr_id := (tx, sent_at)]> m, fst <$> m !! corr_id).

Definition load_remove (m : DemuxMap) (corr_id : Z) : option (Sender * Instant) * DemuxMap :=
  (m !! corr_id, delete corr_id m).

Section Cleanup.
Context {HI : HashIter Z (nat * Z)}.

(** The ids whose entry is older than the threshold, in iteration order. *)
Definition timed_out_ids (threshold : Instant) (m : DemuxMap) : list Z :=
  map fst (List.filter (fun e => snd (snd e) <? threshold) (hiter m)).

(** [for id in timed_out { if let Some((tx, _)) = map.remove(&id) { tx.send(Bytes::new()) } }]:
    the map and the senders that were sent the empty response. *)
Fixpoint expire (ids : list Z) (m : DemuxMap) : DemuxMap * list Sender :=
  match ids with
  | [] => (m, [])
  | id :: r =>
      match m !! id with
      | Some (tx, _) =>
          let '(m', sent) := expire r (delete id m) in (m', tx :: sent)
      | None => expire r m
      end
  end.

Definition cleanup (now : Instant) (max_age : Duration) (m : DemuxMap) : option (DemuxMap * list Sender) :=
  threshold ← instant_sub now max_age;
  Some (expire (timed_out_ids threshold m) m).

(** ** Lemmas *)

Lemma timed_out_ids_spec t (m : DemuxMap) k :
  k ∈ timed_out_ids t m <-> exists tx at_, m !! k = Some (tx, at_) /\ at_ < t.
Proof.
  unfold timed_out_ids. rewrite list_elem_of_In, in_map_iff. split.
  - intros ([k' [tx at_]] & <- & [Hin Hlt]%filter_In). apply list_elem_of_In, hiter_lookup in Hin.
    simpl in *. zbool. eauto.
  - intros (tx & at_ & Hm & Hlt). exists (k, (tx, at_)). split; [done|].
    apply filter_In. rewrite <- list_elem_of_In, hiter_lookup. split; [done|]. simpl. lia.
Qed.

Lemma expire_lookup ids m k :
  fst (expire ids m) !! k = if decide (k ∈ ids) then None else m !! k.
Proof.
  revert m. induction ids as [|i r IH]; intros m; simpl.
  { done. }
  destruct (m !! i) as [[tx t]|] eqn:Ei.
  - specialize (IH (delete i m)). destruct (expire r (delete i m)) as [m' s]. simpl in *.
    rewrite IH. destruct (decide (k = i)) as [->|].
    + rewrite lookup_delete_eq. repeat case_decide; set_solver.
    + rewrite lookup_delete_ne by done. repeat case_decide; set_solver.
  - rewrite IH. destruct (decide (k = i)) as [->|]; [|repeat case_decide; set_solver].
    rewrite Ei. by repeat case_decide.
Qed.

Lemma expire_sent ids m tx :
  tx ∈ snd (expire ids m) <-> exists k t, k ∈ ids /\ m !! k = Some (tx, t).
Proof.
  revert m. induction ids as [|i r IH]; intros m; simpl.
  { split; [by intros ?%not_elem_of_nil|]. intros (? & ? & []%not_elem_of_nil & _). }
  destruct (m !! i) as [[tx' t']|] eqn:Ei.
  - specialize (IH (delete i m)). destruct (expire r (delete i m)) as [m' s]. simpl in *.
    rewrite elem_of_cons, IH. split.
    + intros [->|(k & t & Hk & Hm)]; [exists i, t'; set_solver|].
      apply lookup_delete_Some in Hm as [Hne Hm]. exists k, t. set_solver.
    + intros (k & t & Hk & Hm). destruct (decide (k = i)) as [->|]; [left; congruence|].
      right. exists k, t. rewrite lookup_delete_ne by done. set_solver.
  - rewrite IH. split; intros (k & t & Hk & Hm); exists k, t; set_solver.
Qed.

(** It panics when the threshold is not an [Instant]. *)
Lemma cleanup_Some now age (m : DemuxMap) x :
  cleanup now age m = Some x ->
  instant_sub now age = Some (now - age) /\ x = expire (timed_out_ids (now - age) m) m.
Proof.
  unfold cleanup, instant_sub. destruct (_ <=? _); [|done]. cbn [mbind option_bind]. by intros [= <-].
Qed.

Lemma cleanup_None now age (m : DemuxMap) : cleanup now age m = None <-> instant_sub now age = None.
Proof. unfold cleanup. by destruct (instant_sub now age). Qed.

Lemma cleanup_lookup now age (m m' : DemuxMap) sent k :
  cleanup now age m = Some (m', sent) ->
  m' !! k = match m !! k with Some (tx, t) => if t <? now - age then None else Some (tx, t) | None => None end.
Proof.
  intros [_ Hx]%cleanup_Some. change m' with (fst (m', sent)). rewrite Hx, expire_lookup. case_decide as Hin; rewrite timed_out_ids_spec in Hin.
  - destruct Hin as (tx & t & -> & Ht). by zcase; [|lia].
  - destruct (m !! k) as [[tx t]|] eqn:E; [|done].
    zcase; [|done]. destruct Hin. eauto.
Qed.

Lemma cleanup_sent now age (m m' : DemuxMap) sent tx :
  cleanup now age m = Some (m', sent) ->
  tx ∈ sent <-> exists k t, m !! k = Some (tx, t) /\ t < now - age.
Proof.
  intros [_ Hx]%cleanup_Some. change sent with (snd (m', sent)). rewrite Hx, expire_sent. setoid_rewrite timed_out_ids_spec. split.
  - intros (k & t & (tx' & t' & Hm & Hlt) & Hm'). simplify_eq. eauto.
  - intros (k & t & Hm & Hlt). exists k, t. eauto.
Qed.

(** Over distinct keys of the map, [expire] sends to each sender once, in order. *)
Lemma expire_entries (l : list (Z * (nat * Z))) m :
  NoDup l.*1 -> Forall (fun e => m !! fst e = Some (snd e)) l ->
  snd (expire (map fst l) m) = map (fun e => fst (snd e)) l.
Proof.
  revert m. induction l as [|[k [tx t]] l IH]; intros m Hnd Hall; [done|].
  apply NoDup_cons in Hnd as [Hk Hnd]. apply Forall_cons in Hall as [Hm Hall].
  simpl in *. rewrite Hm. specialize (IH (delete k m) Hnd).
  destruct (expire (map fst l) (delete k m)) as [m' s]. simpl in *. f_equal. apply IH.
  apply Forall_forall. intros [k' v] Hin. simpl. rewrite lookup_delete_ne.
  - by apply (proj1 (Forall_forall _ _) Hall) in Hin.
  - intros ->. apply Hk. apply list_elem_of_fmap. eexists; split; [|done]. done.
Qed.

Lemma filter_fst_NoDup {A} (f : Z * A -> bool) l : NoDup l.*1 -> NoDup (List.filter f l).*1.
Proof.
  induction l as [|[k v] l IH]; simpl; [done|]. intros [Hk Hnd]%NoDup_cons.
  destruct (f (k, v)); simpl; [|auto]. apply NoDup_cons. split; [|auto].
  intros Hin. apply Hk. apply list_elem_of_fmap in Hin as ([k' v'] & -> & Hin).
  apply list_elem_of_In, filter_In in Hin as [Hin _]. apply list_elem_of_fmap.
  exists (k', v'). split; [done|]. by apply list_elem_of_In.
Qed.

(** [cleanup] panics exactly when [now - max_age] is not representable; else it
    removes exactly the entries sent before it and leaves the others as they are;
    each removed request is sent the empty response exactly once and nobody else
    is sent anything, whatever the iteration order of the map. *)
Theorem cleanup_spec now max_age (m : DemuxMap) :
  match cleanup now max_age m with None => instant_sub now max_age = None | Some (m', sent) =>
  let expired := fun e : Z * (nat * Z) => snd (snd e) <? now - max_age in
  (forall k, m' !! k = match m !! k with
     | Some (tx, t) => if t <? now - max_age then None else Some (tx, t)
     | None => None end)
  /\ sent ≡ₚ map (fun e => fst (snd e)) (List.filter expired (map_to_list m))
  end.
Proof.
  destruct (cleanup now max_age m) as [[m' sent]|] eqn:Ec; [|by apply cleanup_None in Ec].
  pose proof (fun k => cleanup_lookup _ _ _ _ _ k Ec) as Hl. apply cleanup_Some in Ec as [_ Hx].
  assert (Hs : snd (expire (timed_out_ids (now - max_age) m) m)
    = map (fun e => fst (snd e)) (List.filter (fun e => snd (snd e) <? now - max_age) (hiter m))).
  { apply expire_entries.
    - apply filter_fst_NoDup. rewrite hiter_perm. apply NoDup_fst_map_to_list.
    - apply Forall_forall. intros [k v] Hin. apply list_elem_of_In, filter_In in Hin as [Hin _].
      by apply hiter_lookup, list_elem_of_In. }
  rewrite <- Hx in Hs. split; [exact Hl|]. simpl in Hs. rewrite Hs.
  apply Permutation_map, Permutation_List_filter, hiter_perm.
Qed.

End Cleanup.
