(* ===== verification/Connection.v ===== *)
(** * [connection.rs]: a connection to a roomzin node

    A [Connection] is a shared reference ([Arc]) to a [ConnectionInner]; the
    [Store] maps references to their contents, so that a flag or a map changed
    through one reference is seen through all.  The store also holds the
    oneshot channels of the waiting requests and the clock.

    [connect] spawns a write loop and a read loop over the socket: their
    iterations are [write_loop_step] and [read_loop_step], and [read_loop] runs
    the read loop over everything the peer sends. *)

From S2P Require Import Prelude RustStd Error Config Protocol Demux.
Local Open Scope Z_scope.

(** ** State *)

Record ConnectionInner := mkConn {
  addr : string;
  demux : gmap Z (nat * Z);
  send_q : list bytes;     (* frames in the mpsc channel, oldest first *)
  send_cap : Z;            (* its capacity *)
  rx_alive : bool;         (* the write loop still holds the receiver *)
  corr_id : Z;             (* AtomicU32 *)
  closed : bool
}.

(** A oneshot channel as its receiver sees it. *)
Inductive Oneshot :=
| Empty
| Value (b : bytes)
| SenderDropped.

Abbreviation ConnRef := nat (only parsing).

Record Store := mkStore {
  conns : gmap nat ConnectionInner;
  shots : gmap nat Oneshot;
  next_conn : nat;
  next_shot : nat;
  ticks : nat
}.

Definition empty_store : Store := mkStore ∅ ∅ 0 0 0.

Definition set_conns (st : Store) c := mkStore c (shots st) (next_conn st) (next_shot st) (ticks st).
Definition set_shots (st : Store) s := mkStore (conns st) s (next_conn st) (next_shot st) (ticks st).

Definition set_demux (c : ConnectionInner) d :=
  mkConn (addr c) d (send_q c) (send_cap c) (rx_alive c) (corr_id c) (closed c).
Definition set_closed (c : ConnectionInner) b :=
  mkConn (addr c) (demux c) (send_q c) (send_cap c) (rx_alive c) (corr_id c) b.
Definition set_corr_id (c : ConnectionInner) i :=
  mkConn (addr c) (demux c) (send_q c) (send_cap c) (rx_alive c) i (closed c).
Definition set_queue (c : ConnectionInner) q alive :=
  mkConn (addr c) (demux c) q (send_cap c) alive (corr_id c) (closed c).

(** Apply [f] to the contents of a reference. *)
Definition on_conn (r : ConnRef) (f : ConnectionInner -> ConnectionInner) (st : Store) : Store :=
  set_conns st (alter f r (conns st)).

(** [tx.send(v)]: a sender is consumed by its only use. *)
Definition shot_send (v : bytes) (o : Oneshot) : Oneshot :=
  match o with Empty => Value v | _ => o end.
Definition shot_drop (o : Oneshot) : Oneshot :=
  match o with Empty => SenderDropped | _ => o end.

Definition send_shot (s : nat) (v : bytes) (st : Store) : Store :=
  set_shots st (alter (shot_send v) s (shots st)).
Definition drop_shot (s : nat) (st : Store) : Store :=
  set_shots st (alter shot_drop s (shots st)).

(** [oneshot::channel()]: the number of the new channel. *)
Definition oneshot_channel (st : Store) : nat * Store :=
  (next_shot st,
   mkStore (conns st) (<[next_shot st := Empty]> (shots st)) (next_conn st) (S (next_shot st)) (ticks st)).

(** ** Operations of [Connection] *)

(** [Connection::connect] after [TcpStream::connect] succeeded. *)
Definition new_inner (host : string) (cfg : Config) : ConnectionInner :=
  {| addr := host; demux := demux_new; send_q := []; send_cap := Z.max (max_active_conns cfg) 2048;
     rx_alive := true; corr_id := 1; closed := false |}.

(** [tcp] is what [TcpStream::connect((host, port))] returned. *)
Definition connect `{Reqwest} (host : string) (cfg : Config) (tcp : Result unit io_Error) (st : Store)
    : Result nat RZError * Store :=
  match tcp with
  | Err e => (Err (Io e), st)
  | Ok _ =>
      (Ok (next_conn st),
       mkStore (<[next_conn st := new_inner host cfg]> (conns st)) (shots st)
         (S (next_conn st)) (next_shot st) (ticks st))
  end.

(** [corr_id.fetch_add(1)] wraps at [2^32]. *)
Definition next_corr_id (r : ConnRef) (st : Store) : option (Z * Store) :=
  c ← conns st !! r;
  Some (corr_id c, on_conn r (fun c => set_corr_id c (w32 (corr_id c + 1))) st).

(** A bounded channel: refused once the receiver is gone, pending while full. *)
Inductive SendResult := Sent | SendErr | SendPending.

Definition send_raw (r : ConnRef) (frame : bytes) (st : Store) : option (SendResult * Store) :=
  c ← conns st !! r;
  Some (if negb (rx_alive c) then (SendErr, st)
        else if send_cap c <=? zlen (send_q c) then (SendPending, st)
        else (Sent, on_conn r (fun c => set_queue c (send_q c ++ [frame]) true) st)).

Definition send (r : ConnRef) (corr : Z) (payload : bytes) (st : Store) : option (SendResult * Store) :=
  send_raw r (prepend_header corr payload) st.

Definition is_closed (r : ConnRef) (st : Store) : bool :=
  match conns st !! r with Some c => closed c | None => true end.

Definition close (r : ConnRef) (st : Store) : Store := on_conn r (fun c => set_closed c true) st.

(** [c.inner.demux.store(..)]: a replaced sender is dropped. *)
Definition demux_store (r : ConnRef) (corr : Z) (tx : nat) (now : Instant) (st : Store) : Store :=
  match conns st !! r with
  | None => st
  | Some c =>
      let '(d, old) := store (demux c) corr tx now in
      let st := on_conn r (fun c => set_demux c d) st in
      match old with Some s => drop_shot s st | None => st end
  end.

Section Clock.
(** [clock n] is what the [n]th call of [Instant::now()] returns. *)
Context (clock : nat -> Z).

Definition instant_now (st : Store) : Instant * Store :=
  (clock (ticks st), mkStore (conns st) (shots st) (next_conn st) (next_shot st) (S (ticks st))).

(** [c.inner.demux.cleanup(max_age)] *)
Definition demux_cleanup {HI : HashIter Z (nat * Z)} (r : ConnRef) (max_age : Duration) (st : Store) : option Store :=
  match conns st !! r with
  | None => Some st
  | Some c =>
      let '(now, st) := instant_now st in
      '(d, sent) ← cleanup now max_age (demux c);
      Some (foldl (fun st s => send_shot s [] st) (on_conn r (fun c => set_demux c d) st) sent)
  end.

End Clock.

(** ** The write loop

    One received frame; [ok] is whether [write_all] and [flush] succeeded.  On
    a failure the loop ends: the receiver is dropped with the frames in it and
    the connection is marked closed. *)
Definition write_loop_step (ok : bool) (c : ConnectionInner) : option (bytes * ConnectionInner) :=
  if negb (rx_alive c) then None else
  match send_q c with
  | [] => None
  | frame :: q =>
      Some (frame, if ok then set_queue c q true else set_closed (set_queue c [] false) true)
  end.

(** ** The read loop *)

Definition closing_code (code : string) : bool :=
  bool_decide (code = "308") || bool_decide (code = "405") || bool_decide (code = "503").

(** The "special error handling" of a frame: whether to close.  [payload] is
    the second component of what [drain_frame_async] returned. *)
Definition should_close (hdr : Header) (payload : bytes) : option bool :=
  let field_data_start := 1 + u8 (status_len hdr) + 2 in
  if zlen payload <? field_data_start then Some false else
  status ← payload.[1; 1 + u8 (status_len hdr)];
  if negb (bool_decide (status = str_bytes "ERROR")) then Some false else
  code ← payload.[field_data_start; field_data_start + 3];
  Some (match from_utf8 code with Some c => closing_code c | None => false end).

(** One iteration after a frame was read: whether the loop goes on, the
    connection, and the response delivered to a waiting request. *)
Definition read_loop_step (hdr : Header) (payload : bytes) (c : ConnectionInner)
    : option (bool * ConnectionInner * option (nat * bytes)) :=
  let '(found, d) := load_remove (demux c) (clr_id hdr) in
  match found with
  | None => Some (false, set_closed c true, None)
  | Some (tx, _) =>
      let c := set_demux c d in
      stop ← should_close hdr payload;
      Some (negb stop, if (stop : bool) then set_closed c true else c, Some (tx, payload))
  end.

(** The loop over all the peer sends, [fuel] frames at most: the responses
    delivered, the connection, and whether the loop ended. *)
Fixpoint read_loop (fuel : nat) (reader : list ReadEv) (buf : bytes) (c : ConnectionInner)
    : option (list (nat * bytes) * ConnectionInner * bool) :=
  match fuel with
  | O => Some ([], c, false)
  | S k =>
      '(res, reader, buf) ← drain_frame_async reader buf;
      match res with
      | Err _ => Some ([], set_closed c true, true)
      | Ok (hdr, payload) =>
          '(go, c, out) ← read_loop_step hdr payload c;
          if negb go then Some (option_list out, c, true) else
          '(outs, c, ended) ← read_loop k reader buf c;
          Some (option_list out ++ outs, c, ended)
      end
  end.

(** [n] correlation ids taken one after the other. *)
Fixpoint take_corr_ids (n : nat) (r : ConnRef) (st : Store) : option (list Z) :=
  match n with
  | O => Some []
  | S k => '(i, st) ← next_corr_id r st; ids ← take_corr_ids k r st; Some (i :: ids)
  end.

(** ** Lemmas: frames the reader returns *)

(** A returned frame is the nine header bytes followed by a payload that holds
    its status and field count. *)
Lemma parse_shard_Ok t hdr frame rest :
  parse_shard t = (Ok (hdr, frame), rest) ->
  t = frame ++ rest /\ 12 + u8 (status_len hdr) <= zlen frame
  /\ (exists p, idx frame 9 = Some (status_len hdr) /\ frame = SHARD_MAGIC :: le_bytes 4 (clr_id hdr) ++ p).
Proof.
  unfold parse_shard. do 9 (destruct t as [|? t]; [done|]). cbv zeta.
  set (n := le_val [b4; b5; b6; b7]). pose proof (le_val_range [b4; b5; b6; b7]) as [Hn _]. fold n in Hn.
  destruct (bool_decide_reflect (b = SHARD_MAGIC)) as [->|]; simpl negb; [|done]. cbn iota.
  destruct (Z.ltb_spec (zlen t) n) as [|Hge]; [done|].
  destruct (take (Z.to_nat n) t) as [|sl body] eqn:Et; [done|].
  destruct (drop (Z.to_nat (u8 sl)) body) as [|f0 [|f1 q]] eqn:Ed; try done.
  intros [= <- <- <-]. cbn [status_len clr_id].
  assert (Ht : t = (sl :: body) ++ drop (Z.to_nat n) t) by (by rewrite <- Et, take_drop).
  assert (Hl : (2 <= length body - Z.to_nat (u8 sl))%nat) by (rewrite <- length_drop, Ed; simpl; lia).
  pose proof (u8_range sl). split_and!.
  - rewrite Ht at 1. done.
  - unfold zlen. simpl length. lia.
  - exists (b4 :: b5 :: b6 :: b7 :: sl :: body). split.
    { by apply (idx_mid [SHARD_MAGIC; b0; b1; b2; b3; b4; b5; b6; b7]). }
    change 4%nat with (length [b0; b1; b2; b3]). by rewrite le_bytes_le_val.
Qed.

Lemma drain_Ok reader buf hdr frame r b :
  drain_frame_async reader buf = Some (Ok (hdr, frame), r, b) ->
  buf ++ stream reader = frame ++ (b ++ stream r) /\ 12 + u8 (status_len hdr) <= zlen frame
  /\ idx frame 9 = Some (status_len hdr).
Proof.
  destruct (drain_parse reader buf) as (r' & b' & -> & Hrest).
  destruct (parse_shard (buf ++ stream reader)) as [res rest] eqn:Ep. simpl in *.
  intros [= -> -> ->]. specialize (Hrest eq_refl).
  apply parse_shard_Ok in Ep as (-> & ? & ? & ? & ?). by rewrite Hrest.
Qed.

(** The slices of the error detection are in range for every returned frame. *)
Lemma should_close_total hdr frame :
  12 + u8 (status_len hdr) <= zlen frame -> exists b, should_close hdr frame = Some b.
Proof.
  intros Hl. pose proof (u8_range (status_len hdr)). unfold should_close. guards.
  destruct (slice_Some frame 1 (1 + u8 (status_len hdr))) as [s ->]; [lia|lia|].
  cbn [mbind option_bind]. destruct (negb _); [eauto|].
  destruct (slice_Some frame (1 + u8 (status_len hdr) + 2) (1 + u8 (status_len hdr) + 2 + 3))
    as [s' ->]; [lia|lia|]. cbn [mbind option_bind]. eauto.
Qed.

Lemma read_loop_step_total hdr frame c :
  12 + u8 (status_len hdr) <= zlen frame -> exists x, read_loop_step hdr frame c = Some x.
Proof.
  intros Hl. unfold read_loop_step, load_remove.
  destruct (demux c !! clr_id hdr) as [[tx t]|]; [|eauto].
  destruct (should_close_total hdr frame Hl) as [b ->]. cbn [mbind option_bind]. eauto.
Qed.

(** An iteration that ends the loop leaves the connection closed. *)
Lemma read_loop_step_stop hdr frame c c' out :
  read_loop_step hdr frame c = Some (false, c', out) -> closed c' = true.
Proof.
  unfold read_loop_step, load_remove. destruct (demux c !! clr_id hdr) as [[tx t]|].
  - destruct (should_close hdr frame) as [[]|]; simpl; try done. by intros [= <- <-].
  - by intros [= <- <-].
Qed.

(** More fuel than bytes runs the loop to its end. *)
Lemma read_loop_ends fuel reader buf c :
  zlen (buf ++ stream reader) < Z.of_nat fuel ->
  exists outs c', read_loop fuel reader buf c = Some (outs, c', true) /\ closed c' = true.
Proof.
  revert reader buf c. induction fuel as [|k IH]; intros reader buf c Hf.
  { pose proof (zlen_nonneg (buf ++ stream reader)). lia. }
  cbn [read_loop].
  destruct (drain_frame_async reader buf) as [[[[[hdr frame]|e] r] b]|] eqn:Ed; cbn [mbind option_bind].
  - apply drain_Ok in Ed as (Hb & Hl & _).
    destruct (read_loop_step_total hdr frame c Hl) as [[[go c'] out] Hs].
    rewrite Hs. cbn [mbind option_bind]. destruct go; simpl negb; cbn iota.
    + destruct (IH r b c') as (outs & c'' & -> & Hc).
      { pose proof (u8_range (status_len hdr)). rewrite Hb, zlen_app in Hf. lia. }
      cbn [mbind option_bind]. eauto.
    + apply read_loop_step_stop in Hs. eauto.
  - eauto.
  - destruct (drain_parse reader buf) as (? & ? & Hd & _). congruence.
Qed.

(** The error detection never asks for closing: with a status of five bytes the
    code it compares starts at byte 8 of the frame, so its second byte is the
    status length itself, 5, and never the digit 0 of the closing codes. *)
Lemma should_close_false hdr frame :
  idx frame 9 = Some (status_len hdr) -> 12 + u8 (status_len hdr) <= zlen frame ->
  should_close hdr frame = Some false.
Proof.
  intros H9 Hl. destruct (should_close_total hdr frame Hl) as [b Hb]. rewrite Hb. f_equal.
  revert Hb. unfold should_close. head_step; [by intros [= <-]|].
  head_step. head_step; [|by intros [= <-]]. subst x.
  apply slice_inv in E as (_ & _ & _ & Hlen). change (zlen (str_bytes "ERROR")) with 5 in Hlen.
  head_step. intros [= <-]. assert (Hu : u8 (status_len hdr) = 5) by lia. rewrite Hu in E.
  pose proof (idx_slice _ _ _ _ 1 E ltac:(lia)) as Hi. change (1 + 5 + 2 + 1) with 9 in Hi.
  rewrite H9 in Hi.
  destruct (from_utf8 x) as [code|] eqn:Eu; [|done]. apply from_utf8_Some in Eu as [_ <-].
  unfold closing_code.
  repeat match goal with |- context [bool_decide (code = ?s)] =>
    destruct (bool_decide_reflect (code = s)) as [->|_] end; try done.
  all: injection Hi as Hi; rewrite <- Hi in Hu; done.
Qed.

(** ** A peer that answers *)

(** A response of the peer, and the frame it sends. *)
Record Response := mkResp { r_clr : Z; r_status : bytes; r_cnt : Z; r_fields : bytes }.

Definition resp_payload (r : Response) : bytes := response_payload (r_status r) (r_cnt r) (r_fields r).
Definition resp_frame (r : Response) : bytes := prepend_header (r_clr r) (resp_payload r).

Definition resp_wf (r : Response) : Prop :=
  0 <= r_clr r < 2 ^ 32 /\ 0 <= r_cnt r < 2 ^ 16 /\ zlen (r_status r) <= 255
  /\ zlen (resp_payload r) < 2 ^ 32.

Lemma drain_response r rest reader buf :
  resp_wf r -> buf ++ stream reader = resp_frame r ++ rest ->
  exists rd b, drain_frame_async reader buf
    = Some (Ok (mkHeader (r_clr r) (byte_of_Z (zlen (r_status r))) (r_cnt r), resp_frame r), rd, b)
  /\ b ++ stream rd = rest.
Proof.
  intros (Hc & Hn & Hs & Hp) Hb. destruct (drain_parse reader buf) as (rd & b & Hd & Hr).
  revert Hd Hr. rewrite Hb. unfold resp_frame, resp_payload.
  rewrite shard_frame_prepend, parse_shard_frame by done. eauto.
Qed.

Lemma resp_frame_shape r : resp_wf r ->
  12 + u8 (byte_of_Z (zlen (r_status r))) <= zlen (resp_frame r)
  /\ idx (resp_frame r) 9 = Some (byte_of_Z (zlen (r_status r))).
Proof.
  intros (Hc & Hn & Hs & Hp). pose proof (zlen_nonneg (r_status r)).
  unfold resp_frame. rewrite shard_frame_prepend by done. split.
  - rewrite u8_byte_of_Z, Z.mod_small by lia. unfold shard_frame, resp_payload, response_payload. zl.
  - unfold shard_frame, resp_payload, response_payload. set (n := le_bytes 4 (zlen _)).
    assert (zlen n = 4) by apply zlen_le_bytes. clearbody n.
    change (SHARD_MAGIC :: le_bytes 4 (r_clr r) ++ n ++ ?l) with ((SHARD_MAGIC :: le_bytes 4 (r_clr r)) ++ n ++ l).
    rewrite app_assoc. apply idx_mid. zl.
Qed.

(** A response to a registered id goes to its sender, and the loop goes on. *)
Lemma read_loop_step_response r c tx t :
  resp_wf r -> demux c !! r_clr r = Some (tx, t) ->
  read_loop_step (mkHeader (r_clr r) (byte_of_Z (zlen (r_status r))) (r_cnt r)) (resp_frame r) c
  = Some (true, set_demux c (delete (r_clr r) (demux c)), Some (tx, resp_frame r)).
Proof.
  intros Hwf Hm. destruct (resp_frame_shape r Hwf) as [Hl H9].
  unfold read_loop_step, load_remove. cbn [clr_id status_len]. rewrite Hm.
  by rewrite should_close_false.
Qed.

Lemma read_loop_responses rs :
  forall fuel reader buf c txs,
  Forall2 (fun r tx => resp_wf r /\ exists t, demux c !! r_clr r = Some (tx, t)) rs txs ->
  NoDup (map r_clr rs) -> (length rs < fuel)%nat ->
  buf ++ stream reader = concat (map resp_frame rs) ->
  exists c', read_loop fuel reader buf c = Some (zip txs (map resp_frame rs), c', true)
  /\ closed c' = true /\ demux c' = foldl (fun m k => delete k m) (demux c) (map r_clr rs).
Proof.
  induction rs as [|r rs IH]; intros fuel reader buf c txs Hall Hnd Hf Hb.
  - apply Forall2_nil_inv_l in Hall as ->. destruct fuel as [|k]; [simpl in Hf; lia|].
    cbn [read_loop]. destruct (drain_parse reader buf) as (rd & b & -> & _).
    rewrite Hb. simpl. eauto.
  - apply Forall2_cons_inv_l in Hall as (tx & txs' & (Hwf & t & Hm) & Hall & ->).
    destruct fuel as [|k]; [lia|]. cbn [read_loop].
    apply NoDup_cons in Hnd as [Hnin Hnd].
    destruct (drain_response r (concat (map resp_frame rs)) reader buf Hwf Hb) as (rd & b & -> & Hrest).
    cbn [mbind option_bind]. rewrite (read_loop_step_response r c tx t) by done.
    cbn [mbind option_bind negb].
    edestruct (IH k rd b (set_demux c (delete (r_clr r) (demux c))) txs') as (c' & -> & Hc & Hd);
      [|done|simpl in Hf; lia|done|].
    + eapply Forall2_impl_in; [done|]. intros r' tx' Hin (Hw & t' & Hm').
      split; [done|]. exists t'. simpl. rewrite lookup_delete_ne; [done|].
      intros He. apply Hnin. rewrite He. apply list_elem_of_In, in_map, list_elem_of_In, Hin.
    + cbn [mbind option_bind]. exists c'. by split_and!.
Qed.

(** ** Lemmas: correlation ids *)

Lemma next_corr_id_lookup r st c :
  conns st !! r = Some c ->
  exists st', next_corr_id r st = Some (corr_id c, st')
  /\ conns st' !! r = Some (set_corr_id c (w32 (corr_id c + 1))).
Proof.
  intros Hc. unfold next_corr_id. rewrite Hc. cbn [mbind option_bind]. eexists; split; [done|].
  simpl. by rewrite lookup_alter_eq, Hc.
Qed.

Lemma take_corr_ids_eq n r st c :
  conns st !! r = Some c -> 0 <= corr_id c < 2 ^ 32 ->
  take_corr_ids n r st = Some (map (fun k => w32 (corr_id c + Z.of_nat k)) (seq 0 n)).
Proof.
  revert st c. induction n as [|n IH]; intros st c Hc Hr; [done|]. cbn [take_corr_ids].
  destruct (next_corr_id_lookup r st c Hc) as (st' & -> & Hc'). cbn [mbind option_bind].
  rewrite (IH st' _ Hc') by apply w32_range. cbn [mbind option_bind corr_id set_corr_id seq map].
  rewrite Z.add_0_r, (w32_small (corr_id c)) by done. do 2 f_equal.
  rewrite <- seq_shift, map_map. apply map_ext. intros k.
  unfold w32. rewrite Zplus_mod_idemp_l. f_equal. lia.
Qed.

(** ** Lemmas: what [cleanup] leaves alone *)

Lemma foldl_send_shot_conns l st : conns (foldl (fun st s => send_shot s [] st) st l) = conns st.
Proof. revert st; induction l as [|s l IH]; intros st; simpl; [done|]. by rewrite IH. Qed.

Lemma demux_cleanup_conns clock {HI : HashIter Z (nat * Z)} r age st st' :
  demux_cleanup clock r age st = Some st' ->
  exists d, conns st' = alter (fun c => set_demux c d) r (conns st).
Proof.
  unfold demux_cleanup. destruct (conns st !! r) as [c|] eqn:E.
  - simpl. destruct (cleanup _ _ _) as [[d sent]|]; [|done]. intros [= <-]. exists d. by rewrite foldl_send_shot_conns.
  - intros [= <-]. exists ∅. apply map_eq. intros i. destruct (decide (i = r)) as [->|]; simplify_map_eq; done.
Qed.

Lemma foldl_send_shot_next l st : next_conn (foldl (fun st s => send_shot s [] st) st l) = next_conn st.
Proof. revert st; induction l as [|s l IH]; intros st; simpl; [done|]. by rewrite IH. Qed.

(** Two stores with the same connections, their correlation maps apart. *)
Definition conn_view (c : ConnectionInner) : ConnectionInner := set_demux c ∅.

Record same_conns (st st' : Store) : Prop := {
  same_view : forall r, conn_view <$> conns st' !! r = conn_view <$> conns st !! r;
  same_next : next_conn st' = next_conn st
}.

#[export] Instance same_conns_preorder : PreOrder same_conns.
Proof.
  split; [by split|]. intros a b c [V1 N1] [V2 N2]. split; [|congruence].
  intros r. by rewrite V2, V1.
Qed.

Lemma same_conns_is_closed st st' r : same_conns st st' -> is_closed r st' = is_closed r st.
Proof.
  intros [Hv _]. specialize (Hv r). unfold is_closed.
  destruct (conns st' !! r) as [c'|], (conns st !! r) as [c|]; try done.
  assert (Hc : conn_view c' = conn_view c) by (by apply (inj Some)). exact (f_equal closed Hc).
Qed.

Lemma demux_cleanup_same clock {HI : HashIter Z (nat * Z)} r age st st' :
  demux_cleanup clock r age st = Some st' -> same_conns st st'.
Proof.
  intros Hc. split.
  - intros r'. destruct (demux_cleanup_conns clock r age st st' Hc) as [d ->].
    destruct (decide (r = r')) as [->|]; [|by rewrite lookup_alter_ne].
    rewrite lookup_alter_eq. by destruct (conns st !! r').
  - revert Hc. unfold demux_cleanup. destruct (conns st !! r); [|by intros [= <-]]. simpl.
    destruct (cleanup _ _ _) as [[d sent]|]; [|done]. intros [= <-]. by rewrite foldl_send_shot_next.
Qed.

(** The times at which [cleanup] does not panic. *)
Definition clock_covers (clock : nat -> Z) (age : Duration) : Prop := forall n, is_Some (instant_sub (clock n) age).

Lemma demux_cleanup_total clock {HI : HashIter Z (nat * Z)} r age st :
  clock_covers clock age -> is_Some (demux_cleanup clock r age st).
Proof.
  intros Hc. unfold demux_cleanup. destruct (conns st !! r) as [c|]; [|by eexists]. simpl.
  destruct (cleanup _ _ _) as [[d sent]|] eqn:E; [by eexists|]. apply cleanup_None in E.
  destruct (Hc (ticks st)) as [x Hx]. congruence.
Qed.

(** ** Properties *)

(** Whatever bytes the peer sends and however they are cut, the read loop
    never panics (the status and error-code slices are always in range), it
    ends when the stream ends, and it leaves the connection closed. *)
Theorem read_loop_total fuel reader buf c :
  zlen (buf ++ stream reader) < Z.of_nat fuel ->
  exists outs c', read_loop fuel reader buf c = Some (outs, c', true) /\ closed c' = true.
Proof. exact (read_loop_ends fuel reader buf c). Qed.

Lemma read_loop_total_witness :
  exists outs c', read_loop 4 [RdData [xff; x00]; RdErr] [] (new_inner "h" (default_config "" "" "" "" ""))
    = Some (outs, c', true) /\ closed c' = true.
Proof. apply (read_loop_total 4). reflexivity. Defined.

(** C18. Responses to registered requests, whatever their order and chunking,
    are delivered one by one, each unchanged to the sender registered under
    its correlation id, and their entries leave the map; when the peer then
    closes the stream the connection is closed. *)
Theorem read_loop_delivers rs fuel reader buf c txs :
  Forall2 (fun r tx => resp_wf r /\ exists t, demux c !! r_clr r = Some (tx, t)) rs txs ->
  NoDup (map r_clr rs) -> (length rs < fuel)%nat ->
  buf ++ stream reader = concat (map resp_frame rs) ->
  exists c', read_loop fuel reader buf c = Some (zip txs (map resp_frame rs), c', true)
  /\ closed c' = true /\ demux c' = foldl (fun m k => delete k m) (demux c) (map r_clr rs).
Proof. exact (read_loop_responses rs fuel reader buf c txs). Qed.

Lemma read_loop_delivers_witness :
  let r1 := mkResp 9 (str_bytes "SUCCESS") 0 [] in
  let r2 := mkResp 4 (str_bytes "ERROR") 0 (str_bytes "503") in
  let c := set_demux (new_inner "h" (default_config "" "" "" "" ""))
             (<[4 := (11%nat, 0)]> (<[9 := (12%nat, 0)]> ∅)) in
  exists c', read_loop 3 [RdData (take 7 (resp_frame r1)); RdData (drop 7 (resp_frame r1 ++ resp_frame r2))] [] c
    = Some (zip [12%nat; 11%nat] (map resp_frame [r1; r2]), c', true)
  /\ closed c' = true /\ demux c' = foldl (fun m k => delete k m) (demux c) (map r_clr [r1; r2]).
Proof.
  intros r1 r2 c. apply (read_loop_delivers [r1; r2]).
  - unfold resp_wf. repeat (constructor; [by repeat split; try (vm_compute; congruence); eexists|]). constructor.
  - simpl. apply (bool_decide_unpack _). reflexivity.
  - simpl. lia.
  - reflexivity.
Defined.

(** The close-on-error rule of the read loop is dead code: it inspects the
    whole frame as if it were the payload, so for every frame the reader
    returns it decides not to close, and a response, whatever its status and
    error code, never closes the connection. *)
Theorem error_close_unreachable reader buf hdr frame rd b :
  drain_frame_async reader buf = Some (Ok (hdr, frame), rd, b) ->
  should_close hdr frame = Some false.
Proof. intros (_ & Hl & H9)%drain_Ok. by apply should_close_false. Qed.

Lemma error_close_unreachable_witness :
  let r := mkResp 1 (str_bytes "ERROR") 0 (str_bytes "503") in
  drain_frame_async [RdData (resp_frame r)] [] = Some (Ok (mkHeader 1 x05 0, resp_frame r), [], [])
  /\ should_close (mkHeader 1 x05 0) (resp_frame r) = Some false.
Proof.
  intros r. split; [reflexivity|].
  apply (error_close_unreachable [RdData (resp_frame r)] [] _ _ [] []). reflexivity.
Defined.

(** C38. Correlation ids of a connection do not repeat within [2^32] requests,
    across the wrap-around of the counter included. *)
Theorem corr_ids_distinct n r st c :
  conns st !! r = Some c -> 0 <= corr_id c < 2 ^ 32 -> Z.of_nat n <= 2 ^ 32 ->
  exists ids, take_corr_ids n r st = Some ids /\ length ids = n /\ NoDup ids
  /\ Forall (fun i => 0 <= i < 2 ^ 32) ids.
Proof.
  intros Hc Hr Hn. eexists. split; [by apply take_corr_ids_eq|]. split_and!.
  - by rewrite length_map, length_seq.
  - apply NoDup_alt. intros i j x Hi Hj.
    apply list_lookup_fmap_Some in Hi as (a & -> & [-> Ha]%lookup_seq).
    apply list_lookup_fmap_Some in Hj as (b & Hx & [-> Hb]%lookup_seq).
    unfold w32 in Hx. apply Z.cong_iff_ex in Hx as [k Hk]. nia.
  - apply Forall_forall. intros x (k & -> & _)%list_elem_of_fmap. apply w32_range.
Qed.

Lemma corr_ids_distinct_witness :
  let c := set_corr_id (new_inner "h" (default_config "" "" "" "" "")) 4294967295 in
  exists ids, take_corr_ids 3 0 (set_conns empty_store {[0%nat := c]}) = Some ids /\ length ids = 3%nat
  /\ NoDup ids /\ Forall (fun i => 0 <= i < 2 ^ 32) ids.
Proof. intros c. apply (corr_ids_distinct 3 0 _ c); [reflexivity|simpl; lia|lia]. Defined.
