(* ===== verification/TcpServer.v ===== *)
(** * [tcp_server.rs]: the router-facing server

    [handle_connection] serves one router connection: [serve] is its outer
    [select!] loop over the events of the connection and [drain_loop] its
    inner loop over the complete frames of the buffer.  The world the handler
    runs in (clock, [ClusterHandler::execute], the socket's write half) is the
    interface [HandlerEnv]; the effects of the handler (counters, requests,
    writes, the close message) are its trace.

    [run_step] is an iteration of the accept loop of [TcpServer::run];
    [server_step] interleaves it with the live handlers and the task that
    receives the close messages. *)

From S2P Require Import Prelude RustStd Error Config Protocol.
From stdpp Require Import relations.
Local Open Scope Z_scope.

(** What a handler calls.  [execute] yields [None] when the call never
    completes; [write_all] whether it succeeded. *)
Class HandlerEnv `{Reqwest} (W : Type) := {
  now : W -> Z * W;
  execute : bool -> bytes -> W -> option (Result bytes RZError) * W;
  write_all : bytes -> W -> bool * W;
  flush : W -> W
}.

Inductive Effect :=
| Incr (c : Counter) (n : Z)
| Execute (is_write : bool) (frame : bytes)
| Write (b : bytes)
| SendClose.

(** How the inner loop ends: [break], [return], an [execute] that never
    completes, a panic; [NoFuel] is the model's own. *)
Inductive Exit := BreakInner | Return | Pending | Panic | NoFuel.

#[export] Instance Exit_eq_dec : EqDecision Exit.
Proof. solve_decision. Defined.

Record Drained (W : Type) := mkDrained {
  d_exit : Exit;
  d_buf : bytes;
  d_last : Z;          (* last_frame_time *)
  d_world : W;
  d_trace : list Effect
}.
Arguments mkDrained {W} _ _ _ _ _.
Arguments d_exit {W} _.
Arguments d_buf {W} _.
Arguments d_last {W} _.
Arguments d_world {W} _.
Arguments d_trace {W} _.

(** Effects that come before the rest of the run. *)
Definition emit {W} (es : list Effect) (d : Drained W) : Drained W :=
  mkDrained (d_exit d) (d_buf d) (d_last d) (d_world d) (es ++ d_trace d).

(** One [tokio::select!] of the outer loop: cancellation, or the outcome of
    [timeout(idle_timeout, reader.read_buf(&mut buf))]; a read of no bytes is
    the end of the stream. *)
Inductive Select :=
| SelCancelled
| SelRead (chunk : bytes)
| SelReadErr
| SelIdle.

Inductive HandlerEnd := Returned | Running | Stuck | Panicked.

Section Handler.
Context `{HandlerEnv W} (cfg : Config).

(** The resynchronisation after a decode error: [Some] buffer to go on with,
    or [None] and the buffer to wait for more bytes with. *)
Definition resync (buf : bytes) : option (option bytes * bytes) :=
  if bool_decide (buf = []) then Some (None, buf) else
  let buf := drop 1 buf in
  found ← find_next_router_magic buf 0;
  match found with
  | Some pos =>
      let buf := if 0 <? pos then drop (Z.to_nat pos) buf else buf in
      Some (Some buf, buf)
  | None =>
      let buf :=
        if 64 <? zlen buf then
          let keep := Z.min 8 (zlen buf) in drop (Z.to_nat (zlen buf - keep)) buf
        else buf in
      Some (None, buf)
  end.

Fixpoint drain_loop (fuel : nat) (buf : bytes) (last : Z) (w : W) : Drained W :=
  match fuel with
  | O => mkDrained NoFuel buf last w []
  | S k =>
      if max_buffer_size cfg <? zlen buf
      then mkDrained Return buf last w [Incr client_errors 1; SendClose] else
      match try_decode_router buf with
      | None => mkDrained Panic buf last w []
      | Some NeedMore =>
          let '(t, w) := now w in
          if frame_timeout cfg <? t - last
          then mkDrained Return buf last w [Incr timeouts 1; SendClose]
          else mkDrained BreakInner buf last w []
      | Some (Frame frame_len segment is_write shard_frame _ original_clrid) =>
          if max_frame_size cfg <? frame_len
          then mkDrained Return buf last w [Incr client_errors 1; SendClose] else
          let '(last, w) := now w in
          let buf := drop (Z.to_nat frame_len) buf in
          emit [Incr frames_received 1]
          (if bool_decide (segment = KEEPALIVE_SEGMENT)
           then emit [Incr keepalives_received 1] (drain_loop k buf last w)
           else
           emit [Execute is_write shard_frame]
           match execute is_write shard_frame w with
           | (None, w) => mkDrained Pending buf last w []
           | (Some (Ok resp), w) =>
               emit [Incr frames_executed 1; Incr bytes_sent (zlen resp); Write resp]
               (let '(ok, w) := write_all resp w in
                if negb ok then mkDrained Return buf last w [SendClose]
                else drain_loop k buf last (flush w))
           | (Some (Err _), w) =>
               let reply := build_error_response original_clrid 4 in
               let '(_, w) := write_all reply w in
               mkDrained Return buf last (flush w) [Incr execute_errors 1; Write reply; SendClose]
           end)
      | Some (Error _) =>
          emit [Incr client_errors 1; Incr resyncs 1]
          match resync buf with
          | None => mkDrained Panic buf last w []
          | Some (Some buf, _) => drain_loop k buf last w
          | Some (None, buf) => mkDrained BreakInner buf last w []
          end
      end
  end.

(** More iterations than bytes are never needed. *)
Definition drain (buf : bytes) (last : Z) (w : W) : Drained W :=
  drain_loop (S (length buf)) buf last w.

(** The outer loop over the events; the trace ends with the close message of
    the function's end, or with the one of an early return. *)
Fixpoint serve (evs : list Select) (buf : bytes) (last : Z) (w : W) : HandlerEnd * Drained W :=
  match evs with
  | [] => (Running, mkDrained BreakInner buf last w [])
  | SelCancelled :: _ | SelReadErr :: _ | SelRead [] :: _ =>
      (Returned, mkDrained Return buf last w [SendClose])
  | SelIdle :: _ => (Returned, mkDrained Return buf last w [Incr timeouts 1; SendClose])
  | SelRead chunk :: evs =>
      let d := drain (buf ++ chunk) last w in
      let pre := Incr bytes_received (zlen chunk) :: d_trace d in
      match d_exit d with
      | BreakInner =>
          let '(e, d') := serve evs (d_buf d) (d_last d) (d_world d) in (e, emit pre d')
      | Return => (Returned, emit [Incr bytes_received (zlen chunk)] d)
      | Pending => (Stuck, emit [Incr bytes_received (zlen chunk)] d)
      | Panic | NoFuel => (Panicked, emit [Incr bytes_received (zlen chunk)] d)
      end
  end.

Definition handle_connection (evs : list Select) (w : W) : HandlerEnd * Drained W :=
  let '(last_frame_time, w) := now w in serve evs [] last_frame_time w.

End Handler.

(** ** [TcpServer::run]

    [active] is [active_connections]; [live] counts the spawned handlers that
    have not ended, [pending] the close messages not yet received by the
    closer task; [returned] is what [run] has returned, if it has. *)
Record Server := mkServer {
  active : Z;
  live : Z;
  pending : Z;
  closer_runs : bool;
  cancelled : bool;
  returned : option (Result unit io_Error)
}.

Definition server_new : Server := mkServer 0 0 0 true false None.

(** A connection has been accepted: whether it gets a handler. *)
Definition accept (cfg : Config) (s : Server) : bool * Server :=
  if max_connections cfg <=? active s then (false, s)
  else (true, mkServer (active s + 1) (live s + 1) (pending s) (closer_runs s) (cancelled s) (returned s)).

(** The [tokio::select!] of the accept loop; it is not biased, so that a
    connection can still be accepted when the token is cancelled. *)
Inductive RunSelect :=
| RunCancelled
| RunAccept (res : Result unit io_Error).

(** An iteration of the loop: [return], or the state to go on with. *)
Definition run_step (cfg : Config) (ev : RunSelect) (s : Server) : option (Result unit io_Error) * Server :=
  match ev with
  | RunCancelled => (Some (Ok ()), s)
  | RunAccept (Err _) => (None, s)
  | RunAccept (Ok _) => (None, snd (accept cfg s))
  end.

Definition set_returned (r : option (Result unit io_Error)) (s : Server) : Server :=
  mkServer (active s) (live s) (pending s) (closer_runs s) (cancelled s) r.

(** The select of the closer task: [Some true] for a message, [Some false] for
    the end of the channel, [None] for the token. *)
Definition closer_step (msg : option bool) (s : Server) : Server :=
  match msg with
  | Some true => mkServer (active s - 1) (live s) (pending s - 1) true (cancelled s) (returned s)
  | Some false | None => mkServer (active s) (live s) (pending s) false (cancelled s) (returned s)
  end.

(** What a select can find ready; the channel ends when [run] and the handlers
    have dropped their senders. *)
Definition run_ready (ev : RunSelect) (s : Server) : Prop :=
  match ev with RunCancelled => cancelled s = true | RunAccept _ => True end.

Definition closer_ready (msg : option bool) (s : Server) : Prop :=
  match msg with
  | Some true => 0 < pending s
  | Some false => pending s = 0 /\ live s = 0 /\ returned s <> None
  | None => cancelled s = true
  end.

Inductive server_step (cfg : Config) : Server -> Server -> Prop :=
| step_run s ev r s' :
    returned s = None -> run_ready ev s -> run_step cfg ev s = (r, s') -> server_step cfg s (set_returned r s')
| step_handler_end s :   (* a handler returns, having sent its close message *)
    0 < live s ->
    server_step cfg s (mkServer (active s) (live s - 1) (pending s + 1) (closer_runs s) (cancelled s) (returned s))
| step_closer s msg :
    closer_runs s = true -> closer_ready msg s -> server_step cfg s (closer_step msg s)
| step_cancel s :
    server_step cfg s (mkServer (active s) (live s) (pending s) (closer_runs s) true (returned s)).

(** ** What the handler should do: the requests in a byte stream *)

Section Reference.
Context `{Reqwest}.

(** The bytes from the next magic byte on. *)
Definition to_magic (b : bytes) : bytes :=
  drop_while (fun x => negb (bool_decide (x = ROUTER_MAGIC))) b.

(** A request of the stream: frame length, segment, write flag, shard frame. *)
Record Req := mkReq { q_len : Z; q_segment : string; q_write : bool; q_frame : bytes }.

(** The requests of a byte stream: frames from the front; after an error,
    from the next magic byte on. *)
Fixpoint parse_requests (fuel : nat) (b : bytes) : list Req :=
  match fuel with
  | O => []
  | S k =>
      match try_decode_router b with
      | Some (Frame fl seg w sf _ _) => mkReq fl seg w sf :: parse_requests k (drop (Z.to_nat fl) b)
      | Some (Error _) => parse_requests k (to_magic (drop 1 b))
      | _ => []
      end
  end.

Definition requests (b : bytes) : list Req := parse_requests (S (length b)) b.

End Reference.

Definition is_keepalive (q : Req) : bool := bool_decide (q_segment q = KEEPALIVE_SEGMENT).

(** The requests that reach the cluster, as the handler's effects. *)
Definition executions (qs : list Req) : list (bool * bytes) :=
  map (fun q => (q_write q, q_frame q)) (List.filter (fun q => negb (is_keepalive q)) qs).

(** ** Observations of a trace *)

Definition executed (es : list Effect) : list (bool * bytes) :=
  flat_map (fun e => match e with Execute w f => [(w, f)] | _ => [] end) es.

Definition written (es : list Effect) : list bytes :=
  flat_map (fun e => match e with Write b => [b] | _ => [] end) es.

Definition total (c : Counter) (es : list Effect) : Z :=
  foldr (fun e n => match e with Incr c' k => (if decide (c = c') then k else 0) + n | _ => n end) 0 es.

Definition closes (es : list Effect) : Z :=
  foldr (fun e n => match e with SendClose => 1 + n | _ => n end) 0 es.

(** ** Lemmas: observations *)

Lemma executed_app a b : executed (a ++ b) = executed a ++ executed b.
Proof. apply flat_map_app. Qed.

Lemma written_app a b : written (a ++ b) = written a ++ written b.
Proof. apply flat_map_app. Qed.

Lemma total_app c a b : total c (a ++ b) = total c a + total c b.
Proof. induction a as [|[] a IH]; simpl; rewrite ?IH; lia. Qed.

Lemma closes_app a b : closes (a ++ b) = closes a + closes b.
Proof. induction a as [|[] a IH]; simpl; rewrite ?IH; lia. Qed.

(** ** Lemmas: resynchronisation *)

Lemma position_Some {A} (p : A -> bool) l i :
  position p l = Some i ->
  0 <= i < zlen l /\ drop_while (fun x => negb (p x)) l = drop (Z.to_nat i) l.
Proof.
  revert i. induction l as [|x l IH]; intros i; simpl; [done|]. rewrite zlen_cons.
  destruct (p x); simpl.
  - intros [= <-]. pose proof (zlen_nonneg l). split; [lia|done].
  - destruct (position p l) as [j|]; [|done]. simpl. intros [= <-].
    destruct (IH j eq_refl) as [Hj ->]. split; [lia|].
    replace (Z.to_nat (1 + j)) with (S (Z.to_nat j)) by lia. done.
Qed.

Lemma position_None {A} (p : A -> bool) l :
  position p l = None -> Forall (fun x => p x = false) l.
Proof.
  induction l as [|x l IH]; simpl; [by constructor|].
  destruct (p x) eqn:E; [done|]. destruct (position p l); [done|]. constructor; auto.
Qed.

Lemma to_magic_head b :
  match to_magic b with x :: _ => x = ROUTER_MAGIC | [] => True end.
Proof.
  pose proof (drop_while_head (fun x => negb (bool_decide (x = ROUTER_MAGIC))) b) as Hh.
  unfold to_magic. destruct (drop_while _ b); [done|]. by apply negb_false_iff, bool_decide_eq_true in Hh.
Qed.

Lemma to_magic_none b : Forall (fun x => x <> ROUTER_MAGIC) b -> to_magic b = [].
Proof. induction 1; [done|]. unfold to_magic in *. simpl. by rewrite bool_decide_eq_false_2. Qed.

Lemma to_magic_app_none b more :
  Forall (fun x => x <> ROUTER_MAGIC) b -> to_magic (b ++ more) = to_magic more.
Proof. induction 1; [done|]. unfold to_magic in *. simpl. by rewrite bool_decide_eq_false_2. Qed.

Lemma to_magic_app_some b more : to_magic b <> [] -> to_magic (b ++ more) = to_magic b ++ more.
Proof. induction b as [|x b IH]; [done|]. unfold to_magic in *. simpl. by destruct (bool_decide _). Qed.

Lemma to_magic_idem b : to_magic (to_magic b) = to_magic b.
Proof.
  pose proof (to_magic_head b). destruct (to_magic b) as [|x r]; [done|]. subst x.
  unfold to_magic. simpl. done.
Qed.

Lemma to_magic_length b : (length (to_magic b) <= length b)%nat.
Proof. induction b; [done|]. unfold to_magic in *. simpl. destruct (bool_decide _); simpl; lia. Qed.

Lemma find_next_router_magic_0 b :
  find_next_router_magic b 0 = Some (position (fun x => bool_decide (x = ROUTER_MAGIC)) b).
Proof.
  unfold find_next_router_magic. rewrite <- (app_nil_r b) at 1. rewrite slice_prefix by done.
  cbn [mbind option_bind]. by destruct (position _ b).
Qed.

(** What the handler does after a decode error: go on at the next magic byte,
    or keep at most 64 bytes without one. *)
Lemma resync_spec x r :
  (to_magic r <> [] /\ resync (x :: r) = Some (Some (to_magic r), to_magic r))
  \/ (Forall (fun y => y <> ROUTER_MAGIC) r
      /\ exists q, resync (x :: r) = Some (None, q) /\ q `suffix_of` r /\ zlen q <= 64).
Proof.
  unfold resync. rewrite bool_decide_eq_false_2 by done. cbv zeta. change (drop 1 (x :: r)) with r.
  rewrite find_next_router_magic_0. cbn [mbind option_bind].
  destruct (position (fun x => bool_decide (x = ROUTER_MAGIC)) r) as [i|] eqn:E; cbn iota.
  - left. destruct (position_Some _ _ _ E) as [Hi Hd].
    assert (Hm : to_magic r = drop (Z.to_nat i) r) by exact Hd.
    rewrite Hm. split.
    + intros Hn. apply (f_equal length) in Hn. rewrite length_drop in Hn. unfold zlen in Hi. simpl in Hn. lia.
    + destruct (Z.ltb_spec 0 i); [done|]. by replace i with 0 by lia.
  - right. apply position_None in E. split.
    + eapply Forall_impl; [exact E|]. intros y Hy. by apply bool_decide_eq_false in Hy.
    + eexists. split; [done|]. destruct (Z.ltb_spec 64 (zlen r)).
      * split; [eexists; symmetry; apply take_drop|]. rewrite zlen_drop. lia.
      * split; [by exists []|lia].
Qed.

Lemma decode_error_cons `{Reqwest} b e :
  try_decode_router b = Some (Error e) -> exists x r, b = x :: r.
Proof. destruct b as [|x r]; [by rewrite decode_short|eauto]. Qed.

(** ** The inner loop as a big-step relation

    One rule per path through the loop's body; [drain_loop] follows it with
    any fuel above the buffer's length, so it neither panics nor runs out of
    fuel, and its properties are proved by rule induction. *)

Section Rules.
Context `{HandlerEnv W} (cfg : Config).

Inductive drained : bytes -> Z -> W -> Drained W -> Prop :=
| dr_overflow buf last w :
    max_buffer_size cfg < zlen buf ->
    drained buf last w (mkDrained Return buf last w [Incr client_errors 1; SendClose])
| dr_slow buf last w t w1 :
    zlen buf <= max_buffer_size cfg -> try_decode_router buf = Some NeedMore ->
    now w = (t, w1) -> frame_timeout cfg < t - last ->
    drained buf last w (mkDrained Return buf last w1 [Incr timeouts 1; SendClose])
| dr_wait buf last w t w1 :
    zlen buf <= max_buffer_size cfg -> try_decode_router buf = Some NeedMore ->
    now w = (t, w1) -> t - last <= frame_timeout cfg ->
    drained buf last w (mkDrained BreakInner buf last w1 [])
| dr_too_large buf last w fl seg isw sf off c :
    zlen buf <= max_buffer_size cfg ->
    try_decode_router buf = Some (Frame fl seg isw sf off c) -> max_frame_size cfg < fl ->
    drained buf last w (mkDrained Return buf last w [Incr client_errors 1; SendClose])
| dr_keepalive buf last w fl isw sf off c t w1 d :
    zlen buf <= max_buffer_size cfg ->
    try_decode_router buf = Some (Frame fl KEEPALIVE_SEGMENT isw sf off c) ->
    fl <= max_frame_size cfg -> now w = (t, w1) ->
    drained (drop (Z.to_nat fl) buf) t w1 d ->
    drained buf last w (emit [Incr frames_received 1; Incr keepalives_received 1] d)
| dr_pending buf last w fl seg isw sf off c t w1 w2 :
    zlen buf <= max_buffer_size cfg ->
    try_decode_router buf = Some (Frame fl seg isw sf off c) -> seg <> KEEPALIVE_SEGMENT ->
    fl <= max_frame_size cfg -> now w = (t, w1) -> execute isw sf w1 = (None, w2) ->
    drained buf last w
      (mkDrained Pending (drop (Z.to_nat fl) buf) t w2 [Incr frames_received 1; Execute isw sf])
| dr_failed buf last w fl seg isw sf off c t w1 e w2 ok w3 :
    zlen buf <= max_buffer_size cfg ->
    try_decode_router buf = Some (Frame fl seg isw sf off c) -> seg <> KEEPALIVE_SEGMENT ->
    fl <= max_frame_size cfg -> now w = (t, w1) -> execute isw sf w1 = (Some (Err e), w2) ->
    write_all (build_error_response c 4) w2 = (ok, w3) ->
    drained buf last w
      (mkDrained Return (drop (Z.to_nat fl) buf) t (flush w3)
        [Incr frames_received 1; Execute isw sf; Incr execute_errors 1;
         Write (build_error_response c 4); SendClose])
| dr_write_failed buf last w fl seg isw sf off c t w1 resp w2 w3 :
    zlen buf <= max_buffer_size cfg ->
    try_decode_router buf = Some (Frame fl seg isw sf off c) -> seg <> KEEPALIVE_SEGMENT ->
    fl <= max_frame_size cfg -> now w = (t, w1) -> execute isw sf w1 = (Some (Ok resp), w2) ->
    write_all resp w2 = (false, w3) ->
    drained buf last w
      (mkDrained Return (drop (Z.to_nat fl) buf) t w3
        [Incr frames_received 1; Execute isw sf; Incr frames_executed 1;
         Incr bytes_sent (zlen resp); Write resp; SendClose])
| dr_executed buf last w fl seg isw sf off c t w1 resp w2 w3 d :
    zlen buf <= max_buffer_size cfg ->
    try_decode_router buf = Some (Frame fl seg isw sf off c) -> seg <> KEEPALIVE_SEGMENT ->
    fl <= max_frame_size cfg -> now w = (t, w1) -> execute isw sf w1 = (Some (Ok resp), w2) ->
    write_all resp w2 = (true, w3) ->
    drained (drop (Z.to_nat fl) buf) t (flush w3) d ->
    drained buf last w
      (emit [Incr frames_received 1; Execute isw sf; Incr frames_executed 1;
             Incr bytes_sent (zlen resp); Write resp] d)
| dr_resync x r last w e d :
    zlen (x :: r) <= max_buffer_size cfg -> try_decode_router (x :: r) = Some (Error e) ->
    to_magic r <> [] -> drained (to_magic r) last w d ->
    drained (x :: r) last w (emit [Incr client_errors 1; Incr resyncs 1] d)
| dr_garbage x r last w e q :
    zlen (x :: r) <= max_buffer_size cfg -> try_decode_router (x :: r) = Some (Error e) ->
    Forall (fun y => y <> ROUTER_MAGIC) r -> q `suffix_of` r -> zlen q <= 64 ->
    drained (x :: r) last w
      (mkDrained BreakInner q last w [Incr client_errors 1; Incr resyncs 1]).

Lemma emit_emit a b (d : Drained W) : emit a (emit b d) = emit (a ++ b) d.
Proof. unfold emit. simpl. by rewrite app_assoc. Qed.

Lemma drop_shorter (b : bytes) n : 0 < n <= zlen b -> (length (drop (Z.to_nat n) b) < length b)%nat.
Proof. unfold zlen. rewrite length_drop. lia. Qed.

Lemma drain_loop_drained fuel buf last w :
  (length buf < fuel)%nat -> drained buf last w (drain_loop cfg fuel buf last w).
Proof.
  revert buf last w. induction fuel as [|k IH]; intros buf last w Hf; [lia|]. cbn [drain_loop].
  destruct (Z.ltb_spec (max_buffer_size cfg) (zlen buf)); [by constructor|].
  destruct (decode_total buf) as [[|fl seg isw sf off c|e] Hdec]; rewrite Hdec.
  - destruct (now w) as [t w1] eqn:En.
    destruct (Z.ltb_spec (frame_timeout cfg) (t - last)); by econstructor.
  - destruct (Z.ltb_spec (max_frame_size cfg) fl); [by econstructor|].
    destruct (now w) as [t w1] eqn:En. pose proof (decode_frame_len _ _ _ _ _ _ _ Hdec) as Hfl.
    pose proof (drop_shorter buf fl ltac:(lia)) as Hsh.
    destruct (bool_decide_reflect (seg = KEEPALIVE_SEGMENT)) as [->|Hseg].
    { rewrite emit_emit. eapply dr_keepalive; [done..|]. apply IH. lia. }
    destruct (execute isw sf w1) as [[[resp|er]|] w2] eqn:Ex.
    + destruct (write_all resp w2) as [[] w3] eqn:Ew; simpl negb; cbn iota.
      * rewrite !emit_emit. eapply dr_executed; [done..|]. apply IH. lia.
      * by eapply dr_write_failed.
    + destruct (write_all (build_error_response c 4) w2) as [ok w3] eqn:Ew. by eapply dr_failed.
    + by eapply dr_pending.
  - destruct (decode_error_cons _ _ Hdec) as (x & r & ->).
    destruct (resync_spec x r) as [[Hne ->]|(Hno & q & -> & Hq & Hl)].
    + eapply dr_resync; [done..|]. apply IH. pose proof (to_magic_length r). simpl in *. lia.
    + by eapply dr_garbage.
Qed.

Lemma drain_drained buf last w : drained buf last w (drain cfg buf last w).
Proof. apply drain_loop_drained. lia. Qed.

(** The exits of the loop, and the close messages sent on the way. *)
Lemma drained_exit buf last w d :
  drained buf last w d ->
  d_exit d <> Panic /\ d_exit d <> NoFuel
  /\ closes (d_trace d) = (if decide (d_exit d = Return) then 1 else 0)
  /\ (d_exit d = BreakInner -> zlen (d_buf d) <= max_buffer_size cfg).
Proof.
  induction 1; simpl in *; split_and!; try done; try tauto.
  zl. destruct H4 as [k ->]. zl.
Qed.

End Rules.

(** ** Lemmas: the requests of a stream *)

Section Requests.
Context `{Reqwest}.

Lemma parse_requests_fuel k k' b :
  (length b < k)%nat -> (length b < k')%nat -> parse_requests k b = parse_requests k' b.
Proof.
  revert k' b. induction k as [|k IH]; intros [|k'] b Hk Hk'; try lia. cbn [parse_requests].
  destruct (try_decode_router b) as [[|fl seg w sf off c|e]|] eqn:Hd; try done.
  - pose proof (decode_frame_len _ _ _ _ _ _ _ Hd). f_equal.
    pose proof (drop_shorter b fl ltac:(lia)). apply IH; lia.
  - destruct (decode_error_cons _ _ Hd) as (x & r & ->). cbn [drop].
    pose proof (to_magic_length (drop 0 r)). rewrite drop_0 in *. simpl in *. apply IH; lia.
Qed.

Lemma requests_eq b :
  requests b = match try_decode_router b with
    | Some (Frame fl seg w sf _ _) => mkReq fl seg w sf :: requests (drop (Z.to_nat fl) b)
    | Some (Error _) => requests (to_magic (drop 1 b))
    | _ => []
    end.
Proof.
  unfold requests at 1. cbn [parse_requests].
  destruct (try_decode_router b) as [[|fl seg w sf off c|e]|] eqn:Hd; try done.
  - pose proof (decode_frame_len _ _ _ _ _ _ _ Hd). f_equal.
    pose proof (drop_shorter b fl ltac:(lia)). apply parse_requests_fuel; lia.
  - destruct (decode_error_cons _ _ Hd) as (x & r & ->). change (drop 1 (x :: r)) with r.
    pose proof (to_magic_length r). simpl length. apply parse_requests_fuel; lia.
Qed.

Lemma requests_short b : zlen b < 5 -> requests b = [].
Proof. intros. by rewrite requests_eq, decode_short. Qed.

(** Bytes before the next magic byte carry no request. *)
Lemma requests_to_magic b : requests b = requests (to_magic b).
Proof.
  destruct b as [|x r]; [done|]. destruct (decide (x = ROUTER_MAGIC)) as [->|Hx]; [done|].
  assert (Hm : to_magic (x :: r) = to_magic r)
    by (unfold to_magic; simpl; by rewrite bool_decide_eq_false_2).
  rewrite Hm. destruct (Z.ltb_spec (zlen (x :: r)) 5) as [Hl|Hl].
  - pose proof (to_magic_length r). rewrite !requests_short; [done| |done].
    unfold zlen in *. simpl in *. lia.
  - by rewrite requests_eq, decode_bad_magic.
Qed.

Lemma requests_no_magic b : Forall (fun y => y <> ROUTER_MAGIC) b -> requests b = [].
Proof. intros Hb. rewrite requests_to_magic, to_magic_none by done. done. Qed.

Lemma requests_garbage b more :
  Forall (fun y => y <> ROUTER_MAGIC) b -> requests (b ++ more) = requests more.
Proof.
  intros Hb. rewrite requests_to_magic, to_magic_app_none by done. by rewrite <- requests_to_magic.
Qed.

Lemma requests_frame b fl seg w sf off c more :
  try_decode_router b = Some (Frame fl seg w sf off c) ->
  requests (b ++ more) = mkReq fl seg w sf :: requests (drop (Z.to_nat fl) b ++ more).
Proof.
  intros Hd. pose proof (decode_frame_len _ _ _ _ _ _ _ Hd).
  rewrite requests_eq, (decode_app _ more _ Hd) by done.
  rewrite drop_app_le by (unfold zlen in *; lia). done.
Qed.

Lemma requests_error x r e more :
  try_decode_router (x :: r) = Some (Error e) -> requests ((x :: r) ++ more) = requests (r ++ more).
Proof.
  intros Hd. rewrite requests_eq, (decode_app _ more _ Hd) by done.
  change (drop 1 ((x :: r) ++ more)) with (r ++ more). by rewrite <- requests_to_magic.
Qed.

Lemma executions_app a b : executions (a ++ b) = executions a ++ executions b.
Proof. unfold executions. by rewrite List.filter_app, map_app. Qed.

Lemma executions_cons q qs :
  executions (q :: qs) = (if is_keepalive q then [] else [(q_write q, q_frame q)]) ++ executions qs.
Proof. unfold executions. simpl. by destruct (is_keepalive q). Qed.

End Requests.

(** ** Lemmas: the handler executes the requests of its stream *)

Section HandlerLemmas.
Context `{HandlerEnv W} (cfg : Config).

(** A pass of the inner loop that waits for more bytes has executed a prefix
    of the requests and kept what the rest of them needs. *)
Lemma drained_requests buf last w d :
  drained cfg buf last w d -> d_exit d = BreakInner ->
  exists qs, executed (d_trace d) = executions qs /\ requests (d_buf d) = []
  /\ forall more, requests (buf ++ more) = qs ++ requests (d_buf d ++ more).
Proof.
  induction 1; simpl d_exit in *; intros Hx; try done;
    try (destruct IHdrained as (qs & He & Hr & Hm); [done|]); cbn [d_trace d_buf emit].
  - exists []. split_and!; [done| |done]. by rewrite requests_eq, H2.
  - eexists (mkReq fl KEEPALIVE_SEGMENT isw sf :: qs). split_and!; [|done|].
    + rewrite executed_app, He, executions_cons. done.
    + intros more. by rewrite (requests_frame _ _ _ _ _ _ _ _ H2), Hm.
  - eexists (mkReq fl seg isw sf :: qs). split_and!; [|done|].
    + rewrite executed_app, He, executions_cons. unfold is_keepalive. simpl.
      by rewrite bool_decide_eq_false_2.
    + intros more. by rewrite (requests_frame _ _ _ _ _ _ _ _ H2), Hm.
  - exists qs. split_and!; [by rewrite executed_app|done|].
    intros more. rewrite (requests_error _ _ _ _ H2), <- Hm.
    by rewrite requests_to_magic, to_magic_app_some.
  - exists []. assert (Hq : Forall (fun y => y <> ROUTER_MAGIC) q).
    { destruct H4 as [k ->]. by apply Forall_app in H3 as [_ ?]. }
    split_and!; [done|by apply requests_no_magic|].
    intros more. by rewrite (requests_error _ _ _ _ H2), !requests_garbage.
Qed.

(** The bytes the events bring. *)
Fixpoint received (evs : list Select) : bytes :=
  match evs with
  | SelRead c :: r => c ++ received r
  | _ => []
  end.

Lemma serve_requests evs buf last w d :
  serve cfg evs buf last w = (Running, d) -> requests buf = [] ->
  exists qs, executed (d_trace d) = executions qs /\ requests (d_buf d) = []
  /\ requests (buf ++ received evs) = qs.
Proof.
  revert buf last w d. induction evs as [|[|[|x c]| |] evs IH]; intros buf last w d; cbn [serve received];
    try done.
  - intros [= <-] Hb. exists []. split_and!; [done|done|]. by rewrite app_nil_r.
  - set (chunk := x :: c). pose proof (drain_drained cfg (buf ++ chunk) last w) as Hd.
    destruct (drain cfg (buf ++ chunk) last w) as [ex b l w' tr]. cbn [d_exit d_buf d_last d_world d_trace].
    destruct ex; try done. destruct (serve cfg evs b l w') as [e d'] eqn:Es. intros [= -> <-] Hb.
    destruct (drained_requests _ _ _ _ Hd eq_refl) as (qs & He & Hr & Hm). cbn [d_buf d_trace] in *.
    destruct (IH _ _ _ _ Es Hr) as (qs' & He' & Hr' & Hm').
    exists (qs ++ qs'). split_and!; [|done|].
    + cbn [d_trace emit app executed flat_map]. change (flat_map _ ?l) with (executed l).
      by rewrite executed_app, He, He', executions_app.
    + change (x :: c ++ received evs) with (chunk ++ received evs). by rewrite app_assoc, Hm, Hm'.
Qed.

(** One close message if the handler returned, none otherwise. *)
Lemma serve_closes evs buf last w e d :
  serve cfg evs buf last w = (e, d) ->
  closes (d_trace d) = (match e with Returned => 1 | _ => 0 end) /\ e <> Panicked.
Proof.
  revert buf last w e d. induction evs as [|[|[|x c]| |] evs IH]; intros buf last w e d; cbn [serve];
    try by intros [= <- <-].
  pose proof (drained_exit cfg _ _ _ _ (drain_drained cfg (buf ++ x :: c) last w)) as (Hp & Hf & Hc & _).
  destruct (drain cfg (buf ++ x :: c) last w) as [ex b l w' tr]. simpl in *.
  destruct ex; try done; try (by intros [= <- <-]).
  destruct (serve cfg evs b l w') as [e' d'] eqn:Es. intros [= <- <-].
  apply IH in Es as [He Hne]. split; [|done]. cbn [d_trace emit closes foldr app].
  change (foldr _ 0 (tr ++ d_trace d')) with (closes (tr ++ d_trace d')).
  rewrite closes_app, Hc, He. done.
Qed.

(** ** Lemmas: the counters *)

(** Every received frame is a keepalive, executed, failed, or still pending. *)
Definition frames_balanced (e : Exit) (es : list Effect) : Prop :=
  total frames_received es
  = total keepalives_received es + total frames_executed es + total execute_errors es
    + (if decide (e = Pending) then 1 else 0).

Lemma drained_balanced buf last w d :
  drained cfg buf last w d -> frames_balanced (d_exit d) (d_trace d).
Proof.
  unfold frames_balanced.
  induction 1; cbn [d_exit d_trace emit] in *; rewrite ?total_app; try (vm_compute; reflexivity);
    repeat match goal with |- context [total ?c (?x :: ?l)] =>
      let v := eval vm_compute in (total c (x :: l)) in change (total c (x :: l)) with v end; lia.
Qed.

End HandlerLemmas.

(** ** Lemmas: a reliable world serves every request *)

(** The cluster answers every request, the socket takes every write, and the
    clock advances by at most the frame timeout, in the worlds [good] that
    the run stays in. *)
Class Reliable `{HandlerEnv W} (cfg : Config) (good : W -> Prop) (answer : bool -> bytes -> bytes) : Prop := {
  rel_execute isw f w : good w ->
    exists w', execute isw f w = (Some (Ok (answer isw f)), w') /\ good w';
  rel_write b w : good w -> exists w', write_all b w = (true, w') /\ good w';
  rel_flush w : good w -> good (flush w);
  rel_now w : good w -> good (snd (now w));
  rel_time w w' : good w -> good w' -> fst (now w') - fst (now w) <= frame_timeout cfg
}.

Lemma requests_prefix `{Reqwest} b more : requests b `prefix_of` requests (b ++ more).
Proof.
  remember (length b) as n eqn:Hn. revert b Hn.
  induction (lt_wf n) as [n _ IH]. intros b ->.
  rewrite (requests_eq b). destruct (try_decode_router b) as [[|fl seg w sf off c|e]|] eqn:Hd;
    try apply prefix_nil.
  - rewrite (requests_frame _ _ _ _ _ _ _ _ Hd). apply prefix_cons.
    pose proof (decode_frame_len _ _ _ _ _ _ _ Hd). pose proof (drop_shorter b fl ltac:(lia)).
    by eapply IH.
  - destruct (decode_error_cons _ _ Hd) as (x & r & ->).
    rewrite (requests_error _ _ _ _ Hd), <- requests_to_magic. change (drop 1 (x :: r)) with r.
    eapply IH; [|done]. simpl. lia.
Qed.

Section ReliableLemmas.
Context `{HandlerEnv W} (cfg : Config).

Lemma drained_shrinks buf last w d : drained cfg buf last w d -> zlen (d_buf d) <= zlen buf.
Proof.
  induction 1; cbn [d_buf emit] in *; rewrite ?zlen_drop in *; try (pose proof (zlen_nonneg buf); lia).
  - pose proof (to_magic_length r). unfold zlen in *. simpl. lia.
  - destruct H4 as [k ->]. zl.
Qed.

Context (good : W -> Prop) (answer : bool -> bytes -> bytes) `{!Reliable cfg good answer}.

Definition seen (t : Z) : Prop := exists w, good w /\ t = fst (now w).

Lemma seen_now w t w' : good w -> now w = (t, w') -> good w' /\ seen t.
Proof.
  intros Hw Hn. split; [|exists w; by rewrite Hn].
  replace w' with (snd (now w)) by by rewrite Hn. by apply (rel_now (cfg := cfg) (answer := answer)).
Qed.

(** Every request is answered, in order, and the loop waits for more bytes. *)
Lemma drained_reliable buf last w d :
  drained cfg buf last w d -> good w -> seen last -> zlen buf <= max_buffer_size cfg ->
  Forall (fun q => q_len q <= max_frame_size cfg) (requests buf) ->
  d_exit d = BreakInner /\ good (d_world d) /\ seen (d_last d)
  /\ written (d_trace d) = map (fun e => answer (fst e) (snd e)) (executed (d_trace d)).
Proof.
  induction 1; intros Hg Hs Hb Hq; cbn [d_exit d_world d_last d_trace emit]; try lia.
  - destruct Hs as (w0 & Hw0 & ->). pose proof (rel_time (cfg := cfg) (answer := answer) w0 w Hw0 Hg) as Ht.
    rewrite H3 in Ht. simpl in Ht. lia.
  - destruct (seen_now _ _ _ Hg H3). done.
  - rewrite requests_eq, H2 in Hq. apply Forall_cons in Hq as [Hq _]. simpl in Hq. lia.
  - destruct (seen_now _ _ _ Hg H4) as [Hg1 Hs1]. rewrite requests_eq, H2 in Hq. apply Forall_cons in Hq as [_ Hq].
    destruct IHdrained as (He & Hw' & Hl & Ht); [done|done|zl|done|].
    by rewrite executed_app, written_app, Ht.
  - destruct (seen_now _ _ _ Hg H5) as [Hg1 _]. destruct (rel_execute (cfg := cfg) isw sf w1 Hg1) as (w' & He & _).
    congruence.
  - destruct (seen_now _ _ _ Hg H5) as [Hg1 _]. destruct (rel_execute (cfg := cfg) isw sf w1 Hg1) as (w' & He & _).
    congruence.
  - destruct (seen_now _ _ _ Hg H5) as [Hg1 _]. destruct (rel_execute (cfg := cfg) isw sf w1 Hg1) as (w' & He & Hg2).
    destruct (rel_write (cfg := cfg) (answer := answer) resp w2) as (w'' & Hw & _); congruence.
  - destruct (seen_now _ _ _ Hg H5) as [Hg1 Hs1]. rewrite requests_eq, H2 in Hq. apply Forall_cons in Hq as [_ Hq].
    destruct (rel_execute (cfg := cfg) isw sf w1 Hg1) as (w' & He & Hg2). rewrite H6 in He. injection He as -> <-.
    destruct (rel_write (cfg := cfg) (answer := answer) (answer isw sf) w2 Hg2) as (w'' & Hw & Hg3).
    rewrite H7 in Hw. injection Hw as <-.
    destruct IHdrained as (Hx & Hw' & Hl & Ht);
      [by apply (rel_flush (cfg := cfg) (answer := answer))|done|zl|done|].
    split_and!; [done|done|done|]. by rewrite executed_app, written_app, Ht.
  - destruct IHdrained as (Hx & Hw' & Hl & Ht); [done|done| | |].
    + pose proof (to_magic_length r). unfold zlen in *. simpl in *. lia.
    + rewrite requests_eq, H2 in Hq. done.
    + by rewrite executed_app, written_app, Ht.
  - done.
Qed.

End ReliableLemmas.

(** ** Lemmas: encoded requests, admission *)

(** The id a router frame is decoded with is the one of its shard frame. *)
Lemma decode_id `{Reqwest} buf fl seg w sf off c :
  try_decode_router buf = Some (Frame fl seg w sf off c) -> sf.[1; 5] = Some (le_bytes 4 c) /\ 0 <= c < 2 ^ 32.
Proof.
  intros (wb & rest & _ & _ & _ & _ & _ & Hc)%decode_sound. destruct (slice sf 1 5) as [id|] eqn:E; [|done].
  injection Hc as <-. apply slice_inv in E as (_ & _ & _ & Hz). split.
  - f_equal. rewrite <- (le_bytes_le_val id) at 1. f_equal. unfold zlen in Hz. lia.
  - pose proof (le_val_range id) as Hr. rewrite Hz in Hr. exact Hr.
Qed.

(** A request as a router sends it. *)
Record ClientReq := mkClientReq { c_segment : string; c_write : bool; c_clr : Z; c_payload : bytes }.

Definition c_encode (q : ClientReq) : bytes :=
  prepend_router_header (c_segment q) (c_write q) (c_clr q) (c_payload q).

Definition c_wf (q : ClientReq) : Prop :=
  zlen (str_bytes (c_segment q)) <= 255 /\ utf8_valid (str_bytes (c_segment q)) = true
  /\ 0 <= c_clr q < 2 ^ 32
  /\ 11 + zlen (str_bytes (c_segment q)) + zlen (c_payload q) <= 16 * 1024 * 1024.

Definition c_req (q : ClientReq) : Req :=
  mkReq (zlen (c_encode q)) (c_segment q) (c_write q) (prepend_header (c_clr q) (c_payload q)).

Lemma decode_client `{Reqwest} q rest : c_wf q ->
  try_decode_router (c_encode q ++ rest)
  = Some (Frame (zlen (c_encode q)) (c_segment q) (c_write q) (prepend_header (c_clr q) (c_payload q))
      (8 + zlen (str_bytes (c_segment q))) (c_clr q)).
Proof. intros (Hs & Hu & Hc & Ht). by apply decode_encoded. Qed.

Lemma requests_encoded `{Reqwest} qs :
  Forall c_wf qs -> requests (concat (map c_encode qs)) = map c_req qs.
Proof.
  induction 1 as [|q qs Hq _ IH]; [done|]. cbn [map concat].
  rewrite requests_eq, decode_client by done. rewrite drop_zlen_app. by rewrite IH.
Qed.

(** Part of an encoded request is not decided yet. *)
Lemma decode_partial `{Reqwest} q part more :
  c_wf q -> c_encode q = part ++ more -> more <> [] -> try_decode_router part = Some NeedMore.
Proof.
  intros Hwf He Hm. destruct (decode_total part) as [r Hr].
  destruct r as [|fl seg w sf off c|e]; [done| |].
  all: pose proof (decode_app _ more _ Hr ltac:(done)) as Ha; rewrite <- He in Ha;
    pose proof (decode_client q [] Hwf) as Hd; rewrite app_nil_r in Hd; rewrite Hd in Ha; try done.
  injection Ha as Hfl _ _ _ _ _. pose proof (decode_frame_len _ _ _ _ _ _ _ Hr) as Hl.
  rewrite <- Hfl, He, zlen_app in Hl. destruct more; [done|]. rewrite zlen_cons in Hl.
  pose proof (zlen_nonneg more). lia.
Qed.

(** What of the first [n] bytes of the stream belongs to a frame that is not
    complete with them. *)
Fixpoint open_bytes (qs : list ClientReq) (n : Z) : Z :=
  match qs with
  | [] => n
  | q :: r => if zlen (c_encode q) <=? n then open_bytes r (n - zlen (c_encode q)) else n
  end.

(** The bytes [b] are less than the first request. *)
Definition incomplete (qs : list ClientReq) (b : bytes) : Prop :=
  match qs with [] => b = [] | q :: _ => zlen b < zlen (c_encode q) end.

Lemma open_bytes_app qs1 qs2 n :
  0 <= n -> open_bytes (qs1 ++ qs2) (zlen (concat (map c_encode qs1)) + n) = open_bytes qs2 n.
Proof.
  intros Hn. induction qs1 as [|q qs1 IH]; [done|]. cbn [map concat app open_bytes]. rewrite zlen_app.
  pose proof (zlen_nonneg (concat (map c_encode qs1))). rewrite (proj2 (Z.leb_le _ _)) by lia.
  rewrite <- IH. f_equal. lia.
Qed.

Lemma open_bytes_incomplete qs b : incomplete qs b -> open_bytes qs (zlen b) = zlen b.
Proof. destruct qs as [|q r]; simpl; [done|]. intros Hl. by rewrite (proj2 (Z.leb_gt _ _)). Qed.

Lemma open_bytes_le qs n : open_bytes qs n <= n.
Proof.
  revert n. induction qs as [|q r IH]; intros n; simpl; [done|].
  destruct (_ <=? n); [|done]. specialize (IH (n - zlen (c_encode q))). pose proof (zlen_nonneg (c_encode q)). lia.
Qed.

(** A request at the front of a stream is decoded as soon as it is complete. *)
Lemma stream_decode `{Reqwest} q qs buf more :
  c_wf q -> buf ++ more = concat (map c_encode (q :: qs)) ->
  try_decode_router buf = Some NeedMore /\ zlen buf < zlen (c_encode q)
  \/ exists off, try_decode_router buf
       = Some (Frame (zlen (c_encode q)) (c_segment q) (c_write q) (prepend_header (c_clr q) (c_payload q)) off (c_clr q)).
Proof.
  intros Hq Hs. pose proof (decode_client q (concat (map c_encode qs)) Hq) as Hd. cbn [map concat] in Hs. rewrite <- Hs in Hd.
  destruct (decode_total buf) as [r Hr]. destruct r as [|fl seg w sf off c|e].
  - left. split; [done|]. destruct (Z.ltb_spec (zlen buf) (zlen (c_encode q))) as [|Hle]; [done|exfalso].
    assert (Hb : buf = c_encode q ++ drop (length (c_encode q)) buf).
    { apply (f_equal (take (length (c_encode q)))) in Hs. rewrite take_app_le, take_app_length in Hs by (unfold zlen in Hle; lia).
      rewrite <- Hs at 1. by rewrite take_drop. }
    rewrite Hb, decode_client in Hr by done. discriminate.
  - right. rewrite (decode_app _ more _ Hr) in Hd by done. injection Hd as -> -> -> -> -> ->. eauto.
  - rewrite (decode_app _ more _ Hr) in Hd by done. discriminate.
Qed.

(** The first request and the rest of a stream. *)
Lemma stream_front q qs (buf more : bytes) :
  12 <= zlen (c_encode q) <= zlen buf -> buf ++ more = concat (map c_encode (q :: qs)) ->
  buf = c_encode q ++ drop (Z.to_nat (zlen (c_encode q))) buf
  /\ drop (Z.to_nat (zlen (c_encode q))) buf ++ more = concat (map c_encode qs).
Proof.
  intros Hl Hs. cbn [map concat] in Hs. assert (Hb : take (length (c_encode q)) buf = c_encode q).
  { apply (f_equal (take (length (c_encode q)))) in Hs. by rewrite take_app_le, take_app_length in Hs by (unfold zlen in Hl; lia). }
  replace (Z.to_nat (zlen (c_encode q))) with (length (c_encode q)) by (unfold zlen; lia).
  split; [rewrite <- Hb at 1; by rewrite take_drop|].
  rewrite <- (take_drop (length (c_encode q)) buf), Hb, <- app_assoc in Hs. by apply app_inv_head in Hs.
Qed.

(** A pass over encoded requests takes the complete ones. *)
Lemma drained_encoded `{HandlerEnv W} (cfg : Config) buf last w d qs more :
  drained cfg buf last w d -> d_exit d = BreakInner -> Forall c_wf qs ->
  buf ++ more = concat (map c_encode qs) ->
  exists qs1 qs2, qs = qs1 ++ qs2 /\ buf = concat (map c_encode qs1) ++ d_buf d /\ incomplete qs2 (d_buf d).
Proof.
  intros Hd Hx Hwf. revert qs Hwf. induction Hd as [| |buf last w t w1 Hm Hn Hw Ht| |buf last w fl isw sf off c t w1 d Hm Hn Hf Hw _ IH
    | | | |buf last w fl seg isw sf off c t w1 resp w2 w3 d Hm Hn Hk Hf Hw He Hwr _ IH
    |x r last w e d Hm Hn Hg _ IH|x r last w e q Hm Hn]; simpl in Hx; try done; intros [|q0 qs] Hwf Hs.
  all: try (apply app_eq_nil in Hs as [Hb _]; try discriminate Hb; subst buf; rewrite decode_short in Hn by done;
    try discriminate Hn; by exists [], []).
  all: apply Forall_cons in Hwf as [Hq Hwf];
    destruct (stream_decode q0 qs _ _ Hq Hs) as [[Hd0 Hl]|[off0 Hd0]]; rewrite Hd0 in Hn; try discriminate.
  - by exists [], (q0 :: qs).
  - injection Hn as <- _ <- <- <- <-. pose proof (decode_frame_len _ _ _ _ _ _ _ Hd0) as Hl.
    destruct (stream_front _ _ _ _ Hl Hs) as [Hb Hs'].
    destruct (IH Hx qs Hwf Hs') as (qs1 & qs2 & -> & Hb' & Hi). exists (q0 :: qs1), qs2.
    split_and!; [done| |done]. cbn [map concat d_buf emit]. rewrite <- app_assoc, <- Hb'. exact Hb.
  - injection Hn as <- _ <- <- <- <-. pose proof (decode_frame_len _ _ _ _ _ _ _ Hd0) as Hl.
    destruct (stream_front _ _ _ _ Hl Hs) as [Hb Hs'].
    destruct (IH Hx qs Hwf Hs') as (qs1 & qs2 & -> & Hb' & Hi). exists (q0 :: qs1), qs2.
    split_and!; [done| |done]. cbn [map concat d_buf emit]. rewrite <- app_assoc, <- Hb'. exact Hb.
Qed.

Section Served.
Context `{HandlerEnv W} (cfg : Config) (good : W -> Prop) (answer : bool -> bytes -> bytes) `{!Reliable cfg good answer}.

(** The reads fit into the buffer, [n] bytes of the stream being there. *)
Definition fits (qs : list ClientReq) (n : Z) (chunks : list bytes) : Prop :=
  forall i c, chunks !! i = Some c -> open_bytes qs (n + zlen (concat (take i chunks))) + zlen c <= max_buffer_size cfg.

Lemma fits_whole qs chunks : zlen (concat chunks) <= max_buffer_size cfg -> fits qs 0 chunks.
Proof.
  intros Hm i c Hi. pose proof (open_bytes_le qs (0 + zlen (concat (take i chunks)))) as Ho.
  apply take_drop_middle in Hi. rewrite <- Hi, concat_app, zlen_app in Hm. cbn [concat] in Hm. rewrite zlen_app in Hm.
  pose proof (zlen_nonneg (concat (drop (S i) chunks))). lia.
Qed.

Lemma serve_encoded chunks qs buf last w :
  good w -> seen good last -> Forall c_wf qs -> Forall (fun c => c <> []) chunks ->
  buf ++ concat chunks = concat (map c_encode qs) -> incomplete qs buf -> fits qs (zlen buf) chunks ->
  Forall (fun q => zlen (c_encode q) <= max_frame_size cfg) qs ->
  exists d, serve cfg (map SelRead chunks) buf last w = (Running, d)
  /\ written (d_trace d) = map (fun e => answer (fst e) (snd e)) (executed (d_trace d)).
Proof.
  revert qs buf last w. induction chunks as [|[|x c] chunks IH]; intros qs buf last w Hg Hs Hwf Hne Hb Hi Hfit Hlen.
  { by eexists. }
  { by apply Forall_cons in Hne as [? _]. }
  apply Forall_cons in Hne as [_ Hne]. cbn [map serve]. cbn [concat] in Hb. rewrite app_assoc in Hb.
  set (chunk := x :: c) in *. pose proof (drain_drained cfg (buf ++ chunk) last w) as Hd.
  assert (Hreq : requests (concat (map c_encode qs)) = map c_req qs) by by apply requests_encoded.
  destruct (drained_reliable cfg good answer _ _ _ _ Hd Hg Hs) as (Hx & Hg' & Hs' & Ht).
  { pose proof (Hfit 0%nat chunk eq_refl) as Hft. cbn [take concat] in Hft. rewrite zlen_nil, Z.add_0_r in Hft.
    rewrite (open_bytes_incomplete _ _ Hi) in Hft. by rewrite zlen_app. }
  { destruct (requests_prefix (buf ++ chunk) (concat chunks)) as [k Hk]. rewrite Hb, Hreq in Hk.
    assert (Hall : Forall (fun q => q_len q <= max_frame_size cfg) (map c_req qs)) by by apply Forall_map.
    rewrite Hk in Hall. by apply Forall_app in Hall as [? _]. }
  destruct (drained_encoded cfg _ _ _ _ qs (concat chunks) Hd Hx Hwf Hb) as (qs1 & qs2 & -> & Hbuf & Hi2).
  destruct (drain cfg (buf ++ chunk) last w) as [ex b l w' tr].
  cbn [d_exit d_buf d_last d_world d_trace] in *. subst ex.
  apply Forall_app in Hwf as [_ Hwf]. apply Forall_app in Hlen as [_ Hlen].
  destruct (IH qs2 b l w' Hg' Hs' Hwf Hne) as (d' & -> & Ht'); [|done| |done|].
  { rewrite map_app, concat_app, Hbuf, <- app_assoc in Hb. by apply app_inv_head in Hb. }
  { intros i c' Hc. pose proof (Hfit (S i) c' Hc) as Hft. cbn [take concat] in Hft.
    rewrite zlen_app, Z.add_assoc, <- zlen_app, Hbuf, zlen_app, <- Z.add_assoc, open_bytes_app in Hft; [done|].
    pose proof (zlen_nonneg b). pose proof (zlen_nonneg (concat (take i chunks))). lia. }
  eexists. split; [done|]. cbn [d_trace emit app written executed flat_map].
  change (flat_map _ ?l) with (written l) at 1. change (flat_map _ ?l) with (executed l).
  by rewrite written_app, executed_app, map_app, Ht, Ht'.
Qed.

(** A whole connection of encoded requests: what is executed, and that each
    answer is written. *)
Lemma handle_reliable qs chunks w :
  good w -> Forall c_wf qs -> Forall (fun c => c <> []) chunks ->
  concat chunks = concat (map c_encode qs) -> fits qs 0 chunks ->
  Forall (fun q => zlen (c_encode q) <= max_frame_size cfg) qs ->
  exists d, handle_connection cfg (map SelRead chunks) w = (Running, d)
  /\ executed (d_trace d) = executions (map c_req qs)
  /\ written (d_trace d) = map (fun e => answer (fst e) (snd e)) (executed (d_trace d)).
Proof.
  intros Hg Hwf Hne Hb Hmax Hlen. unfold handle_connection. destruct (now w) as [t w'] eqn:En.
  destruct (seen_now cfg good answer _ _ _ Hg En) as [Hg' Hs].
  destruct (serve_encoded chunks qs [] t w') as (d & Hd & Ht); try done.
  { destruct qs as [|q qs]; [done|]. simpl. pose proof (decode_frame_len _ _ _ _ _ _ _ (decode_client q [] (Forall_inv Hwf))).
    rewrite zlen_nil. lia. }
  exists d. split_and!; [done| |done].
  destruct (serve_requests cfg _ _ _ _ _ Hd) as (qs' & He & _ & Hq); [done|].
  assert (Hrc : received (map SelRead chunks) = concat chunks) by (clear; induction chunks; simpl; congruence).
  simpl in Hq. rewrite Hrc, Hb, requests_encoded in Hq by done. by rewrite He, <- Hq.
Qed.

End Served.

(** ** Lemmas: requests the cluster fails

    A world that remembers the outcomes of [execute], in order; every world
    can be made to. *)
Abbreviation Outcomes := (list (option (Result bytes RZError))).

Definition remembering `{HandlerEnv W} : HandlerEnv (W * Outcomes) := {|
  now w := let '(t, w') := now (fst w) in (t, (w', snd w));
  execute isw f w := let '(r, w') := execute isw f (fst w) in (r, (w', snd w ++ [r]));
  write_all b w := let '(ok, w') := write_all b (fst w) in (ok, (w', snd w));
  flush w := (flush (fst w), snd w)
|}.

Section Outcomes.
Context `{RQ : Reqwest} `{E : @HandlerEnv RQ W} (cfg : Config).

#[local] Existing Instance remembering | 0.

(** How the outcomes of a run show in its trace: the answers are the replies;
    a failed request is the last, and its reply an error reply under its id. *)
Inductive replied : Exit -> Outcomes -> list Effect -> Prop :=
| rp_answered x ws es :
    x <> Pending -> written es = ws -> length (executed es) = length ws -> replied x (map (fun b => Some (Ok b)) ws) es
| rp_failed err ws l isw f id es :
    written es = ws ++ [build_error_response id 4] -> executed es = l ++ [(isw, f)] -> length l = length ws ->
    f.[1; 5] = Some (le_bytes 4 id) -> 0 <= id < 2 ^ 32 ->
    replied Return (map (fun b => Some (Ok b)) ws ++ [Some (Err err)]) es
| rp_pending ws es : replied Pending (map (fun b => Some (Ok b)) ws ++ [None]) es.

Lemma replied_app x ws os es es' :
  written es = ws -> length (executed es) = length ws -> replied x os es' ->
  replied x (map (fun b => Some (Ok b)) ws ++ os) (es ++ es').
Proof.
  intros Hw Hl. destruct 1 as [x ws' es' Hx Hw' Hl'|err ws' l isw f id es' Hw' He' Hl' Hf Hid|ws' es'].
  - rewrite <- map_app. apply rp_answered; [done|by rewrite written_app, Hw, Hw'|].
    rewrite executed_app, !length_app. lia.
  - rewrite app_assoc, <- map_app. eapply (rp_failed _ _ (executed es ++ l)); [|..]; try done.
    + by rewrite written_app, Hw, Hw', app_assoc.
    + by rewrite executed_app, He', app_assoc.
    + rewrite !length_app. lia.
  - rewrite app_assoc, <- map_app. constructor.
Qed.

Lemma remembering_now (w : W * Outcomes) t w' : now w = (t, w') -> snd w' = snd w.
Proof. simpl. destruct (now (fst w)). by intros [= _ <-]. Qed.

Lemma remembering_write b (w : W * Outcomes) k w' : write_all b w = (k, w') -> snd w' = snd w.
Proof. simpl. destruct (write_all b (fst w)). by intros [= _ <-]. Qed.

Lemma remembering_execute isw f (w : W * Outcomes) r w' : execute isw f w = (r, w') -> snd w' = snd w ++ [r].
Proof. simpl. destruct (execute isw f (fst w)). by intros [= <- <-]. Qed.

Lemma drained_replied buf last (w : W * Outcomes) d :
  drained cfg buf last w d -> exists os, snd (d_world d) = snd w ++ os /\ replied (d_exit d) os (d_trace d).
Proof.
  assert (Hnone : forall (w w' : W * Outcomes) x es, snd w' = snd w -> x <> Pending -> written es = [] -> executed es = [] ->
    exists os, snd w' = snd w ++ os /\ replied x os es).
  { intros w0 w0' x es Hw Hx Hws He. exists []. split; [by rewrite app_nil_r|]. apply (rp_answered x []); [done|done|by rewrite He]. }
  assert (Hmore : forall (w w1 : W * Outcomes) ws es (d : Drained (W * Outcomes)), snd w1 = snd w ++ map (fun b => Some (Ok b)) ws ->
    written es = ws -> length (executed es) = length ws ->
    (exists os, snd (d_world d) = snd w1 ++ os /\ replied (d_exit d) os (d_trace d)) ->
    exists os, snd (d_world (emit es d)) = snd w ++ os /\ replied (d_exit (emit es d)) os (d_trace (emit es d))).
  { intros w0 w1 ws es d0 Hw Hws He (os & Hos & Hr). eexists. split; [|exact (replied_app _ ws _ es _ Hws He Hr)].
    simpl. by rewrite Hos, Hw, <- app_assoc. }
  induction 1 as [buf last w|buf last w t w1 ? ? Hn|buf last w t w1 ? ? Hn|buf last w
    |buf last w fl isw sf off c t w1 d ? Hd ? Hn _ IH|buf last w fl seg isw sf off c t w1 w2 ? Hd ? ? Hn Hx
    |buf last w fl seg isw sf off c t w1 e w2 ok w3 ? Hd ? ? Hn Hx Hw|buf last w fl seg isw sf off c t w1 resp w2 w3 ? Hd ? ? Hn Hx Hw
    |buf last w fl seg isw sf off c t w1 resp w2 w3 d ? Hd ? ? Hn Hx Hw _ IH|x r last w e d ? ? ? _ IH|x r last w e q];
    try apply remembering_now in Hn; try apply remembering_execute in Hx; try apply remembering_write in Hw.
  1-4: by apply Hnone.
  - eapply (Hmore w w1 []); [by rewrite Hn, app_nil_r|done|done|exact IH].
  - exists [None]. split; [by rewrite <- Hn|]. apply (rp_pending []).
  - exists [Some (Err e)]. split; [by rewrite <- Hn, <- Hx, <- Hw|]. apply decode_id in Hd as [Hf Hid].
    by apply (rp_failed e [] [] isw sf c).
  - exists [Some (Ok resp)]. split; [by rewrite <- Hn, <- Hx, <- Hw|]. by apply (rp_answered _ [resp]).
  - eapply (Hmore w (flush w3) [resp]); [simpl; by rewrite Hw, Hx, Hn|done|done|exact IH].
  - eapply (Hmore w w []); [by rewrite app_nil_r|done|done|exact IH].
  - by apply Hnone.
Qed.

Lemma serve_replied evs buf last (w : W * Outcomes) e d :
  serve cfg evs buf last w = (e, d) ->
  exists os x, snd (d_world d) = snd w ++ os /\ replied x os (d_trace d) /\ (x = Return -> e = Returned).
Proof.
  revert buf last w e d. induction evs as [|[|[|b c]| |] evs IH]; intros buf last w e d; cbn [serve];
    try (intros [= <- <-]; exists [], Return; split; [by rewrite app_nil_r|split; [by apply (rp_answered _ [])|done]]).
  - intros [= <- <-]. exists [], BreakInner. split; [by rewrite app_nil_r|]. by split; [apply (rp_answered _ [])|].
  - set (chunk := b :: c). pose proof (drained_replied _ _ _ _ (drain_drained cfg (buf ++ chunk) last w)) as (os & Hos & Hr).
    destruct (drain cfg (buf ++ chunk) last w) as [ex b' l w' tr]. cbn [d_exit d_buf d_last d_world d_trace] in *.
    assert (Hone : replied ex os ([Incr bytes_received (zlen chunk)] ++ tr)) by (by apply (replied_app ex []) ).
    destruct ex.
    2: { intros [= <- <-]. by exists os, Return. }
    2: { intros [= <- <-]. by exists os, Pending. }
    2: { intros [= <- <-]. by exists os, Panic. }
    2: { intros [= <- <-]. by exists os, NoFuel. }
    destruct (serve cfg evs b' l w') as [e' d'] eqn:Es. intros [= <- <-].
    destruct (IH _ _ _ _ _ Es) as (os' & x & Hos' & Hr' & Hx). inversion Hone; subst.
    eexists _, x. split; [|split; [|exact Hx]]; [|eapply replied_app; [reflexivity|eassumption|exact Hr']].
    simpl. by rewrite Hos', Hos, <- app_assoc.
Qed.

End Outcomes.

(** ** Lemmas: admission *)

(** The counter of active connections is exact, and [run] returns only because
    of the token, with [Ok]. *)
Definition server_inv (cfg : Config) (s : Server) : Prop :=
  (0 <= live s /\ 0 <= pending s /\ active s = live s + pending s /\ active s <= max_connections cfg)
  /\ (returned s = None \/ returned s = Some (Ok ()) /\ cancelled s = true).

Lemma server_step_inv cfg s s' : server_step cfg s s' -> server_inv cfg s -> server_inv cfg s'.
Proof.
  unfold server_inv. intros Hs [Hc Hr]. destruct Hs as [s ev r s' Hn He Hs|s Hl|s msg Hm He|s].
  - destruct ev as [|[u|e]]; simpl in *; injection Hs as <- <-; simpl; [by auto| |by auto].
    split; [|by left]. unfold accept. destruct (Z.leb_spec (max_connections cfg) (active s)); simpl; lia.
  - simpl. split; [lia|done].
  - destruct msg as [[|]|]; simpl in *; (split; [lia|done]).
  - simpl. split; [done|]. naive_solver.
Qed.

Lemma server_reachable_inv cfg s :
  0 <= max_connections cfg -> rtc (server_step cfg) server_new s -> server_inv cfg s.
Proof.
  intros Hm Hr. assert (server_inv cfg server_new) as Hi by (unfold server_inv; simpl; split; [lia|by left]).
  induction Hr; eauto using server_step_inv.
Qed.

(** ** Concrete worlds *)

(** A cluster that echoes the frame, a socket that never fails, a frozen clock. *)
Definition echo_env : @HandlerEnv reqwest_text unit := {|
  now := fun w => (0, w);
  execute := fun _ f w => (Some (Ok f), w);
  write_all := fun _ w => (true, w);
  flush := fun w => w |}.

(** A cluster without nodes. *)
Definition failing_env : @HandlerEnv reqwest_text unit := {|
  now := fun w => (0, w);
  execute := fun _ _ w => (Some (Err NoLeaderAvailable), w);
  write_all := fun _ w => (true, w);
  flush := fun w => w |}.

(** A cluster that has followers but no leader. *)
Definition picky_env : @HandlerEnv reqwest_text unit := {|
  now := fun w => (0, w);
  execute := fun isw f w => (Some (if isw then Err NoLeaderAvailable else Ok f), w);
  write_all := fun _ w => (true, w);
  flush := fun w => w |}.

(** The clock of a peer that waits [wait] before each read. *)
Definition clock_env (wait : Z) : @HandlerEnv reqwest_text Z := {|
  now := fun w => (w, w + wait);
  execute := fun _ f w => (Some (Ok f), w);
  write_all := fun _ w => (true, w);
  flush := fun w => w |}.

Definition test_config : Config := default_config "zone1" "shard1" "bridge-1" "rzid:8080" "rzpoint:9090".

Lemma echo_reliable :
  @Reliable reqwest_text unit echo_env test_config (fun _ => True) (fun _ f => f).
Proof. constructor; simpl; eauto. intros. vm_compute. discriminate. Qed.

(** ** Properties *)

Section Properties.
Context `{HandlerEnv W} (cfg : Config).

(** C9. As long as a connection is open, what the handler has executed is a
    function of the bytes received alone: the requests of the byte stream
    (frames from the front, after garbage from the next magic byte on) less
    the keepalives, in order, however the stream is cut into reads and
    whatever the clock, the cluster and the socket do. *)
Theorem handler_chunking evs w d :
  handle_connection cfg evs w = (Running, d) ->
  executed (d_trace d) = executions (requests (received evs)).
Proof.
  unfold handle_connection. destruct (now w) as [t w']. intros Hs.
  destruct (serve_requests cfg _ _ _ _ _ Hs) as (qs & He & _ & Hq); [done|].
  simpl in Hq. by rewrite Hq.
Qed.

(** C5. Requests that the routers encode (a segment name of at most 255 bytes,
    an id of 32 bits, a frame of at most 16 MiB) are served: with a cluster that
    answers, a socket that writes and a clock within the frame timeout, when the
    encoded requests arrive in any reads, each non-keepalive request is executed
    once, in order, with its write flag and its shard frame, its answer is
    written, in order, and the connection stays open.  The limits of the
    configuration are the only condition: no frame is longer than
    [max_frame_size], and at no read does what has come of a frame not yet
    complete, with the bytes of the read, exceed [max_buffer_size]; how much
    comes over the connection in all does not matter. *)
Theorem handler_serves qs chunks good answer w :
  Reliable cfg good answer -> good w -> Forall c_wf qs -> Forall (fun c => c <> []) chunks ->
  concat chunks = concat (map c_encode qs) ->
  Forall (fun q => zlen (c_encode q) <= max_frame_size cfg) qs ->
  (forall i c, chunks !! i = Some c -> open_bytes qs (zlen (concat (take i chunks))) + zlen c <= max_buffer_size cfg) ->
  exists d, handle_connection cfg (map SelRead chunks) w = (Running, d)
  /\ executed (d_trace d) = executions (map c_req qs)
  /\ written (d_trace d) = map (fun e => answer (fst e) (snd e)) (executions (map c_req qs)).
Proof.
  intros Hrel Hg Hwf Hne Hb Hlen Hfit.
  destruct (handle_reliable cfg good answer qs chunks w) as (d & Hd & He & Hw); try done.
  exists d. by rewrite <- He.
Qed.

(** C39. Every way a handler can end sends exactly one close message, and a
    handler that is still running has sent none; a handler never panics. *)
Theorem handler_closes_once evs w e d :
  handle_connection cfg evs w = (e, d) ->
  closes (d_trace d) = (match e with Returned => 1 | _ => 0 end) /\ e <> Panicked.
Proof. unfold handle_connection. destruct (now w) as [t w']. apply serve_closes. Qed.

(** The inner loop terminates on every buffer, without panicking, after
    at most one iteration per byte; when it waits for more bytes it has
    bounded what it keeps by [max_buffer_size]. *)
Theorem drain_loop_terminates fuel buf last w :
  (length buf < fuel)%nat ->
  let d := drain_loop cfg fuel buf last w in
  d_exit d <> Panic /\ d_exit d <> NoFuel
  /\ (d_exit d = BreakInner -> zlen (d_buf d) <= max_buffer_size cfg).
Proof.
  intros Hf d. destruct (drained_exit cfg _ _ _ _ (drain_loop_drained cfg fuel buf last w Hf)) as (? & ? & _ & ?).
  done.
Qed.

(** The counters add up: in one pass over the buffer every frame counted
    in [frames_received] is counted once more, as a keepalive, as executed or
    as an execution error, but for the one whose execution has not
    completed. *)
Theorem drain_counters buf last w :
  let d := drain cfg buf last w in
  total frames_received (d_trace d)
  = total keepalives_received (d_trace d) + total frames_executed (d_trace d)
    + total execute_errors (d_trace d) + (if decide (d_exit d = Pending) then 1 else 0).
Proof. exact (drained_balanced cfg _ _ _ _ (drain_drained cfg buf last w)). Qed.

(** C32. When the cluster fails a request, the router gets an answer.  For any
    cluster, socket and clock (the worlds also remember the outcomes of
    [execute], in order), any bytes and any way they arrive: if the [i]th
    request that was executed failed, all before it were answered and their
    answers written, in order; then one complete [ERROR] frame was written,
    under the correlation id the router itself chose for the failed request; it
    was the last request executed, and the handler has returned with one close
    message. *)
Theorem handler_error_reply evs w i err e d :
  @handle_connection _ _ remembering cfg evs (w, []) = (e, d) ->
  snd (d_world d) !! i = Some (Some (Err err)) ->
  exists l isw f id ws reply,
    executed (d_trace d) = l ++ [(isw, f)] /\ length l = i
    /\ snd (d_world d) = map (fun b => Some (Ok b)) ws ++ [Some (Err err)]
    /\ written (d_trace d) = ws ++ [reply]
    /\ f.[1; 5] = Some (le_bytes 4 id) /\ parse_shard reply = (Ok (mkHeader id x05 1, reply), [])
    /\ e = Returned /\ closes (d_trace d) = 1.
Proof.
  unfold handle_connection. destruct (@now _ _ remembering (w, [])) as [t w1] eqn:En. intros Hs Hi.
  apply remembering_now in En. simpl in En.
  pose proof (proj1 (@serve_closes _ _ remembering cfg _ _ _ _ _ _ Hs)) as Hc.
  apply serve_replied in Hs as (os & x & Hos & Hr & Hx). rewrite En in Hos. simpl in Hos. rewrite Hos in Hi |- *.
  destruct Hr as [x ws es _ _ _|err' ws l isw f id es Hw He Hl Hf Hid|ws es].
  - rewrite list_lookup_fmap in Hi. by destruct (ws !! i).
  - apply lookup_app_Some in Hi as [Hi|[Hge Hi]]; [rewrite list_lookup_fmap in Hi; by destruct (ws !! i)|].
    rewrite length_map in Hge, Hi. destruct (i - length ws)%nat as [|n] eqn:En'; [|by destruct n].
    injection Hi as ->. exists l, isw, f, id, ws, (build_error_response id 4).
    pose proof (parse_error_frame id 4 [] Hid) as Hp. cbv zeta in Hp. rewrite app_nil_r in Hp.
    rewrite (Hx eq_refl) in Hc |- *. split_and!; try done; lia.
  - apply lookup_app_Some in Hi as [Hi|[Hge Hi]]; [rewrite list_lookup_fmap in Hi; by destruct (ws !! i)|].
    destruct (i - _)%nat as [|[|n]]; done.
Qed.

(** The frame timeout measures the time since the last complete frame, not
    since the first byte of the current one: a peer that is quiet for longer
    than [frame_timeout] (the idle timeout may be far away) and whose next,
    well-formed request then arrives in two reads is disconnected at the first
    of them, and the request is never executed. *)
Theorem quiet_peer_disconnected q part more evs w t0 w1 t1 w2 :
  c_wf q -> c_encode q = part ++ more -> part <> [] -> more <> [] ->
  zlen part <= max_buffer_size cfg ->
  now w = (t0, w1) -> now w1 = (t1, w2) -> frame_timeout cfg < t1 - t0 ->
  exists d, handle_connection cfg (SelRead part :: SelRead more :: evs) w = (Returned, d)
  /\ executed (d_trace d) = [] /\ written (d_trace d) = [] /\ total timeouts (d_trace d) = 1.
Proof.
  intros Hwf He Hp Hm Hb Hn0 Hn1 Ht. pose proof (decode_partial q part more Hwf He Hm) as Hd.
  unfold handle_connection. rewrite Hn0. destruct part as [|x r] eqn:Ec; [done|]. rewrite <- Ec in *.
  cbn [serve app]. unfold drain. cbn [drain_loop]. guards.
  rewrite Hd, Hn1. guards. subst part. eexists. split_and!; reflexivity.
Qed.

End Properties.

(** C23. Admission: in every reachable state of the server the counter
    [active_connections] is the number of live handlers plus the close messages
    under way, it never goes below zero or above [max_connections], so at most
    [max_connections] handlers run at once, and a connection is accepted
    exactly while the counter is below the limit. *)
Theorem server_admission cfg s :
  0 <= max_connections cfg -> rtc (server_step cfg) server_new s ->
  active s = live s + pending s /\ 0 <= active s <= max_connections cfg
  /\ 0 <= live s <= max_connections cfg
  /\ (fst (accept cfg s) = true <-> active s < max_connections cfg).
Proof.
  intros Hm Hr. destruct (server_reachable_inv _ _ Hm Hr) as [(Hl & Hp & He & Hx) _].
  split_and!; try lia. unfold accept.
  destruct (Z.leb_spec (max_connections cfg) (active s)); simpl; split; try done; lia.
Qed.

(** ** Witnesses *)

Definition q1 : ClientReq := mkClientReq "segment_1" true 7 (str_bytes "SETROOM").
Definition q2 : ClientReq := mkClientReq KEEPALIVE_SEGMENT false 0 [].
Definition q3 : ClientReq := mkClientReq "segment_1" false 8 (str_bytes "GETROOM").

Lemma handler_chunking_witness :
  let '(e, d) := @handle_connection _ _ echo_env test_config
      [SelRead (str_bytes "xx" ++ take 9 (c_encode q1)); SelRead (drop 9 (c_encode q1) ++ c_encode q2)] tt in
  e = Running /\ executed (d_trace d)
    = executions (@requests reqwest_text (received
        [SelRead (str_bytes "xx" ++ take 9 (c_encode q1)); SelRead (drop 9 (c_encode q1) ++ c_encode q2)])).
Proof.
  split; [vm_compute; reflexivity|].
  eapply (@handler_chunking _ _ echo_env test_config). vm_compute. reflexivity.
Defined.

Lemma q_wf : Forall c_wf [q1; q2; q3].
Proof. unfold c_wf. repeat (constructor; [by repeat split; vm_compute|]). constructor. Qed.

Lemma handler_serves_witness :
  let stream := concat (map c_encode [q1; q2; q3]) in
  exists d, @handle_connection _ _ echo_env test_config (map SelRead [take 30 stream; drop 30 stream]) tt
    = (Running, d)
  /\ executed (d_trace d) = executions (map c_req [q1; q2; q3])
  /\ written (d_trace d) = map (fun e => snd e) (executions (map c_req [q1; q2; q3])).
Proof.
  intros stream. apply (@handler_serves _ _ echo_env test_config [q1; q2; q3] _ (fun _ => True) (fun _ f => f) tt);
    [exact echo_reliable|done|exact q_wf|repeat (constructor; [by vm_compute|]); constructor
    |reflexivity|repeat (constructor; [by vm_compute|]); constructor|].
  intros [|[|i]] c Hi; [injection Hi as <-; by vm_compute|injection Hi as <-; by vm_compute|discriminate Hi].
Defined.

Lemma handler_closes_once_witness :
  let '(e, d) := @handle_connection _ _ failing_env test_config [SelRead (c_encode q1)] tt in
  closes (d_trace d) = (match e with Returned => 1 | _ => 0 end) /\ e <> Panicked.
Proof.
  destruct (handle_connection _ _ _) as [e d] eqn:E.
  by apply (@handler_closes_once _ _ failing_env test_config [SelRead (c_encode q1)] tt).
Defined.

Lemma drain_loop_terminates_witness :
  let d := @drain_loop _ _ echo_env test_config 6 [xfe; x00; x00; x00; xff] 0 tt in
  d_exit d <> Panic /\ d_exit d <> NoFuel
  /\ (d_exit d = BreakInner -> zlen (d_buf d) <= max_buffer_size test_config).
Proof. apply (@drain_loop_terminates _ _ echo_env). simpl. lia. Defined.

(** A read, answered, and a write, failed; the read behind it is not executed. *)
Lemma handler_error_reply_witness :
  exists e d id reply, @handle_connection _ _ (@remembering _ _ picky_env) test_config
      [SelRead (c_encode q3 ++ take 9 (c_encode q1)); SelRead (drop 9 (c_encode q1) ++ c_encode q3)] (tt, []) = (e, d)
  /\ executed (d_trace d) = [(false, prepend_header 8 (str_bytes "GETROOM")); (true, prepend_header 7 (str_bytes "SETROOM"))]
  /\ written (d_trace d) = [prepend_header 8 (str_bytes "GETROOM"); reply]
  /\ (prepend_header 7 (str_bytes "SETROOM")).[1; 5] = Some (le_bytes 4 id)
  /\ parse_shard reply = (Ok (mkHeader id x05 1, reply), []) /\ e = Returned.
Proof.
  set (evs := [SelRead (c_encode q3 ++ take 9 (c_encode q1)); SelRead (drop 9 (c_encode q1) ++ c_encode q3)]).
  destruct (@handle_connection _ _ (@remembering _ _ picky_env) test_config evs (tt, [])) as [e d] eqn:E.
  assert (Hall : snd (d_world d) !! 1%nat = Some (Some (Err NoLeaderAvailable))
    /\ executed (d_trace d) = [(false, prepend_header 8 (str_bytes "GETROOM")); (true, prepend_header 7 (str_bytes "SETROOM"))]
    /\ exists r, written (d_trace d) = [prepend_header 8 (str_bytes "GETROOM"); r])
    by (change d with (snd (e, d)); rewrite <- E; vm_compute; split; [reflexivity|split; [reflexivity|eexists; reflexivity]]).
  destruct Hall as (Ho & Hx & r & Hw).
  destruct (@handler_error_reply _ _ picky_env test_config evs tt 1 NoLeaderAvailable e d E Ho)
    as (l & isw & f & id & ws & reply & He & Hl & _ & Hws & Hf & Hp & He' & _).
  exists e, d, id, reply. rewrite Hw in Hws. rewrite Hx in He.
  destruct l as [|x1 [|x2 l]]; [discriminate Hl| |discriminate Hl]. injection He as _ _ Hff. rewrite <- Hff in Hf.
  destruct ws as [|b [|b2 [|b3 ws]]]; [discriminate Hws| |discriminate Hws|discriminate Hws]. injection Hws as _ Hr.
  rewrite Hw, Hr. split; [reflexivity|split; [exact Hx|split; [reflexivity|split; [exact Hf|split; [exact Hp|exact He']]]]].
Defined.

(** Quiet for 30 s, with the default limits of 20 s per frame and 90 s idle. *)
Lemma quiet_peer_disconnected_witness :
  exists d, @handle_connection _ _ (clock_env (from_secs 30)) test_config
      [SelRead (take 9 (c_encode q1)); SelRead (drop 9 (c_encode q1))] 0 = (Returned, d)
  /\ executed (d_trace d) = [] /\ written (d_trace d) = [] /\ total timeouts (d_trace d) = 1.
Proof.
  apply (@quiet_peer_disconnected _ _ (clock_env (from_secs 30)) test_config q1
    (take 9 (c_encode q1)) (drop 9 (c_encode q1)) [] 0 0 (from_secs 30) (from_secs 30) (from_secs 60));
    [by repeat split; vm_compute|by vm_compute|by vm_compute|by vm_compute|by vm_compute
    |reflexivity|reflexivity|by vm_compute].
Defined.

Lemma server_admission_witness :
  let s := mkServer 1 0 1 true false None in
  active s = live s + pending s /\ 0 <= active s <= max_connections test_config
  /\ 0 <= live s <= max_connections test_config
  /\ (fst (accept test_config s) = true <-> active s < max_connections test_config).
Proof.
  apply (server_admission test_config (mkServer 1 0 1 true false None)); [vm_compute; discriminate|].
  eapply rtc_l; [exact (step_run test_config server_new (RunAccept (Ok ())) _ _ eq_refl I eq_refl)|].
  eapply rtc_l; [apply (step_handler_end test_config); vm_compute; reflexivity|]. apply rtc_refl.
Defined.
