(* ===== verification/Client.v ===== *)
(** * [tests/common/]: the client of the integration tests

    The other end of a router connection: the command encoder, the reader and
    the decoder of responses ([command.rs]), the client ([client.rs]) and the
    helper that starts a bridge and talks to it ([helper.rs]).  The encoder of
    router frames and the field reader of [command.rs] are in [Protocol.v].
    [Uuid::to_string] and the current date (chrono) are arguments, and so are the
    outcomes of the socket's calls. *)

From S2P Require Import Prelude RustStd Error Config Protocol TcpServer.
Local Open Scope Z_scope.

(** ** Results of code that may panic *)

Definition tbind {A B E} (m : option (Result A E)) (k : A -> option (Result B E)) : option (Result B E) :=
  match m with
  | Some (Ok a) => k a
  | Some (Err e) => Some (Err e)
  | None => None
  end.

Declare Scope client_scope.
Notation "' p '<-?' m ; k" := (tbind m (fun p => k))
  (at level 20, p pattern, m at level 100, k at level 200, only parsing) : client_scope.
Local Open Scope client_scope.

Section Client.
Context `{RQ : Reqwest}.
Context (uuid_to_string : bytes -> string).

(** ** [command.rs] *)

(** A field of a command: id, type 1, length, text. *)
Definition string_field (id : Z) (s : string) : bytes :=
  le_bytes 2 id ++ [x01] ++ le_bytes 4 (w32 (zlen (str_bytes s))) ++ str_bytes s.

Definition build_get_prop_room_day (property_id room_type date : string) : bytes :=
  let cmd_name := str_bytes "GETPROPROOMDAY" in
  [byte_of_Z (zlen cmd_name)] ++ cmd_name ++ le_bytes 2 3
  ++ string_field 1 property_id ++ string_field 2 room_type ++ string_field 3 date.

(** The client's reader of shard frames. *)
Definition client_drain_frame (reader : list ReadEv) (buf : bytes)
    : option (Result (Z * bytes) RZError * list ReadEv * bytes) :=
  let '(ok, reader, buf) := fill 9 reader buf in
  if negb ok then Some (Err (System "Short frame"), reader, buf) else
  header_bytes ← buf.[0; 9];
  b0 ← header_bytes.[0];
  if negb (bool_decide (b0 = SHARD_MAGIC))
  then Some (Err (System ("Missing magic: " +:+ fmt_dec (u8 b0))), reader, buf) else
  id ← header_bytes.[1; 5];
  len ← header_bytes.[5; 9];
  let payload_len := le_val len in
  let '(ok, reader, buf) := fill (9 + payload_len) reader buf in
  if negb ok then Some (Err (System "Short frame"), reader, buf) else
  (* buf.split_to(9), buf.split_to(payload_len) *)
  _ ← buf.[0; 9];
  let buf := drop 9 buf in
  payload ← buf.[0; payload_len];
  let buf := drop (Z.to_nat payload_len) buf in
  if bool_decide (payload = []) then Some (Err (System "Empty payload"), reader, buf) else
  Some (Ok (le_val id, payload), reader, buf).

(** [read_field!] *)
Definition field (data : bytes) (offset : Z) : option (Result (Z * byte * bytes * Z) RZError) :=
  match read_field data offset with
  | Ok (Some f) => Some (Ok f)
  | Ok None => None
  | Err s => Some (Err (System s))
  end.

(** The bytes before the first zero: how many. *)
Fixpoint until_zero (b : bytes) : Z :=
  match b with
  | [] => 0
  | x :: r => if bool_decide (x = x00) then 0 else 1 + until_zero r
  end.

Definition bytes_to_property_id (data : bytes) : option string :=
  if zlen data <? 7 then Some EmptyString else
  b6 ← data.[6];
  if bool_decide (b6 = xf0) then
    left ← data.[0; 6];
    right ← data.[7; zlen data];
    let left_len := until_zero left in
    let right_len := until_zero right in
    l ← data.[0; left_len];
    r ← data.[7; 7 + right_len];
    Some (from_utf8_lossy (l ++ r))
  else
    let version := Z.shiftr (Z.land (u8 b6) 0xF0) 4 in
    if bool_decide (version ∈ [1; 2; 3; 4; 5; 7]) then
      let copy_len := Z.min (zlen data) 16 in
      copied ← data.[0; copy_len];
      uuid_bytes ← patch (replicate 16 x00) 0 copied;
      Some (uuid_to_string uuid_bytes)
    else Some EmptyString.

Record GetPropRoomDayResponse := mkResp {
  property_id : string;
  date : string;
  availability : Z;        (* u8 *)
  final_price : Z;         (* u32 *)
  rate_feature_mask : Z    (* u32 *)
}.

Inductive CommandResponse := GetPropRoomDay (r : GetPropRoomDayResponse).

(** The five fields, from [offset] on. *)
Definition decode_fields (data : bytes) (offset : Z) : option (Result GetPropRoomDayResponse RZError) :=
  let fail s := Some (Err (System s)) in
  '(id1, typ1, property_id_bytes, offset) <-? field data offset;
  if negb (id1 =? 1) || negb (bool_decide (typ1 = x01)) then fail "Invalid property_id field" else
  property_id ← bytes_to_property_id property_id_bytes;
  '(id2, typ2, date_bytes, offset) <-? field data offset;
  if negb (id2 =? 2) || negb (bool_decide (typ2 = x01)) then fail "Invalid date field" else
  match from_utf8 date_bytes with
  | None => fail "Invalid UTF-8 in date"
  | Some date =>
      '(id3, typ3, avail_bytes, offset) <-? field data offset;
      if negb (id3 =? 3) || negb (bool_decide (typ3 = x02)) || negb (zlen avail_bytes =? 1)
      then fail "Invalid availability field" else
      availability ← avail_bytes.[0];
      '(id4, typ4, price_bytes, offset) <-? field data offset;
      if negb (id4 =? 4) || negb (bool_decide (typ4 = x03)) || negb (zlen price_bytes =? 4)
      then fail "Invalid final_price field" else
      '(id5, typ5, rate_bytes, offset) <-? field data offset;
      if negb (id5 =? 5) || negb (bool_decide (typ5 = x03)) || negb (zlen rate_bytes =? 4)
      then fail "Invalid rate_feature_mask field" else
      if negb (offset =? zlen data) then fail "Trailing data after fields" else
      Some (Ok (mkResp property_id date (u8 availability) (le_val price_bytes) (le_val rate_bytes)))
  end.

Definition decode_get_prop_room_day_response (data : bytes) : option (Result GetPropRoomDayResponse RZError) :=
  let fail s := Some (Err (System s)) in
  if bool_decide (data = []) then fail "Empty response" else
  sl ← data.[0];
  let status_len := u8 sl in
  let min_len := 1 + status_len + 2 in
  if zlen data <? min_len then fail "Response too short" else
  status ← data.[1; 1 + status_len];
  c0 ← data.[1 + status_len];
  c1 ← data.[1 + status_len + 1];
  let field_count := le_val [c0; c1] in
  let offset := 1 + status_len + 2 in
  if negb (bool_decide (status = str_bytes "SUCCESS"))
  then fail ("Non-success status: " +:+ from_utf8_lossy status) else
  if negb (field_count =? 5) then fail ("Expected 5 fields, got " +:+ fmt_dec field_count) else
  decode_fields data offset.

(** [tomorrow] is the date of the next day as [%Y-%m-%d]. *)
Definition get_serialized_command (tomorrow cmd : string) : bytes :=
  if bool_decide (cmd = "GETPROPROOMDAY") then
    prepend_router_header "segment_1" false 0 (build_get_prop_room_day "s1_seg1_p1" "room1" tomorrow)
  else str_bytes ("CMD:" +:+ cmd).

Definition process_response (cmd : string) (payload : bytes) : option (Result CommandResponse RZError) :=
  if bool_decide (cmd = "GETPROPROOMDAY") then
    'res <-? decode_get_prop_room_day_response payload; Some (Ok (GetPropRoomDay res))
  else Some (Err (System ("Unknown command: " +:+ cmd))).

(** ** [client.rs] *)

(** The stream is not part of the record: what it yields is an argument. *)
Record TestClient := mkClient { read_buf : bytes; timeout : Duration }.

(** [connected] and [nodelay] are the outcomes of the two calls. *)
Definition client_connect (connected nodelay : Result unit io_Error) : Result TestClient io_Error :=
  match connected with
  | Err e => Err e
  | Ok _ => match nodelay with Err e => Err e | Ok _ => Ok (mkClient [] (from_secs 5)) end
  end.

Definition client_send (written flushed : Result unit io_Error) : Result unit io_Error :=
  match written with Err e => Err e | Ok _ => flushed end.

(** The payload of the next frame.  [elapsed] is [Some got] if the timer fires
    first, [got] having been read by then. *)
Definition client_receive (elapsed : option bytes) (reader : list ReadEv) (c : TestClient)
    : option (Result bytes RZError * list ReadEv * TestClient) :=
  match elapsed with
  | Some got => Some (Err Timeout, reader, mkClient (read_buf c ++ got) (timeout c))
  | None =>
      '(res, reader, buf) ← client_drain_frame reader (read_buf c);
      let c := mkClient buf (timeout c) in
      match res with
      | Ok (_, payload) => Some (Ok payload, reader, c)
      | Err e => Some (Err e, reader, c)
      end
  end.

Definition send_and_receive (sent : Result unit io_Error) (elapsed : option bytes) (reader : list ReadEv) (c : TestClient)
    : option (Result bytes RZError * list ReadEv * TestClient) :=
  match sent with
  | Err e => Some (Err (System ("Send error: " +:+ e)), reader, c)
  | Ok _ => client_receive elapsed reader c
  end.

Definition set_timeout (c : TestClient) (d : Duration) : TestClient := mkClient (read_buf c) d.

(** ** [helper.rs] *)

(** The token of the bridge and the handle of its task, [true] once aborted. *)
Record TestHelper := mkHelper {
  bridge_addr : string;
  shutdown_cancelled : bool;
  handle : option unit;
  aborted : bool
}.

Definition test_bridge_config : Config :=
  let c := default_config "zone1" "shard1" "bridge-test" "172.20.0.41:8080" "172.20.0.40:9090" in
  mkConfig (zone_id c) (shard_id c) (bridge_id c) (rzid_addr c) (rzpoint_addr c)
    (roomzin_api_port c) (roomzin_tcp_port c) (rzid_heartbeat_interval_secs c)
    "127.0.0.1" 9000 "127.0.0.1:9101" (conn_per_roomzin_node c) (max_active_conns c)
    (max_connections c) (timeout_sec c) (http_timeout_sec c) (keep_alive_sec c)
    (node_probe_interval_sec c) (worker_threads c) (frame_timeout_secs c)
    (idle_timeout_secs c) (max_buffer_size c) (max_frame_size c).

(** The attempts from [attempt] on, [n] of them left; [connects] tells which
    succeed.  The result is the number of sleeps of 200 ms; [None] is the panic
    after the last attempt. *)
Fixpoint wait_for_bridge (connects : nat -> bool) (attempt n : nat) : option nat :=
  match n with
  | O => Some O
  | S k =>
      if connects attempt then Some O
      else match k with
           | O => None
           | _ => option_map S (wait_for_bridge connects (S attempt) k)
           end
  end.

Definition helper_new (connects : nat -> bool) : option TestHelper :=
  _ ← wait_for_bridge connects 0 30;
  Some (mkHelper (listen_addr test_bridge_config) false (Some ()) false).

(** [shutdown] and [drop] do the same. *)
Definition helper_shutdown (h : TestHelper) : TestHelper :=
  match handle h with
  | Some _ => mkHelper (bridge_addr h) true None true
  | None => mkHelper (bridge_addr h) true None (aborted h)
  end.

(** [create_client] panics if it cannot connect. *)
Definition send_command (connected nodelay sent : Result unit io_Error) (elapsed : option bytes) (reader : list ReadEv)
    (cmd : string) : option (Result CommandResponse RZError) :=
  match client_connect connected nodelay with
  | Err _ => None
  | Ok client =>
      '(res, _, _) ← send_and_receive sent elapsed reader client;
      'response_payload <-? Some res; process_response cmd response_payload
  end.

(** [happy_path.rs], the test: whether it passes. *)
Definition test_get_prop_room_day (tomorrow : string) (result : option (Result CommandResponse RZError)) : bool :=
  match result with
  | Some (Ok (GetPropRoomDay resp)) =>
      bool_decide (property_id resp = "s1_seg1_p1") && bool_decide (date resp = tomorrow) && (1 <=? availability resp)
  | _ => false
  end.

End Client.

(** ** The grammar *)

(** A field: id, type, length, data. *)
Definition field_bytes (id : Z) (typ : byte) (data : bytes) : bytes :=
  le_bytes 2 id ++ typ :: le_bytes 4 (zlen data) ++ data.

(** The fields of a successful response. *)
Definition response_fields (pid : bytes) (date : string) (avail : byte) (price mask : Z) : bytes :=
  field_bytes 1 x01 pid ++ field_bytes 2 x01 (str_bytes date) ++ field_bytes 3 x02 [avail]
  ++ field_bytes 4 x03 (le_bytes 4 price) ++ field_bytes 5 x03 (le_bytes 4 mask).

Definition success_payload (pid : bytes) (date : string) (avail : byte) (price mask : Z) : bytes :=
  response_payload (str_bytes "SUCCESS") 5 (response_fields pid date avail price mask).

(** ** Lemmas: fields *)

Lemma zlen_field_bytes id typ data : zlen (field_bytes id typ data) = 7 + zlen data.
Proof. unfold field_bytes. zl. Qed.

#[local] Hint Rewrite zlen_field_bytes : zl.

(** Reading a field at the end of [pre]. *)
Lemma read_field_at pre id typ data post :
  0 <= id < 2 ^ 16 -> zlen data < 2 ^ 32 ->
  read_field (pre ++ field_bytes id typ data ++ post) (zlen pre)
  = Ok (Some (id, typ, data, zlen (pre ++ field_bytes id typ data))).
Proof.
  intros Hi Hd. pose proof (zlen_nonneg pre). pose proof (zlen_nonneg data). pose proof (zlen_nonneg post).
  unfold read_field, field_bytes. set (ib := le_bytes 2 id). set (lb := le_bytes 4 (zlen data)).
  assert (Hib : zlen ib = 2) by apply zlen_le_bytes. assert (Hlb : zlen lb = 4) by apply zlen_le_bytes.
  replace ((ib ++ typ :: lb ++ data) ++ post) with (ib ++ [typ] ++ lb ++ data ++ post) by (by rewrite <- !app_assoc; simpl; rewrite <- ?app_assoc).
  zcase; [zl|]. rewrite (slice_mid pre ib _ (zlen pre) (zlen pre + 2)) by lia. cbn [mbind option_bind].
  rewrite (app_assoc pre ib). change ([typ] ++ lb ++ data ++ post) with (typ :: lb ++ data ++ post).
  rewrite idx_mid by zl. cbn [mbind option_bind].
  change (typ :: lb ++ data ++ post) with ([typ] ++ lb ++ data ++ post).
  rewrite (app_assoc _ [typ]), (slice_mid _ lb _ (zlen pre + 3)) by zl. cbn [mbind option_bind].
  unfold ib, lb. rewrite le_val_u16, le_val_u32 by lia. fold ib lb.
  zcase; [zl|]. rewrite (app_assoc _ lb), slice_mid by zl. cbn [mbind option_bind]. do 3 f_equal. zl.
Qed.

(** What was read is a field of the grammar. *)
Lemma read_field_inv pre rest id typ d o :
  read_field (pre ++ rest) (zlen pre) = Ok (Some (id, typ, d, o)) ->
  exists post, rest = field_bytes id typ d ++ post /\ o = zlen (pre ++ field_bytes id typ d)
    /\ 0 <= id < 2 ^ 16 /\ zlen d < 2 ^ 32.
Proof.
  intros Hr. pose proof (zlen_nonneg pre) as Hp. assert (H7 : 7 <= zlen rest).
  { revert Hr. unfold read_field. rewrite zlen_app. zcase; [done|lia]. }
  unfold zlen in H7. do 7 (destruct rest as [|? rest]; [simpl in H7; lia|]). clear H7.
  revert Hr. unfold read_field. zcase; [done|].
  change (b :: b0 :: b1 :: b2 :: b3 :: b4 :: b5 :: rest) with ([b; b0] ++ b1 :: [b2; b3; b4; b5] ++ rest).
  rewrite (slice_mid pre [b; b0] _ (zlen pre) (zlen pre + 2)) by done. cbn [mbind option_bind].
  rewrite (app_assoc pre [b; b0]), idx_mid by zl. cbn [mbind option_bind].
  change (b1 :: [b2; b3; b4; b5] ++ rest) with ([b1] ++ [b2; b3; b4; b5] ++ rest). rewrite (app_assoc _ [b1]).
  rewrite (slice_mid _ [b2; b3; b4; b5] _ (zlen pre + 3)) by (unfold zlen; rewrite !length_app; simpl; lia).
  cbn [mbind option_bind].
  set (n := le_val [b2; b3; b4; b5]). pose proof (le_val_range [b2; b3; b4; b5]) as Hn. fold n in Hn.
  zcase; [done|]. destruct (slice _ _ _) as [d'|] eqn:Es; cbn [mbind option_bind]; [|done]. intros [= <- <- -> <-].
  pose proof Es as (_ & Hle & _ & Hd)%slice_inv.
  rewrite app_assoc in Es. rewrite slice_app_r in Es by (unfold zlen; rewrite !length_app; simpl; lia).
  replace (zlen pre + 7 - _) with 0 in Es by (unfold zlen; rewrite !length_app; simpl; lia).
  replace (zlen pre + 7 + n - _) with n in Es by (unfold zlen; rewrite !length_app; simpl; lia).
  apply slice_inv in Es as (_ & _ & Ed & _). rewrite Z.sub_0_r in Ed. simpl in Ed. rewrite drop_0 in Ed.
  exists (drop (Z.to_nat n) rest). assert (Hf : field_bytes (le_val [b; b0]) b1 d = [b; b0; b1; b2; b3; b4; b5] ++ d).
  { unfold field_bytes. rewrite (le_bytes_le_val [b; b0] : le_bytes 2 _ = _).
    replace (zlen d) with n by lia. unfold n. by rewrite (le_bytes_le_val [b2; b3; b4; b5] : le_bytes 4 _ = _). }
  change (u8 b + 256 * (u8 b0 + 256 * 0)) with (le_val [b; b0]). rewrite Hf.
  pose proof (le_val_range [b; b0]). split_and!.
  - rewrite Ed, <- app_assoc, take_drop. done.
  - unfold zlen in *. rewrite !length_app. simpl. lia.
  - change (zlen [b; b0]) with 2 in *. lia.
  - change (zlen [b; b0]) with 2 in *. lia.
  - change (zlen [b2; b3; b4; b5]) with 4 in *. lia.
Qed.

Lemma read_field_total data o : 0 <= o -> read_field data o <> Ok None.
Proof.
  intros Ho. unfold read_field. zcase; [done|]. destruct (slice_Some data o (o + 2)) as [a ->]; [lia..|].
  cbn [mbind option_bind]. destruct (idx_Some data (o + 2)) as [t ->]; [lia|]. cbn [mbind option_bind].
  destruct (slice_Some data (o + 3) (o + 7)) as [l ->]; [lia..|]. cbn [mbind option_bind].
  pose proof (le_val_range l). zcase; [done|]. destruct (slice_Some data (o + 7) (o + 7 + le_val l)) as [d ->]; [lia..|]. done.
Qed.

(** ** Lemmas: the decoder *)

Section Decoder.
Context `{RQ : Reqwest} (uuid : bytes -> string).

(** What a field reader yields at the end of [pre]. *)
Lemma field_spec pre rest :
  match field (pre ++ rest) (zlen pre) with
  | Some (Ok (id, typ, d, o)) =>
      exists post, rest = field_bytes id typ d ++ post /\ o = zlen (pre ++ field_bytes id typ d)
        /\ 0 <= id < 2 ^ 16 /\ zlen d < 2 ^ 32
  | Some (Err _) => True
  | None => False
  end.
Proof.
  unfold field. pose proof (read_field_total (pre ++ rest) (zlen pre) (zlen_nonneg _)) as Ht.
  destruct (read_field _ _) as [[[[[id typ] d] o]|]|] eqn:E; [|done|done]. by apply read_field_inv.
Qed.

Lemma tbind_field_at {B} pre id typ data post (k : Z * byte * bytes * Z -> option (Result B RZError)) :
  0 <= id < 2 ^ 16 -> zlen data < 2 ^ 32 ->
  tbind (field (pre ++ field_bytes id typ data ++ post) (zlen pre)) k
  = k (id, typ, data, zlen (pre ++ field_bytes id typ data)).
Proof. intros Hi Hd. unfold field. by rewrite read_field_at. Qed.

Lemma until_zero_range b : 0 <= until_zero b <= zlen b.
Proof. induction b as [|x b IH]; simpl; [done|]. rewrite zlen_cons. case_bool_decide; lia. Qed.

Lemma bytes_to_property_id_total data : is_Some (bytes_to_property_id uuid data).
Proof.
  unfold bytes_to_property_id. destruct (Z.ltb_spec (zlen data) 7) as [|H7]; [eauto|].
  destruct (idx_Some data 6) as [b6 ->]; [lia|]. cbn [mbind option_bind]. case_bool_decide.
  - destruct (slice_Some data 0 6) as [l Hl]; [lia..|]. destruct (slice_Some data 7 (zlen data)) as [r Hr]; [lia..|].
    rewrite Hl, Hr. cbn [mbind option_bind]. apply slice_inv in Hl as (_ & _ & _ & Hl). apply slice_inv in Hr as (_ & _ & _ & Hr).
    pose proof (until_zero_range l). pose proof (until_zero_range r).
    destruct (slice_Some data 0 (until_zero l)) as [? ->]; [lia..|].
    destruct (slice_Some data 7 (7 + until_zero r)) as [? ->]; [lia..|]. cbn [mbind option_bind]. eauto.
  - case_bool_decide; [|eauto]. destruct (slice_Some data 0 (Z.min (zlen data) 16)) as [c Hc]; [lia..|].
    rewrite Hc. cbn [mbind option_bind]. apply slice_inv in Hc as (_ & _ & _ & Hc).
    destruct (patch_Some (replicate 16 x00) 0 c) as [u ->]; [lia|change (zlen (replicate 16 x00)) with 16; lia|].
    cbn [mbind option_bind]. eauto.
Qed.

(** One field of the chain: its spec, and the rest from its end. *)
Lemma tbind_field {B} pre rest (k : Z * byte * bytes * Z -> option (Result B RZError)) :
  (forall id typ d post, rest = field_bytes id typ d ++ post ->
     is_Some (k (id, typ, d, zlen (pre ++ field_bytes id typ d)))) ->
  is_Some (tbind (field (pre ++ rest) (zlen pre)) k).
Proof.
  intros Hk. pose proof (field_spec pre rest) as Hf.
  destruct (field _ _) as [[[[[id typ] d] o]|e]|]; [|by eexists|done].
  destruct Hf as (post & Hr & -> & _). simpl. by eapply Hk.
Qed.

Lemma decode_fields_total pre rest : is_Some (decode_fields uuid (pre ++ rest) (zlen pre)).
Proof.
  unfold decode_fields. cbv zeta. apply tbind_field. intros id1 t1 d1 r1 ->. destruct (_ || _); [eauto|].
  destruct (bytes_to_property_id_total d1) as [p ->]. cbn [mbind option_bind].
  rewrite app_assoc. apply tbind_field. intros id2 t2 d2 r2 ->. destruct (_ || _); [eauto|].
  destruct (from_utf8 d2); [|eauto].
  rewrite app_assoc. apply tbind_field. intros id3 t3 d3 r3 ->. destruct (_ || _) eqn:E; [eauto|]. zbool.
  destruct (idx_Some d3 0) as [a ->]; [lia|]. cbn [mbind option_bind].
  rewrite app_assoc. apply tbind_field. intros id4 t4 d4 r4 ->. destruct (_ || _); [eauto|].
  rewrite app_assoc. apply tbind_field. intros id5 t5 d5 r5 ->. destruct (_ || _); [eauto|].
  destruct (negb _); eauto.
Qed.

(** The same chain, when it succeeds. *)
Lemma tbind_field_Ok {B} pre rest (k : Z * byte * bytes * Z -> option (Result B RZError)) r :
  tbind (field (pre ++ rest) (zlen pre)) k = Some (Ok r) ->
  exists id typ d post, rest = field_bytes id typ d ++ post /\ 0 <= id < 2 ^ 16 /\ zlen d < 2 ^ 32
  /\ k (id, typ, d, zlen (pre ++ field_bytes id typ d)) = Some (Ok r).
Proof.
  pose proof (field_spec pre rest) as Hf. destruct (field _ _) as [[[[[id typ] d] o]|e]|]; [|done|done].
  destruct Hf as (post & Hr & -> & Hi & Hd). simpl. intros Hk. by exists id, typ, d, post.
Qed.

Lemma negb_eq_false a b : negb (a =? b) = false -> a = b.
Proof. intros H. by apply negb_false_iff, Z.eqb_eq in H. Qed.

Lemma negb_dec_false (a b : byte) : negb (bool_decide (a = b)) = false -> a = b.
Proof. intros H. by apply negb_false_iff, bool_decide_eq_true in H. Qed.

Ltac field_guards :=
  repeat match goal with
  | H : orb _ _ = false |- _ => apply orb_false_iff in H as [? ?]
  | H : negb (_ =? _) = false |- _ => apply negb_eq_false in H
  | H : negb (bool_decide (_ = _)) = false |- _ => apply negb_dec_false in H
  end; subst.

(** Past a guard that would have failed. *)
Ltac pass_guard :=
  lazymatch goal with |- (if ?c then _ else _) = _ -> _ => let G := fresh "G" in destruct c eqn:G; [discriminate|] end.

(** A field of four bytes is a [u32]. *)
Lemma u32_field d : zlen d = 4 -> d = le_bytes 4 (le_val d) /\ 0 <= le_val d < 2 ^ 32.
Proof.
  intros Hd. pose proof (le_val_range d). rewrite Hd in *. split; [|lia].
  rewrite <- (le_bytes_le_val d) at 1. f_equal. unfold zlen in Hd. lia.
Qed.

(** What a response with these fields reads as. *)
Definition reads_as (r : GetPropRoomDayResponse) (pid : bytes) (avail : byte) : Prop :=
  bytes_to_property_id uuid pid = Some (property_id r) /\ u8 avail = availability r
  /\ utf8_valid (str_bytes (date r)) = true /\ zlen pid < 2 ^ 32 /\ zlen (str_bytes (date r)) < 2 ^ 32
  /\ 0 <= final_price r < 2 ^ 32 /\ 0 <= rate_feature_mask r < 2 ^ 32.

Lemma decode_fields_sound pre rest r :
  decode_fields uuid (pre ++ rest) (zlen pre) = Some (Ok r) ->
  exists pid avail, reads_as r pid avail
    /\ rest = response_fields pid (date r) avail (final_price r) (rate_feature_mask r).
Proof.
  unfold decode_fields. cbv zeta. intros (id1 & t1 & pid & r1 & -> & _ & Hd1 & H)%tbind_field_Ok.
  revert H. pass_guard. destruct (bytes_to_property_id uuid pid) as [p|] eqn:Ep; [|done].
  cbn [mbind option_bind]. rewrite app_assoc. intros (id2 & t2 & d2 & r2 & -> & _ & Hd2 & H)%tbind_field_Ok.
  revert H. pass_guard. destruct (from_utf8 d2) as [dt|] eqn:Ed; [|done].
  rewrite app_assoc. intros (id3 & t3 & d3 & r3 & -> & _ & _ & H)%tbind_field_Ok.
  revert H. pass_guard. destruct (idx d3 0) as [a|] eqn:Ea; [|done]. cbn [mbind option_bind].
  rewrite app_assoc. intros (id4 & t4 & d4 & r4 & -> & _ & _ & H)%tbind_field_Ok.
  revert H. pass_guard.
  rewrite app_assoc. intros (id5 & t5 & d5 & r5 & -> & _ & _ & H)%tbind_field_Ok.
  revert H. pass_guard. pass_guard. intros [= <-].
  field_guards. apply from_utf8_Some in Ed as [Hu <-].
  assert (r5 = []) as -> by (apply zlen_0_nil; zl).
  apply idx_0 in Ea as [q ->]. assert (q = []) as -> by (apply zlen_0_nil; zl).
  match goal with H : zlen d4 = 4, H' : zlen d5 = 4 |- _ => destruct (u32_field d4 H) as [E4 R4], (u32_field d5 H') as [E5 R5] end.
  exists pid, a. destruct R4, R5. split; [by split_and!|]. unfold response_fields. cbn [date final_price rate_feature_mask]. rewrite <- E4, <- E5. by rewrite app_nil_r.
Qed.

Lemma decode_fields_complete pre r pid avail :
  reads_as r pid avail ->
  decode_fields uuid (pre ++ response_fields pid (date r) avail (final_price r) (rate_feature_mask r)) (zlen pre)
  = Some (Ok r).
Proof.
  intros (Hp & Ha & Hu & H1 & H2 & H3 & H4). unfold decode_fields, response_fields. cbv zeta.
  rewrite tbind_field_at by done. cbn iota beta. simpl orb. cbn iota. rewrite Hp. cbn [mbind option_bind].
  rewrite app_assoc, tbind_field_at by done. cbn iota beta. simpl orb. cbn iota. rewrite from_utf8_str_bytes by done.
  rewrite app_assoc, tbind_field_at by done. cbn iota beta. simpl orb. cbn iota.
  change (idx [avail] 0) with (Some avail). cbn [mbind option_bind].
  rewrite app_assoc, tbind_field_at by (rewrite ?zlen_le_bytes; done). cbn iota beta. rewrite zlen_le_bytes.
  simpl orb. cbn iota. rewrite app_assoc, <- (app_nil_r (field_bytes 5 _ _)).
  rewrite tbind_field_at by (rewrite ?zlen_le_bytes; done). cbn iota beta. rewrite zlen_le_bytes. simpl orb. cbn iota.
  rewrite app_nil_r, Z.eqb_refl, Ha, !le_val_u32 by done. by destruct r.
Qed.

(** Before the fields. *)
Definition success_head : bytes := [x07] ++ str_bytes "SUCCESS" ++ le_bytes 2 5.

Lemma success_payload_head pid d a price mask :
  success_payload pid d a price mask = success_head ++ response_fields pid d a price mask.
Proof. reflexivity. Qed.

Lemma decode_head data :
  (exists e, decode_get_prop_room_day_response uuid data = Some (Err e))
  \/ exists rest, data = success_head ++ rest
     /\ decode_get_prop_room_day_response uuid data = decode_fields uuid data (zlen success_head).
Proof.
  unfold decode_get_prop_room_day_response. cbv zeta. case_bool_decide as Hne; [eauto|].
  destruct data as [|sl data']; [done|]. clear Hne. set (data := sl :: data'). change (idx data 0) with (Some sl).
  cbn [mbind option_bind]. pose proof (u8_range sl) as Hu. destruct (Z.ltb_spec (zlen data) (1 + u8 sl + 2)); [eauto|].
  destruct (slice_Some data 1 (1 + u8 sl)) as [st Hs]; [lia..|]. rewrite Hs. cbn [mbind option_bind].
  destruct (idx_Some data (1 + u8 sl)) as [c0 H0]; [lia|]. rewrite H0. cbn [mbind option_bind].
  destruct (idx_Some data (1 + u8 sl + 1)) as [c1 H1]; [lia|]. rewrite H1. cbn [mbind option_bind].
  case_bool_decide as Hst; cbn [negb]; cbn iota; [|left; by eexists].
  destruct (Z.eqb_spec (le_val [c0; c1]) 5) as [Hc|]; cbn [negb]; cbn iota; [right|left; by eexists].
  pose proof Hs as (_ & _ & _ & Hl)%slice_inv. subst st. change (zlen (str_bytes "SUCCESS")) with 7 in Hl.
  assert (H7 : u8 sl = 7) by lia. assert (sl = x07) as -> by by apply u8_inj. change (u8 x07) with 7 in *.
  assert (Hcc : [c0; c1] = le_bytes 2 5) by (rewrite <- Hc; symmetry; exact (le_bytes_le_val [c0; c1])).
  exists (drop 10 data). split; [|done]. change (drop 10 data) with (drop (Z.to_nat (1 + 7 + 1 + 1)) data).
  apply drop_slice in Hs. apply drop_idx in H0, H1. change (drop (Z.to_nat 1) data) with data' in Hs.
  unfold success_head. rewrite <- Hcc. subst data. rewrite Hs at 1. rewrite H0, H1. done.
Qed.

Lemma decode_success_head rest :
  decode_get_prop_room_day_response uuid (success_head ++ rest)
  = decode_fields uuid (success_head ++ rest) (zlen success_head).
Proof.
  unfold decode_get_prop_room_day_response. cbv zeta. rewrite bool_decide_eq_false_2 by done.
  change (idx (success_head ++ rest) 0) with (Some x07). cbn [mbind option_bind]. change (u8 x07) with 7.
  destruct (Z.ltb_spec (zlen (success_head ++ rest)) (1 + 7 + 2)) as [Hl|_].
  { rewrite zlen_app in Hl. change (zlen success_head) with 10 in Hl. pose proof (zlen_nonneg rest). lia. }
  pose proof (slice_mid [x07] (str_bytes "SUCCESS") (x05 :: x00 :: rest) 1 (1 + 7) eq_refl eq_refl
    : slice (success_head ++ rest) 1 (1 + 7) = _) as Hs. rewrite Hs. cbn [mbind option_bind].
  assert (Hi : forall i, i < 10 -> idx (success_head ++ rest) i = idx success_head i) by (intros; by apply idx_app_l).
  rewrite !Hi by done. reflexivity.
Qed.

Lemma client_decode_total data : is_Some (decode_get_prop_room_day_response uuid data).
Proof. destruct (decode_head data) as [[e ->]|(rest & -> & ->)]; [eauto|apply decode_fields_total]. Qed.

(** The client's reader returns the next frame, whatever the reads. *)
Lemma client_drain_spec reader buf clr payload rest :
  0 <= clr < 2 ^ 32 -> 0 < zlen payload < 2 ^ 32 -> buf ++ stream reader = shard_frame clr payload ++ rest ->
  exists r b, client_drain_frame reader buf = Some (Ok (clr, payload), r, b) /\ b ++ stream r = rest.
Proof.
  intros Hc Hp Hb. unfold client_drain_frame. pose proof (fill_spec 9 reader buf) as Hf.
  assert (Hlen : zlen (shard_frame clr payload) = 9 + zlen payload) by (unfold shard_frame; zl).
  destruct (fill 9 reader buf) as [[[] r1] b1]; [|rewrite Hb, zlen_app in Hf; pose proof (zlen_nonneg rest); lia].
  destruct Hf as [Hs H9]. rewrite Hb in Hs. clear Hb reader buf. simpl negb. cbn iota.
  set (hd := SHARD_MAGIC :: le_bytes 4 clr ++ le_bytes 4 (zlen payload)).
  assert (Hh : zlen hd = 9) by (unfold hd; zl).
  assert (Hfr : shard_frame clr payload = hd ++ payload) by (unfold shard_frame, hd; simpl; done).
  rewrite Hfr, <- app_assoc in Hs.
  assert (Hcut : forall b r, zlen hd <= zlen b -> b ++ stream r = hd ++ payload ++ rest ->
    exists q, b = hd ++ q /\ q ++ stream r = payload ++ rest).
  { intros b r Hl E. apply app_eq_inv in E as [(k & -> & E)|(k & E1 & ->)]; [by exists k|].
    assert (k = []) as -> by (apply zlen_0_nil; rewrite E1 in Hl; zl). exists []. rewrite app_nil_r in *. by split. }
  destruct (Hcut b1 r1 ltac:(lia) Hs) as (q & -> & _). rewrite (slice_prefix hd) by done. cbn [mbind option_bind].
  change (idx hd 0) with (Some SHARD_MAGIC). cbn [mbind option_bind].
  rewrite bool_decide_eq_true_2 by done. simpl negb. cbn iota.
  change (slice hd 1 5) with (Some (le_bytes 4 clr)). change (slice hd 5 9) with (Some (le_bytes 4 (zlen payload))).
  cbn [mbind option_bind]. rewrite !le_val_u32 by lia.
  pose proof (fill_spec (9 + zlen payload) r1 (hd ++ q)) as Hf. rewrite Hs in Hf.
  destruct (fill _ r1 _) as [[[] r2] b2]; [|rewrite !zlen_app in Hf; pose proof (zlen_nonneg rest); lia].
  destruct Hf as [Hs2 H2]. destruct (Hcut b2 r2 ltac:(lia) Hs2) as (q2 & -> & E2). simpl negb. cbn iota.
  rewrite (slice_prefix hd) by done. cbn [mbind option_bind]. change (drop 9 (hd ++ q2)) with q2.
  assert (exists q3, q2 = payload ++ q3 /\ q3 ++ stream r2 = rest) as (q3 & -> & E3).
  { apply app_eq_inv in E2 as [(k & -> & E)|(k & E1 & ->)]; [by exists k|].
    assert (k = []) as -> by (apply zlen_0_nil; subst payload; zl). exists []. rewrite app_nil_r in *. by split. }
  rewrite slice_prefix by done. cbn [mbind option_bind]. rewrite drop_zlen_app.
  rewrite bool_decide_eq_false_2 by (intros ->; simpl in Hp; change (zlen []) with 0 in Hp; lia). eauto.
Qed.

(** A command is in the grammar of requests: its name and three fields. *)
Lemma build_command_grammar pid room d :
  zlen (str_bytes pid) < 2 ^ 32 -> zlen (str_bytes room) < 2 ^ 32 -> zlen (str_bytes d) < 2 ^ 32 ->
  build_get_prop_room_day pid room d
  = response_payload (str_bytes "GETPROPROOMDAY") 3
      (field_bytes 1 x01 (str_bytes pid) ++ field_bytes 2 x01 (str_bytes room) ++ field_bytes 3 x01 (str_bytes d)).
Proof.
  intros H1 H2 H3. unfold build_get_prop_room_day.
  assert (Hf : forall id s, zlen (str_bytes s) < 2 ^ 32 -> string_field id s = field_bytes id x01 (str_bytes s)).
  { intros id s Hs. unfold string_field. rewrite w32_small; [done|]. pose proof (zlen_nonneg (str_bytes s)). lia. }
  rewrite !Hf by done. done.
Qed.

End Decoder.

(** ** Properties *)

Section Properties.
Context `{RQ : Reqwest} (uuid : bytes -> string).

(** C36. The client's decoder never panics and accepts exactly the grammar: it
    yields a response if and only if the payload is the status [SUCCESS] and the
    five fields in order with their types and widths and nothing after them; the
    response is then what the fields hold. *)
Theorem client_decoder_grammar data :
  is_Some (decode_get_prop_room_day_response uuid data)
  /\ forall r, decode_get_prop_room_day_response uuid data = Some (Ok r)
     <-> exists pid avail, reads_as uuid r pid avail
         /\ data = success_payload pid (date r) avail (final_price r) (rate_feature_mask r).
Proof.
  split; [apply client_decode_total|]. intros r. split.
  - intros Hd. destruct (decode_head uuid data) as [[e He]|(rest & -> & He)]; [congruence|]. rewrite He in Hd.
    apply decode_fields_sound in Hd as (pid & avail & Hr & ->). by exists pid, avail.
  - intros (pid & avail & Hr & ->). rewrite success_payload_head, decode_success_head. by apply decode_fields_complete.
Qed.

(** The client's command as a request of the router format. *)
Definition command_req (tomorrow : string) : ClientReq :=
  mkClientReq "segment_1" false 0 (build_get_prop_room_day "s1_seg1_p1" "room1" tomorrow).

Lemma command_encode tomorrow : get_serialized_command tomorrow "GETPROPROOMDAY" = c_encode (command_req tomorrow).
Proof. reflexivity. Qed.

Lemma command_len tomorrow : zlen (str_bytes tomorrow) = 10 -> zlen (c_payload (command_req tomorrow)) = 63.
Proof.
  intros Ht. change (c_payload (command_req tomorrow)) with (build_get_prop_room_day "s1_seg1_p1" "room1" tomorrow).
  unfold build_get_prop_room_day, string_field. rewrite !zlen_app, !zlen_le_bytes, Ht. reflexivity.
Qed.

Lemma command_wf tomorrow : zlen (str_bytes tomorrow) = 10 -> c_wf (command_req tomorrow).
Proof.
  intros Ht. unfold c_wf. rewrite (command_len _ Ht). split_and!; try done; apply Z.leb_le; reflexivity.
Qed.

(** The client's side of an exchange: the frame is there, so the payload is
    what is processed. *)
Lemma send_command_answered reader clr payload rest cmd :
  0 <= clr < 2 ^ 32 -> 0 < zlen payload < 2 ^ 32 -> stream reader = shard_frame clr payload ++ rest ->
  send_command uuid (Ok ()) (Ok ()) (Ok ()) None reader cmd = process_response uuid cmd payload.
Proof.
  intros Hc Hp Hs. destruct (client_drain_spec reader [] clr payload rest Hc Hp Hs) as (r & b & Hd & _).
  unfold send_command, send_and_receive, client_receive. simpl. by rewrite Hd.
Qed.

(** An error reply of the bridge: the client reports the status. *)
Theorem error_reply_seen reader clr code rest :
  0 <= clr < 2 ^ 32 -> stream reader = build_error_response clr code ++ rest ->
  send_command uuid (Ok ()) (Ok ()) (Ok ()) None reader "GETPROPROOMDAY"
  = Some (Err (System "Non-success status: ERROR")).
Proof.
  intros Hc. rewrite build_error_response_frame.
  assert (exists x y z, error_msg code = [x; y; z]) as (x & y & z & ->)
    by (destruct code as [|[[p|p|]|[p|p|]|]|]; repeat eexists).
  intros Hs. rewrite (send_command_answered _ _ _ _ _ Hc) with (2 := Hs) by (split; reflexivity). reflexivity.
Qed.

(** The helper waits for the first attempt that connects, among the 30, and
    panics if there is none. *)
Lemma wait_for_bridge_spec connects attempt n k :
  (0 < n)%nat ->
  wait_for_bridge connects attempt n = Some k
  <-> (k < n)%nat /\ connects (attempt + k)%nat = true /\ forall j, (j < k)%nat -> connects (attempt + j)%nat = false.
Proof.
  revert attempt k. induction n as [|n IH]; intros attempt k Hn; [lia|]. cbn [wait_for_bridge].
  destruct (connects attempt) eqn:Ec.
  { split.
    - intros [= <-]. rewrite Nat.add_0_r. split_and!; [lia|done|lia].
    - intros (_ & _ & Hj). destruct k as [|k]; [done|]. specialize (Hj 0%nat ltac:(lia)). rewrite Nat.add_0_r in Hj. congruence. }
  destruct n as [|n].
  { split; [done|]. intros (Hk & Ht & _). assert (k = 0%nat) as -> by lia. rewrite Nat.add_0_r in Ht. congruence. }
  destruct k as [|k].
  { split; [by destruct (wait_for_bridge _ _ _)|]. intros (_ & Ht & _). rewrite Nat.add_0_r in Ht. congruence. }
  transitivity (wait_for_bridge connects (S attempt) (S n) = Some k).
  { destruct (wait_for_bridge _ _ _); simpl; split; intros [=]; congruence. }
  rewrite IH by lia. replace (attempt + S k)%nat with (S attempt + k)%nat by lia. split; intros (Hk & Ht & Hj); split_and!; try done; try lia.
  - intros [|j] Hl; [by rewrite Nat.add_0_r|]. replace (attempt + S j)%nat with (S attempt + j)%nat by lia. apply Hj. lia.
  - intros j Hl. replace (S attempt + j)%nat with (attempt + S j)%nat by lia. apply Hj. lia.
Qed.

(** Shutting down twice, or dropping a helper that was shut down, changes
    nothing. *)
Lemma helper_shutdown_idempotent h : helper_shutdown (helper_shutdown h) = helper_shutdown h.
Proof. unfold helper_shutdown. by destruct (handle h). Qed.

(** C13. The integration test's happy path, from the client through the bridge
    and back: over a cluster that answers its command with a well-formed
    response, however the command and the answer are cut into reads, the bridge
    writes exactly that answer, the client returns the response it holds, and
    the test passes if and only if that is the property asked for, on the day
    asked for, with rooms available. *)
Theorem happy_path `{!HandlerEnv W} cfg (good : W -> Prop) answer w tomorrow chunks reader r pid avail :
  Reliable cfg good answer -> good w -> 
  zlen (str_bytes tomorrow) = 10 -> 88 <= max_frame_size cfg -> 88 <= max_buffer_size cfg ->
  Forall (fun c => c <> []) chunks -> concat chunks = get_serialized_command tomorrow "GETPROPROOMDAY" ->
  reads_as uuid r pid avail ->
  let payload := success_payload pid (date r) avail (final_price r) (rate_feature_mask r) in
  zlen payload < 2 ^ 32 ->
  answer false (prepend_header 0 (build_get_prop_room_day "s1_seg1_p1" "room1" tomorrow)) = shard_frame 0 payload ->
  exists d, handle_connection cfg (map SelRead chunks) w = (Running, d)
  /\ written (d_trace d) = [shard_frame 0 payload]
  /\ (stream reader = concat (written (d_trace d)) ->
      let result := send_command uuid (Ok ()) (Ok ()) (Ok ()) None reader "GETPROPROOMDAY" in
      result = Some (Ok (GetPropRoomDay r))
      /\ (test_get_prop_room_day tomorrow result = true
          <-> property_id r = "s1_seg1_p1" /\ date r = tomorrow /\ 1 <= availability r)).
Proof.
  intros Hrel Hg Ht Hf Hm Hne Hc Hr payload Hp Ha.
  assert (Hl : zlen (c_encode (command_req tomorrow)) = 88).
  { pose proof (command_wf _ Ht) as (H1 & _ & _ & H2). unfold c_encode. rewrite prepend_router_header_frame by done.
    unfold router_frame, shard_frame. pose proof (command_len _ Ht) as Hcl. zl. rewrite Hcl. reflexivity. }
  destruct (handle_reliable cfg good answer [command_req tomorrow] chunks w) as (d & Hd & He & Hw); try done.
  - constructor; [by apply command_wf|constructor].
  - rewrite Hc, command_encode. simpl. by rewrite app_nil_r.
  - apply fits_whole. rewrite Hc, command_encode, Hl. lia.
  - constructor; [rewrite Hl; lia|constructor].
  - exists d. split; [done|].
    assert (Hwr : written (d_trace d) = [shard_frame 0 payload]) by (rewrite Hw, He; simpl; by rewrite <- Ha).
    split; [done|]. rewrite Hwr. simpl. intros Hs. 
    assert (Hres : send_command uuid (Ok ()) (Ok ()) (Ok ()) None reader "GETPROPROOMDAY" = Some (Ok (GetPropRoomDay r))).
    { rewrite (send_command_answered reader 0 payload []); [|done| |done].
      - unfold process_response. rewrite bool_decide_eq_true_2 by done. unfold payload.
        by rewrite success_payload_head, decode_success_head, decode_fields_complete.
      - split; [|done]. unfold payload, success_payload, response_payload. zl. }
    split; [exact Hres|]. rewrite Hres. simpl. rewrite !andb_true_iff, !bool_decide_eq_true, Z.leb_le. tauto.
Qed.

End Properties.

(** ** A concrete exchange *)

#[local] Existing Instance reqwest_text.

(** A short property id as the nodes send it: six characters, the marker, the
    rest, padded. *)
Definition ex_pid : bytes := str_bytes "s1_seg" ++ [xf0] ++ str_bytes "1_p1" ++ replicate 5 x00.
Definition ex_resp : GetPropRoomDayResponse := mkResp "s1_seg1_p1" "2026-03-01" 3 12000 5.
Definition ex_payload : bytes := success_payload ex_pid (date ex_resp) x03 12000 5.

(** A node that answers every request with [ex_payload]. *)
Definition node_env : @HandlerEnv reqwest_text unit := {|
  now := fun w => (0, w);
  execute := fun _ _ w => (Some (Ok (shard_frame 0 ex_payload)), w);
  write_all := fun _ w => (true, w);
  flush := fun w => w |}.

Definition ex_command : bytes := get_serialized_command "2026-03-01" "GETPROPROOMDAY".

Lemma node_reliable : @Reliable reqwest_text unit node_env test_config (fun _ => True) (fun _ _ => shard_frame 0 ex_payload).
Proof. constructor; simpl; eauto. intros. vm_compute. discriminate. Qed.

Lemma ex_reads_as uuid : reads_as uuid ex_resp ex_pid x03.
Proof. unfold reads_as. split_and!; [reflexivity|reflexivity|vm_compute; reflexivity|..]; by vm_compute. Qed.

(** The command arrives in two reads, the answer in two. *)
Lemma happy_path_witness :
  test_get_prop_room_day "2026-03-01"
    (send_command (fun _ => EmptyString) (Ok ()) (Ok ()) (Ok ()) None
       [RdData (take 20 (shard_frame 0 ex_payload)); RdData (drop 20 (shard_frame 0 ex_payload))] "GETPROPROOMDAY") = true.
Proof.
  destruct (@happy_path reqwest_text (fun _ => EmptyString) unit node_env test_config (fun _ => True)
    (fun _ _ => shard_frame 0 ex_payload) tt "2026-03-01" [take 30 ex_command; drop 30 ex_command]
    [RdData (take 20 (shard_frame 0 ex_payload)); RdData (drop 20 (shard_frame 0 ex_payload))]
    ex_resp ex_pid x03) as (d & _ & Hw & Hc).
  - exact node_reliable.
  - exact I.
  - reflexivity.
  - vm_compute. discriminate.
  - vm_compute. discriminate.
  - repeat (constructor; [by vm_compute|]). constructor.
  - reflexivity.
  - apply ex_reads_as.
  - vm_compute. reflexivity.
  - reflexivity.
  - rewrite Hw in Hc. destruct Hc as [_ Ht]; [vm_compute; reflexivity|]. apply Ht.
    split; [reflexivity|]. split; [reflexivity|]. vm_compute. discriminate.
Defined.
