(* ===== verification/LoadBalancer.v ===== *)
(** * [cluster_handler.rs], selection: the handler's state and the load balancer

    [HandlerInner] is the state behind the handler's locks; connections are
    references into the [Store] of [Connection.v].  [next_leader_conn] and
    [next_follower_conn] choose the connection of a request.  The first holds the
    load balancer's mutex and the lock of the slots throughout, so that a call is
    one step.  The second locks the load balancer for the number of nodes, lets
    it go, and locks it again in every iteration, together with the follower
    table: an iteration is one step ([follower_turn]), and what the other tasks do
    before each is an argument of the direct reading. *)

From S2P Require Import Prelude Error Config Demux Connection.
Local Open Scope Z_scope.

(** A follower is filed under its node name, node index and connection index. *)
Abbreviation FollowerKey := (string * Z * Z)%type (only parsing).

Record LoadBalancer := mkLB {
  follower_history : gmap (string * Z) Z;   (* node id, conn id *)
  last_node_id : Z;
  last_leader_id : Z
}.

Record HandlerInner := mkHandler {
  leader_conns : list (option nat);
  leader_host : option string;
  followers : gmap (string * Z * Z) nat;
  load_balancer : LoadBalancer;
  syncing : bool;
  net : Store;
  awaits : nat              (* suspension points of the sync task passed so far *)
}.

Definition set_leader_conns (h : HandlerInner) v :=
  mkHandler v (leader_host h) (followers h) (load_balancer h) (syncing h) (net h) (awaits h).
Definition set_leader_host (h : HandlerInner) v :=
  mkHandler (leader_conns h) v (followers h) (load_balancer h) (syncing h) (net h) (awaits h).
Definition set_followers (h : HandlerInner) v :=
  mkHandler (leader_conns h) (leader_host h) v (load_balancer h) (syncing h) (net h) (awaits h).
Definition set_lb (h : HandlerInner) v :=
  mkHandler (leader_conns h) (leader_host h) (followers h) v (syncing h) (net h) (awaits h).
Definition set_syncing (h : HandlerInner) v :=
  mkHandler (leader_conns h) (leader_host h) (followers h) (load_balancer h) v (net h) (awaits h).
Definition set_net (h : HandlerInner) v n :=
  mkHandler (leader_conns h) (leader_host h) (followers h) (load_balancer h) (syncing h) v n.

Definition set_history (lb : LoadBalancer) v := mkLB v (last_node_id lb) (last_leader_id lb).
Definition set_last_node (lb : LoadBalancer) v := mkLB (follower_history lb) v (last_leader_id lb).
Definition set_last_leader (lb : LoadBalancer) v := mkLB (follower_history lb) (last_node_id lb) v.

(** [ClusterHandler::new] *)
Definition handler_new (cfg : Config) : HandlerInner :=
  {| leader_conns := replicate (Z.to_nat (conn_per_roomzin_node cfg)) None;
     leader_host := None; followers := ∅; load_balancer := mkLB ∅ 0 0;
     syncing := false; net := empty_store; awaits := 0 |}.

(** The open flag of a slot. *)
Definition slot_open (st : Store) (slot : option nat) : bool :=
  match slot with Some c => negb (is_closed c st) | None => false end.

Section Select.
Context {HD : HashIter Z (nat * Z)} {HH : HashIter (string * Z) Z} (clock : nat -> Z) (cfg : Config).

(** [Duration::from_secs(timeout_sec * 2)] *)
Definition cleanup_age : Duration := from_secs (w64 (timeout_sec cfg * 2)).

Definition cleanup_conn (c : nat) (h : HandlerInner) : option HandlerInner :=
  st ← demux_cleanup clock c cleanup_age (net h); Some (set_net h st (awaits h)).

(** [next += 1; if next >= n { next = 0 }] *)
Definition bump (n next : Z) : Z := if n <=? next + 1 then 0 else next + 1.

(** The loop of [next_leader_conn], [n] iterations.  [ld_vec.get(next).take()]
    takes from a temporary [Option] and leaves the slot as it is.  [None] is
    the panic of [cleanup]. *)
Fixpoint leader_scan (n : nat) (next : Z) (h : HandlerInner) : option (option nat * HandlerInner) :=
  match n with
  | O => Some (None, h)
  | S k =>
      match mjoin (leader_conns h !! Z.to_nat next) with
      | None => leader_scan k (bump (conn_per_roomzin_node cfg) next) h
      | Some c =>
          if is_closed c (net h)
          then h ← cleanup_conn c h; leader_scan k (bump (conn_per_roomzin_node cfg) next) h
          else Some (Some c, set_lb h (set_last_leader (load_balancer h) (w32 next)))
      end
  end.

Definition next_leader_conn (h : HandlerInner) : option (option nat * HandlerInner) :=
  let next := w32 (last_leader_id (load_balancer h) + 1) in
  let next := if conn_per_roomzin_node cfg <=? next then 0 else next in
  if bool_decide (leader_conns h = []) || negb (existsb (fun s => bool_decide (is_Some s)) (leader_conns h))
  then Some (None, h)
  else leader_scan (Z.to_nat (Z.min (conn_per_roomzin_node cfg) (zlen (leader_conns h)))) next h.

(** The [while tried < conn_per_roomzin_node] loop over the connections of one
    node, [n] iterations left. *)
Fixpoint node_scan (n : nat) (name : string) (nidx next_conn_id : Z) (h : HandlerInner)
    : option (option nat * HandlerInner) :=
  match n with
  | O => Some (None, h)
  | S k =>
      let key := (name, nidx, next_conn_id) in
      let cpr := w32 (conn_per_roomzin_node cfg) in
      match followers h !! key with
      | Some c =>
          if is_closed c (net h) then
            h ← cleanup_conn c h;
            let h := set_followers h (delete key (followers h)) in
            node_scan k name nidx (bump cpr next_conn_id) h
          else
            let lb := set_last_node (load_balancer h) nidx in
            let counter := match follower_history lb !! (name, nidx) with
                           | Some _ => (next_conn_id + 1) mod cpr
                           | None => 1 end in
            Some (Some c, set_lb h (set_history lb (<[(name, nidx) := counter]> (follower_history lb))))
      | None => node_scan k name nidx (bump cpr next_conn_id) h
      end
  end.

(** One iteration of the outer loop, under the load balancer's mutex: the index
    moves on, and the connections of the node that has it, if any, are tried. *)
Definition follower_turn (h : HandlerInner) : option (option nat * HandlerInner) :=
  let lb := load_balancer h in
  let next := w32 (last_node_id lb + 1) in
  let next := if Z.of_nat (size (follower_history lb)) <=? next then 0 else next in
  let h := set_lb h (set_last_node lb next) in
  match List.find (fun e => snd (fst e) =? next) (hiter (follower_history lb)) with
  | None => Some (None, h)
  | Some ((name, nidx), conn_id) =>
      let next_conn_id := if w32 (conn_per_roomzin_node cfg) <=? conn_id then 0 else conn_id in
      node_scan (Z.to_nat (conn_per_roomzin_node cfg)) name nidx next_conn_id h
  end.

(** The loop, [n] iterations left; [others k] is what the other tasks do before
    the one after which [k] are left. *)
Fixpoint follower_scan (others : nat -> HandlerInner -> HandlerInner) (n : nat) (h : HandlerInner)
    : option (option nat * HandlerInner) :=
  match n with
  | O => Some (None, h)
  | S k =>
      '(res, h) ← follower_turn (others k h);
      match res with
      | Some c => Some (Some c, h)
      | None => follower_scan others k h
      end
  end.

Definition next_follower_conn (others : nat -> HandlerInner -> HandlerInner) (h : HandlerInner)
    : option (option nat * HandlerInner) :=
  follower_scan others (size (follower_history (load_balancer h))) h.

End Select.

(** Nobody else is there. *)
Definition alone (_ : nat) (h : HandlerInner) : HandlerInner := h.

Section Runs.
Context {HD : HashIter Z (nat * Z)} {HH : HashIter (string * Z) Z} (clock : nat -> Z) (cfg : Config).

(** [m] writes or reads, one after the other: the connections they get. *)
Fixpoint writes (m : nat) (h : HandlerInner) : option (list (option nat)) :=
  match m with
  | O => Some []
  | S k => '(res, h) ← next_leader_conn clock cfg h; rs ← writes k h; Some (res :: rs)
  end.

Fixpoint reads (m : nat) (h : HandlerInner) : option (list (option nat)) :=
  match m with
  | O => Some []
  | S k => '(res, h) ← next_follower_conn clock cfg alone h; rs ← reads k h; Some (res :: rs)
  end.

End Runs.

(** ** Specification of the leader choice

    The slots in round-robin order from [start]; the choice is the first open
    one. *)
Fixpoint ring (n : Z) (m : nat) (start : Z) : list Z :=
  match m with
  | O => []
  | S k => start :: ring n k (bump n start)
  end.

Definition open_at (h : HandlerInner) (i : Z) : bool :=
  match mjoin (leader_conns h !! Z.to_nat i) with
  | Some c => negb (is_closed c (net h))
  | None => false
  end.

(** Everything but the correlation maps and the load balancer is as before. *)
Definition same_tables (h h' : HandlerInner) : Prop :=
  leader_conns h' = leader_conns h /\ leader_host h' = leader_host h
  /\ followers h' = followers h /\ syncing h' = syncing h
  /\ same_conns (net h) (net h').

(** ** Lemmas *)

Lemma bump_mod n x : 0 <= x < n -> bump n x = (x + 1) mod n.
Proof.
  intros Hx. unfold bump. destruct (Z.leb_spec n (x + 1)).
  - replace (x + 1) with n by lia. by rewrite Z.mod_same by lia.
  - by rewrite Z.mod_small by lia.
Qed.

Lemma bump_range n x : 0 <= x < n -> 0 <= bump n x < n.
Proof. intros Hx. unfold bump. destruct (Z.leb_spec n (x + 1)); lia. Qed.

(** The ring visits every index once. *)
Lemma ring_elem n m start i :
  0 <= start < n -> i ∈ ring n m start <-> exists k, (k < m)%nat /\ i = (start + Z.of_nat k) mod n.
Proof.
  revert start. induction m as [|m IH]; intros start Hs; cbn [ring].
  { split; [by intros ?%not_elem_of_nil|]. intros (? & ? & _). lia. }
  rewrite elem_of_cons, IH, bump_mod by (by apply bump_range || done). split.
  - intros [->|(k & Hk & ->)].
    + exists 0%nat. split; [lia|]. rewrite Z.add_0_r. by rewrite Z.mod_small.
    + exists (S k). split; [lia|]. rewrite Zplus_mod_idemp_l. f_equal. lia.
  - intros (k & Hk & ->). destruct k as [|k].
    + left. rewrite Z.add_0_r. by rewrite Z.mod_small.
    + right. exists k. split; [lia|]. rewrite Zplus_mod_idemp_l. f_equal. lia.
Qed.

Lemma ring_all n start i : 0 <= start < n -> 0 <= i < n -> i ∈ ring n (Z.to_nat n) start.
Proof.
  intros Hs Hi. apply ring_elem; [done|]. exists (Z.to_nat ((i - start) mod n)).
  pose proof (Z.mod_pos_bound (i - start) n ltac:(lia)). split; [lia|].
  rewrite Z2Nat.id by lia. rewrite Zplus_mod_idemp_r.
  replace (start + (i - start)) with i by lia. by rewrite Z.mod_small.
Qed.

Section SelectLemmas.
Context {HD : HashIter Z (nat * Z)} {HH : HashIter (string * Z) Z} (clock : nat -> Z) (cfg : Config).

(** The clock leaves room for the age of expiry: no panic. *)
Abbreviation covers := (clock_covers clock (cleanup_age cfg)).

Lemma covers_of_config : 0 <= timeout_sec cfg < 2 ^ 62 -> (forall n, 0 <= clock n) -> covers.
Proof.
  intros Ht Hc n. specialize (Hc n). unfold instant_sub, instant_min, cleanup_age, from_secs, w64.
  rewrite Z.mod_small by lia. destruct (Z.leb_spec (- 2 ^ 63 * 1000000000) (clock n - timeout_sec cfg * 2 * 1000000000)); [eauto|lia].
Qed.

Lemma cleanup_conn_Some c h h' :
  cleanup_conn clock cfg c h = Some h' ->
  exists st, demux_cleanup clock c (cleanup_age cfg) (net h) = Some st /\ h' = set_net h st (awaits h).
Proof.
  unfold cleanup_conn. destruct (demux_cleanup _ _ _ _) as [st|]; [|done]. cbn [mbind option_bind]. intros [= <-]. eauto.
Qed.

Lemma cleanup_conn_None c h : cleanup_conn clock cfg c h = None -> ~ covers.
Proof.
  unfold cleanup_conn. intros Hn Hc. destruct (demux_cleanup_total clock c (cleanup_age cfg) (net h) Hc) as [st Hs].
  by rewrite Hs in Hn.
Qed.

Lemma cleanup_conn_same c h h' : cleanup_conn clock cfg c h = Some h' -> same_tables h h'.
Proof. intros (st & Hs & ->)%cleanup_conn_Some. split_and!; try done. by eapply demux_cleanup_same. Qed.

Lemma same_tables_trans h1 h2 h3 : same_tables h1 h2 -> same_tables h2 h3 -> same_tables h1 h3.
Proof.
  intros (? & ? & ? & ? & Hc) (? & ? & ? & ? & Hc'). split_and!; try congruence. by etrans.
Qed.

Lemma open_at_same h h' i : same_tables h h' -> open_at h' i = open_at h i.
Proof. unfold open_at. intros (-> & _ & _ & _ & Hc). destruct (mjoin _) as [c|]; [|done]. by rewrite (same_conns_is_closed _ _ _ Hc). Qed.

Lemma find_open_same h h' l : same_tables h h' -> List.find (open_at h') l = List.find (open_at h) l.
Proof. intros Hs. induction l as [|i l IH]; simpl; [done|]. by rewrite (open_at_same h h'), IH. Qed.

(** The scan finds the first open slot on its way. *)
Lemma leader_scan_spec m next h :
  0 <= next < conn_per_roomzin_node cfg -> conn_per_roomzin_node cfg <= 2 ^ 32 ->
  match leader_scan clock cfg m next h with None => ~ covers | Some (res, h') =>
  same_tables h h' /\ follower_history (load_balancer h') = follower_history (load_balancer h)
  /\ last_node_id (load_balancer h') = last_node_id (load_balancer h)
  /\ match List.find (open_at h) (ring (conn_per_roomzin_node cfg) m next) with
     | Some i => res = mjoin (leader_conns h !! Z.to_nat i) /\ is_Some res
                 /\ last_leader_id (load_balancer h') = i
     | None => res = None /\ last_leader_id (load_balancer h') = last_leader_id (load_balancer h)
     end
  end.
Proof.
  revert next h. induction m as [|m IH]; intros next h Hn H32; [done|]. cbn [leader_scan ring List.find].
  pose proof (bump_range _ _ Hn) as Hb.
  unfold open_at at 1. destruct (mjoin (leader_conns h !! Z.to_nat next)) as [c|] eqn:Ec; [|by apply IH].
  destruct (is_closed c (net h)) eqn:Ecl; simpl negb; cbn iota.
  - destruct (cleanup_conn clock cfg c h) as [h1|] eqn:Ecc; cbn [mbind option_bind]; [|by eapply cleanup_conn_None].
    pose proof (cleanup_conn_same _ _ _ Ecc) as Hs. specialize (IH _ h1 Hb H32).
    destruct (leader_scan _ _ _ _ _) as [[res h']|]; [|done]. destruct IH as (Hs' & Hh & Hl & IH).
    apply cleanup_conn_Some in Ecc as (st & _ & ->).
    rewrite (find_open_same _ _ _ Hs) in IH. split; [by eapply same_tables_trans|done].
  - rewrite w32_small by lia. rewrite Ec. split_and!; done.
Qed.

Lemma wrap_next n last :
  0 < n <= 2 ^ 32 -> 0 <= last < n -> (if n <=? w32 (last + 1) then 0 else w32 (last + 1)) = bump n last.
Proof.
  intros Hn Hl. unfold bump. destruct (decide (last + 1 < 2 ^ 32)); [by rewrite w32_small by lia|].
  replace (last + 1) with (2 ^ 32) by lia. unfold w32. rewrite Z.mod_same by lia.
  destruct (Z.leb_spec n 0), (Z.leb_spec n (2 ^ 32)); lia.
Qed.

(** The leader choice: the first open slot after the last one used. *)
Lemma open_at_range h i : open_at h i = true -> 0 <= i -> i < zlen (leader_conns h).
Proof.
  unfold open_at. destruct (leader_conns h !! Z.to_nat i) as [s|] eqn:E; [|done].
  intros _ Hi. apply lookup_lt_Some in E. unfold zlen. lia.
Qed.

Lemma no_slot_closed h i :
  leader_conns h = [] \/ existsb (fun s : option nat => bool_decide (is_Some s)) (leader_conns h) = false ->
  open_at h i = false.
Proof.
  intros Hno. unfold open_at. destruct (leader_conns h !! Z.to_nat i) as [[c|]|] eqn:E; [|done..].
  exfalso. destruct Hno as [Hno|Hno]; [by rewrite Hno in E|].
  apply list_elem_of_lookup_2, list_elem_of_In in E.
  rewrite (proj2 (existsb_exists _ _)) in Hno; [done|]. exists (Some c). split; [done|].
  by apply bool_decide_true; eauto.
Qed.

Lemma leader_choice h :
  0 < conn_per_roomzin_node cfg <= 2 ^ 32 -> zlen (leader_conns h) = conn_per_roomzin_node cfg ->
  0 <= last_leader_id (load_balancer h) < conn_per_roomzin_node cfg ->
  match next_leader_conn clock cfg h with None => ~ covers | Some (res, h') =>
  same_tables h h' /\ follower_history (load_balancer h') = follower_history (load_balancer h)
  /\ match List.find (open_at h) (ring (conn_per_roomzin_node cfg) (Z.to_nat (conn_per_roomzin_node cfg))
         ((last_leader_id (load_balancer h) + 1) mod conn_per_roomzin_node cfg)) with
     | Some i => res = mjoin (leader_conns h !! Z.to_nat i) /\ is_Some res
         /\ last_leader_id (load_balancer h') = i
     | None => res = None /\ (forall i, 0 <= i -> open_at h i = false)
         /\ last_leader_id (load_balancer h') = last_leader_id (load_balancer h)
     end
  end.
Proof.
  intros Hn Hlen Hl. unfold next_leader_conn. rewrite wrap_next, bump_mod by lia.
  set (start := (_ + 1) mod _).
  assert (Hst : 0 <= start < conn_per_roomzin_node cfg) by (apply Z.mod_pos_bound; lia).
  destruct (_ || _) eqn:Eb.
  - apply orb_true_iff in Eb.
    assert (Hno : forall i, open_at h i = false).
    { intros i. apply no_slot_closed. destruct Eb as [Eb|Eb]; [left; by apply bool_decide_eq_true in Eb|right].
      by apply negb_true_iff in Eb. }
    assert (Hfind : forall l, List.find (open_at h) l = None)
      by (induction l as [|i l IH]; simpl; [done|by rewrite Hno]).
    rewrite Hfind. by split_and!.
  - clear Eb. pose proof (leader_scan_spec (Z.to_nat (conn_per_roomzin_node cfg)) start h Hst ltac:(lia)) as Hs.
    rewrite Hlen, Z.min_id. destruct (leader_scan _ _ _ _ _) as [[res h']|]; [|done]. destruct Hs as (Hs & Hf & _ & Hm).
    split; [done|]. split; [done|]. destruct (List.find _ _) as [i|] eqn:Ef; [done|]. destruct Hm as [-> Hm].
    split_and!; try done. intros i Hi. destruct (open_at h i) eqn:Eo; [|done].
    pose proof (open_at_range _ _ Eo Hi). rewrite (find_None_elem _ _ i Ef) in Eo; [done|].
    apply ring_all; lia.
Qed.

(** *** Followers *)

(** What a selection may change: closed connections leave the follower table,
    correlation maps are cleaned up, the load balancer moves on; node ids stay
    as they are. *)
Definition pruned (h h' : HandlerInner) : Prop :=
  leader_conns h' = leader_conns h /\ leader_host h' = leader_host h /\ syncing h' = syncing h
  /\ same_conns (net h) (net h')
  /\ followers h' ⊆ followers h
  /\ (forall key c, followers h !! key = Some c -> is_closed c (net h) = false ->
        followers h' !! key = Some c)
  /\ dom (follower_history (load_balancer h')) = dom (follower_history (load_balancer h)).

Definition open_key (h : HandlerInner) (name : string) (nidx i : Z) : bool :=
  match followers h !! (name, nidx, i) with
  | Some c => negb (is_closed c (net h))
  | None => false
  end.

Lemma pruned_refl h : pruned h h.
Proof. by split_and!. Qed.

Lemma pruned_trans h1 h2 h3 : pruned h1 h2 -> pruned h2 h3 -> pruned h1 h3.
Proof.
  intros (L1 & H1 & S1 & C1 & F1 & O1 & D1) (L2 & H2 & S2 & C2 & F2 & O2 & D2).
  split_and!; try congruence.
  - by etrans.
  - by etrans.
  - intros key c Hk Hc. apply O2; [by apply O1|]. by rewrite (same_conns_is_closed _ _ _ C1).
Qed.

Lemma pruned_set_last h i : pruned h (set_lb h (set_last_node (load_balancer h) i)).
Proof. by split_and!. Qed.

Lemma open_key_pruned h h' name nidx i : pruned h h' -> open_key h' name nidx i = open_key h name nidx i.
Proof.
  intros (_ & _ & _ & C & F & O & _). unfold open_key.
  destruct (followers h !! (name, nidx, i)) as [c|] eqn:E.
  - destruct (is_closed c (net h)) eqn:Ec.
    + destruct (followers h' !! (name, nidx, i)) as [c'|] eqn:E'; [|done].
      apply (lookup_weaken _ _ _ _ E') in F. rewrite (same_conns_is_closed _ _ _ C). simplify_eq. by rewrite Ec.
    + by rewrite (O _ _ E Ec), (same_conns_is_closed _ _ _ C), Ec.
  - destruct (followers h' !! (name, nidx, i)) as [c'|] eqn:E'; [|done].
    apply (lookup_weaken _ _ _ _ E') in F. congruence.
Qed.

Lemma find_open_key_pruned h h' name nidx l :
  pruned h h' -> List.find (open_key h' name nidx) l = List.find (open_key h name nidx) l.
Proof.
  intros Hp. induction l as [|i l IH]; simpl; [done|]. by rewrite (open_key_pruned h h'), IH.
Qed.

Lemma drop_closed_pruned key c h h' :
  followers h !! key = Some c -> is_closed c (net h) = true -> cleanup_conn clock cfg c h = Some h' ->
  pruned h (set_followers h' (delete key (followers h'))).
Proof.
  intros Hk Hc (st & Hs & ->)%cleanup_conn_Some. split_and!; try done.
  - by eapply demux_cleanup_same.
  - apply delete_subseteq.
  - intros key' c'' Hk' Hc'. simpl. rewrite lookup_delete_ne; [done|]. congruence.
Qed.

(** The connections of one node, in round-robin order from [start]: the first
    open one is chosen. *)
Lemma node_scan_spec m name nidx start h :
  is_Some (follower_history (load_balancer h) !! (name, nidx)) ->
  match node_scan clock cfg m name nidx start h with None => ~ covers | Some (res, h') =>
  pruned h h'
  /\ match List.find (open_key h name nidx) (ring (w32 (conn_per_roomzin_node cfg)) m start) with
     | Some i => res = followers h !! (name, nidx, i) /\ is_Some res
         /\ load_balancer h' = mkLB
              (<[(name, nidx) := (i + 1) mod w32 (conn_per_roomzin_node cfg)]>
                 (follower_history (load_balancer h))) nidx (last_leader_id (load_balancer h))
     | None => res = None /\ load_balancer h' = load_balancer h
     end
  end.
Proof.
  set (cpr := w32 (conn_per_roomzin_node cfg)).
  revert start h. induction m as [|m IH]; intros start h [v Hv]; [by split; [apply pruned_refl|]|].
  cbn [node_scan ring List.find]. fold cpr. unfold open_key at 1.
  destruct (followers h !! (name, nidx, start)) as [c|] eqn:Ek; [|apply IH; by eexists].
  destruct (is_closed c (net h)) eqn:Ec; simpl negb; cbn iota.
  - destruct (cleanup_conn clock cfg c h) as [h0|] eqn:Ecc; cbn [mbind option_bind]; [|by eapply cleanup_conn_None].
    pose proof (drop_closed_pruned _ _ _ _ Ek Ec Ecc) as Hp.
    apply cleanup_conn_Some in Ecc as (st & _ & ->).
    set (h1 := set_followers _ _) in *. specialize (IH (bump cpr start) h1 ltac:(by eexists)).
    destruct (node_scan _ _ _ _ _ _ h1) as [[res h']|]; [|done]. destruct IH as [Hp' IH].
    rewrite (find_open_key_pruned _ _ _ _ _ Hp) in IH. split; [by eapply pruned_trans|].
    destruct (List.find _ _) as [i|] eqn:Ef; [|done]. destruct IH as (-> & [c' Hs] & IH).
    split_and!; [|by eexists|done]. rewrite Hs.
    destruct Hp as (_ & _ & _ & _ & F & _). symmetry. by eapply lookup_weaken.
  - cbn [set_last_node follower_history]. rewrite Hv. split; [|rewrite Ek; split_and!; done].
    split_and!; try done.
    simpl. rewrite dom_insert_L. apply elem_of_dom_2 in Hv. set_solver.
Qed.

(** *** The node of an index *)

(** The history entry with node index [i] that the search meets first. *)
Definition node_of (h : HandlerInner) (i : Z) : option (string * Z * Z) :=
  List.find (fun e => snd (fst e) =? i) (hiter (follower_history (load_balancer h))).

Definition node_count (h : HandlerInner) : Z := Z.of_nat (size (follower_history (load_balancer h))).

(** The node of index [i] has an open connection in one of its slots. *)
Definition node_ready (h : HandlerInner) (i : Z) : bool :=
  match node_of h i with
  | Some (name, _, _) =>
      existsb (open_key h name i) (ring (conn_per_roomzin_node cfg) (Z.to_nat (conn_per_roomzin_node cfg)) 0)
  | None => false
  end.

(** The numbers of the load balancer are [u32]s, and the leader index is a slot. *)
Definition lb_wf (lb : LoadBalancer) : Prop :=
  0 <= last_node_id lb < 2 ^ 32 /\ 0 <= last_leader_id lb < conn_per_roomzin_node cfg
  /\ map_Forall (fun _ v => 0 <= v < 2 ^ 32) (follower_history lb).

(** The node index the next read starts at. *)
Definition first_node (h : HandlerInner) : Z :=
  let next := w32 (last_node_id (load_balancer h) + 1) in
  if node_count h <=? next then 0 else next.

Lemma node_of_Some h i e :
  node_of h i = Some e -> exists name v, e = (name, i, v)
  /\ follower_history (load_balancer h) !! (name, i) = Some v.
Proof.
  intros [Hin Hi]%find_Some_elem. destruct e as [[name i'] v]. simpl in Hi. zbool. subst i'.
  exists name, v. split; [done|]. by apply hiter_lookup.
Qed.

Lemma node_of_None h i name :
  node_of h i = None -> follower_history (load_balancer h) !! (name, i) = None.
Proof.
  intros Hn. destruct (follower_history _ !! _) as [v|] eqn:E; [|done].
  apply hiter_lookup in E. apply (find_None_elem _ _ _ Hn) in E. simpl in E. zbool. lia.
Qed.

Lemma existsb_find {A} (f : A -> bool) l : existsb f l = bool_decide (is_Some (List.find f l)).
Proof. induction l as [|x l IH]; simpl; [done|]. by destruct (f x). Qed.

Lemma existsb_ring f n s :
  0 <= s < n -> existsb f (ring n (Z.to_nat n) s) = true <-> exists i, 0 <= i < n /\ f i = true.
Proof.
  intros Hs. rewrite existsb_exists. split.
  - intros (i & Hin & Hf). exists i. split; [|done]. apply list_elem_of_In, ring_elem in Hin as (k & _ & ->); [|done].
    apply Z.mod_pos_bound. lia.
  - intros (i & Hi & Hf). exists i. split; [|done]. by apply list_elem_of_In, ring_all.
Qed.

Lemma node_ready_same h h' i :
  pruned h h' -> follower_history (load_balancer h') = follower_history (load_balancer h) ->
  node_ready h' i = node_ready h i.
Proof.
  intros Hp Hh. unfold node_ready, node_of. rewrite Hh.
  destruct (List.find _ (hiter _)) as [[[nm k] v]|]; [|done].
  by rewrite !existsb_find, (find_open_key_pruned _ _ _ _ _ Hp).
Qed.

Lemma find_node_ready_same h h' l :
  pruned h h' -> follower_history (load_balancer h') = follower_history (load_balancer h) ->
  List.find (node_ready h') l = List.find (node_ready h) l.
Proof. intros Hp Hh. induction l as [|k l IH]; simpl; [done|]. by rewrite (node_ready_same h h'), IH. Qed.

Lemma first_node_range h : 0 < node_count h -> 0 <= first_node h < node_count h.
Proof.
  intros. unfold first_node. pose proof (w32_range (last_node_id (load_balancer h) + 1)). zcase; lia.
Qed.

(** The ready test does not depend on where the ring starts. *)
Lemma ready_from h name i s :
  0 <= s < conn_per_roomzin_node cfg ->
  existsb (open_key h name i) (ring (conn_per_roomzin_node cfg) (Z.to_nat (conn_per_roomzin_node cfg)) 0)
  = bool_decide (is_Some (List.find (open_key h name i)
      (ring (conn_per_roomzin_node cfg) (Z.to_nat (conn_per_roomzin_node cfg)) s))).
Proof. intros Hs. rewrite <- existsb_find. apply eq_true_iff_eq. rewrite !existsb_ring by lia. done. Qed.

(** One iteration: the node of the next index, if there is one, and in it the
    first open connection in ring order from the counter the history holds. *)
Lemma follower_turn_lemma h :
  0 < conn_per_roomzin_node cfg < 2 ^ 32 -> lb_wf (load_balancer h) ->
  let cpr := conn_per_roomzin_node cfg in
  match follower_turn clock cfg h with None => ~ covers | Some (res, h') =>
  pruned h h'
  /\ match node_of h (first_node h) with
     | None => res = None /\ load_balancer h' = set_last_node (load_balancer h) (first_node h)
     | Some (name, i, v) => i = first_node h /\ follower_history (load_balancer h) !! (name, i) = Some v
         /\ match List.find (open_key h name i) (ring cpr (Z.to_nat cpr) (if cpr <=? v then 0 else v)) with
            | Some j => res = followers h !! (name, i, j) /\ is_Some res
                /\ load_balancer h' = mkLB (<[(name, i) := (j + 1) mod cpr]> (follower_history (load_balancer h))) i
                     (last_leader_id (load_balancer h))
            | None => res = None /\ load_balancer h' = set_last_node (load_balancer h) (first_node h)
            end
     end
  end.
Proof.
  intros Hcpr Hwf cpr. unfold follower_turn. cbv zeta. fold (node_count h). fold (first_node h).
  set (h1 := set_lb h (set_last_node (load_balancer h) (first_node h))).
  assert (H1 : pruned h h1) by apply pruned_set_last.
  fold (node_of h (first_node h)). destruct (node_of h (first_node h)) as [[[name i] v]|] eqn:En; [|by split].
  apply node_of_Some in En as (name' & v' & [= <- Hi <-] & Hv). rewrite Hi.
  pose proof (node_scan_spec (Z.to_nat cpr) name (first_node h)
    (if w32 cpr <=? v then 0 else v) h1 ltac:(by eexists)) as Hs.
  fold cpr in Hs |- *. rewrite (w32_small cpr) in * by (unfold cpr; lia).
  destruct (node_scan _ _ _ _ _ _ h1) as [[res h2]|]; [|done]. destruct Hs as [Hp2 Hs].
  rewrite (find_open_key_pruned _ _ _ _ _ H1) in Hs. split; [by eapply pruned_trans|]. split; [done|]. split; [done|].
  destruct (List.find _ _) as [j|]; [|exact Hs]. by destruct Hs as (-> & ? & ->).
Qed.

(** The counter a search starts from is a slot. *)
Lemma turn_start name i v h :
  0 < conn_per_roomzin_node cfg -> lb_wf (load_balancer h) -> follower_history (load_balancer h) !! (name, i) = Some v ->
  0 <= (if conn_per_roomzin_node cfg <=? v then 0 else v) < conn_per_roomzin_node cfg.
Proof.
  intros Hcpr (_ & _ & Hh) Hv. pose proof (map_Forall_lookup_1 _ _ _ _ Hh Hv) as Hvr. cbn beta in Hvr. zcase; lia.
Qed.

(** The search on its own takes the first ready node in ring order from
    [first_node] and, in it, the first open connection in ring order from the
    counter the history holds for the node. *)
Lemma follower_scan_spec m h :
  0 < conn_per_roomzin_node cfg < 2 ^ 32 -> lb_wf (load_balancer h) ->
  0 < node_count h <= 2 ^ 32 ->
  match follower_scan clock cfg alone m h with None => ~ covers | Some (res, h') =>
  pruned h h'
  /\ match List.find (node_ready h) (ring (node_count h) m (first_node h)) with
     | None => res = None /\ follower_history (load_balancer h') = follower_history (load_balancer h)
     | Some i => exists name v j c, res = Some c
         /\ follower_history (load_balancer h) !! (name, i) = Some v
         /\ List.find (open_key h name i) (ring (conn_per_roomzin_node cfg)
              (Z.to_nat (conn_per_roomzin_node cfg)) (if conn_per_roomzin_node cfg <=? v then 0 else v)) = Some j
         /\ followers h !! (name, i, j) = Some c
         /\ load_balancer h' = mkLB (<[(name, i) := (j + 1) mod conn_per_roomzin_node cfg]>
               (follower_history (load_balancer h))) i (last_leader_id (load_balancer h))
     end
  end.
Proof.
  intros Hcpr. revert h. induction m as [|m IH]; intros h Hwf Hn; [by split; [apply pruned_refl|]|].
  cbn [follower_scan ring List.find]. change (alone m h) with h.
  pose proof Hwf as (Hln & Hll & Hh). pose proof (first_node_range h ltac:(lia)) as Hfn.
  pose proof (follower_turn_lemma h Hcpr Hwf) as Ht. cbv zeta in Ht.
  destruct (follower_turn clock cfg h) as [[res h1]|]; cbn [mbind option_bind]; [|done]. destruct Ht as [Hp Ht].
  assert (Hnext : node_ready h (first_node h) = false -> res = None ->
    load_balancer h1 = set_last_node (load_balancer h) (first_node h) ->
    match match res with Some c => Some (Some c, h1) | None => follower_scan clock cfg alone m h1 end
      with None => ~ covers | Some (res, h') =>
    pruned h h' /\ match (if node_ready h (first_node h) then Some (first_node h)
        else List.find (node_ready h) (ring (node_count h) m (bump (node_count h) (first_node h)))) with
     | None => res = None /\ follower_history (load_balancer h') = follower_history (load_balancer h)
     | Some i => exists name v j c, res = Some c
         /\ follower_history (load_balancer h) !! (name, i) = Some v
         /\ List.find (open_key h name i) (ring (conn_per_roomzin_node cfg)
              (Z.to_nat (conn_per_roomzin_node cfg)) (if conn_per_roomzin_node cfg <=? v then 0 else v)) = Some j
         /\ followers h !! (name, i, j) = Some c
         /\ load_balancer h' = mkLB (<[(name, i) := (j + 1) mod conn_per_roomzin_node cfg]>
               (follower_history (load_balancer h))) i (last_leader_id (load_balancer h))
     end end).
  { intros Hr -> Hlb. rewrite Hr. assert (Hh1 : follower_history (load_balancer h1) = follower_history (load_balancer h)) by (by rewrite Hlb).
    assert (Hn1 : node_count h1 = node_count h) by (unfold node_count; by rewrite Hh1).
    assert (Hf1 : first_node h1 = bump (node_count h) (first_node h)).
    { unfold first_node at 1. rewrite Hn1, Hlb. by apply wrap_next. }
    specialize (IH h1). rewrite Hn1, Hf1, (find_node_ready_same h h1), Hlb in IH by done.
    specialize (IH ltac:(split_and!; simpl; done || lia) Hn).
    destruct (follower_scan clock cfg alone m h1) as [[res' h']|]; [|done]. destruct IH as [Hp' IH].
    split; [by eapply pruned_trans|]. destruct (List.find (node_ready h) _) as [k|]; [|exact IH].
    destruct IH as (nm & w & j & c & -> & Hw & Hj & Hc & Hlb'). exists nm, w, j, c. split_and!; try done.
    - rewrite <- Hj. symmetry. by apply find_open_key_pruned.
    - destruct Hp as (_ & _ & _ & _ & F & _). by eapply lookup_weaken. }
  destruct (node_of h (first_node h)) as [[[name i] v]|] eqn:En;
    [|apply Hnext; [unfold node_ready; by rewrite En|apply Ht..]].
  destruct Ht as (-> & Hv & Ht).
  pose proof (ready_from h name (first_node h) _ (turn_start name _ v h ltac:(lia) Hwf Hv)) as Hr.
  assert (Hrd : node_ready h (first_node h) = existsb (open_key h name (first_node h))
    (ring (conn_per_roomzin_node cfg) (Z.to_nat (conn_per_roomzin_node cfg)) 0)) by (unfold node_ready; by rewrite En).
  rewrite <- Hrd in Hr. destruct (List.find (open_key h name (first_node h)) _) as [j|] eqn:Ej.
  - rewrite bool_decide_true in Hr by eauto. rewrite Hr. destruct Ht as (-> & [c Hc] & Hlb). rewrite Hc.
    split; [done|]. by exists name, v, j, c.
  - apply Hnext; [by rewrite Hr, bool_decide_false by (intros [? ?]; done)|apply Ht..].
Qed.

(** Whatever the indices in the history, an iteration finds an open connection of
    a node of the history and keeps the load balancer well formed. *)
Lemma follower_turn_step h :
  0 < conn_per_roomzin_node cfg < 2 ^ 32 -> lb_wf (load_balancer h) ->
  match follower_turn clock cfg h with None => ~ covers | Some (res, h') =>
  pruned h h' /\ lb_wf (load_balancer h') /\ match res with
  | None => load_balancer h' = set_last_node (load_balancer h) (last_node_id (load_balancer h'))
  | Some c => exists name i j, followers h !! (name, i, j) = Some c /\ is_closed c (net h) = false
      /\ is_Some (follower_history (load_balancer h) !! (name, i))
      /\ load_balancer h' = mkLB (<[(name, i) := (j + 1) mod conn_per_roomzin_node cfg]>
            (follower_history (load_balancer h))) i (last_leader_id (load_balancer h))
  end end.
Proof.
  intros Hcpr Hwf. pose proof (follower_turn_lemma h Hcpr Hwf) as Ht. cbv zeta in Ht.
  destruct (follower_turn clock cfg h) as [[res h']|]; [|done]. destruct Ht as [Hp Ht]. split; [done|].
  pose proof Hwf as (Hl & Hll & Hh).
  assert (Hst : 0 <= first_node h < 2 ^ 32).
  { unfold first_node. pose proof (w32_range (last_node_id (load_balancer h) + 1)). zcase; lia. }
  assert (Hnone : res = None -> load_balancer h' = set_last_node (load_balancer h) (first_node h) ->
    lb_wf (load_balancer h') /\ match res with None => load_balancer h' = set_last_node (load_balancer h) (last_node_id (load_balancer h'))
      | Some c => exists name i j, followers h !! (name, i, j) = Some c /\ is_closed c (net h) = false
      /\ is_Some (follower_history (load_balancer h) !! (name, i))
      /\ load_balancer h' = mkLB (<[(name, i) := (j + 1) mod conn_per_roomzin_node cfg]>
            (follower_history (load_balancer h))) i (last_leader_id (load_balancer h)) end).
  { intros -> ->. split; [by split_and!; simpl; try lia|done]. }
  destruct (node_of h (first_node h)) as [[[name i] v]|]; [|by apply Hnone; apply Ht].
  destruct Ht as (-> & Hv & Ht). destruct (List.find _ _) as [j|] eqn:Ej; [|by apply Hnone; apply Ht].
  destruct Ht as (-> & [c Hc] & Hlb). rewrite Hc. split.
  - rewrite Hlb. split; [exact Hst|]. split; [exact Hll|]. apply map_Forall_insert_2; [|done].
    pose proof (Z.mod_pos_bound (j + 1) (conn_per_roomzin_node cfg)). lia.
  - exists name, (first_node h), j. split_and!; [done| |by eexists|done].
    apply find_some in Ej as [_ Ho]. unfold open_key in Ho. rewrite Hc in Ho. by apply negb_true_iff in Ho.
Qed.

Lemma follower_scan_step m h :
  0 < conn_per_roomzin_node cfg < 2 ^ 32 -> lb_wf (load_balancer h) ->
  match follower_scan clock cfg alone m h with None => ~ covers | Some (res, h') =>
  pruned h h' /\ lb_wf (load_balancer h') /\ match res with
  | None => load_balancer h' = set_last_node (load_balancer h) (last_node_id (load_balancer h'))
  | Some c => exists name i j, followers h !! (name, i, j) = Some c /\ is_closed c (net h) = false
      /\ is_Some (follower_history (load_balancer h) !! (name, i))
      /\ load_balancer h' = mkLB (<[(name, i) := (j + 1) mod conn_per_roomzin_node cfg]>
            (follower_history (load_balancer h))) i (last_leader_id (load_balancer h))
  end end.
Proof.
  intros Hcpr. revert h. induction m as [|m IH]; intros h Hwf; cbn [follower_scan].
  { split; [apply pruned_refl|]. split; [done|]. by destruct (load_balancer h). }
  change (alone m h) with h. pose proof (follower_turn_step h Hcpr Hwf) as Ht.
  destruct (follower_turn clock cfg h) as [[[c|] h1]|]; cbn [mbind option_bind]; [exact Ht| |done]. destruct Ht as (Hp & Hwf1 & Hh1).
  specialize (IH h1 Hwf1). destruct (follower_scan clock cfg alone m h1) as [[res h']|]; [|done].
  destruct IH as (Hp' & Hwf' & IH). split; [by eapply pruned_trans|]. split; [done|].
  rewrite Hh1 in IH. destruct res as [c|]; [|exact IH]. destruct IH as (nm & i & k & Hc & Ho & Hn & Hlb').
  exists nm, i, k. pose proof Hp as (_ & _ & _ & C & F & _ & D). split_and!; try done.
  - by eapply lookup_weaken.
  - by rewrite <- (same_conns_is_closed _ _ _ C).
Qed.

(** A choice of leader keeps the load balancer well formed. *)
Lemma leader_step h :
  0 < conn_per_roomzin_node cfg <= 2 ^ 32 -> lb_wf (load_balancer h) ->
  match next_leader_conn clock cfg h with None => ~ covers | Some (res, h') =>
  same_tables h h' /\ follower_history (load_balancer h') = follower_history (load_balancer h)
  /\ lb_wf (load_balancer h') end.
Proof.
  intros Hn Hwf. pose proof Hwf as (Hl & Hll & Hh). unfold next_leader_conn. rewrite wrap_next, bump_mod by lia.
  destruct (_ || _); [done|]. set (start := (_ + 1) mod _).
  assert (Hst : 0 <= start < conn_per_roomzin_node cfg) by (apply Z.mod_pos_bound; lia).
  pose proof (leader_scan_spec (Z.to_nat (Z.min (conn_per_roomzin_node cfg) (zlen (leader_conns h))))
    start h Hst ltac:(lia)) as Hs.
  destruct (leader_scan _ _ _ _ _) as [[res h']|]; [|done]. destruct Hs as (Hs & Hf & Hln & Hm).
  split; [done|]. split; [done|]. unfold lb_wf. rewrite Hf, Hln. split; [done|]. split; [|done].
  destruct (List.find _ _) as [i|] eqn:Ef.
  - destruct Hm as (_ & _ & ->). apply find_Some_elem in Ef as [(k & _ & ->)%ring_elem _]; [|done].
    apply Z.mod_pos_bound. lia.
  - by destruct Hm as [_ ->].
Qed.

(** A node index belongs to one name. *)
Definition ids_functional (h : HandlerInner) : Prop :=
  forall a b i, is_Some (follower_history (load_balancer h) !! (a, i)) ->
    is_Some (follower_history (load_balancer h) !! (b, i)) -> a = b.

Lemma node_ready_iff h i :
  0 < conn_per_roomzin_node cfg -> ids_functional h ->
  node_ready h i = true <-> exists name j, is_Some (follower_history (load_balancer h) !! (name, i))
    /\ 0 <= j < conn_per_roomzin_node cfg /\ open_key h name i j = true.
Proof.
  intros Hcpr Hf. unfold node_ready. destruct (node_of h i) as [[[name k] v]|] eqn:En.
  - apply node_of_Some in En as (name' & v' & [= <- -> <-] & Hv). rewrite existsb_ring by lia. split.
    + intros (j & Hj & Ho). exists name, j. eauto.
    + intros (nm & j & Hn & Hj & Ho). assert (nm = name) as -> by (by eapply Hf; eauto). eauto.
  - split; [done|]. intros (nm & j & [v Hv] & _). by rewrite (node_of_None h i nm En) in Hv.
Qed.

Lemma next_follower_conn_empty others h :
  node_count h = 0 -> next_follower_conn clock cfg others h = Some (None, h).
Proof. intros Hz. unfold next_follower_conn, node_count in *. by replace (size _) with 0%nat by lia. Qed.

(** On its own [next_follower_conn] runs one full turn of the ring. *)
Lemma next_follower_conn_scan h :
  0 < conn_per_roomzin_node cfg < 2 ^ 32 -> lb_wf (load_balancer h) -> 0 < node_count h <= 2 ^ 32 ->
  let i := List.find (node_ready h) (ring (node_count h) (Z.to_nat (node_count h)) (first_node h)) in
  match next_follower_conn clock cfg alone h with None => ~ covers | Some (res, h') =>
  pruned h h' /\ match i with
  | None => res = None /\ follower_history (load_balancer h') = follower_history (load_balancer h)
  | Some i => exists name j c, res = Some c /\ is_Some (follower_history (load_balancer h) !! (name, i))
      /\ followers h !! (name, i, j) = Some c /\ is_closed c (net h) = false
      /\ load_balancer h' = mkLB (<[(name, i) := (j + 1) mod conn_per_roomzin_node cfg]>
            (follower_history (load_balancer h))) i (last_leader_id (load_balancer h))
  end end.
Proof.
  intros Hcpr Hwf Hn. pose proof (follower_scan_spec (Z.to_nat (node_count h)) h Hcpr Hwf Hn) as Hs.
  unfold next_follower_conn. replace (size _) with (Z.to_nat (node_count h)) by (unfold node_count; lia).
  destruct (follower_scan _ _ _ _ h) as [[res h']|]; [|done]. destruct Hs as [Hp Hs]. split; [done|].
  destruct (List.find (node_ready h) _) as [i|]; [|done].
  destruct Hs as (name & v & j & c & -> & Hv & Hj & Hc & Hlb). exists name, j, c.
  split_and!; eauto. apply find_some in Hj as [_ Ho]. unfold open_key in Ho. rewrite Hc in Ho.
  by destruct (is_closed c (net h)).
Qed.

(** The ready nodes, whatever indices they share. *)
Lemma node_ready_first h i :
  0 < conn_per_roomzin_node cfg ->
  node_ready h i = true <-> exists name v j, node_of h i = Some (name, i, v)
    /\ 0 <= j < conn_per_roomzin_node cfg /\ open_key h name i j = true.
Proof.
  intros Hcpr. unfold node_ready. destruct (node_of h i) as [[[name k] v]|] eqn:En.
  - pose proof En as En'. apply node_of_Some in En' as (name' & v' & [= <- -> <-] & Hv).
    rewrite existsb_ring by lia. split.
    + intros (j & Hj & Ho). by exists name, v, j.
    + intros (nm & w & j & [= -> ->] & Hj & Ho). by exists j.
  - split; [done|]. by intros (nm & w & j & [=] & _).
Qed.

Lemma follower_reaches h :
  0 < conn_per_roomzin_node cfg < 2 ^ 32 -> lb_wf (load_balancer h) -> node_count h <= 2 ^ 32 ->
  match next_follower_conn clock cfg alone h with None => ~ covers | Some (res, _) =>
  is_Some res <-> exists i, 0 <= i < node_count h /\ node_ready h i = true
  end.
Proof.
  intros Hcpr Hwf Hn. destruct (decide (node_count h = 0)) as [Hz|Hz].
  { rewrite next_follower_conn_empty by done. split; [by intros []|]. intros (? & ? & _). lia. }
  assert (Hpos : 0 < node_count h) by (unfold node_count in *; lia).
  pose proof (next_follower_conn_scan h Hcpr Hwf ltac:(lia)) as Hs. cbv zeta in Hs.
  pose proof (first_node_range h Hpos) as Hfn.
  destruct (next_follower_conn _ _ _ h) as [[res h']|]; [|done]. destruct Hs as [_ Hs].
  destruct (List.find _ _) as [i|] eqn:Ef.
  - destruct Hs as (? & ? & ? & -> & _). split; [intros _|eauto].
    apply find_Some_elem in Ef as [(k & _ & ->)%ring_elem Hr]; [|done].
    exists ((first_node h + Z.of_nat k) mod node_count h). split; [apply Z.mod_pos_bound; lia|done].
  - destruct Hs as [-> _]. split; [by intros []|]. intros (i & Hi & Hr).
    rewrite (find_None_elem _ _ i Ef) in Hr; [done|]. by apply ring_all.
Qed.

(** ** Properties *)

(** C19. A write goes to the leader connection that comes first in round-robin
    order after the last one used and is open; there is none exactly when no
    slot holds an open connection, and nothing but the load balancer and the
    correlation maps of closed connections changes.  The call panics only on a
    clock that has run for less than the age of expiry. *)
Theorem next_leader_conn_first_open h :
  0 < conn_per_roomzin_node cfg <= 2 ^ 32 -> zlen (leader_conns h) = conn_per_roomzin_node cfg ->
  0 <= last_leader_id (load_balancer h) < conn_per_roomzin_node cfg ->
  let n := conn_per_roomzin_node cfg in
  let start := (last_leader_id (load_balancer h) + 1) mod n in
  match next_leader_conn clock cfg h with
  | None => ~ clock_covers clock (cleanup_age cfg)
  | Some (res, h') =>
      same_tables h h'
      /\ follower_history (load_balancer h') = follower_history (load_balancer h)
      /\ match List.find (open_at h) (ring n (Z.to_nat n) start) with
         | Some i => res = mjoin (leader_conns h !! Z.to_nat i) /\ is_Some res
             /\ last_leader_id (load_balancer h') = i
         | None => res = None /\ (forall i, 0 <= i -> open_at h i = false)
             /\ last_leader_id (load_balancer h') = last_leader_id (load_balancer h)
         end
  end.
Proof.
  intros. by apply leader_choice.
Qed.

(** Writes are spread evenly: with every leader slot open, consecutive writes
    use the slots one after the other, wrapping around. *)
Theorem leader_round_robin m h :
  0 < conn_per_roomzin_node cfg <= 2 ^ 32 -> zlen (leader_conns h) = conn_per_roomzin_node cfg ->
  0 <= last_leader_id (load_balancer h) < conn_per_roomzin_node cfg ->
  (forall i, 0 <= i < conn_per_roomzin_node cfg -> open_at h i = true) ->
  match writes clock cfg m h with None => ~ covers | Some rs => rs = map (fun k => mjoin (leader_conns h !! Z.to_nat
    ((last_leader_id (load_balancer h) + 1 + Z.of_nat k) mod conn_per_roomzin_node cfg))) (seq 0 m) end.
Proof.
  intros Hn Hlen. revert h Hlen. induction m as [|m IH]; intros h Hlen Hl Hall; [done|]. cbn [writes].
  pose proof (leader_choice h Hn Hlen Hl) as Hs.
  set (n := conn_per_roomzin_node cfg) in *. set (start := (last_leader_id (load_balancer h) + 1) mod n) in *.
  assert (Hst : 0 <= start < n) by (apply Z.mod_pos_bound; lia).
  destruct (next_leader_conn _ _ h) as [[res h']|]; cbn [mbind option_bind]; [|done]. destruct Hs as (Hsame & _ & Hm).
  replace (Z.to_nat n) with (S (Z.to_nat (n - 1))) in Hm by lia. cbn [ring List.find] in Hm.
  rewrite Hall in Hm by done. destruct Hm as (-> & _ & Hlast).
  pose proof Hsame as (Hlc & _). specialize (IH h'). rewrite Hlast, Hlc in IH.
  specialize (IH Hlen Hst ltac:(intros; rewrite (open_at_same h h') by done; auto)).
  destruct (writes _ _ m h') as [rs|]; [|done]. subst rs. cbn [seq map]. rewrite Z.add_0_r. f_equal.
  rewrite <- seq_shift, map_map. apply map_ext. intros k. do 3 f_equal. subst start.
  rewrite <- Z.add_assoc, Zplus_mod_idemp_l. f_equal. lia.
Qed.

(** Whatever the state, the connection a read gets is an open follower
    connection, filed under a node of the history; its node's counter moves on
    by one and nothing leaves the follower table but closed connections. *)
Theorem next_follower_conn_open h :
  0 < conn_per_roomzin_node cfg < 2 ^ 32 -> lb_wf (load_balancer h) ->
  match next_follower_conn clock cfg alone h with None => ~ covers | Some (res, h') =>
  pruned h h' /\ lb_wf (load_balancer h') /\ match res with
  | None => load_balancer h' = set_last_node (load_balancer h) (last_node_id (load_balancer h'))
  | Some c => exists name i j, followers h !! (name, i, j) = Some c /\ is_closed c (net h) = false
      /\ is_Some (follower_history (load_balancer h) !! (name, i))
      /\ load_balancer h' = mkLB (<[(name, i) := (j + 1) mod conn_per_roomzin_node cfg]>
            (follower_history (load_balancer h))) i (last_leader_id (load_balancer h))
  end end.
Proof. apply follower_scan_step. Qed.

(** C20. A read that nobody disturbs finds a connection exactly when an index
    below the number of entries of the history has an open connection under the
    node that holds the index; where several nodes share an index, that is the
    one the iteration over the history meets first.  A node whose index is not
    below that number, or that comes second for its index, is never used. *)
Theorem next_follower_conn_reaches h :
  0 < conn_per_roomzin_node cfg < 2 ^ 32 -> lb_wf (load_balancer h) -> node_count h <= 2 ^ 32 ->
  match next_follower_conn clock cfg alone h with
  | None => ~ clock_covers clock (cleanup_age cfg)
  | Some (res, _) => is_Some res <->
      exists i name v j, 0 <= i < node_count h /\ node_of h i = Some (name, i, v)
        /\ 0 <= j < conn_per_roomzin_node cfg /\ open_key h name i j = true
  end.
Proof.
  intros Hcpr Hwf Hn. pose proof (follower_reaches h Hcpr Hwf Hn) as Hr.
  destruct (next_follower_conn _ _ _ h) as [[res h']|]; [|done]. rewrite Hr. split.
  - intros (i & Hi & (name & v & j & Ho)%node_ready_first); [|lia]. exists i, name, v, j. tauto.
  - intros (i & name & v & j & Hi & Ho). exists i. split; [done|]. apply node_ready_first; [lia|]. by exists name, v, j.
Qed.

(** No node of the history with index [i] has an open connection. *)
Definition dead_index (h : HandlerInner) (i : Z) : Prop :=
  forall name j, is_Some (follower_history (load_balancer h) !! (name, i)) -> open_key h name i j = false.

Lemma dead_index_pruned h h' i : pruned h h' -> dead_index h i -> dead_index h' i.
Proof.
  intros Hp Hd name j Hn. rewrite (open_key_pruned h h') by done. apply Hd.
  destruct Hp as (_ & _ & _ & _ & _ & _ & D). by rewrite <- elem_of_dom, <- D, elem_of_dom.
Qed.

(** An iteration moves on to the next index, and finds nothing at a dead one. *)
Lemma follower_turn_moves h :
  0 < conn_per_roomzin_node cfg < 2 ^ 32 -> lb_wf (load_balancer h) -> covers ->
  exists res h', follower_turn clock cfg h = Some (res, h') /\ pruned h h' /\ lb_wf (load_balancer h')
  /\ last_node_id (load_balancer h') = first_node h /\ (dead_index h (first_node h) -> res = None).
Proof.
  intros Hcpr Hwf Hcov. pose proof (follower_turn_lemma h Hcpr Hwf) as Ht. cbv zeta in Ht.
  pose proof (follower_turn_step h Hcpr Hwf) as Hs.
  destruct (follower_turn clock cfg h) as [[res h']|]; [|by destruct (Ht Hcov)]. exists res, h'. split; [done|].
  destruct Ht as [Hp Ht], Hs as (_ & Hwf' & _). split; [done|]. split; [done|].
  destruct (node_of h (first_node h)) as [[[name i] v]|]; [|destruct Ht as [-> ->]; done].
  destruct Ht as (-> & Hv & Ht). destruct (List.find _ _) as [j|] eqn:Ef; [|destruct Ht as [-> ->]; done].
  destruct Ht as (_ & _ & ->). split; [done|]. intros Hd. exfalso. apply find_some in Ef as [_ Ho].
  rewrite Hd in Ho by eauto. done.
Qed.

(** Another read takes a whole iteration before the last one of a search. *)
Definition other_read (left : nat) (h : HandlerInner) : HandlerInner :=
  match left, follower_turn clock cfg h with
  | O, Some (_, h') => h'
  | _, _ => h
  end.

(** C21. Two reads at a time can miss an open connection, since a search lets go of
    the load balancer between its iterations: with two nodes, when the index a
    read begins at has no open connection and the other one has, the read finds
    one if nobody disturbs it, but finds none if another read takes an iteration
    between its two; and every connection that was open in the table is still
    open in it. *)
Theorem concurrent_reads_miss h :
  0 < conn_per_roomzin_node cfg < 2 ^ 32 -> lb_wf (load_balancer h) -> node_count h = 2 ->
  clock_covers clock (cleanup_age cfg) ->
  dead_index h (first_node h) -> node_ready h (1 - first_node h) = true ->
  (exists c h', next_follower_conn clock cfg alone h = Some (Some c, h'))
  /\ exists h', next_follower_conn clock cfg other_read h = Some (None, h')
     /\ forall name i j, open_key h' name i j = open_key h name i j.
Proof.
  intros Hcpr Hwf Hn Hcov Hdead Hready. pose proof (first_node_range h ltac:(lia)) as Hfn. split.
  { pose proof (follower_reaches h Hcpr Hwf ltac:(lia)) as Hr.
    destruct (next_follower_conn clock cfg alone h) as [[res h']|]; [|by destruct (Hr Hcov)].
    destruct (proj2 Hr) as [c ->]; [|by exists c, h']. exists (1 - first_node h). split; [lia|done]. }
  assert (Hcount : forall g, pruned h g -> node_count g = 2).
  { intros g (_ & _ & _ & _ & _ & _ & D). rewrite <- Hn. unfold node_count. by rewrite <- !size_dom, D. }
  assert (Hnext : forall g, pruned h g -> 0 <= last_node_id (load_balancer g) < 2 ->
    first_node g = 1 - last_node_id (load_balancer g)).
  { intros g Hg Hl. unfold first_node. rewrite (Hcount g Hg), w32_small by lia. zcase; lia. }
  destruct (follower_turn_moves h Hcpr Hwf Hcov) as (r1 & h1 & E1 & P1 & W1 & L1 & N1). specialize (N1 Hdead). subst r1.
  destruct (follower_turn_moves h1 Hcpr W1 Hcov) as (r2 & h2 & E2 & P2 & W2 & L2 & _).
  assert (P12 : pruned h h2) by by eapply pruned_trans.
  assert (F1 : first_node h1 = 1 - first_node h) by (rewrite Hnext by (done || lia); lia).
  assert (F2 : first_node h2 = first_node h) by (rewrite Hnext by (done || lia); lia).
  destruct (follower_turn_moves h2 Hcpr W2 Hcov) as (r3 & h3 & E3 & P3 & _ & _ & N3).
  rewrite F2 in N3. specialize (N3 (dead_index_pruned _ _ _ P12 Hdead)). subst r3.
  exists h3. split; [|intros name i j; apply open_key_pruned; by eapply pruned_trans].
  unfold next_follower_conn. unfold node_count in Hn. replace (size _) with 2%nat by lia.
  cbn [follower_scan]. unfold other_read at 2. rewrite E1. cbn [mbind option_bind].
  unfold other_read. rewrite E2, E3. done.
Qed.

(** Reads are spread evenly over the nodes: when every index below the number
    of nodes belongs to a node with an open connection, consecutive reads use
    open connections of the nodes one after the other, wrapping around. *)
Theorem reads_rotate m h :
  0 < conn_per_roomzin_node cfg < 2 ^ 32 -> lb_wf (load_balancer h) -> 0 < node_count h <= 2 ^ 32 ->
  last_node_id (load_balancer h) < node_count h -> ids_functional h ->
  (forall i, 0 <= i < node_count h -> exists name j,
     is_Some (follower_history (load_balancer h) !! (name, i))
     /\ 0 <= j < conn_per_roomzin_node cfg /\ open_key h name i j = true) ->
  match reads clock cfg m h with None => ~ covers | Some rs =>
    Forall2 (fun k res => exists c name j, res = Some c /\ is_closed c (net h) = false /\
      followers h !! (name, (last_node_id (load_balancer h) + 1 + Z.of_nat k) mod node_count h, j) = Some c)
    (seq 0 m) rs end.
Proof.
  intros Hcpr. revert h. induction m as [|m IH]; intros h Hwf Hn Hl Hf Hall; [constructor|]. cbn [reads].
  pose proof (next_follower_conn_scan h Hcpr Hwf Hn) as Hs. cbv zeta in Hs.
  pose proof (first_node_range h ltac:(lia)) as Hfn. pose proof Hwf as (Hl0 & _).
  assert (Hfirst : first_node h = (last_node_id (load_balancer h) + 1) mod node_count h).
  { unfold first_node. rewrite wrap_next, bump_mod by lia. done. }
  replace (Z.to_nat (node_count h)) with (S (Z.to_nat (node_count h - 1))) in Hs by lia.
  cbn [ring List.find] in Hs.
  rewrite (proj2 (node_ready_iff h (first_node h) ltac:(lia) Hf) (Hall _ Hfn)) in Hs.
  destruct (next_follower_conn _ _ _ h) as [[res h']|]; cbn [mbind option_bind]; [|done].
  destruct Hs as (Hp & name & j & c & -> & Hk & Hc & Ho & Hlb).
  pose proof Hp as (_ & _ & _ & Hcl & Hsub & _ & Hdom).
  assert (Hmem : forall key, is_Some (follower_history (load_balancer h') !! key)
      <-> is_Some (follower_history (load_balancer h) !! key)).
  { intros key. by rewrite <- !elem_of_dom, Hdom. }
  assert (Hcount : node_count h' = node_count h).
  { unfold node_count. by rewrite <- !size_dom, Hdom. }
  assert (Hlast : last_node_id (load_balancer h') = first_node h) by (by rewrite Hlb).
  pose proof (IH h') as IHh. rewrite Hcount, Hlast, Hfirst in IHh.
  assert (Hwf' : lb_wf (load_balancer h')).
  { rewrite Hlb. destruct Hwf as (? & ? & Hv). split; [simpl; lia|]. split; [simpl; lia|].
    apply map_Forall_insert_2; [|done]. pose proof (Z.mod_pos_bound (j + 1) (conn_per_roomzin_node cfg)). lia. }
  assert (Hf' : ids_functional h') by (intros a b i Ha Hb; apply (Hf a b i); by apply Hmem).
  assert (Hall' : forall i, 0 <= i < node_count h -> exists name j,
     is_Some (follower_history (load_balancer h') !! (name, i))
     /\ 0 <= j < conn_per_roomzin_node cfg /\ open_key h' name i j = true).
  { intros i Hi. destruct (Hall i Hi) as (nm & k & Hnm & Hk' & Hok). exists nm, k.
    split; [by apply Hmem|]. split; [done|]. by rewrite (open_key_pruned h h'). }
  specialize (IHh Hwf' ltac:(lia) ltac:(rewrite <- Hfirst; lia) Hf' Hall').
  destruct (reads _ _ m h') as [rs|]; cbn [mbind option_bind]; [|done]. cbn [seq]. constructor.
  { exists c, name, j. rewrite Z.add_0_r, <- Hfirst. done. }
  rewrite <- seq_shift. apply Forall2_fmap_l. eapply Forall2_impl; [exact IHh|].
  intros k res (c' & nm & k' & -> & Hc' & Hfo). exists c', nm, k'.
  split_and!; [done|by rewrite <- (same_conns_is_closed _ _ _ Hcl)|].
  eapply lookup_weaken; [|exact Hsub]. rewrite <- (Z.add_assoc _ 1), Zplus_mod_idemp_l in Hfo.
  by replace (last_node_id _ + 1 + Z.of_nat (S k)) with
    (last_node_id (load_balancer h) + 1 + (1 + Z.of_nat k)) by lia.
Qed.

End SelectLemmas.

(** *** A concrete cluster: two connections to the leader, two followers *)

#[local] Instance demo_demux_order : HashIter Z (nat * Z) := list_order Z (nat * Z).
#[local] Instance demo_history_order : HashIter (string * Z) Z := list_order (string * Z) Z.

Definition demo_cfg : Config := sample_config 2.
Definition demo_store : Store :=
  let c := new_inner "10.0.0.1" demo_cfg in
  mkStore (<[0%nat := c]> (<[1%nat := c]> (<[2%nat := c]> (<[3%nat := set_closed c true]> ∅)))) ∅ 4 0 0.
Definition demo_handler : HandlerInner := {|
  leader_conns := [Some 0%nat; Some 1%nat]; leader_host := Some "10.0.0.1";
  followers := <[("f", 0, 1) := 2%nat]> (<[("g", 1, 0) := 1%nat]> (<[("g", 1, 1) := 3%nat]> ∅));
  load_balancer := mkLB (<[("f", 0) := 0]> (<[("g", 1) := 1]> ∅)) 0 0;
  syncing := false; net := demo_store; awaits := 0 |}.

Definition demo_clock (_ : nat) : Z := 0.

Lemma demo_covers : clock_covers demo_clock (cleanup_age demo_cfg).
Proof. intros n. vm_compute. by eexists. Qed.

Lemma demo_lb_wf : lb_wf demo_cfg (load_balancer demo_handler).
Proof.
  split_and!; simpl; try lia. apply map_Forall_insert_2; [lia|]. apply map_Forall_insert_2; [lia|].
  apply map_Forall_empty.
Qed.

Lemma demo_ids name i :
  is_Some (follower_history (load_balancer demo_handler) !! (name, i)) ->
  (name, i) = ("f", 0) \/ (name, i) = ("g", 1).
Proof.
  simpl. rewrite !lookup_insert_is_Some. intros [<-|[_ [<-|[_ [? Hx]]]]]; auto.
  by rewrite lookup_empty in Hx.
Qed.

Lemma demo_ids_functional : ids_functional demo_handler.
Proof. intros a b i [[= -> ->]|[= -> ->]]%demo_ids [[=]|[=]]%demo_ids; congruence. Qed.

Lemma demo_ready i :
  0 <= i < 2 -> exists name j, is_Some (follower_history (load_balancer demo_handler) !! (name, i))
    /\ 0 <= j < conn_per_roomzin_node demo_cfg /\ open_key demo_handler name i j = true.
Proof.
  intros Hi. assert (i = 0 \/ i = 1) as [->| ->] by lia.
  - exists "f", 1. split; [by eexists|]. split; [simpl; lia|reflexivity].
  - exists "g", 0. split; [by eexists|]. split; [simpl; lia|reflexivity].
Qed.

Lemma next_leader_conn_first_open_witness :
  option_map fst (next_leader_conn demo_clock demo_cfg demo_handler) = Some (Some 1%nat).
Proof.
  pose proof (next_leader_conn_first_open demo_clock demo_cfg demo_handler) as H.
  specialize (H ltac:(simpl; lia) eq_refl ltac:(simpl; lia)). cbv zeta in H.
  destruct (next_leader_conn _ _ _) as [[res h']|]; [|by destruct (H demo_covers)].
  destruct H as (_ & _ & -> & _). reflexivity.
Defined.

Lemma leader_round_robin_witness :
  writes demo_clock demo_cfg 3 demo_handler = Some [Some 1%nat; Some 0%nat; Some 1%nat].
Proof.
  pose proof (leader_round_robin demo_clock demo_cfg 3 demo_handler ltac:(simpl; lia) eq_refl ltac:(simpl; lia)) as H.
  destruct (writes _ _ _ _); [f_equal; rewrite H; [reflexivity|]|destruct H; [|exact demo_covers]].
  all: intros i Hi; simpl in Hi; assert (i = 0 \/ i = 1) as [->| ->] by lia; reflexivity.
Defined.

Lemma next_follower_conn_open_witness :
  exists res h', next_follower_conn demo_clock demo_cfg alone demo_handler = Some (res, h') /\ pruned demo_handler h'.
Proof.
  pose proof (next_follower_conn_open demo_clock demo_cfg demo_handler ltac:(simpl; lia) demo_lb_wf) as H.
  destruct (next_follower_conn _ _ _ _) as [[res h']|]; [|by destruct (H demo_covers)]. exists res, h'. by split; [|apply H].
Defined.

Lemma next_follower_conn_reaches_witness :
  exists c h', next_follower_conn demo_clock demo_cfg alone demo_handler = Some (Some c, h').
Proof.
  pose proof (next_follower_conn_reaches demo_clock demo_cfg demo_handler ltac:(simpl; lia) demo_lb_wf
    ltac:(by vm_compute)) as H.
  destruct (next_follower_conn _ _ _ _) as [[res h']|]; [|by destruct (H demo_covers)].
  destruct (proj2 H) as [c ->]; [|by exists c, h']. exists 0, "f", 0, 1. by split_and!.
Defined.

Lemma reads_rotate_witness :
  exists rs, reads demo_clock demo_cfg 3 demo_handler = Some rs /\
    Forall2 (fun k res => exists c name j, res = Some c /\ is_closed c demo_store = false /\
      followers demo_handler !! (name, (0 + 1 + Z.of_nat k) mod 2, j) = Some c) (seq 0 3) rs.
Proof.
  pose proof (reads_rotate demo_clock demo_cfg 3 demo_handler ltac:(simpl; lia) demo_lb_wf
    ltac:(by vm_compute) ltac:(by vm_compute) demo_ids_functional demo_ready) as H.
  destruct (reads _ _ _ _) as [rs|]; [by exists rs|by destruct (H demo_covers)].
Defined.

(** *** Two nodes, the one of index 0 with an open connection and the one of
    index 1 with none *)
Definition race_handler : HandlerInner := {|
  leader_conns := [None; None]; leader_host := None;
  followers := <[("f", 0, 1) := 2%nat]> (<[("g", 1, 1) := 3%nat]> ∅);
  load_balancer := mkLB (<[("f", 0) := 0]> (<[("g", 1) := 1]> ∅)) 0 0;
  syncing := false; net := demo_store; awaits := 0 |}.

Lemma concurrent_reads_miss_witness :
  exists c h1 h2, next_follower_conn demo_clock demo_cfg alone race_handler = Some (Some c, h1)
  /\ next_follower_conn demo_clock demo_cfg (other_read demo_clock demo_cfg) race_handler = Some (None, h2)
  /\ open_key h2 "f" 0 1 = true.
Proof.
  destruct (concurrent_reads_miss demo_clock demo_cfg race_handler ltac:(simpl; lia) demo_lb_wf
    ltac:(by vm_compute) demo_covers) as [(c & h1 & E1) (h2 & E2 & Hk)].
  - intros name j Hn. change (first_node race_handler) with 1 in *. apply demo_ids in Hn as [[=]|[= ->]].
    unfold open_key. simpl. destruct (decide (j = 1)) as [->|Hne]; [reflexivity|].
    rewrite !lookup_insert_ne by congruence. by rewrite lookup_empty.
  - by vm_compute.
  - exists c, h1, h2. split; [exact E1|]. split; [exact E2|]. rewrite Hk. by vm_compute.
Defined.
