(* ===== verification/Http.v ===== *)
(** * The HTTP client as the code uses it

    [reqwest] is a third-party crate: a response is what the code reads of it,
    its status, its [Display], its body and the JSON values [serde] finds in
    it.  A [Get] answers the requests of one task: [get n url] is the answer
    to the task's [n]th request to [url].  [base_url] is the
    normalisation [RzidClient::new] and [RzPointResolver::new] share. *)

From S2P Require Import Prelude RustStd Error.
Local Open Scope Z_scope.

(** [rzid.rs], [NodesResponse] *)
Record NodesResponse := mkNodes { nodes : list string }.

(** [topology.rs], [NodeInfo] *)
Record NodeInfo := mkInfo { node_id : string; info_zone_id : string; info_shard_id : string; leader_id : string }.

Section Response.
Context `{RQ : Reqwest}.

Record Response := mkResponse {
  status : Z;
  status_display : string;
  text : Result string reqwest_Error;
  json_nodes : Result NodesResponse reqwest_Error;
  json_info : Result NodeInfo reqwest_Error;
  json_peers : Result (list string) reqwest_Error
}.

(** [StatusCode::is_success] *)
Definition is_success (r : Response) : bool := (200 <=? status r) && (status r <? 300).

Definition Get := nat -> string -> Result Response reqwest_Error.

(** [.unwrap_or_default()] on a text. *)
Definition text_or_default (r : Response) : string :=
  match text r with Ok s => s | Err _ => EmptyString end.

End Response.

(** [format!("http://{}", clean)] *)
Definition base_url (addr : string) : string :=
  "http://" +:+ trim_end_matches x2f (trim_start_matches "https://" (trim_start_matches "http://" addr)).

Lemma strip_all_once p s :
  p <> [] -> strip_prefix p s = None -> strip_all (length (p ++ s)) p (p ++ s) = s.
Proof.
  intros Hp Hs. destruct p as [|x p]; [done|]. change (length ((x :: p) ++ s)) with (S (length (p ++ s))).
  cbn [strip_all]. rewrite strip_prefix_app. by apply strip_all_id.
Qed.

(** The scheme and trailing slashes go, whatever the scheme was. *)
Lemma base_url_normal (scheme host : string) (slashes : nat) :
  scheme ∈ ["http://"; "https://"] ->
  let rest := str_bytes host ++ replicate slashes x2f in
  strip_prefix (str_bytes "http://") rest = None -> strip_prefix (str_bytes "https://") rest = None ->
  last (str_bytes host) <> Some x2f ->
  base_url (bytes_str (str_bytes scheme ++ rest)) = "http://" +:+ host.
Proof.
  intros Hs rest Hh Hhs Hl. unfold base_url. f_equal.
  unfold trim_start_matches, trim_end_matches. rewrite !str_bytes_bytes_str.
  assert (Hstrip : strip_all (length (strip_all (length (str_bytes scheme ++ rest)) (str_bytes "http://")
      (str_bytes scheme ++ rest))) (str_bytes "https://")
      (strip_all (length (str_bytes scheme ++ rest)) (str_bytes "http://") (str_bytes scheme ++ rest)) = rest).
  { apply elem_of_cons in Hs as [Hs|Hs%list_elem_of_singleton]; subst scheme.
    - rewrite strip_all_once by done. by apply strip_all_id.
    - rewrite (strip_all_id _ (str_bytes "http://")) by done. by apply strip_all_once. }
  rewrite Hstrip. unfold rest. rewrite rev_app_distr, !rev_alt.
  change (rev_append (replicate slashes x2f) []) with (reverse (replicate slashes x2f)).
  change (rev_append (str_bytes host) []) with (reverse (str_bytes host)). rewrite reverse_replicate.
  assert (Hd : drop_while (fun x => bool_decide (x = x2f)) (replicate slashes x2f ++ reverse (str_bytes host))
    = reverse (str_bytes host)).
  { clear Hstrip Hh Hhs. clearbody rest. clear rest. induction slashes as [|k IH]; simpl; [|exact IH]. apply drop_while_id.
    destruct (reverse (str_bytes host)) as [|x l] eqn:E; [done|].
    apply (f_equal reverse) in E. rewrite reverse_involutive, reverse_cons in E. rewrite E, last_snoc in Hl.
    apply bool_decide_false. congruence. }
  rewrite Hd. change (rev_append (reverse (str_bytes host)) []) with (reverse (reverse (str_bytes host))).
  rewrite reverse_involutive. apply bytes_str_str_bytes.
Qed.
