(* ===== verification/Rzid.v ===== *)
(** * [rzid.rs]: the RzID client and the heartbeat task *)

From S2P Require Import Prelude RustStd Error Http.
Local Open Scope Z_scope.

Record RegisterRequest := mkRegister { kind : string; reg_id : string; zone : string; shard : option string }.

(** The reqwest client is not part of the record: a [Get] or [Post] stands for
    it where it is used. *)
Record RzidClient := mkRzid { rzid_base_url : string; rzid_bridge_id : string; rzid_shard_id : string; rzid_zone_id : string }.

Section Rzid.
Context `{RQ : Reqwest}.

(** [built] is what the client builder returned. *)
Definition rzid_new (built : Result unit reqwest_Error) (rzid_addr bridge_id shard_id zone_id : string)
    : Result RzidClient RZError :=
  match built with
  | Err e => Err (System ("Failed to build RZID client: " +:+ reqwest_display e))
  | Ok _ => Ok (mkRzid (base_url rzid_addr) bridge_id shard_id zone_id)
  end.

Definition Post := nat -> string -> RegisterRequest -> Result Response reqwest_Error.

Definition register_request (c : RzidClient) : RegisterRequest :=
  mkRegister "bridge" (rzid_bridge_id c) (rzid_zone_id c) (Some (rzid_shard_id c)).

Definition send_heartbeat (post : Post) (n : nat) (c : RzidClient) : Result unit RZError :=
  match post n (rzid_base_url c +:+ "/register") (register_request c) with
  | Ok response =>
      if is_success response then Ok ()
      else Err (Http ("RZID heartbeat returned " +:+ status_display response +:+ ": " +:+ text_or_default response))
  | Err e => Err (Http ("Failed to send heartbeat to RZID: " +:+ reqwest_display e))
  end.

Definition fetch_shard_nodes (get : Get) (c : RzidClient) : Result (list string) RZError :=
  match get 0%nat (rzid_base_url c +:+ "/shards/" +:+ rzid_shard_id c +:+ "/nodes") with
  | Ok response =>
      if is_success response then
        match json_nodes response with
        | Ok n => Ok (nodes n)
        | Err e => Err (Http ("Failed to parse nodes response: " +:+ reqwest_display e))
        end
      else Err (Http ("RZID nodes query returned " +:+ status_display response +:+ ": " +:+ text_or_default response))
  | Err e => Err (Http ("Failed to fetch shard nodes from RZID: " +:+ reqwest_display e))
  end.

(** What the [select!] of the heartbeat loop may take next. *)
Inductive HeartbeatEvent := Cancelled_ev | TickEv.

(** The loop: the results of the heartbeats sent, and whether it ended. *)
Fixpoint heartbeat_loop (post : Post) (n : nat) (c : RzidClient) (events : list HeartbeatEvent)
    : list (Result unit RZError) * bool :=
  match events with
  | [] => ([], false)
  | Cancelled_ev :: _ => ([], true)
  | TickEv :: r =>
      let res := send_heartbeat post n c in
      let '(out, ended) := heartbeat_loop post (S n) c r in (res :: out, ended)
  end.

(** [None] is the panic of [interval]. *)
Definition run_heartbeat_task (post : Post) (c : RzidClient) (heartbeat_interval_secs : Z) (events : list HeartbeatEvent)
    : option (list (Result unit RZError) * bool) :=
  _ ← interval (from_secs heartbeat_interval_secs); Some (heartbeat_loop post 0 c events).

(** The loop sends one heartbeat per tick until it is cancelled, whatever the
    answers. *)
Lemma heartbeat_survives post n c ticks r :
  heartbeat_loop post n c (replicate ticks TickEv ++ Cancelled_ev :: r)
  = (map (fun k => send_heartbeat post k c) (seq n ticks), true).
Proof. revert n. induction ticks as [|t IH]; intros n; simpl; [done|]. by rewrite IH. Qed.

End Rzid.
