(* ===== verification/Resolver.v ===== *)
(** * [resolver.rs]: node id to hostname *)

From S2P Require Import Prelude RustStd Error Http.
Local Open Scope Z_scope.

Record RzPointResolver := mkResolver { resolver_base_url : string; resolver_shard_id : string }.

Section Resolver.
Context `{RQ : Reqwest}.

Definition resolver_new (built : Result unit reqwest_Error) (rzpoint_address shard_id : string)
    : Result RzPointResolver RZError :=
  match built with
  | Err e => Err (System ("Failed to build RzPoint client: " +:+ reqwest_display e))
  | Ok _ => Ok (mkResolver (base_url rzpoint_address) shard_id)
  end.

(** The loop from [attempt] on, [n] iterations left: the result and the sleeps
    between the requests. *)
Fixpoint resolve_loop (get : Get) (url node_id : string) (n attempt : nat) (last_error : option RZError)
    : Result string RZError * list Duration :=
  match n with
  | O => (Err (default (Resolver "All retries failed") last_error), [])
  | S k =>
      let again := fun e : RZError =>
        let '(res, slept) := resolve_loop get url node_id k (S attempt) (Some e) in
        (res, (if (attempt <? 2)%nat then [from_millis (100 * (Z.of_nat attempt + 1))] else []) ++ slept) in
      match get attempt url with
      | Ok resp =>
          if is_success resp then
            (match text resp with
             | Ok hostname => Ok (trim hostname)
             | Err e => Err (Resolver ("Failed to read response: " +:+ reqwest_display e))
             end, [])
          else if status resp =? 404 then (Err (Resolver ("Node " +:+ node_id +:+ " not found")), [])
          else again (Resolver ("HTTP status: " +:+ status_display resp))
      | Err e => again (Resolver ("Request failed: " +:+ reqwest_display e))
      end
  end.

Definition resolve_url (r : RzPointResolver) (node_id : string) : string :=
  resolver_base_url r +:+ "/shards/" +:+ resolver_shard_id r +:+ "/nodes/" +:+ node_id.

Definition resolve_run (get : Get) (r : RzPointResolver) (node_id : string) : Result string RZError * list Duration :=
  resolve_loop get (resolve_url r node_id) node_id 3 0 None.

Definition resolve (get : Get) (r : RzPointResolver) (node_id : string) : Result string RZError :=
  fst (resolve_run get r node_id).

(** ** Specification

    An answer either settles the resolution or is an error worth a retry. *)
Definition verdict (node_id : string) (answer : Result Response reqwest_Error) : Result string RZError + RZError :=
  match answer with
  | Err e => inr (Resolver ("Request failed: " +:+ reqwest_display e))
  | Ok resp =>
      if is_success resp then
        inl (match text resp with
             | Ok hostname => Ok (trim hostname)
             | Err e => Err (Resolver ("Failed to read response: " +:+ reqwest_display e))
             end)
      else if status resp =? 404 then inl (Err (Resolver ("Node " +:+ node_id +:+ " not found")))
      else inr (Resolver ("HTTP status: " +:+ status_display resp))
  end.

Lemma resolve_loop_step get url node_id k attempt last_error :
  resolve_loop get url node_id (S k) attempt last_error
  = match verdict node_id (get attempt url) with
    | inl res => (res, [])
    | inr e =>
        let '(res, slept) := resolve_loop get url node_id k (S attempt) (Some e) in
        (res, (if (attempt <? 2)%nat then [from_millis (100 * (Z.of_nat attempt + 1))] else []) ++ slept)
    end.
Proof.
  cbn [resolve_loop]. unfold verdict. destruct (get attempt url) as [resp|e]; [|done].
  destruct (is_success resp); [done|]. by destruct (status resp =? 404).
Qed.

(** [resolve] makes at most three requests: the first answer that settles
    the resolution decides, after sleeps of 100 and 200 ms before the second
    and the third request; after three failures the last one is reported. *)
Theorem resolve_retries get r node_id :
  let ask := fun n => verdict node_id (get n (resolve_url r node_id)) in
  resolve_run get r node_id =
  match ask 0%nat, ask 1%nat, ask 2%nat with
  | inl res, _, _ => (res, [])
  | inr _, inl res, _ => (res, [from_millis 100])
  | inr _, inr _, inl res => (res, [from_millis 100; from_millis 200])
  | inr _, inr _, inr e => (Err e, [from_millis 100; from_millis 200])
  end.
Proof.
  cbv zeta. unfold resolve_run. rewrite !resolve_loop_step.
  destruct (verdict node_id (get 0%nat _)); [done|]. rewrite resolve_loop_step.
  destruct (verdict node_id (get 1%nat _)); [done|]. rewrite resolve_loop_step.
  by destruct (verdict node_id (get 2%nat _)).
Qed.

End Resolver.
