(* ===== verification/Topology.v ===== *)
(** * [topology.rs]: discovery of the cluster

    A round of discovery probes the seed nodes, then the peers they name, takes
    the leader id most nodes report and sorts the nodes that report it into
    leader and followers by their health.  [nets i] answers the requests of the
    [i]th probe of a round; the probes run concurrently ([join_all]) and share
    nothing, so their order does not matter. *)

From S2P Require Import Prelude RustStd Error Http Rzid Resolver.
Local Open Scope Z_scope.

Record ClusterTopology := mkTopo {
  leader : string;
  topo_followers : list string
}.

Record NodeData := mkNode { host : string; health : string; reported_leader : string }.

Section Topology.
Context `{RQ : Reqwest}.

(** ** [NodeClient] *)

Record NodeClient := mkNodeClient { api_port : Z }.

Definition node_client_new (built : Result unit reqwest_Error) (port : Z) : Result NodeClient RZError :=
  match built with
  | Err e => Err (System ("Failed to build NodeClient: " +:+ reqwest_display e))
  | Ok _ => Ok (mkNodeClient port)
  end.

Definition node_addr (c : NodeClient) (hostname : string) : string := hostname +:+ ":" +:+ fmt_dec (api_port c).

(** [http_get], [json] being the reading of the body at the type asked for. *)
Definition http_get {T} (json : Response -> Result T reqwest_Error) (get : Get) (c : NodeClient)
    (hostname path : string) : Result T RZError :=
  match get 0%nat ("http://" +:+ node_addr c hostname +:+ path) with
  | Err e => Err (Request e)
  | Ok resp =>
      if negb (is_success resp) then Err (Http (status_display resp))
      else match json resp with Ok v => Ok v | Err e => Err (Request e) end
  end.

Definition get_health (get : Get) (c : NodeClient) (hostname : string) : Result string RZError :=
  match get 0%nat ("http://" +:+ node_addr c hostname +:+ "/healthz") with
  | Err e => Err (Request e)
  | Ok resp =>
      if negb (status resp =? 200) then Err (Http (status_display resp))
      else match text resp with Ok body => Ok (trim body) | Err e => Err (Request e) end
  end.

Definition get_node_info (get : Get) (c : NodeClient) (hostname : string) : Result NodeInfo RZError :=
  http_get json_info get c hostname "/node-info".

Definition get_peers (get : Get) (c : NodeClient) (hostname : string) : Result (list string) RZError :=
  http_get json_peers get c hostname "/peers".

(** ** [TopologyDiscovery] *)

Context (rzid : RzidClient) (resolver : RzPointResolver) (client : NodeClient).

Abbreviation ProbeResult := (string * string * NodeData * list string)%type.

Definition probe_node (get : Get) (nid : string) : option ProbeResult :=
  match resolve get resolver nid with
  | Err _ => None
  | Ok hostname =>
      match get_health get client hostname with
      | Err _ => None
      | Ok h =>
          if bool_decide (h = "unavailable") then None else
          match get_node_info get client hostname with
          | Err _ => None
          | Ok info =>
              let peers := match get_peers get client hostname with Ok p => p | Err _ => [] end in
              Some (nid, hostname, mkNode hostname h (leader_id info), peers)
          end
      end
  end.

(** The probes [base], [base + 1], and so on. *)
Definition probe_nodes (nets : nat -> Get) (base : nat) (node_ids : list string) : list ProbeResult :=
  omap (fun r => r) (imap (fun i nid => probe_node (nets (base + i)%nat) nid) node_ids).

Context {HN : HashIter string NodeData} {HV : HashIter string Z} {HS : HashSetIter string}.

Definition insert_node (m : gmap string NodeData) (r : ProbeResult) : gmap string NodeData :=
  let '(_, h, data, _) := r in <[h := data]> m.

(** The peers of the seed results that are not seeds. *)
Definition discovered_peers (seed_ids : list string) (results : list ProbeResult) : gset string :=
  list_to_set (List.filter (fun p => negb (bool_decide (p ∈ seed_ids))) (concat (map snd results))).

(** The two phases: the nodes by hostname and the observed ids. *)
Definition survey (nets : nat -> Get) (seed_ids : list string) : gmap string NodeData * list string :=
  let seed_results := probe_nodes nets 0 seed_ids in
  let peers := discovered_peers seed_ids seed_results in
  let peer_results :=
    if bool_decide (peers = ∅) then [] else probe_nodes nets (length seed_ids) (siter peers) in
  (foldl insert_node (foldl insert_node ∅ seed_results) peer_results,
   map (fun r => fst (fst (fst r))) (seed_results ++ peer_results)).

(** [*votes.entry(id).or_insert(0) += 1] for every node that names a leader. *)
Definition vote (votes : gmap string Z) (n : NodeData) : gmap string Z :=
  if is_empty (reported_leader n) then votes
  else <[reported_leader n := default 0 (votes !! reported_leader n) + 1]> votes.

Definition values (m : gmap string NodeData) : list NodeData := map snd (hiter m).

Definition votes (m : gmap string NodeData) : gmap string Z := foldl vote ∅ (values m).

(** [max_by_key(|&(_, count)| count)]: of several maxima the last. *)
Fixpoint max_by_count (l : list (string * Z)) : option (string * Z) :=
  match l with
  | [] => None
  | e :: r =>
      match max_by_count r with
      | Some e' => if snd e <=? snd e' then Some e' else Some e
      | None => Some e
      end
  end.

(** The loop that sorts the nodes of the elected leader id. *)
Definition sort_node (lid : string) (acc : option string * list string) (n : NodeData) : option string * list string :=
  let '(leader_host, followers) := acc in
  if bool_decide (reported_leader n = lid) then
    if bool_decide (health n = "active_leader") then (Some (host n), followers)
    else if bool_decide (health n = "active_follower") then (leader_host, followers ++ [host n])
    else acc
  else acc.

Definition elect (m : gmap string NodeData) : Result ClusterTopology RZError :=
  if bool_decide (m = ∅) then Err NoLeaderAvailable else
  match max_by_count (hiter (votes m)) with
  | None => Err NoLeaderAvailable
  | Some (lid, _) =>
      match foldl (sort_node lid) (None, []) (values m) with
      | (Some l, followers) => Ok (mkTopo l followers)
      | (None, _) => Err NoLeaderAvailable
      end
  end.

Definition discover_from_seeds (nets : nat -> Get) (seed_ids : list string)
    : Result (ClusterTopology * list string) RZError :=
  if bool_decide (seed_ids = []) then Err (Validation "roomzin seed node list is empty") else
  let '(m, observed_ids) := survey nets seed_ids in
  match elect m with
  | Err e => Err e
  | Ok topo => Ok (topo, observed_ids)
  end.

Definition remember (known observed_ids : list string) : list string :=
  if bool_decide (observed_ids = []) then known else observed_ids.

(** [discover]: the result and the known ids afterwards.  [nets] and [nets']
    answer the rounds from the known ids and from RzID, [rz] the query to RzID. *)
Definition discover (nets : nat -> Get) (rz : Get) (nets' : nat -> Get) (known_node_ids : list string)
    : Result ClusterTopology RZError * list string :=
  let fallback :=
    match fetch_shard_nodes rz rzid with
    | Err e => (Err e, known_node_ids)
    | Ok seed_ids =>
        if bool_decide (seed_ids = []) then (Err (Validation "roomzin seed node list is empty"), known_node_ids) else
        match discover_from_seeds nets' seed_ids with
        | Err e => (Err e, known_node_ids)
        | Ok (topo, observed_ids) => (Ok topo, remember known_node_ids observed_ids)
        end
    end in
  if bool_decide (known_node_ids = []) then fallback else
  match discover_from_seeds nets known_node_ids with
  | Ok (topo, observed_ids) => (Ok topo, remember known_node_ids observed_ids)
  | Err _ => fallback
  end.

(** ** Specification of the election *)

Definition vote_count (m : gmap string NodeData) (lid : string) : Z :=
  zlen (List.filter (fun n => bool_decide (reported_leader n = lid)) (values m)).

(** Every node is filed under its own hostname. *)
Definition hosts_ok (m : gmap string NodeData) : Prop := forall h n, m !! h = Some n -> host n = h.

Lemma survey_hosts_ok nets seed_ids : hosts_ok (fst (survey nets seed_ids)).
Proof.
  assert (Hins : forall (l : list ProbeResult) m,
    (forall nid h n p, (nid, h, n, p) ∈ l -> host n = h) -> hosts_ok m -> hosts_ok (foldl insert_node m l)).
  { induction l as [|[[[nid h] n] p] l IH]; intros m Hl Hm; simpl; [done|]. apply IH; [set_solver|].
    intros h' n' [[<- <-]|[_ Hn]]%lookup_insert_Some; [apply (Hl nid h n p); set_solver|auto]. }
  assert (Hprobe : forall base ids nid h n p, (nid, h, n, p) ∈ probe_nodes nets base ids -> host n = h).
  { intros base ids nid h n p (o & Ho & Heq)%list_elem_of_omap.
    apply elem_of_lookup_imap in Ho as (i & x & -> & _). simpl in Heq. revert Heq. unfold probe_node.
    destruct (resolve _ _ _); [|done]. destruct (get_health _ _ _); [|done]. destruct (bool_decide _); [done|].
    destruct (get_node_info _ _ _); [|done]. by intros [= <- <- <- <-]. }
  unfold survey. cbn [fst]. apply Hins; [|apply Hins; [eauto|done]].
  intros nid h n p. destruct (bool_decide _); [by intros ?%elem_of_nil|eauto].
Qed.

Lemma values_elem m n : n ∈ values m <-> exists h, m !! h = Some n.
Proof.
  unfold values. rewrite elem_of_map. split.
  - intros ([h n'] & -> & Hin%hiter_lookup). eauto.
  - intros [h Hh]. exists (h, n). split; [done|]. by apply hiter_lookup.
Qed.

Lemma vote_foldl l v lid :
  lid <> EmptyString ->
  default 0 (foldl vote v l !! lid)
  = default 0 (v !! lid) + zlen (List.filter (fun n => bool_decide (reported_leader n = lid)) l).
Proof.
  intros Hl. revert v. induction l as [|n l IH]; intros v; simpl; [unfold zlen; simpl; lia|].
  rewrite IH. unfold vote, is_empty.
  destruct (bool_decide_reflect (reported_leader n = EmptyString)) as [He|He],
    (bool_decide_reflect (reported_leader n = lid)) as [Hn|Hn]; rewrite ?zlen_cons.
  - congruence.
  - lia.
  - subst lid. rewrite lookup_insert_eq. simpl. lia.
  - rewrite lookup_insert_ne by done. lia.
Qed.

Lemma vote_keys l v lid c : foldl vote v l !! lid = Some c -> v !! lid = Some c \/ lid <> EmptyString.
Proof.
  revert v. induction l as [|n l IH]; intros v; simpl; [auto|]. intros [Hv|Hv]%IH; [|auto].
  unfold vote, is_empty in Hv. case_bool_decide; [auto|].
  apply lookup_insert_Some in Hv as [[<- _]|[_ Hv]]; auto.
Qed.

Lemma vote_pos l v lid c :
  (forall k d, v !! k = Some d -> 0 < d) -> foldl vote v l !! lid = Some c -> 0 < c.
Proof.
  revert v. induction l as [|n l IH]; intros v Hv; simpl; [by apply Hv|]. apply IH. intros k d.
  unfold vote. destruct (is_empty _); [apply Hv|]. intros [[<- <-]|[_ Hd]]%lookup_insert_Some; [|by eapply Hv].
  destruct (v !! reported_leader n) eqn:E; simpl; [specialize (Hv _ _ E); lia|lia].
Qed.

(** The ballot box holds the number of votes of every id that got one. *)
Lemma votes_lookup m lid c :
  votes m !! lid = Some c <-> lid <> EmptyString /\ c = vote_count m lid /\ 0 < c.
Proof.
  unfold votes, vote_count. split.
  - intros Hc. assert (Hl : lid <> EmptyString).
    { apply vote_keys in Hc as [Hc|]; [by rewrite lookup_empty in Hc|done]. }
    split; [done|]. pose proof (vote_foldl (values m) ∅ lid Hl) as Hf. rewrite Hc, lookup_empty in Hf. simpl in Hf.
    split; [lia|]. eapply vote_pos; [|exact Hc]. intros k d Hk. by rewrite lookup_empty in Hk.
  - intros (Hl & -> & Hp). pose proof (vote_foldl (values m) ∅ lid Hl) as Hf. rewrite lookup_empty in Hf. simpl in Hf.
    destruct (foldl vote ∅ (values m) !! lid) as [c|]; simpl in Hf; [f_equal; lia|lia].
Qed.

Lemma max_by_count_spec l :
  match max_by_count l with
  | None => l = []
  | Some e => e ∈ l /\ forall e', e' ∈ l -> snd e' <= snd e
  end.
Proof.
  induction l as [|e l IH]; simpl; [done|]. destruct (max_by_count l) as [e'|].
  - destruct IH as [Hin Hmax]. zcase.
    + split; [set_solver|]. intros x [->|Hx]%elem_of_cons; [lia|auto].
    + split; [set_solver|]. intros x [->|Hx]%elem_of_cons; [lia|]. specialize (Hmax x Hx). lia.
  - subst l. split; [set_solver|]. intros x ->%list_elem_of_singleton. lia.
Qed.

(** The sorting loop: the last active leader, the active followers in order. *)
Lemma sort_nodes lid l acc :
  let r := foldl (sort_node lid) acc l in
  (forall x, x ∈ snd r <-> x ∈ snd acc \/ exists n, n ∈ l /\ reported_leader n = lid /\ health n = "active_follower" /\ host n = x)
  /\ match fst r with
     | Some x => fst acc = Some x \/ exists n, n ∈ l /\ reported_leader n = lid /\ health n = "active_leader" /\ host n = x
     | None => fst acc = None /\ forall n, n ∈ l -> reported_leader n = lid -> health n <> "active_leader"
     end.
Proof.
  revert acc. induction l as [|n l IH]; intros [lh fs]; cbn [foldl].
  { simpl. split; [set_solver|]. destruct lh; [by left|]. split; [done|]. intros ? ?%elem_of_nil. done. }
  specialize (IH (sort_node lid (lh, fs) n)). cbv zeta in IH. destruct IH as [Hf Hl]. split.
  - intros x. rewrite Hf. unfold sort_node. case_bool_decide as Hr; [case_bool_decide as Ha; [|case_bool_decide as Hb]|]; simpl.
    all: rewrite ?elem_of_app, ?list_elem_of_singleton; setoid_rewrite elem_of_cons.
    all: split; [|]; naive_solver congruence.
  - destruct (fst (foldl _ _ l)) as [x|].
    + destruct Hl as [Hl|(n' & Hin & ?)]; [|right; exists n'; set_solver].
      revert Hl. unfold sort_node. case_bool_decide as Hr; [case_bool_decide as Ha; [|case_bool_decide as Hb]|]; simpl; auto.
      intros [= <-]. right. exists n. set_solver.
    + destruct Hl as [Hn Hl]. revert Hn. unfold sort_node.
      case_bool_decide as Hr; [case_bool_decide as Ha; [|case_bool_decide as Hb]|]; simpl; [done| | |].
      all: intros ->; split; [done|]; intros n' [->|Hin]%elem_of_cons; [congruence|by apply Hl].
Qed.

(** A node of the map that reports [lid] with health [hl]. *)
Definition node_with (m : gmap string NodeData) (lid hl h : string) : Prop :=
  exists n, m !! h = Some n /\ reported_leader n = lid /\ health n = hl.

Lemma node_with_values m lid hl x :
  hosts_ok m -> (exists n, n ∈ values m /\ reported_leader n = lid /\ health n = hl /\ host n = x) <-> node_with m lid hl x.
Proof.
  intros Hm. split.
  - intros (n & [h Hh]%values_elem & Hr & Hhl & <-). exists n. by rewrite (Hm _ _ Hh).
  - intros (n & Hh & Hr & Hhl). exists n. split_and!; try done; [apply values_elem; eauto|by apply Hm].
Qed.

(** The elected id has the most votes. *)
Lemma max_votes m lid c :
  max_by_count (hiter (votes m)) = Some (lid, c) ->
  lid <> EmptyString /\ 0 < vote_count m lid
  /\ forall lid', lid' <> EmptyString -> vote_count m lid' <= vote_count m lid.
Proof.
  intros Hm. pose proof (max_by_count_spec (hiter (votes m))) as Hs. rewrite Hm in Hs. destruct Hs as [Hin Hmax].
  apply hiter_lookup, votes_lookup in Hin as (Hl & -> & Hp). split_and!; [done|done|]. intros lid' Hl'.
  destruct (Z.leb_spec (vote_count m lid') 0); [lia|].
  apply (Hmax (lid', vote_count m lid')). apply hiter_lookup, votes_lookup. done.
Qed.

(** The outcome of a round, in terms of the nodes probed: a leader id that no
    other has more votes than, its active leader and its active followers. *)
Definition elected (m : gmap string NodeData) (topo : ClusterTopology) : Prop :=
  exists lid, lid <> EmptyString /\ 0 < vote_count m lid
  /\ (forall lid', lid' <> EmptyString -> vote_count m lid' <= vote_count m lid)
  /\ node_with m lid "active_leader" (leader topo)
  /\ (forall h, h ∈ topo_followers topo <-> node_with m lid "active_follower" h).

Lemma elect_Ok m topo :
  hosts_ok m -> elect m = Ok topo -> m <> ∅ /\ elected m topo.
Proof.
  intros Hm. unfold elect. case_bool_decide as He; [done|].
  destruct (max_by_count (hiter (votes m))) as [[lid c]|] eqn:Em; [|done].
  pose proof (sort_nodes lid (values m) (None, [])) as Hs. cbv zeta in Hs.
  destruct (foldl _ _ _) as [[l|] fs]; [|done]. simpl in Hs. destruct Hs as [Hf Hl]. intros [= <-].
  split; [done|]. exists lid. destruct (max_votes m lid c Em) as (? & ? & ?). split_and!; try done.
  - simpl. destruct Hl as [?|Hl]; [done|]. by apply node_with_values.
  - intros h. simpl. rewrite Hf, elem_of_nil, <- node_with_values by done. naive_solver.
Qed.

(** With a strict winner the election does not depend on the order. *)
Lemma strict_winner m lid :
  lid <> EmptyString -> (forall lid', lid' <> EmptyString -> lid' <> lid -> vote_count m lid' < vote_count m lid) ->
  0 < vote_count m lid -> exists c, max_by_count (hiter (votes m)) = Some (lid, c).
Proof.
  intros Hl Hmax Hp. destruct (max_by_count (hiter (votes m))) as [[lid' c]|] eqn:E.
  - exists c. destruct (max_votes _ _ _ E) as (Hl' & Hp' & Hm'). destruct (decide (lid' = lid)) as [->|Hne]; [done|].
    specialize (Hmax lid' Hl' Hne). specialize (Hm' lid Hl). lia.
  - pose proof (max_by_count_spec (hiter (votes m))) as Hs. rewrite E in Hs.
    assert (Hin : (lid, vote_count m lid) ∈ hiter (votes m)) by (apply hiter_lookup, votes_lookup; done).
    rewrite Hs in Hin. by apply elem_of_nil in Hin.
Qed.

Lemma vote_count_empty lid : vote_count ∅ lid = 0.
Proof. unfold vote_count, values. by rewrite hiter_empty. Qed.

Lemma survey_observed nets seed_ids : fst (survey nets seed_ids) <> ∅ -> snd (survey nets seed_ids) <> [].
Proof.
  unfold survey. simpl. destruct (probe_nodes nets 0 seed_ids) as [|r l]; [|done]. simpl.
  destruct (if bool_decide _ then _ else _) as [|r l]; done.
Qed.

Lemma discover_from_seeds_Ok nets seed_ids topo obs :
  discover_from_seeds nets seed_ids = Ok (topo, obs) ->
  elect (fst (survey nets seed_ids)) = Ok topo /\ obs = snd (survey nets seed_ids) /\ obs <> [].
Proof.
  unfold discover_from_seeds. case_bool_decide; [done|].
  pose proof (survey_observed nets seed_ids) as Ho. pose proof (survey_hosts_ok nets seed_ids) as Hh.
  destruct (survey nets seed_ids) as [m o]. simpl in *. destruct (elect m) as [t|] eqn:E; [|done].
  intros [= -> ->]. split_and!; try done. apply Ho. by apply elect_Ok in E as [? _].
Qed.

(** A node of a survey was probed: its name was resolved, it reported its health
    and its leader. *)
Definition probed (get : Get) (h : string) (n : NodeData) : Prop :=
  exists nid info, resolve get resolver nid = Ok h /\ get_health get client h = Ok (health n)
    /\ get_node_info get client h = Ok info /\ leader_id info = reported_leader n.

Lemma survey_probed nets seed_ids h n :
  fst (survey nets seed_ids) !! h = Some n -> exists k, probed (nets k) h n.
Proof.
  assert (Hins : forall (l : list ProbeResult) m, foldl insert_node m l !! h = Some n ->
    m !! h = Some n \/ exists nid p, (nid, h, n, p) ∈ l).
  { induction l as [|[[[nid g] d] p] l IH]; intros m; simpl; [by left|]. intros [Hm|(nid' & p' & Hin)]%IH; [|right; set_solver].
    apply lookup_insert_Some in Hm as [[-> ->]|[_ Hm]]; [right; set_solver|by left]. }
  assert (Hprobe : forall base ids nid p, (nid, h, n, p) ∈ probe_nodes nets base ids -> exists k, probed (nets k) h n).
  { intros base ids nid p (o & Ho & Heq)%list_elem_of_omap.
    apply elem_of_lookup_imap in Ho as (i & x & -> & _). exists (base + i)%nat. simpl in Heq. revert Heq. unfold probe_node.
    destruct (resolve _ _ _) as [g|] eqn:E1; [|done]. destruct (get_health _ _ g) as [hl|] eqn:E2; [|done].
    destruct (bool_decide _); [done|]. destruct (get_node_info _ _ g) as [info|] eqn:E3; [|done].
    intros [= <- <- <- <-]. by exists x, info. }
  unfold survey. cbn [fst]. intros [[Hm|(nid & p & Hin)]%Hins|(nid & p & Hin)]%Hins.
  - by rewrite lookup_empty in Hm.
  - by eapply Hprobe.
  - destruct (bool_decide _); [by apply elem_of_nil in Hin|by eapply Hprobe].
Qed.

Lemma discover_from_seeds_elected nets seed_ids topo obs :
  discover_from_seeds nets seed_ids = Ok (topo, obs) -> elected (fst (survey nets seed_ids)) topo.
Proof.
  intros (He & -> & _)%discover_from_seeds_Ok. apply elect_Ok; [apply survey_hosts_ok|done].
Qed.

(** ** Properties *)

(** C22. Whatever the iteration orders, a discovered topology is that of a leader
    id no other id has more votes than, among the nodes that were probed: its
    leader is a node that reports the id and is an active leader, its followers
    are exactly the nodes that report the id and are active followers, and the
    leader is not among them. *)
Theorem discovered_topology nets seed_ids topo obs :
  discover_from_seeds nets seed_ids = Ok (topo, obs) ->
  let m := fst (survey nets seed_ids) in
  exists lid, lid <> EmptyString /\ 0 < vote_count m lid
  /\ (forall lid', lid' <> EmptyString -> vote_count m lid' <= vote_count m lid)
  /\ node_with m lid "active_leader" (leader topo)
  /\ (forall h, h ∈ topo_followers topo <-> node_with m lid "active_follower" h)
  /\ leader topo ∉ topo_followers topo.
Proof.
  intros (lid & Hne & Hv & Hmax & Hl & Hf)%discover_from_seeds_elected m. exists lid. split_and!; try done.
  rewrite Hf. destruct Hl as (n & Hn & _ & Hh). intros (n' & Hn' & _ & Hh').
  rewrite Hn in Hn'. injection Hn' as <-. congruence.
Qed.

(** When one id has strictly more votes than every other, the outcome does
    not depend on any iteration order: discovery succeeds exactly when an
    active leader reports that id, and if there is one such host it is the
    leader. *)
Theorem strict_plurality_decides m lid :
  hosts_ok m -> lid <> EmptyString -> 0 < vote_count m lid ->
  (forall lid', lid' <> EmptyString -> lid' <> lid -> vote_count m lid' < vote_count m lid) ->
  (is_ok (elect m) = true <-> exists h, node_with m lid "active_leader" h)
  /\ forall h, (forall h', node_with m lid "active_leader" h' <-> h' = h) ->
       exists topo, elect m = Ok topo /\ leader topo = h.
Proof.
  intros Hm Hl Hp Hmax. destruct (strict_winner m lid Hl Hmax Hp) as [c Hc].
  pose proof (sort_nodes lid (values m) (None, [])) as Hs. cbv zeta in Hs.
  assert (Hne : m <> ∅) by (intros ->; rewrite vote_count_empty in Hp; lia).
  unfold elect. rewrite bool_decide_false, Hc by done.
  destruct (foldl _ _ _) as [[l|] fs]; simpl in Hs; destruct Hs as [_ Hs].
  - destruct Hs as [?|Hs%node_with_values]; [done| |done]. split; [split; eauto|].
    intros h Hh. exists (mkTopo l fs). split; [done|]. by apply Hh.
  - destruct Hs as [_ Hs]. assert (Hno : forall h, ~ node_with m lid "active_leader" h).
    { intros h (n & Hn & Hr & Ha)%node_with_values%node_with_values; [|done..].
      apply (Hs n); [apply values_elem; eauto|done..]. }
    split; [split; [done|intros [h Hh]; by apply Hno in Hh]|]. intros h Hh. destruct (Hno h). by apply Hh.
Qed.

(** A successful discovery remembers the ids of the round that succeeded,
    never an empty list, so that the next one starts from the live cluster; a
    failed one leaves the known ids as they are; RzID is asked exactly when
    there are no known ids or the round from them fails. *)
Theorem discover_remembers nets rz nets' known :
  let '(res, known') := discover nets rz nets' known in
  match res with
  | Err _ => known' = known
  | Ok topo => known' <> [] /\
      (discover_from_seeds nets known = Ok (topo, known')
       \/ is_ok (discover_from_seeds nets known) = false
          /\ exists seed_ids, fetch_shard_nodes rz rzid = Ok seed_ids
             /\ discover_from_seeds nets' seed_ids = Ok (topo, known'))
  end.
Proof.
  assert (Hrem : forall ns s topo obs, discover_from_seeds ns s = Ok (topo, obs) ->
    remember known obs = obs /\ obs <> []).
  { intros ns s topo obs (_ & _ & Hne)%discover_from_seeds_Ok. unfold remember. by rewrite bool_decide_false. }
  assert (Hfall : is_ok (discover_from_seeds nets known) = false ->
    discover nets rz nets' known = match fetch_shard_nodes rz rzid with
      | Err e => (Err e, known)
      | Ok s => if bool_decide (s = []) then (Err (Validation "roomzin seed node list is empty"), known) else
          match discover_from_seeds nets' s with
          | Err e => (Err e, known)
          | Ok (topo, o) => (Ok topo, remember known o) end end).
  { unfold discover. case_bool_decide; [done|]. by destruct (discover_from_seeds nets known) as [[]|]. }
  destruct (discover_from_seeds nets known) as [[topo obs]|e] eqn:Ed.
  - assert (Hk : known <> []) by (intros ->; discriminate Ed). destruct (Hrem _ _ _ _ Ed) as [Hr Hne].
    unfold discover. rewrite bool_decide_false, Ed, Hr by done. auto.
  - rewrite Hfall by done. destruct (fetch_shard_nodes rz rzid) as [s|] eqn:Ef; [|done].
    case_bool_decide; [done|]. destruct (discover_from_seeds nets' s) as [[topo obs]|] eqn:Es; [|done].
    destruct (Hrem _ _ _ _ Es) as [-> Hne]. eauto 7.
Qed.

End Topology.

(** ** A concrete cluster of three nodes; the third is not a seed *)

#[local] Existing Instance reqwest_text.
#[local] Instance demo_nodes_order : HashIter string NodeData := list_order string NodeData.
#[local] Instance demo_votes_order : HashIter string Z := list_order string Z.
#[local] Instance demo_peers_order : HashSetIter string := set_order string.

Definition demo_response (body : string) (ns : list string) (lid : string) : Response :=
  mkResponse 200 "200 OK" (Ok body) (Ok (mkNodes ns)) (Ok (mkInfo "" "zone1" "shard1" lid)) (Ok ns).

Definition demo_get (_ : nat) (url : string) : Result Response reqwest_Error :=
  let ok := fun body => Ok (demo_response body ["n1"; "n2"; "n3"] "n1") in
  if bool_decide (url = "http://rzpoint/shards/shard1/nodes/n1") then ok "host1"
  else if bool_decide (url = "http://rzpoint/shards/shard1/nodes/n2") then ok "host2"
  else if bool_decide (url = "http://rzpoint/shards/shard1/nodes/n3") then ok "host3"
  else if bool_decide (url = "http://host1:8080/healthz") then ok "active_leader"
  else if bool_decide (url = "http://host2:8080/healthz") then ok "active_follower"
  else if bool_decide (url = "http://host3:8080/healthz") then ok "active_follower"
  else ok "".

Definition demo_rzid : RzidClient := mkRzid "http://rzid" "bridge-1" "shard1" "zone1".
Definition demo_resolver : RzPointResolver := mkResolver "http://rzpoint" "shard1".
Definition demo_client : NodeClient := mkNodeClient 8080.

Lemma discovered_topology_witness :
  exists topo obs, discover_from_seeds demo_resolver demo_client (fun _ => demo_get) ["n1"; "n2"] = Ok (topo, obs)
  /\ leader topo ∉ topo_followers topo.
Proof.
  exists (mkTopo "host1" ["host3"; "host2"]), ["n1"; "n2"; "n3"].
  assert (E : discover_from_seeds demo_resolver demo_client (fun _ => demo_get) ["n1"; "n2"]
    = Ok (mkTopo "host1" ["host3"; "host2"], ["n1"; "n2"; "n3"])) by (vm_compute; reflexivity).
  split; [exact E|].
  destruct (discovered_topology demo_resolver demo_client (fun _ => demo_get) ["n1"; "n2"] _ _ E)
    as (_ & _ & _ & _ & _ & _ & Hn). exact Hn.
Defined.

Definition demo_nodes : gmap string NodeData :=
  <["a" := mkNode "a" "active_leader" "n1"]> (<["b" := mkNode "b" "active_follower" "n1"]>
    (<["c" := mkNode "c" "active_leader" "n3"]> ∅)).

Lemma strict_plurality_decides_witness : is_ok (elect demo_nodes) = true.
Proof.
  apply (strict_plurality_decides demo_nodes "n1").
  - intros h n. unfold demo_nodes. rewrite !lookup_insert_Some, lookup_empty. naive_solver.
  - done.
  - reflexivity.
  - intros lid _ Hne. destruct (decide (lid = "n3")) as [->|H3]; [reflexivity|].
    change (vote_count demo_nodes "n1") with 2. unfold vote_count.
    assert (Hv : values demo_nodes ≡ₚ [mkNode "a" "active_leader" "n1"; mkNode "b" "active_follower" "n1";
      mkNode "c" "active_leader" "n3"]) by (vm_compute; solve_Permutation).
    apply Permutation_List_filter with (f := fun n => bool_decide (reported_leader n = lid)) in Hv.
    unfold zlen. rewrite Hv. simpl. by rewrite !bool_decide_false.
  - exists "a". eexists. split_and!; [by vm_compute|done|done].
Defined.
