(* ===== verification/App.v ===== *)
(** * [lib.rs], [main.rs], [api.rs]: start-up, wiring and the HTTP API

    What the start-up code does itself: in which order the parts are built,
    which failure ends it, which tasks have been spawned by then.  The outcomes
    of the third-party calls (client builders, the listener, the metrics
    recorder, the runtime) are its arguments.  Logging is left out. *)

From S2P Require Import Prelude RustStd Error Config Http Rzid Resolver Topology.
Local Open Scope Z_scope.

(** ** [metrics.rs], [Metrics::new] *)

Definition all_counters : list Counter :=
  [connections_opened; connections_closed; frames_received; frames_executed; bytes_received; bytes_sent;
   keepalives_received; client_errors; execute_errors; timeouts; resyncs].

(** [BridgeMetrics::new]: the counters it registers. *)
Definition bridge_metrics_new : list (Counter * string) := map (fun c => (c, counter_name c)) all_counters.

(** [install_recorder().expect(..)] panics if a recorder is [installed] already. *)
Definition metrics_new (installed : bool) : option (list (Counter * string)) :=
  if installed then None else Some bridge_metrics_new.

Section App.
Context `{RQ : Reqwest}.
Context {HN : HashIter string NodeData} {HV : HashIter string Z} {HS : HashSetIter string}.

(** ** [topology.rs], the state of [TopologyDiscovery] *)

Record TopologyDiscovery := mkDiscovery {
  td_rzid : RzidClient;
  td_resolver : RzPointResolver;
  td_node_client : NodeClient;
  known_node_ids : list string
}.

Definition topology_new (rzid : RzidClient) (resolver : RzPointResolver) (client : NodeClient)
    (initial_seed_ids : list string) : TopologyDiscovery :=
  mkDiscovery rzid resolver client initial_seed_ids.

(** [TopologyDiscovery::discover] on that state. *)
Definition td_discover (nets : nat -> Get) (rz : Get) (nets' : nat -> Get) (td : TopologyDiscovery)
    : Result ClusterTopology RZError * TopologyDiscovery :=
  let '(res, known) := discover (td_rzid td) (td_resolver td) (td_node_client td) nets rz nets' (known_node_ids td) in
  (res, mkDiscovery (td_rzid td) (td_resolver td) (td_node_client td) known).

(** ** [rzid.rs], [spawn_heartbeat_task] *)

(** The heartbeats the spawned task sends, and whether it ended, [None] if it
    panicked; it gives up
    at once if its own client cannot be built. *)
Definition spawn_heartbeat_task (built : Result unit reqwest_Error) (cfg : Config) (post : Post)
    (events : list HeartbeatEvent) : option (list (Result unit RZError) * bool) :=
  match rzid_new built (rzid_addr cfg) (bridge_id cfg) (shard_id cfg) (zone_id cfg) with
  | Err _ => Some ([], true)
  | Ok client => run_heartbeat_task post client (rzid_heartbeat_interval_secs cfg) events
  end.

(** ** [api.rs] *)

(** The routes of the API server: status and body.  [render] is the text of the
    metrics; what axum answers to anything else is [fallback]. *)
Definition api_routes (render : string) : list (string * (Z * string)) :=
  [("/health", (200, "OK")); ("/metrics", (200, render))].

Definition api_answer (fallback : string -> string -> Z * string) (render method path : string) : Z * string :=
  if bool_decide (method = "GET") then
    match List.find (fun r => bool_decide (fst r = path)) (api_routes render) with
    | Some (_, reply) => reply
    | None => fallback method path
    end
  else fallback method path.

(** [parsed] is the outcome of [listen_addr.parse()], [served] that of the
    server. *)
Definition run_api_server (parsed served : Result unit string) : Result unit RZError :=
  match parsed with
  | Err e => Err (ConfigError ("invalid api listen addr: " +:+ e))
  | Ok _ =>
      match served with
      | Err e => Err (System ("api server error: " +:+ e))
      | Ok _ => Ok ()
      end
  end.

(** ** [lib.rs] *)

Inductive Spawned := HeartbeatTask | SyncTask | ApiServer.

(** What ends the final [select!]. *)
Inductive Ending := ShutDown | ServerEnded (res : Result unit string).

(** The third-party outcomes a start-up meets, in order. *)
Record Startup := mkStartup {
  rzid_built : Result unit reqwest_Error;
  resolver_built : Result unit reqwest_Error;
  node_client_built : Result unit reqwest_Error;
  bound : Result unit io_Error;
  recorder_installed : bool;
  ending : Ending
}.

(** The discovery [async_main] builds. *)
Definition build_discovery (cfg : Config) (st : Startup) : Result TopologyDiscovery RZError :=
  match rzid_new (rzid_built st) (rzid_addr cfg) (bridge_id cfg) (shard_id cfg) (zone_id cfg) with
  | Err e => Err e
  | Ok rzid =>
      match resolver_new (resolver_built st) (rzpoint_addr cfg) (shard_id cfg) with
      | Err e => Err e
      | Ok resolver =>
          match node_client_new (node_client_built st) (roomzin_api_port cfg) with
          | Err e => Err e
          | Ok client => Ok (topology_new rzid resolver client [])
          end
      end
  end.

(** [async_main]: its result and the tasks it has spawned; [None] is a panic. *)
Definition async_main (cfg : Config) (st : Startup) : option (Result unit RZError * list Spawned) :=
  match build_discovery cfg st with
  | Err e => Some (Err e, [])
  | Ok _ =>
      let spawned := [HeartbeatTask; SyncTask] in
      match bound st with
      | Err e => Some (Err (Io e), spawned)
      | Ok _ =>
          _ ← metrics_new (recorder_installed st);
          let spawned := spawned ++ [ApiServer] in
          match ending st with
          | ShutDown => Some (Ok (), spawned)
          | ServerEnded (Ok _) => Some (Ok (), spawned)
          | ServerEnded (Err e) => Some (Err (System ("tcp server error: " +:+ e)), spawned)
          end
      end
  end.

(** ** [main.rs] *)

(** [subscriber] is whether the global logger could be set, [runtime] the
    outcome of building the runtime with [effective_workers] threads. *)
Definition main (subscriber : bool) (get_physical : Z) (runtime : Z -> Result unit string) (cfg : Config) (st : Startup)
    : option (Result unit RZError) :=
  if negb subscriber then None else
  match runtime (effective_workers get_physical cfg) with
  | Err e => Some (Err (System ("Failed to build runtime: " +:+ e)))
  | Ok _ => '(res, _) ← async_main cfg st; Some res
  end.

End App.

(** ** Properties *)

Section Properties.
Context `{RQ : Reqwest}.
Context {HN : HashIter string NodeData} {HV : HashIter string Z} {HS : HashSetIter string}.

Lemma build_discovery_Ok cfg st td :
  build_discovery cfg st = Ok td ->
  known_node_ids td = []
  /\ rzid_new (rzid_built st) (rzid_addr cfg) (bridge_id cfg) (shard_id cfg) (zone_id cfg) = Ok (td_rzid td)
  /\ is_ok (rzid_built st) = true.
Proof.
  unfold build_discovery. destruct (rzid_new _ _ _ _ _) as [rzid|] eqn:E; [|discriminate].
  destruct (resolver_new _ _ _); [|discriminate]. destruct (node_client_new _ _); [|discriminate].
  intros [= <-]. split_and!; [done|done|]. revert E. unfold rzid_new. by destruct (rzid_built st).
Qed.

(** A discovery with known ids whose round succeeds asks nobody else. *)
Lemma td_discover_known nets rz nets' td topo obs :
  discover_from_seeds (td_resolver td) (td_node_client td) nets (known_node_ids td) = Ok (topo, obs) ->
  td_discover nets rz nets' td
  = (Ok topo, mkDiscovery (td_rzid td) (td_resolver td) (td_node_client td) (remember (known_node_ids td) obs)).
Proof.
  intros E. unfold td_discover, discover. rewrite E. case_bool_decide as Hk; [|done].
  rewrite Hk in E. discriminate E.
Qed.

(** C30. The start-up hands the synchronisation a discovery without seeds.
    Its first successful round therefore started from the node list of RzID and
    leaves it the ids of the nodes it reached, at least one; from then on, as
    long as the round from those ids succeeds, the topology is the one they
    report, whatever RzID answers: the bridge follows the live cluster and
    survives the loss of RzID. *)
Theorem startup_then_live cfg st td nets rz nets1 topo td' :
  build_discovery cfg st = Ok td ->
  td_discover nets rz nets1 td = (Ok topo, td') ->
  (exists seeds, fetch_shard_nodes rz (td_rzid td) = Ok seeds
    /\ discover_from_seeds (td_resolver td) (td_node_client td) nets1 seeds = Ok (topo, known_node_ids td'))
  /\ known_node_ids td' <> []
  /\ forall nets2 topo2 obs,
      discover_from_seeds (td_resolver td') (td_node_client td') nets2 (known_node_ids td') = Ok (topo2, obs) ->
      forall rz2 nets3, exists td'', td_discover nets2 rz2 nets3 td' = (Ok topo2, td'')
        /\ known_node_ids td'' = obs /\ obs <> [].
Proof.
  intros (Hk & _ & _)%build_discovery_Ok Hd.
  assert (Hrem : forall ns s tp obs, discover_from_seeds (td_resolver td) (td_node_client td) ns s = Ok (tp, obs) ->
    obs <> [] /\ forall known, remember known obs = obs).
  { intros ns s tp obs (_ & _ & Hne)%discover_from_seeds_Ok. split; [done|].
    intros known. unfold remember. by rewrite bool_decide_false. }
  unfold td_discover, discover in Hd. rewrite Hk, bool_decide_true in Hd by done. revert Hd.
  destruct (fetch_shard_nodes rz (td_rzid td)) as [seeds|]; [|done]. case_bool_decide; [done|].
  destruct (discover_from_seeds _ _ nets1 seeds) as [[tp obs1]|] eqn:E1; [|done].
  destruct (Hrem _ _ _ _ E1) as [Hne Hr]. rewrite Hr. intros [= <- <-]. cbn [known_node_ids td_resolver td_node_client].
  split_and!; [eauto|done|]. intros nets2 topo2 obs E2 rz2 nets3. destruct (Hrem _ _ _ _ E2) as [Hne2 Hr2].
  eexists. split; [by apply td_discover_known|]. by rewrite Hr2.
Qed.

(** The heartbeats go out under the identity discovery uses: if the start-up
    built its client, so does the heartbeat task, and it is the same one. *)
Lemma heartbeat_same_client cfg st td post events :
  build_discovery cfg st = Ok td ->
  spawn_heartbeat_task (rzid_built st) cfg post events
  = run_heartbeat_task post (td_rzid td) (rzid_heartbeat_interval_secs cfg) events.
Proof. intros (_ & E & _)%build_discovery_Ok. unfold spawn_heartbeat_task. by rewrite E. Qed.

(** The process ends without an error only after everything was set up: all
    clients built, the port bound, all three tasks running. *)
Lemma async_main_Ok cfg st spawned :
  async_main cfg st = Some (Ok (), spawned) ->
  is_ok (build_discovery cfg st) = true /\ is_ok (bound st) = true /\ recorder_installed st = false
  /\ spawned = [HeartbeatTask; SyncTask; ApiServer].
Proof.
  unfold async_main. destruct (build_discovery cfg st); [|done]. destruct (bound st); [|done].
  unfold metrics_new. destruct (recorder_installed st); simpl; [done|].
  destruct (ending st) as [|[[]|e]]; by intros [= <-].
Qed.

(** No two counters are registered under one name. *)
Lemma bridge_metrics_names : NoDup (map snd bridge_metrics_new).
Proof. apply (bool_decide_unpack _). vm_compute. exact I. Qed.

End Properties.

(** ** A start-up against the cluster of [Topology] *)

#[local] Existing Instance reqwest_text.
#[local] Instance app_nodes_order : HashIter string NodeData := list_order string NodeData.
#[local] Instance app_votes_order : HashIter string Z := list_order string Z.
#[local] Instance app_peers_order : HashSetIter string := set_order string.

Definition demo_config : Config := default_config "zone1" "shard1" "bridge-1" "rzid" "rzpoint".
Definition demo_startup : Startup := mkStartup (Ok ()) (Ok ()) (Ok ()) (Ok ()) false ShutDown.

(** RzID is down at the second round. *)
Lemma startup_then_live_witness :
  exists td td' td'' topo topo2,
    build_discovery demo_config demo_startup = Ok td
    /\ td_discover (fun _ => demo_get) demo_get (fun _ => demo_get) td = (Ok topo, td')
    /\ td_discover (fun _ => demo_get) (fun _ _ => Err "connection refused") (fun _ => demo_get) td' = (Ok topo2, td'')
    /\ known_node_ids td'' <> [].
Proof.
  destruct (build_discovery demo_config demo_startup) as [td|] eqn:Eb; [|vm_compute in Eb; discriminate Eb].
  destruct (td_discover (fun _ => demo_get) demo_get (fun _ => demo_get) td) as [[topo|] td'] eqn:Ed;
    [|vm_compute in Eb; injection Eb as <-; vm_compute in Ed; discriminate Ed].
  destruct (startup_then_live _ _ _ _ _ _ _ _ Eb Ed) as (_ & _ & Hl).
  destruct (discover_from_seeds (td_resolver td') (td_node_client td') (fun _ => demo_get) (known_node_ids td'))
    as [[topo2 obs]|] eqn:E2; [|vm_compute in Eb; injection Eb as <-; vm_compute in Ed; injection Ed as <- <-;
      vm_compute in E2; discriminate E2].
  destruct (Hl _ _ _ E2 (fun _ _ => Err "connection refused") (fun _ => demo_get)) as (td'' & H2 & Hk & Hne).
  exists td, td', td'', topo, topo2. split_and!; [done|done|done|congruence].
Defined.
