(* ===== verification/Process.v ===== *)
(** * [main.rs], [lib.rs]: the running process and its end

    After the start-up ([App.v]) the process is a set of tasks that share one
    cancellation token: the task of [main.rs] that waits for Ctrl-C, the
    heartbeat, the synchronisation, the API server with the task that shuts it
    down, the acceptor with its counter and handlers ([TcpServer.server_step]),
    and [async_main] itself, which waits for the token or the acceptor.  The
    token is the [cancelled] flag of the acceptor's state, and what
    [TcpServer::run] has returned is there too.  When [async_main] returns, the
    runtime is dropped and every task with it. *)

From S2P Require Import Prelude RustStd Error Config Http Rzid Resolver Topology App TcpServer.
From stdpp Require Import relations.
Local Open Scope Z_scope.

Inductive ApiTask := ApiServing | ApiDraining | ApiEnded.

Record Process := mkProcess {
  signal : option (Result unit io_Error);   (* what [ctrl_c().await] returned, if it has *)
  heartbeat_runs : bool;
  sync_runs : bool;
  api_task : ApiTask;
  acceptor : Server
}.

Definition token (p : Process) : bool := cancelled (acceptor p).

(** Everything has been spawned. *)
Definition started : Process := mkProcess None true true ApiServing server_new.

Definition with_acceptor (p : Process) (s : Server) : Process :=
  mkProcess (signal p) (heartbeat_runs p) (sync_runs p) (api_task p) s.

(** [shutdown.cancel()] *)
Definition cancel (s : Server) : Server := mkServer (active s) (live s) (pending s) (closer_runs s) true (returned s).

Section Process.
Context `{RQ : Reqwest} (cfg : Config).

Inductive proc_step : Process -> Process -> Prop :=
| ps_signal p (ctrl_c : Result unit io_Error) :     (* [let _ = ctrl_c().await; shutdown.cancel()] *)
    signal p = None ->
    proc_step p (mkProcess (Some ctrl_c) (heartbeat_runs p) (sync_runs p) (api_task p) (cancel (acceptor p)))
| ps_accept p s :                                   (* the acceptor, the counter and the handlers *)
    server_step cfg (acceptor p) s -> cancelled s = token p -> proc_step p (with_acceptor p s)
| ps_heartbeat_end p (rebuilt : Result unit reqwest_Error) :   (* or it could not start, [interval] panicking *)
    heartbeat_runs p = true ->
    token p = true \/ is_ok rebuilt = false \/ interval (from_secs (rzid_heartbeat_interval_secs cfg)) = None ->
    proc_step p (mkProcess (signal p) false (sync_runs p) (api_task p) (acceptor p))
| ps_sync_end p :
    sync_runs p = true -> token p = true \/ interval (from_secs (node_probe_interval_sec cfg)) = None ->
    proc_step p (mkProcess (signal p) (heartbeat_runs p) false (api_task p) (acceptor p))
| ps_api_shutdown p :                               (* [graceful_shutdown] *)
    api_task p = ApiServing -> token p = true ->
    proc_step p (mkProcess (signal p) (heartbeat_runs p) (sync_runs p) ApiDraining (acceptor p))
| ps_api_end p (res : Result unit RZError) :        (* an error is logged *)
    proc_step p (mkProcess (signal p) (heartbeat_runs p) (sync_runs p) ApiEnded (acceptor p)).

(** How the final [select!] of [async_main] can end now. *)
Inductive can_end (p : Process) : Ending -> Prop :=
| can_end_cancelled : token p = true -> can_end p ShutDown
| can_end_server res : returned (acceptor p) = Some res -> can_end p (ServerEnded res).

End Process.

(** A start-up that ends that way. *)
Definition with_ending `{Reqwest} (st : Startup) (e : Ending) : Startup :=
  mkStartup (rzid_built st) (resolver_built st) (node_client_built st) (bound st) (recorder_installed st) e.

(** ** Lemmas *)

Section Lemmas.
Context `{RQ : Reqwest}.

(** The token is set by the Ctrl-C task alone, and the API server is not shut
    down before it is. *)
Record process_inv (p : Process) : Prop := {
  pi_token : token p = bool_decide (is_Some (signal p));
  pi_drain : api_task p = ApiDraining -> token p = true
}.

Lemma process_step_inv cfg p p' : proc_step cfg p p' -> process_inv p -> process_inv p'.
Proof.
  intros Hs [T D]. destruct Hs as [p r Hw|p s Hs Hc| | | |]; split; simpl in *; try done; unfold token in *; simpl in *;
    rewrite ?Hc; auto.
Qed.

Lemma process_reachable_inv cfg p : rtc (proc_step cfg) started p -> process_inv p.
Proof.
  intros Hr. eapply (rtc_ind_r process_inv started); [by split| |exact Hr].
  intros p1 p2 _ Hs. by apply (process_step_inv cfg).
Qed.

(** The acceptor's part of a run is a run of the acceptor. *)
Lemma process_acceptor cfg p : rtc (proc_step cfg) started p -> rtc (server_step cfg) server_new (acceptor p).
Proof.
  intros Hr. eapply (rtc_ind_r (fun p => rtc (server_step cfg) server_new (acceptor p)) started); [constructor| |exact Hr].
  intros p1 p2 _ Hs IH. destruct Hs; simpl; try exact IH.
  - eapply rtc_r; [exact IH|]. constructor.
  - by eapply rtc_r.
Qed.

End Lemmas.

(** ** Properties *)

Section Properties.
Context `{RQ : Reqwest}.

(** C37. Once started, the process ends exactly when the wait for Ctrl-C is over,
    and never with an error.  In every reachable state, if [async_main] can
    return then [ctrl_c()] has returned (its result is not looked at: a failure
    to install the handler ends the process like the signal), whichever branch
    of the [select!] is taken the result is [Ok], and the error "tcp server
    error" is never returned: the accept loop goes on after a failed [accept]
    and returns, with [Ok], only when the token is cancelled.  Conversely the
    return of [ctrl_c()], with whatever result, is obeyed at once from every
    state in which it is still awaited, whatever the handlers, the
    synchronisation and the heartbeat are doing; and up to the end never more
    than [max_connections] handlers are alive. *)
Theorem process_ends_when_told cfg st p :
  0 <= max_connections cfg -> rtc (proc_step cfg) started p ->
  is_ok (build_discovery cfg st) = true -> is_ok (bound st) = true -> recorder_installed st = false ->
  (forall e, can_end p e ->
     is_Some (signal p)
     /\ async_main cfg (with_ending st e) = Some (Ok (), [HeartbeatTask; SyncTask; ApiServer]))
  /\ (signal p = None -> forall r, exists p', proc_step cfg p p' /\ signal p' = Some r /\ can_end p' ShutDown
        /\ live (acceptor p') = live (acceptor p))
  /\ (is_Some (signal p) -> can_end p ShutDown)
  /\ live (acceptor p) <= max_connections cfg.
Proof.
  intros Hm Hr Hd Hb Hi. destruct (process_reachable_inv cfg p Hr) as [T _].
  destruct (server_reachable_inv _ _ Hm (process_acceptor _ _ Hr)) as [(_ & Hp & Ha & Hle) Hret].
  assert (Hbuild : forall e, build_discovery cfg (with_ending st e) = build_discovery cfg st) by done.
  split_and!.
  - intros e He. assert (token p = true /\ (e = ShutDown \/ e = ServerEnded (Ok ()))) as [Ht Hend].
    { destruct He as [Ht|res Hres]; [by split; [|left]|]. destruct Hret as [Hn|[Hok Hc]]; [congruence|].
      split; [exact Hc|right]. rewrite Hok in Hres. by injection Hres as <-. }
    rewrite T in Ht. apply bool_decide_eq_true in Ht. split; [done|]. unfold async_main. rewrite Hbuild.
    destruct (build_discovery cfg st); [|done]. simpl. destruct (bound st); [|done]. rewrite Hi. simpl.
    by destruct Hend as [-> | ->].
  - intros Hw r. eexists. split; [by apply (ps_signal _ p r)|]. split_and!; [done|by constructor|done].
  - intros Hw. constructor. rewrite T. by apply bool_decide_eq_true.
  - lia.
Qed.

End Properties.

#[local] Existing Instance reqwest_text.

(** A handler is alive when [ctrl_c()] returns, and an [accept] has failed. *)
Lemma process_ends_when_told_witness :
  exists p, live (acceptor p) = 1
  /\ async_main demo_config (with_ending demo_startup ShutDown) = Some (Ok (), [HeartbeatTask; SyncTask; ApiServer])
  /\ can_end p ShutDown.
Proof.
  exists (mkProcess (Some (Ok ())) true true ApiServing (mkServer 1 1 0 true true None)). split; [reflexivity|].
  destruct (process_ends_when_told demo_config demo_startup (mkProcess (Some (Ok ())) true true ApiServing (mkServer 1 1 0 true true None)))
    as (Hend & _ & Hs & _); [vm_compute; discriminate| |reflexivity|reflexivity|reflexivity|].
  - eapply rtc_l; [exact (ps_accept demo_config started _
      (step_run demo_config server_new (RunAccept (Err "too many open files")) _ _ eq_refl I eq_refl) eq_refl)|].
    eapply rtc_l; [exact (ps_accept demo_config started _
      (step_run demo_config server_new (RunAccept (Ok ())) _ _ eq_refl I eq_refl) eq_refl)|].
    eapply rtc_l; [exact (ps_signal demo_config (mkProcess None true true ApiServing (mkServer 1 1 0 true false None)) (Ok ()) eq_refl)|].
    apply rtc_refl.
  - assert (He := Hs (ex_intro _ (Ok ()) eq_refl)). split; [exact (proj2 (Hend _ He))|exact He].
Defined.
