(* ===== verification/ClusterSync.v ===== *)
(** * [cluster_handler.rs], synchronisation with the cluster

    [sync_with_cluster] asks for the topology, reconnects the leader slots and
    files new follower connections.  The task is suspended at every [.await]:
    [await] passes one suspension point, where [env] is whatever the other
    tasks do meanwhile; [dial] is a connection attempt.  [await_held] passes one
    while the task holds the write guard of the follower table.  [env_ok]
    bounds [env] by the rely condition [rely], and the operations of the other
    tasks meet it.  A panic ([usize] underflow, index out of range) is
    [None]. *)

From S2P Require Import Prelude RustStd Error Config Demux Connection LoadBalancer Topology.
Local Open Scope Z_scope.

(** What the other tasks make of the handler at a suspension point: whether the
    guard is held there, and the number of the point. *)
Abbreviation Env := (bool -> nat -> HandlerInner -> HandlerInner).

Section Sync.
Context `{RQ : Reqwest}.
Context {HF : HashIter (string * Z * Z) nat} {HH : HashIter (string * Z) Z}.
Context {HR : HashIter string Z} {HN : HashIter string (list (option nat))}.
Context (cfg : Config).
(** The outcome of the connection attempt made at a suspension point. *)
Context (tcp : nat -> string -> Result unit io_Error).
Context (env : Env).

Definition await (h : HandlerInner) : HandlerInner :=
  let h' := env false (awaits h) h in set_net h' (net h') (S (awaits h)).

Definition await_held (h : HandlerInner) : HandlerInner :=
  let h' := env true (awaits h) h in set_net h' (net h') (S (awaits h)).

Definition dial (host : string) (h : HandlerInner) : Result nat RZError * HandlerInner :=
  let r := tcp (awaits h) host in
  let h := await h in
  let '(res, st) := connect host cfg r (net h) in
  (res, set_net h st (awaits h)).

(** ** [sync_leader] *)

Definition leader_changed (host : string) (h : HandlerInner) : bool :=
  match leader_host h with
  | Some old => negb (bool_decide (old = host))
  | None => true
  end.

Definition reset_leader (host : string) (h : HandlerInner) : HandlerInner :=
  let h := await h in
  set_leader_host (set_leader_conns h (map (fun _ => None) (leader_conns h))) (Some host).

(** The slots to fill, in order. *)
Definition required_slots (h : HandlerInner) : list nat :=
  map fst (List.filter (fun e => negb (slot_open (net h) (snd e)))
    (combine (seq 0 (length (leader_conns h))) (leader_conns h))).

Fixpoint fill_slots (slots : list nat) (host : string) (h : HandlerInner) : option HandlerInner :=
  match slots with
  | [] => Some h
  | i :: r =>
      match dial host h with
      | (Ok c, h) =>
          let h := await h in
          _ ← leader_conns h !! i;
          fill_slots r host
            (set_leader_host (set_leader_conns h (<[i := Some c]> (leader_conns h))) (Some host))
      | (Err _, h) => fill_slots r host h
      end
  end.

Definition sync_leader (host : string) (h : HandlerInner) : option HandlerInner :=
  let h := if leader_changed host h then reset_leader host h else h in
  let h := await h in
  fill_slots (required_slots h) host h.

(** ** [sync_followers]: which connections are needed *)

Definition named (name : string) (e : string * Z) : bool := bool_decide (fst e = name).

Definition required_new (fl : list string) (cur_node_ids : list (string * Z)) : gmap string Z :=
  foldl (fun m name => if existsb (named name) cur_node_ids then m
                       else <[name := w32 (conn_per_roomzin_node cfg)]> m) ∅ fl.

Fixpoint required_more (l cur_node_ids : list (string * Z)) (m : gmap string Z) : option (gmap string Z) :=
  match l with
  | [] => Some m
  | (i, _) :: r =>
      let count := zlen (List.filter (named i) cur_node_ids) in
      if conn_per_roomzin_node cfg <? count then None else
      let required := conn_per_roomzin_node cfg - count in
      required_more r cur_node_ids (if 0 <? required then <[i := w32 required]> m else m)
  end.

Definition cur_nodes (h : HandlerInner) : list (string * Z) := map (fun e => fst (fst e)) (hiter (followers h)).

Definition required_conns (fl : list string) (h : HandlerInner) : option (gmap string Z) :=
  required_more (cur_nodes h) (cur_nodes h) (required_new fl (cur_nodes h)).

(** *** The connection attempts *)

Definition push_conn (host : string) (c : nat) (m : gmap string (list (option nat))) :=
  <[host := default [] (m !! host) ++ [Some c]]> m.

Fixpoint dial_n (n : nat) (host : string) (m : gmap string (list (option nat))) (h : HandlerInner) :=
  match n with
  | O => (m, h)
  | S k =>
      match dial host h with
      | (Ok c, h) => dial_n k host (push_conn host c m) h
      | (Err _, h) => dial_n k host m h
      end
  end.

Fixpoint dial_all (l : list (string * Z)) (m : gmap string (list (option nat))) (h : HandlerInner) :=
  match l with
  | [] => (m, h)
  | (host, count) :: r => let '(m, h) := dial_n (Z.to_nat count) host m h in dial_all r m h
  end.

(** *** Filing the new connections *)

Definition free_nodes (fl : list string) (h : HandlerInner) : list Z :=
  let cur_node_ids := map (fun e => snd (fst (fst e))) (hiter (followers h)) in
  foldl (fun free i => if negb (mem i cur_node_ids) && negb (mem i free) then free ++ [i] else free)
    [] (zrange (w32 (zlen fl))).

Definition assigned_nodes (h : HandlerInner) : gmap string Z :=
  foldl (fun m e => <[fst (fst e) := snd (fst e)]> m) ∅ (hiter (follower_history (load_balancer h))).

Definition free_conns (name : string) (h : HandlerInner) : list Z :=
  let cur_conn_ids := map (fun e => snd (fst e))
    (List.filter (fun e => named name (fst (fst e)) && negb (is_closed (snd e) (net h))) (hiter (followers h))) in
  List.filter (fun i => negb (mem i cur_conn_ids)) (zrange (w32 (conn_per_roomzin_node cfg))).

(** The index found in the follower table, 0 if there is none. *)
Definition filed_index (name : string) (h : HandlerInner) : Z :=
  match List.find (fun e => named name (fst (fst e))) (hiter (followers h)) with
  | Some ((_, nidx, _), _) => nidx
  | None => 0
  end.

(** The node index to use ([None]: [continue]), with what is left of the free
    indices and the assignments. *)
Definition assign_node (name : string) (free : list Z) (assigned : gmap string Z) (h : HandlerInner)
    : option Z * list Z * gmap string Z :=
  let nidx := filed_index name h in
  if nidx =? 0 then
    match assigned !! name with
    | Some idx => (Some idx, free, assigned)
    | None =>
        match last free with
        | Some idx => (Some idx, removelast free, <[name := idx]> assigned)
        | None => (None, free, assigned)
        end
    end
  else (Some nidx, free, assigned).

Definition or_insert (key : string * Z) (v : Z) (lb : LoadBalancer) : LoadBalancer :=
  match follower_history lb !! key with
  | Some _ => lb
  | None => set_history lb (<[key := v]> (follower_history lb))
  end.

Definition file_conn (name : string) (nidx cidx : Z) (c : nat) (h : HandlerInner) : HandlerInner :=
  let h := set_followers h (<[(name, nidx, cidx) := c]> (followers h)) in
  set_lb h (or_insert (name, nidx) cidx (load_balancer h)).

(** [for i in 0..conns.len()].  The lock of the load balancer is awaited for
    every connection.  The code inserts the connection into the table before
    that; nobody can see the table until the guard is dropped, so it is
    inserted here together with the entry of the history. *)
Fixpoint file_conns (i : nat) (conns : list (option nat)) (name : string) (nidx : Z) (free_conn_ids : list Z)
    (h : HandlerInner) : option HandlerInner :=
  match conns with
  | [] => Some h
  | None :: r => file_conns (S i) r name nidx free_conn_ids h
  | Some c :: r =>
      cidx ← free_conn_ids !! i;
      let h := await_held h in
      file_conns (S i) r name nidx free_conn_ids (file_conn name nidx cidx c h)
  end.

Fixpoint file_nodes (l : list (string * list (option nat))) (free : list Z) (assigned : gmap string Z)
    (h : HandlerInner) : option HandlerInner :=
  match l with
  | [] => Some h
  | (name, conns) :: r =>
      let free_conn_ids := free_conns name h in
      let '(nidx, free, assigned) := assign_node name free assigned h in
      match nidx with
      | None => file_nodes r free assigned h
      | Some nidx => h ← file_conns 0 conns name nidx free_conn_ids h; file_nodes r free assigned h
      end
  end.

Definition sync_followers (fl : list string) (h : HandlerInner) : option HandlerInner :=
  let h := await h in
  required ← required_conns fl h;
  let '(new_conns, h) := dial_all (hiter required) ∅ h in
  let h := await h in
  let free_node_ids := free_nodes fl h in
  let h := await_held h in
  file_nodes (hiter new_conns) free_node_ids (assigned_nodes h) h.

(** ** [sync_with_cluster] and [sync_task] *)

(** [discover n]: the outcome of the discovery made at suspension point [n]. *)
Definition sync_with_cluster (discover : nat -> Result ClusterTopology RZError) (h : HandlerInner)
    : option HandlerInner :=
  if syncing h then Some h else
  let h := set_syncing h true in
  let result := discover (awaits h) in
  let h := await h in
  h ← match result with
      | Ok topo => h ← sync_leader (leader topo) h; sync_followers (topo_followers topo) h
      | Err _ => Some h
      end;
  Some (set_syncing h false).

(** What the fast timer looks at, under the read lock of each table. *)
Definition any_leader_conns (h : HandlerInner) : bool := existsb (slot_open (net h)) (leader_conns h).

Definition any_follower_conns (h : HandlerInner) : bool :=
  existsb (fun e => negb (is_closed (snd e) (net h))) (hiter (followers h)).

(** A tick of a timer of [sync_task]. *)
Inductive Tick := Fast | Slow.

Definition sync_tick (discover : nat -> Result ClusterTopology RZError) (t : Tick) (h : HandlerInner)
    : option HandlerInner :=
  match t with
  | Fast =>
      let h := await h in
      let any_leader := any_leader_conns h in
      let h := await h in
      if negb any_leader || negb (any_follower_conns h) then sync_with_cluster discover h else Some h
  | Slow => sync_with_cluster discover h
  end.

End Sync.

(** ** What the other tasks may do

    References stay allocated and keep their address, a closed connection
    stays closed; only closed connections leave the follower table, and node
    indices stay as they are. *)
Definition net_le (st st' : Store) : Prop :=
  forall c ci, conns st !! c = Some ci ->
    exists ci', conns st' !! c = Some ci' /\ addr ci' = addr ci /\ (closed ci = true -> closed ci' = true).

(** Every reference in use is older than the next one. *)
Definition alloc_ok (st : Store) : Prop := forall c, is_Some (conns st !! c) -> (c < next_conn st)%nat.

(** Open connections stay filed. *)
Definition keeps_open (h h' : HandlerInner) : Prop :=
  forall key c, followers h !! key = Some c -> is_Some (conns (net h) !! c) ->
    is_closed c (net h') = false -> followers h' !! key = Some c.

Record frely (cfg : Config) (h h' : HandlerInner) : Prop := {
  frely_net : net_le (net h) (net h');
  frely_alloc : alloc_ok (net h) -> alloc_ok (net h');
  frely_sub : followers h' ⊆ followers h;
  frely_kept : keeps_open h h';
  frely_dom : dom (follower_history (load_balancer h')) = dom (follower_history (load_balancer h));
  frely_lb : lb_wf cfg (load_balancer h) -> lb_wf cfg (load_balancer h')
}.

Record rely (cfg : Config) (h h' : HandlerInner) : Prop := {
  rely_leader : leader_conns h' = leader_conns h;
  rely_host : leader_host h' = leader_host h;
  rely_syncing : syncing h' = syncing h;
  rely_frely : frely cfg h h'
}.

Arguments frely_net {cfg h h'}.
Arguments frely_sub {cfg h h'}.
Arguments rely_leader {cfg h h'}.
Arguments rely_host {cfg h h'}.
Arguments rely_syncing {cfg h h'}.
Arguments rely_frely {cfg h h'}.

(** The same while the guard is held: the follower table is out of reach, and
    so is the history, since a selection that reads would wait for the guard. *)
Record held_rely (cfg : Config) (h h' : HandlerInner) : Prop := {
  held_is_rely : rely cfg h h';
  held_followers : followers h' = followers h;
  held_history : follower_history (load_balancer h') = follower_history (load_balancer h)
}.

(** What filing new followers may do on top of that. *)
Record grows (h h' : HandlerInner) : Prop := {
  grows_leader : leader_conns h' = leader_conns h;
  grows_host : leader_host h' = leader_host h;
  grows_syncing : syncing h' = syncing h;
  grows_net : net_le (net h) (net h');
  grows_kept : keeps_open h h';
  grows_dom : dom (follower_history (load_balancer h)) ⊆ dom (follower_history (load_balancer h'))
}.

(** ** The invariant of the handler *)
Record cluster_inv (cfg : Config) (h : HandlerInner) : Prop := {
  inv_len : zlen (leader_conns h) = conn_per_roomzin_node cfg;
  inv_slot : forall i c, leader_conns h !! i = Some (Some c) ->
    exists ci, conns (net h) !! c = Some ci /\ leader_host h = Some (addr ci);
  inv_alloc : alloc_ok (net h);
  inv_key : forall n i j c, followers h !! (n, i, j) = Some c ->
    0 <= j < conn_per_roomzin_node cfg /\ is_Some (follower_history (load_balancer h) !! (n, i))
    /\ exists ci, conns (net h) !! c = Some ci /\ addr ci = n;
  inv_index : forall n i, is_Some (follower_history (load_balancer h) !! (n, i)) -> 0 <= i < 2 ^ 32;
  inv_name : forall n i j, is_Some (follower_history (load_balancer h) !! (n, i)) ->
    is_Some (follower_history (load_balancer h) !! (n, j)) -> i = j;
  inv_lb : lb_wf cfg (load_balancer h)
}.

(** The other tasks do their part. *)
Record env_ok (cfg : Config) (env : Env) : Prop := {
  env_rely b k h : cluster_inv cfg h -> rely cfg h (env b k h);
  env_followers k h : followers (env true k h) = followers h;
  env_history k h : follower_history (load_balancer (env true k h)) = follower_history (load_balancer h)
}.

(** ** Lemmas: the relations *)

Lemma net_le_refl st : net_le st st.
Proof. intros c ci Hc. eauto. Qed.

Lemma net_le_trans a b c : net_le a b -> net_le b c -> net_le a c.
Proof.
  intros Hab Hbc r ci Hr. destruct (Hab _ _ Hr) as (ci' & Hr' & Ha & Hc).
  destruct (Hbc _ _ Hr') as (ci'' & Hr'' & Ha' & Hc'). exists ci''. split_and!; [done|congruence|auto].
Qed.

(** A connection open later was open before. *)
Lemma net_le_open st st' c :
  net_le st st' -> is_Some (conns st !! c) -> is_closed c st' = false -> is_closed c st = false.
Proof.
  unfold is_closed. intros Hle [ci Hc]. destruct (Hle _ _ Hc) as (ci' & -> & _ & Hcl). rewrite Hc.
  intros Ho. destruct (closed ci); [|done]. rewrite Hcl in Ho; done.
Qed.

Lemma net_le_alloc st st' c : net_le st st' -> is_Some (conns st !! c) -> is_Some (conns st' !! c).
Proof. intros Hle [ci Hc]. destruct (Hle _ _ Hc) as (ci' & Hc' & _). eauto. Qed.

Lemma keeps_open_trans a b c :
  net_le (net a) (net b) -> net_le (net b) (net c) -> keeps_open a b -> keeps_open b c -> keeps_open a c.
Proof.
  intros L1 L2 K1 K2 key r Hr Ha Ho. pose proof (net_le_alloc _ _ _ L1 Ha). apply K2; [|done|done].
  apply K1; [done|done|]. by eapply net_le_open.
Qed.

Lemma frely_refl cfg h : frely cfg h h.
Proof. split; try done; [apply net_le_refl|by intros key c]. Qed.

Lemma frely_trans cfg a b c : frely cfg a b -> frely cfg b c -> frely cfg a c.
Proof.
  intros [N1 A1 S1 K1 D1 L1] [N2 A2 S2 K2 D2 L2]. split; try congruence; eauto.
  - by eapply net_le_trans.
  - by etrans.
  - by eapply keeps_open_trans.
Qed.

Lemma rely_refl cfg h : rely cfg h h.
Proof. split; try done. apply frely_refl. Qed.

Lemma rely_trans cfg a b c : rely cfg a b -> rely cfg b c -> rely cfg a c.
Proof. intros [] []. split; try congruence. by eapply frely_trans. Qed.

Lemma rely_grows cfg h h' : rely cfg h h' -> grows h h'.
Proof. intros [L H S [N A F K D W]]. split; try done. by rewrite D. Qed.

Lemma grows_refl h : grows h h.
Proof. split; try done; [apply net_le_refl|by intros key c]. Qed.

Lemma grows_trans a b c : grows a b -> grows b c -> grows a c.
Proof.
  intros [L1 H1 S1 N1 K1 D1] [L2 H2 S2 N2 K2 D2]. split; try congruence.
  - by eapply net_le_trans.
  - by eapply keeps_open_trans.
  - by etrans.
Qed.

Lemma lookup_dom_eq {A} (m m' : gmap (string * Z) A) k :
  dom m' = dom m -> is_Some (m' !! k) <-> is_Some (m !! k).
Proof. intros Hd. by rewrite <- !elem_of_dom, Hd. Qed.

#[export] Hint Resolve net_le_refl frely_refl rely_refl grows_refl : rz.

(** The follower part of the invariant survives interference. *)
Lemma frely_inv cfg h h' :
  frely cfg h h' -> cluster_inv cfg h ->
  zlen (leader_conns h') = conn_per_roomzin_node cfg ->
  (forall i c, leader_conns h' !! i = Some (Some c) ->
    exists ci, conns (net h') !! c = Some ci /\ leader_host h' = Some (addr ci)) ->
  cluster_inv cfg h'.
Proof.
  intros [N A F K D W] [IL IS IA IK II IN IW] HL HS. split; try done; auto.
  - intros n i j c Hc. apply (lookup_weaken _ _ _ _ Hc) in F. apply IK in F as (Hj & Hh & ci & Hci & Ha).
    split; [done|]. split; [by apply (lookup_dom_eq _ _ _ D)|].
    destruct (N _ _ Hci) as (ci' & Hci' & Ha' & _). exists ci'. split; [done|congruence].
  - intros n i Hi%(lookup_dom_eq _ _ _ D). by eapply II.
  - intros n i j Hi%(lookup_dom_eq _ _ _ D) Hj%(lookup_dom_eq _ _ _ D). by eapply IN.
Qed.

Lemma rely_inv cfg h h' : rely cfg h h' -> cluster_inv cfg h -> cluster_inv cfg h'.
Proof.
  intros [L H S F] I. eapply frely_inv; [done..| |].
  - rewrite L. apply I.
  - rewrite L, H. intros i c Hc. destruct (inv_slot _ _ I _ _ Hc) as (ci & Hci & Hh).
    destruct (frely_net F _ _ Hci) as (ci' & Hci' & Ha & _). exists ci'. by rewrite Ha.
Qed.

(** ** Lemmas: [sync_leader] *)

Section LeaderLemmas.
Context `{RQ : Reqwest}.
Context (cfg : Config) (tcp : nat -> string -> Result unit io_Error) (env : Env).
Context (Henv : env_ok cfg env).

Lemma await_rely h : cluster_inv cfg h -> rely cfg h (await env h).
Proof. intros I. destruct (env_rely _ _ Henv false (awaits h) h I) as [L H S [N A F K D W]]. by split; [..|split]. Qed.

Lemma await_inv h : cluster_inv cfg h -> cluster_inv cfg (await env h).
Proof. intros I. eapply rely_inv; [by apply await_rely|done]. Qed.

Lemma await_held_rely h : cluster_inv cfg h -> held_rely cfg h (await_held env h).
Proof.
  intros I. destruct (env_rely _ _ Henv true (awaits h) h I) as [L H S [N A F K D W]].
  split; [by split; [..|split]|apply (env_followers _ _ Henv)|apply (env_history _ _ Henv)].
Qed.

Lemma held_inv h h' : held_rely cfg h h' -> cluster_inv cfg h -> cluster_inv cfg h'.
Proof. intros [R _ _]. by apply rely_inv. Qed.

(** A connection attempt allocates a fresh connection or does nothing. *)
Lemma dial_spec host h :
  cluster_inv cfg h ->
  let '(res, h') := dial cfg tcp env host h in
  rely cfg h h' /\ match res with
  | Ok c => exists ci, conns (net h') !! c = Some ci /\ addr ci = host /\ closed ci = false
  | Err _ => exists e, tcp (awaits h) host = Err e
  end.
Proof.
  intros I. pose proof (await_rely h I) as R. pose proof (await_inv h I) as I1. unfold dial, connect.
  destruct (tcp (awaits h) host) as [u|e] eqn:Et.
  2:{ split; [|by eexists]. destruct R as [L H S [N A F K D W]]. by split; [..|split]. }
  set (h1 := await env h) in *. clearbody h1. pose proof (inv_alloc _ _ I1) as Ha.
  assert (Hfresh : conns (net h1) !! next_conn (net h1) = None).
  { destruct (conns (net h1) !! next_conn (net h1)) eqn:E; [|done].
    pose proof (Ha _ (mk_is_Some _ _ E)). lia. }
  split; [|eexists; simpl; by rewrite lookup_insert_eq].
  eapply rely_trans; [exact R|]. split; try done. split; try done.
  - intros c ci Hc. exists ci. simpl. rewrite lookup_insert_ne; [done|]. congruence.
  - intros _ c. simpl. rewrite lookup_insert_is_Some. intros [<-|[_ Hc]]; [lia|]. specialize (Ha _ Hc). lia.
  - by intros key c.
Qed.

Lemma dial_inv host h : cluster_inv cfg h -> cluster_inv cfg (snd (dial cfg tcp env host h)).
Proof.
  intros I. pose proof (dial_spec host h I) as Hd. destruct (dial _ _ _ _ _) as [res h'].
  eapply rely_inv; [apply Hd|done].
Qed.

(** Putting a connection to the current leader into a slot. *)
Lemma set_slot_inv i c ci host h :
  cluster_inv cfg h -> conns (net h) !! c = Some ci -> addr ci = host -> leader_host h = Some host ->
  cluster_inv cfg (set_leader_host (set_leader_conns h (<[i := Some c]> (leader_conns h))) (Some host)).
Proof.
  intros I Hc Ha Hh. eapply frely_inv; [..|exact I|unfold zlen; simpl|].
  - split; try done; [apply net_le_refl|by intros key c'].
  - rewrite length_insert. apply I.
  - simpl. intros k r Hk. apply list_lookup_insert_Some in Hk as [(<- & [= <-] & _)|[_ Hk]].
    + exists ci. by rewrite Ha.
    + destruct (inv_slot _ _ I _ _ Hk) as (ci' & Hci & Hh'). exists ci'. by rewrite <- Hh'.
Qed.

Lemma frely_slots h h' v host : frely cfg h h' -> frely cfg h (set_leader_host (set_leader_conns h' v) host).
Proof. intros []. by split. Qed.

Lemma fill_slots_spec slots host h :
  cluster_inv cfg h -> leader_host h = Some host ->
  (forall i, i ∈ slots -> is_Some (leader_conns h !! i)) ->
  exists h', fill_slots cfg tcp env slots host h = Some h' /\ cluster_inv cfg h'
  /\ leader_host h' = Some host /\ syncing h' = syncing h /\ frely cfg h h'
  /\ (forall i, i ∉ slots -> leader_conns h' !! i = leader_conns h !! i)
  /\ (forall i c, leader_conns h !! i = Some (Some c) -> exists c', leader_conns h' !! i = Some (Some c'))
  /\ ((forall k, is_ok (tcp k host) = true) ->
      forall i, i ∈ slots -> exists c, leader_conns h' !! i = Some (Some c)).
Proof.
  revert h. induction slots as [|i r IH]; intros h I Hh Hs.
  { exists h. split_and!; eauto with rz. by intros _ i ?%not_elem_of_nil. }
  cbn [fill_slots]. pose proof (dial_spec host h I) as Hd. pose proof (dial_inv host h I) as I1.
  destruct (dial cfg tcp env host h) as [[c|e] h1]; simpl in I1; destruct Hd as [R Hd].
  2:{ destruct (IH h1) as (h' & -> & I' & Hh' & Hsy & F & Hout & Hkeep & Hall).
      { done. } { by rewrite (rely_host R). }
      { rewrite (rely_leader R). intros k Hk. apply Hs. set_solver. }
      exists h'. rewrite <- (rely_leader R). split_and!; try done.
      - by rewrite Hsy, (rely_syncing R).
      - eapply frely_trans; [apply R|done].
      - intros k Hk. apply Hout. set_solver.
      - intros Hok. specialize (Hok (awaits h)). destruct Hd as [e' He']. by rewrite He' in Hok. }
  destruct Hd as (ci & Hc & Ha & _). pose proof (await_rely h1 I1) as R2. pose proof (await_inv h1 I1) as I2.
  set (h2 := await env h1) in *.
  assert (R' : rely cfg h h2) by (by eapply rely_trans).
  destruct (frely_net (rely_frely R2) _ _ Hc) as (ci' & Hc' & Ha' & _).
  rewrite (rely_leader R'). destruct (Hs i) as [s Hsi]; [set_solver|]. rewrite Hsi. cbn [mbind option_bind].
  assert (Hh2 : leader_host h2 = Some host) by (by rewrite (rely_host R')).
  pose proof (set_slot_inv i c ci' host h2 I2 Hc' ltac:(congruence) Hh2) as I3.
  rewrite (rely_leader R') in I3. set (h3 := set_leader_host _ _) in *.
  assert (Hi : (i < length (leader_conns h))%nat) by (by eapply lookup_lt_Some).
  destruct (IH h3 I3 eq_refl) as (h' & -> & I' & Hh' & Hsy & F & Hout & Hkeep & Hall).
  { intros k Hk. simpl. apply lookup_lt_is_Some. rewrite length_insert. apply lookup_lt_is_Some, Hs. set_solver. }
  exists h'. split_and!; try done.
  - rewrite Hsy. apply (rely_syncing R').
  - eapply frely_trans; [|exact F]. apply frely_slots, R'.
  - intros k Hk. rewrite Hout by set_solver. simpl. rewrite list_lookup_insert_ne; [done|set_solver].
  - intros k d Hk. destruct (decide (k = i)) as [->|Hne].
    + eapply Hkeep. simpl. by rewrite list_lookup_insert_eq.
    + eapply Hkeep. simpl. by rewrite list_lookup_insert_ne.
  - intros Hok k [->|Hk]%elem_of_cons; [|auto].
    eapply Hkeep. simpl. by rewrite list_lookup_insert_eq.
Qed.

Lemma required_slots_elem h i :
  i ∈ required_slots h <-> exists s, leader_conns h !! i = Some s /\ slot_open (net h) s = false.
Proof.
  unfold required_slots. rewrite list_elem_of_In, in_map_iff. split.
  - intros ([i' s] & <- & [Hin Ho]%filter_In). exists s. simpl in *. zbool. split; [|done].
    apply list_elem_of_In in Hin. apply list_elem_of_lookup in Hin as [k Hk].
    apply lookup_zip_Some in Hk as [[-> _]%lookup_seq Hk]. done.
  - intros (s & Hs & Ho). exists (i, s). split; [done|]. apply filter_In. simpl. rewrite Ho. split; [|done].
    apply list_elem_of_In, list_elem_of_lookup. exists i. apply lookup_zip_Some. split; [|done].
    apply lookup_seq. split; [done|]. by eapply lookup_lt_Some.
Qed.

Lemma reset_leader_inv host h :
  cluster_inv cfg h -> cluster_inv cfg (reset_leader env host h) /\ frely cfg h (reset_leader env host h)
  /\ leader_host (reset_leader env host h) = Some host /\ syncing (reset_leader env host h) = syncing h.
Proof.
  intros I. pose proof (await_rely h I) as R. pose proof (await_inv h I) as I1.
  unfold reset_leader. set (h1 := await env h) in *.
  assert (F : frely cfg h1 (set_leader_host (set_leader_conns h1 (map (fun _ => None) (leader_conns h1))) (Some host)))
    by (apply frely_slots, frely_refl).
  split_and!; [|by eapply frely_trans; [apply R|]|done|apply R].
  eapply frely_inv; [exact F|done|..].
  - unfold zlen. simpl. rewrite length_map. apply I1.
  - simpl. intros i c Hc. apply list_lookup_fmap_Some in Hc as (? & [=] & _).
Qed.

(** [sync_leader] never panics and leaves every filled slot connected to the
    new leader. *)
Lemma sync_leader_lemma host h :
  cluster_inv cfg h ->
  exists h', sync_leader cfg tcp env host h = Some h' /\ cluster_inv cfg h'
  /\ leader_host h' = Some host /\ syncing h' = syncing h /\ frely cfg h h'
  /\ ((forall k, is_ok (tcp k host) = true) -> Forall is_Some (leader_conns h'))
  /\ (leader_host h = Some host -> forall i c, leader_conns h !! i = Some (Some c) ->
        is_closed c (net h') = false -> leader_conns h' !! i = Some (Some c)).
Proof.
  intros I. unfold sync_leader.
  set (h1 := if leader_changed host h then reset_leader env host h else h).
  assert (H1 : cluster_inv cfg h1 /\ frely cfg h h1 /\ leader_host h1 = Some host /\ syncing h1 = syncing h
    /\ (leader_host h = Some host -> h1 = h)).
  { subst h1. unfold leader_changed. destruct (leader_host h) as [old|] eqn:Eh.
    - destruct (bool_decide_reflect (old = host)) as [->|Hne]; simpl.
      + by split_and!; try apply frely_refl.
      + destruct (reset_leader_inv host h I) as (? & ? & ? & ?). split_and!; try done. congruence.
    - by destruct (reset_leader_inv host h I) as (? & ? & ? & ?). }
  clearbody h1. destruct H1 as (I1 & F1 & Hh1 & Hs1 & Hsame).
  pose proof (await_rely h1 I1) as R. pose proof (await_inv h1 I1) as I2. set (h2 := await env h1) in *.
  destruct (fill_slots_spec (required_slots h2) host h2 I2) as (h' & -> & I' & Hh' & Hsy & F & Hout & Hkeep & Hall).
  { by rewrite (rely_host R). }
  { intros i (s & Hs & _)%required_slots_elem. eauto. }
  exists h'. split_and!; try done.
  - by rewrite Hsy, (rely_syncing R).
  - eapply frely_trans; [exact F1|]. eapply frely_trans; [apply R|done].
  - intros Hok. apply Forall_lookup. intros i s Hi.
    assert (Hl : zlen (leader_conns h') = zlen (leader_conns h2)) by (by rewrite (inv_len _ _ I'), (inv_len _ _ I2)).
    destruct (leader_conns h2 !! i) as [s2|] eqn:E2.
    2:{ apply lookup_ge_None in E2. apply lookup_lt_Some in Hi. unfold zlen in Hl. lia. }
    destruct (slot_open (net h2) s2) eqn:Eo.
    + destruct s2 as [c|]; [|done]. destruct (Hkeep _ _ E2) as [c' Hc']. simplify_eq. eauto.
    + destruct (Hall Hok i) as [c' Hc']; [apply required_slots_elem; eauto|]. simplify_eq. eauto.
  - intros Hh i c Hi Ho. specialize (Hsame Hh) as ->. rewrite <- (rely_leader R) in Hi. fold h2 in Hi.
    destruct (decide (i ∈ required_slots h2)) as [(s & Hs & Hso)%required_slots_elem|Hn]; [|by rewrite Hout].
    exfalso. simplify_eq. apply negb_false_iff in Hso.
    destruct (inv_slot _ _ I2 _ _ Hi) as (ci & Hci & _).
    rewrite (net_le_open _ _ _ (frely_net F) (mk_is_Some _ _ Hci) Ho) in Hso. done.
Qed.

End LeaderLemmas.

(** ** Lemmas: counting a node's connections *)

Section CountLemmas.
Context {HF : HashIter (string * Z * Z) nat} {HH : HashIter (string * Z) Z}.
Context (cfg : Config).

Definition name_keys (name : string) (h : HandlerInner) : list (string * Z * Z) :=
  List.filter (fun k => named name (fst k)) (hiter (followers h)).*1.

(** The connections filed under a name, closed ones included. *)
Definition filed_count (name : string) (h : HandlerInner) : Z :=
  zlen (List.filter (named name) (cur_nodes h)).

Lemma filed_count_keys name h : filed_count name h = zlen (name_keys name h).
Proof.
  unfold filed_count, name_keys, cur_nodes. rewrite (filter_map_comm (fun e : string * Z * Z * nat => fst (fst e))).
  change (fmap fst) with (map (@fst (string * Z * Z) nat)). rewrite filter_map_comm.
  unfold zlen. by rewrite !length_map.
Qed.

Lemma name_keys_elem name k h : k ∈ name_keys name h <-> fst (fst k) = name /\ is_Some (followers h !! k).
Proof.
  unfold name_keys, named. rewrite elem_of_List_filter, bool_decide_eq_true, list_elem_of_fmap. split.
  - intros [([k' v] & -> & Hin) <-]. apply hiter_lookup in Hin. simpl. eauto.
  - intros [<- [v Hv]]. split; [|done]. exists (k, v). split; [done|]. by apply hiter_lookup.
Qed.

Lemma name_keys_NoDup name h : NoDup (name_keys name h).
Proof. apply NoDup_List_filter, hiter_NoDup. Qed.

Lemma filed_count_mono name h h' :
  (forall i j, is_Some (followers h' !! (name, i, j)) -> is_Some (followers h !! (name, i, j))) ->
  filed_count name h' <= filed_count name h.
Proof.
  intros Hs. rewrite !filed_count_keys. apply NoDup_incl_zlen; [apply name_keys_NoDup|].
  intros [[n i] j]. rewrite !name_keys_elem. simpl. intros [-> Hk]. split; [done|auto].
Qed.

Lemma filed_count_sub name h h' : followers h' ⊆ followers h -> filed_count name h' <= filed_count name h.
Proof. intros Hs. apply filed_count_mono. intros i j [c Hc]. exists c. by eapply lookup_weaken. Qed.

(** A node has at most one connection per connection index. *)
Lemma filed_count_bound name h :
  0 <= conn_per_roomzin_node cfg -> cluster_inv cfg h -> filed_count name h <= conn_per_roomzin_node cfg.
Proof.
  intros Hn I. rewrite filed_count_keys. rewrite <- (zlen_zrange (conn_per_roomzin_node cfg)) by done.
  replace (zlen (name_keys name h)) with (zlen (map snd (name_keys name h)))
    by (unfold zlen; by rewrite length_map).
  apply NoDup_incl_zlen.
  - apply NoDup_fmap_2_strong; [|apply name_keys_NoDup]. intros [[n i] j] [[n' i'] j'].
    rewrite !name_keys_elem. simpl. intros [-> [c Hc]] [-> [c' Hc']] ->.
    apply (inv_key _ _ I) in Hc as (_ & Hi & _). apply (inv_key _ _ I) in Hc' as (_ & Hi' & _).
    by rewrite (inv_name _ _ I _ _ _ Hi Hi').
  - intros j (k & -> & Hk)%elem_of_map. apply name_keys_elem in Hk as [_ [c Hc]].
    destruct k as [[n i] j]. apply (inv_key _ _ I) in Hc as (Hj & _). by apply zrange_elem.
Qed.

Lemma free_conns_elem name j h :
  j ∈ free_conns cfg name h <-> 0 <= j < w32 (conn_per_roomzin_node cfg)
    /\ forall i c, followers h !! (name, i, j) = Some c -> is_closed c (net h) = true.
Proof.
  unfold free_conns. rewrite elem_of_List_filter, zrange_elem, negb_true_iff, mem_false, elem_of_map.
  split; intros [Hj Hno]; (split; [done|]).
  - intros i c Hc. destruct (is_closed c (net h)) eqn:E; [done|]. destruct Hno.
    exists ((name, i, j), c). split; [done|]. apply elem_of_List_filter. split; [by apply hiter_lookup|].
    simpl. rewrite E. unfold named. by rewrite bool_decide_true.
  - intros ([[[n i] j'] c] & -> & [Hin Hf]%elem_of_List_filter). apply hiter_lookup in Hin.
    simpl in *. unfold named in Hf. zbool. apply bool_decide_eq_true in H. simpl in H. subst n.
    rewrite (Hno _ _ Hin) in *. done.
Qed.

Lemma free_conns_NoDup name h : NoDup (free_conns cfg name h).
Proof. apply NoDup_List_filter, zrange_NoDup. Qed.

(** There are at least as many free slots as the plan asks for. *)
Lemma free_conns_enough name h :
  w32 (conn_per_roomzin_node cfg) - filed_count name h <= zlen (free_conns cfg name h).
Proof.
  unfold free_conns. set (used := map _ _).
  assert (Hu : zlen used <= filed_count name h).
  { rewrite filed_count_keys. unfold used, name_keys, zlen. change (fmap fst) with (map (@fst (string * Z * Z) nat)).
    rewrite filter_map_comm, !length_map. clear used.
    induction (hiter (followers h)) as [|e l IH]; simpl; [lia|].
    destruct (named name (fst (fst e))); simpl; [|lia]. destruct (negb _); simpl; lia. }
  pose proof (zrange_free (w32 (conn_per_roomzin_node cfg)) used ltac:(apply w32_range)). lia.
Qed.

(** *** The plan *)

Lemma required_new_spec fl ids name r :
  required_new cfg fl ids !! name = Some r ->
  name ∈ fl /\ r = w32 (conn_per_roomzin_node cfg) /\ existsb (named name) ids = false.
Proof.
  unfold required_new. enough (forall m : gmap string Z,
    foldl (fun m name => if existsb (named name) ids then m else <[name := w32 (conn_per_roomzin_node cfg)]> m) m fl
      !! name = Some r ->
    m !! name = Some r \/ (name ∈ fl /\ r = w32 (conn_per_roomzin_node cfg) /\ existsb (named name) ids = false)) as Hg.
  { intros Hr. destruct (Hg ∅ Hr) as [Hm|Hm]; [by rewrite lookup_empty in Hm|done]. }
  induction fl as [|n fl IH]; intros m; simpl; [auto|]. intros [Hm|Hm]%IH; [|right; set_solver].
  destruct (existsb (named n) ids) eqn:E; [auto|].
  apply lookup_insert_Some in Hm as [[<- <-]|[_ Hm]]; [right|auto]. split_and!; [set_solver|done|done].
Qed.

Lemma not_named_count name ids : existsb (named name) ids = false -> zlen (List.filter (named name) ids) = 0.
Proof.
  induction ids as [|e ids IH]; simpl; [done|]. by destruct (named name e).
Qed.

Lemma required_more_spec l ids m :
  (forall name, zlen (List.filter (named name) ids) <= conn_per_roomzin_node cfg) ->
  exists m', required_more cfg l ids m = Some m'
  /\ (forall name r, m' !! name = Some r -> m !! name = Some r
        \/ r = w32 (conn_per_roomzin_node cfg - zlen (List.filter (named name) ids))).
Proof.
  intros Hc. revert m. induction l as [|[i x] l IH]; intros m; cbn [required_more]; [eauto|].
  destruct (Z.ltb_spec (conn_per_roomzin_node cfg) (zlen (List.filter (named i) ids))) as [Hlt|_].
  { specialize (Hc i). lia. }
  edestruct IH as (m' & -> & Hm'). exists m'. split; [done|]. intros name r [Hr|Hr]%Hm'; [|by right].
  destruct (0 <? _); [|by left]. apply lookup_insert_Some in Hr as [[<- <-]|[_ Hr]]; [by right|by left].
Qed.

(** The plan does not underflow, and asks for what the node lacks. *)
Lemma required_conns_spec fl h :
  0 <= conn_per_roomzin_node cfg < 2 ^ 32 -> cluster_inv cfg h ->
  exists m, required_conns cfg fl h = Some m
  /\ forall name r, m !! name = Some r -> 0 <= r /\ r = conn_per_roomzin_node cfg - filed_count name h.
Proof.
  intros Hn I. pose proof (fun name => filed_count_bound name h ltac:(lia) I) as Hb.
  unfold required_conns. edestruct (required_more_spec (cur_nodes h) (cur_nodes h)) as (m & -> & Hm); [exact Hb|].
  exists m. split; [done|]. intros name r Hr. specialize (Hb name). fold (filed_count name h) in Hm.
  assert (0 <= filed_count name h) by apply zlen_nonneg.
  destruct (Hm _ _ Hr) as [Hr'|Hr'].
  - apply required_new_spec in Hr' as (_ & -> & Hno). apply not_named_count in Hno.
    fold (filed_count name h) in Hno. rewrite w32_small; lia.
  - fold (filed_count name h) in Hr'. rewrite w32_small in Hr'; lia.
Qed.

End CountLemmas.

(** ** Lemmas: dialing the new connections *)

Section DialLemmas.
Context `{RQ : Reqwest}.
Context (cfg : Config) (tcp : nat -> string -> Result unit io_Error) (env : Env).
Context (Henv : env_ok cfg env).

Abbreviation NewConns := (gmap string (list (option nat))).

(** The new connections of a name are allocated and lead to it. *)
Definition conn_of (st : Store) (name : string) (x : option nat) : Prop :=
  exists c ci, x = Some c /\ conns st !! c = Some ci /\ addr ci = name.

Definition conns_ok (m : NewConns) (st : Store) : Prop :=
  forall name l, m !! name = Some l -> Forall (conn_of st name) l.

Lemma conn_of_le st st' name x : net_le st st' -> conn_of st name x -> conn_of st' name x.
Proof.
  intros L (c & ci & -> & Hc & Ha). destruct (L _ _ Hc) as (ci' & Hc' & Ha' & _). exists c, ci'.
  split_and!; [done|done|congruence].
Qed.

Lemma conns_ok_le m st st' : net_le st st' -> conns_ok m st -> conns_ok m st'.
Proof. intros L Hm name l Hl. eapply Forall_impl; [by apply Hm|]. intros x. by apply conn_of_le. Qed.

Definition new_count (m : NewConns) (name : string) : Z := zlen (default [] (m !! name)).

Lemma push_conn_count host c m name :
  new_count (push_conn host c m) name = new_count m name + (if bool_decide (host = name) then 1 else 0).
Proof.
  unfold new_count, push_conn. case_bool_decide as Hn.
  - subst. rewrite lookup_insert_eq. simpl. rewrite zlen_app. done.
  - rewrite lookup_insert_ne by done. lia.
Qed.

Lemma push_conn_ok host c ci m st :
  conns_ok m st -> conns st !! c = Some ci -> addr ci = host -> conns_ok (push_conn host c m) st.
Proof.
  intros Hm Hc Ha name l Hl. unfold push_conn in Hl. apply lookup_insert_Some in Hl as [[<- <-]|[_ Hl]]; [|by apply Hm].
  apply Forall_app. split.
  - destruct (m !! host) eqn:E; simpl; [by apply Hm|constructor].
  - constructor; [|constructor]. exists c, ci. done.
Qed.

(** [n] attempts add at most [n] connections, and [n] if all succeed. *)
Lemma dial_n_spec n host m h :
  cluster_inv cfg h -> conns_ok m (net h) ->
  let '(m', h') := dial_n cfg tcp env n host m h in
  rely cfg h h' /\ cluster_inv cfg h' /\ conns_ok m' (net h')
  /\ (forall name, name <> host -> m' !! name = m !! name)
  /\ new_count m' host <= new_count m host + Z.of_nat n
  /\ ((forall k, is_ok (tcp k host) = true) -> new_count m' host = new_count m host + Z.of_nat n).
Proof.
  revert m h. induction n as [|n IH]; intros m h I Hm; cbn [dial_n].
  { split_and!; eauto with rz; lia. }
  pose proof (dial_spec cfg tcp env Henv host h I) as Hd.
  pose proof (dial_inv cfg tcp env Henv host h I) as I1.
  destruct (dial cfg tcp env host h) as [[c|e] h1]; simpl in I1; destruct Hd as [R Hd].
  - destruct Hd as (ci & Hc & Ha & _).
    assert (Hm1 : conns_ok (push_conn host c m) (net h1)).
    { eapply push_conn_ok; [|done|done]. eapply conns_ok_le; [apply R|done]. }
    specialize (IH _ h1 I1 Hm1). destruct (dial_n _ _ _ n host _ h1) as [m' h'].
    destruct IH as (R' & I' & Hm' & Hne & Hle & Heq). pose proof (push_conn_count host c m host) as Hp.
    rewrite bool_decide_true in Hp by done. split_and!; try done; try lia.
    + by eapply rely_trans.
    + intros name Hn. rewrite Hne by done. unfold push_conn. by rewrite lookup_insert_ne.
    + intros Hok. specialize (Heq Hok). lia.
  - assert (Hm1 : conns_ok m (net h1)) by (eapply conns_ok_le; [apply R|done]).
    specialize (IH _ h1 I1 Hm1). destruct (dial_n _ _ _ n host _ h1) as [m' h'].
    destruct IH as (R' & I' & Hm' & Hne & Hle & Heq). split_and!; try done; try lia.
    + by eapply rely_trans.
    + intros Hok. destruct Hd as [e' He']. specialize (Hok (awaits h)). by rewrite He' in Hok.
Qed.

Lemma new_count_same m m' name : m' !! name = m !! name -> new_count m' name = new_count m name.
Proof. unfold new_count. by intros ->. Qed.

Lemma dial_n_other n host m h name : host <> name -> fst (dial_n cfg tcp env n host m h) !! name = m !! name.
Proof.
  intros Hne. revert m h. induction n as [|n IH]; intros m h; [done|]. cbn [dial_n].
  destruct (dial _ _ _ _ _) as [[c|e] h1]; rewrite IH; [|done]. unfold push_conn. by rewrite lookup_insert_ne.
Qed.

(** Each name gets at most as many connections as required. *)
Lemma dial_all_spec l m h :
  cluster_inv cfg h -> conns_ok m (net h) -> NoDup l.*1 -> Forall (fun e => 0 <= snd e) l ->
  let '(m', h') := dial_all cfg tcp env l m h in
  rely cfg h h' /\ cluster_inv cfg h' /\ conns_ok m' (net h')
  /\ (forall name, name ∉ l.*1 -> m' !! name = m !! name)
  /\ (forall name r, (name, r) ∈ l -> new_count m' name <= new_count m name + r)
  /\ (forall name r, (name, r) ∈ l -> (forall k, is_ok (tcp k name) = true) ->
       new_count m' name = new_count m name + r).
Proof.
  revert m h. induction l as [|[host n] l IH]; intros m h I Hm Hnd Hr; cbn [dial_all].
  { split_and!; eauto with rz; by intros; set_solver. }
  apply NoDup_cons in Hnd as [Hh Hnd]. apply Forall_cons in Hr as [Hn Hr]. simpl in Hh, Hn.
  pose proof (dial_n_spec (Z.to_nat n) host m h I Hm) as Hd.
  destruct (dial_n cfg tcp env (Z.to_nat n) host m h) as [m1 h1].
  destruct Hd as (R & I1 & Hm1 & Hne & Hle & Heq). rewrite Z2Nat.id in * by done.
  specialize (IH m1 h1 I1 Hm1 Hnd Hr). destruct (dial_all _ _ _ l m1 h1) as [m' h'].
  destruct IH as (R' & I' & Hm' & Hout & Hle' & Heq').
  pose proof (new_count_same _ _ _ (Hout host Hh)) as Hsame.
  split; [by eapply rely_trans|]. split; [done|]. split; [done|]. split_and!.
  - intros name Hnm. apply not_elem_of_cons in Hnm as [Hn1 Hn2]. rewrite Hout by done. by apply Hne.
  - intros name r [[= -> ->]|Hin]%elem_of_cons; [lia|].
    assert (name <> host) by (intros ->; apply Hh, list_elem_of_fmap; by exists (host, r)).
    rewrite <- (new_count_same m m1) by auto. auto.
  - intros name r [[= -> ->]|Hin]%elem_of_cons Hok; [rewrite Hsame; auto|].
    assert (name <> host) by (intros ->; apply Hh, list_elem_of_fmap; by exists (host, r)).
    rewrite <- (new_count_same m m1) by auto. auto.
Qed.

(** A host that refuses gets no connection. *)
Lemma dial_n_refused n host m h :
  (forall k, is_ok (tcp k host) = false) -> fst (dial_n cfg tcp env n host m h) = m.
Proof.
  intros Hno. revert m h. induction n as [|n IH]; intros m h; [done|]. cbn [dial_n].
  unfold dial, connect. specialize (Hno (awaits h)). destruct (tcp (awaits h) host); [done|]. apply IH.
Qed.

Lemma dial_all_refused l name m h :
  (forall k, is_ok (tcp k name) = false) -> fst (dial_all cfg tcp env l m h) !! name = m !! name.
Proof.
  intros Hno. revert m h. induction l as [|[host n] l IH]; intros m h; [done|]. cbn [dial_all].
  pose proof (dial_n_other (Z.to_nat n) host m h name) as Hd.
  destruct (decide (host = name)) as [->|Hne].
  - pose proof (dial_n_refused (Z.to_nat n) name m h Hno) as Hr.
    destruct (dial_n _ _ _ _ _ m h) as [m1 h1]. simpl in Hr. subst m1. apply IH.
  - destruct (dial_n _ _ _ _ _ m h) as [m1 h1]. simpl in Hd. rewrite IH. by apply Hd.
Qed.

End DialLemmas.

(** ** Lemmas: filing the new connections *)

Section FileLemmas.
Context {HF : HashIter (string * Z * Z) nat} {HH : HashIter (string * Z) Z}.
Context (cfg : Config).

(** A name is filed under one index only: [nidx]. *)
Definition index_ok (name : string) (nidx : Z) (h : HandlerInner) : Prop :=
  0 <= nidx < 2 ^ 32 /\ forall i, is_Some (follower_history (load_balancer h) !! (name, i)) -> i = nidx.

Lemma or_insert_lookup key v lb k :
  is_Some (follower_history (or_insert key v lb) !! k) <-> k = key \/ is_Some (follower_history lb !! k).
Proof.
  unfold or_insert. destruct (follower_history lb !! key) as [w|] eqn:E; simpl.
  - split; [auto|]. intros [->|]; [eauto|done].
  - rewrite lookup_insert_is_Some. destruct (decide (k = key)) as [->|Hne]; [naive_solver|].
    split; [intros [<-|[_ ?]]; auto|]. intros [->|?]; [done|]. right. done.
Qed.

Lemma file_conn_grows name nidx j c h :
  (forall d, followers h !! (name, nidx, j) = Some d -> is_closed d (net h) = true) ->
  grows h (file_conn name nidx j c h).
Proof.
  intros Hfree. split; try done.
  - apply net_le_refl.
  - intros key d Hd _ Ho. simpl. destruct (decide (key = (name, nidx, j))) as [->|Hne].
    + apply Hfree in Hd. unfold file_conn in Ho. simpl in Ho. congruence.
    + by rewrite lookup_insert_ne.
  - intros k Hk. apply elem_of_dom. apply or_insert_lookup. right. by apply elem_of_dom.
Qed.

Lemma file_conn_inv name nidx j c ci h :
  cluster_inv cfg h -> index_ok name nidx h -> 0 <= j < conn_per_roomzin_node cfg ->
  conn_per_roomzin_node cfg < 2 ^ 32 -> conns (net h) !! c = Some ci -> addr ci = name ->
  cluster_inv cfg (file_conn name nidx j c h).
Proof.
  intros [IL IS IA IK II IN IW] [Hr Hi] Hj H32 Hc Ha. split; try done.
  - intros n i k d Hd. simpl in Hd |- *.
    apply lookup_insert_Some in Hd as [[[= <- <- <-] <-]|[_ Hd]].
    + split; [done|]. split; [apply or_insert_lookup; auto|]. eauto.
    + apply IK in Hd as (? & ? & ?). split; [done|]. split; [apply or_insert_lookup; auto|]. done.
  - intros n i [[= -> ->]|Hn]%or_insert_lookup; [done|]. by eapply II.
  - intros n i k Hn Hn'. apply or_insert_lookup in Hn, Hn'.
    destruct Hn as [Hn|Hn], Hn' as [Hn'|Hn']; simplify_eq; [done|symmetry; auto|auto|by eapply IN].
  - simpl. unfold or_insert. destruct (follower_history (load_balancer h) !! (name, nidx)); [done|].
    destruct IW as (? & ? & ?). split_and!; try done; simpl; try lia. apply map_Forall_insert_2; [lia|done].
Qed.

Lemma file_conn_index name nidx j c h : index_ok name nidx h -> index_ok name nidx (file_conn name nidx j c h).
Proof.
  intros [Hr Hi]. split; [done|]. intros i [[= ->]|Hn]%or_insert_lookup; [done|auto].
Qed.

(** *** The loop over the connections of one node

    [filing] is its invariant: before the [i]th connection, [l] being left. *)
Record filing (name : string) (nidx : Z) (free : list Z) (i : nat) (l : list (option nat)) (h : HandlerInner) : Prop := {
  filing_inv : cluster_inv cfg h;
  filing_index : index_ok name nidx h;
  filing_conns : Forall (conn_of (net h) name) l;
  filing_free : forall k j, free !! k = Some j -> (i <= k)%nat -> 0 <= j < conn_per_roomzin_node cfg
    /\ forall d, followers h !! (name, nidx, j) = Some d -> is_closed d (net h) = true;
  filing_length : (i + length l <= length free)%nat
}.

(** Only [name] was filed. *)
Record files (name : string) (h h' : HandlerInner) : Prop := {
  files_grows : grows h h';
  files_followers : forall key, fst (fst key) <> name -> followers h' !! key = followers h !! key;
  files_history : forall n k, n <> name ->
    follower_history (load_balancer h') !! (n, k) = follower_history (load_balancer h) !! (n, k)
}.

Lemma files_refl name h : files name h h.
Proof. split; eauto with rz. Qed.

Lemma files_trans name a b c : files name a b -> files name b c -> files name a c.
Proof.
  intros [G1 F1 H1] [G2 F2 H2]. split; [by eapply grows_trans|..].
  - intros key Hk. rewrite F2; auto.
  - intros n k Hn. rewrite H2; auto.
Qed.

Lemma held_files name h h' : held_rely cfg h h' -> files name h h'.
Proof. intros [R F H]. split; [by eapply rely_grows|by rewrite F|by rewrite H]. Qed.

(** The invariant survives a suspension. *)
Lemma filing_held name nidx free i l h h' :
  held_rely cfg h h' -> filing name nidx free i l h -> filing name nidx free i l h'.
Proof.
  intros R [I [X1 X2] C F L]. pose proof R as [[_ _ _ [N _ _ _ _ _]] Ff Fh]. split; [by eapply held_inv| | | |done].
  - split; [done|]. by rewrite Fh.
  - eapply Forall_impl; [exact C|]. intros x. by apply conn_of_le.
  - intros k j Hk Hi. destruct (F k j Hk Hi) as [Hj Hc]. split; [done|]. rewrite Ff. intros d Hd.
    apply (inv_key _ _ I) in Hd as Ha. destruct Ha as (_ & _ & ci & Hci & _). apply Hc in Hd.
    destruct (is_closed d (net h')) eqn:E; [done|]. exfalso.
    rewrite (net_le_open _ _ d N) in Hd; [done|by eexists|done].
Qed.

(** One connection. *)
Lemma filing_step name nidx free i x l h :
  conn_per_roomzin_node cfg < 2 ^ 32 -> NoDup free -> filing name nidx free i (x :: l) h ->
  exists c j, x = Some c /\ free !! i = Some j
  /\ filing name nidx free (S i) l (file_conn name nidx j c h) /\ files name h (file_conn name nidx j c h).
Proof.
  intros H32 Hnd [I Hix Hl Hfree Hlen]. apply Forall_cons in Hl as [(c & ci & -> & Hc & Ha) Hl]. simpl in Hlen.
  destruct (lookup_lt_is_Some_2 free i) as [j Hj]; [lia|]. exists c, j. split; [done|]. split; [done|].
  destruct (Hfree i j Hj ltac:(lia)) as [Hjr Hjc]. split; split.
  - by eapply file_conn_inv.
  - by apply file_conn_index.
  - done.
  - intros k j' Hk Hge. destruct (Hfree k j' Hk ltac:(lia)) as [Hr Hcl]. split; [done|]. intros d Hd.
    apply Hcl. simpl in Hd. rewrite lookup_insert_ne in Hd; [done|]. intros [= ->].
    pose proof (NoDup_lookup _ _ _ _ Hnd Hj Hk). lia.
  - lia.
  - by apply file_conn_grows.
  - intros key Hne. simpl. rewrite lookup_insert_ne; [done|]. by intros <-.
  - intros n k Hne. simpl. unfold or_insert.
    destruct (follower_history _ !! (name, nidx)); [done|]. simpl. rewrite lookup_insert_ne; [done|congruence].
Qed.

(** *** Choosing the node index *)

(** The assignments know every index of the history. *)
Record assigned_ok (a : gmap string Z) (h : HandlerInner) : Prop := {
  assigned_history : forall n i, is_Some (follower_history (load_balancer h) !! (n, i)) -> a !! n = Some i;
  assigned_range : forall n i, a !! n = Some i -> 0 <= i < 2 ^ 32
}.

Lemma filed_index_spec name h :
  filed_index name h <> 0 -> exists j c, followers h !! (name, filed_index name h, j) = Some c.
Proof.
  unfold filed_index. destruct (List.find _ _) as [[[[n i] j] c]|] eqn:E; [|done]. intros _.
  apply find_Some_elem in E as [Hin Hn]. apply hiter_lookup in Hin. simpl in Hn. unfold named in Hn.
  apply bool_decide_eq_true in Hn. simpl in Hn. subst n. eauto.
Qed.

Lemma elem_of_removelast {A} (l : list A) x : x ∈ removelast l -> x ∈ l.
Proof.
  induction l as [|y l IH]; simpl; [done|]. destruct l; [by intros ?%not_elem_of_nil|].
  rewrite !(elem_of_cons _ x y). naive_solver.
Qed.

Lemma assign_node_spec name free a h :
  cluster_inv cfg h -> assigned_ok a h -> Forall (fun i => 0 <= i < 2 ^ 32) free ->
  let '(n, free', a') := assign_node name free a h in
  assigned_ok a' h /\ Forall (fun i => 0 <= i < 2 ^ 32) free'
  /\ match n with Some nidx => a' !! name = Some nidx | None => True end.
Proof.
  intros I [Hh Hr] Hf. unfold assign_node. destruct (Z.eqb_spec (filed_index name h) 0) as [_|Hne].
  - destruct (a !! name) as [i|] eqn:Ea; [done|]. destruct (last free) as [i|] eqn:El; [|done].
    assert (Hi : 0 <= i < 2 ^ 32).
    { apply (proj1 (Forall_forall _ _) Hf). by apply last_Some_elem_of. }
    split_and!; [split| |by rewrite lookup_insert_eq].
    + intros n k Hk. apply Hh in Hk. rewrite lookup_insert_ne; [done|congruence].
    + intros n k Hk. apply lookup_insert_Some in Hk as [[_ <-]|[_ Hk]]; [done|by eapply Hr].
    + apply Forall_forall. intros x Hx%elem_of_removelast. by apply (proj1 (Forall_forall _ _) Hf).
  - split_and!; [done|done|]. destruct (filed_index_spec _ _ Hne) as (j & c & Hc).
    apply Hh. by apply (inv_key _ _ I) in Hc as (_ & ? & _).
Qed.

Lemma assigned_ok_index a h name nidx : assigned_ok a h -> a !! name = Some nidx -> index_ok name nidx h.
Proof. intros [Hh Hr] Ha. split; [by eapply Hr|]. intros i Hi%Hh. congruence. Qed.

(** *** The loop over the nodes

    Its invariant, [l] being left. *)
Record filing_nodes (l : list (string * list (option nat))) (free : list Z) (a : gmap string Z) (h : HandlerInner)
    : Prop := {
  fn_inv : cluster_inv cfg h;
  fn_assigned : assigned_ok a h;
  fn_free : Forall (fun i => 0 <= i < 2 ^ 32) free;
  fn_nodup : NoDup l.*1;
  fn_conns : Forall (fun e => Forall (conn_of (net h) (fst e)) (snd e)
    /\ zlen (snd e) <= conn_per_roomzin_node cfg - filed_count (fst e) h) l
}.

(** A node that gets an index starts the inner loop, and the outer one goes on
    from where that ends. *)
Lemma filing_node name cs l free a h :
  0 <= conn_per_roomzin_node cfg < 2 ^ 32 -> filing_nodes ((name, cs) :: l) free a h ->
  match assign_node name free a h with
  | (None, free', a') => filing_nodes l free' a' h
  | (Some nidx, free', a') =>
      filing name nidx (free_conns cfg name h) 0 cs h
      /\ forall h' i, files name h h' -> filing name nidx (free_conns cfg name h) i [] h' -> filing_nodes l free' a' h'
  end.
Proof.
  intros Hn [I Ha Hf Hnd Hl]. apply Forall_cons in Hl as [[Hcs Hlen] Hl]. apply NoDup_cons in Hnd as [Hni Hnd].
  simpl in Hcs, Hlen, Hni. pose proof (assign_node_spec name free a h I Ha Hf) as Hs.
  destruct (assign_node name free a h) as [[[nidx|] free'] a']; destruct Hs as (Ha' & Hf' & Hx); [|by split].
  pose proof (free_conns_enough cfg name h) as Hen. rewrite w32_small in Hen by lia. split.
  - split; [done|by eapply assigned_ok_index|done| |unfold zlen in *; simpl; lia].
    intros k j Hj _. apply list_elem_of_lookup_2, free_conns_elem in Hj as [Hj Hc].
    rewrite w32_small in Hj by lia. split; [done|]. intros d Hd. by eapply Hc.
  - intros h' i [G Ff Fh] [I' Hix _ _ _]. split; [done| |done|done|].
    + split; [|apply Ha']. intros n k Hk. destruct (decide (n = name)) as [->|Hne].
      * rewrite Hx. f_equal. symmetry. by apply Hix.
      * apply Ha'. by rewrite <- Fh.
    + apply Forall_forall. intros e He. apply (proj1 (Forall_forall _ _) Hl) in He as Hq. destruct Hq as [Hc Hz]. split.
      { eapply Forall_impl; [exact Hc|]. intros x. apply conn_of_le, G. }
      etrans; [exact Hz|].
      enough (filed_count (fst e) h' <= filed_count (fst e) h) by lia. apply filed_count_mono. intros k j.
      rewrite Ff; [done|]. simpl. intros <-. apply Hni, list_elem_of_fmap. by exists e.
Qed.

(** *** What the filing starts from *)

Lemma free_nodes_loop cur acc l :
  NoDup l -> (forall i, i ∈ l -> i ∉ acc) ->
  foldl (fun free i => if negb (mem i cur) && negb (mem i free) then free ++ [i] else free) acc l
  = acc ++ List.filter (fun i => negb (mem i cur)) l.
Proof.
  revert acc. induction l as [|i l IH]; intros acc Hnd Hacc; simpl; [by rewrite app_nil_r|].
  apply NoDup_cons in Hnd as [Hi Hnd].
  rewrite (proj2 (mem_false i acc)) by (apply Hacc; set_solver). rewrite andb_true_r.
  destruct (negb (mem i cur)); rewrite IH; try done; [by rewrite <- app_assoc| |]; set_solver.
Qed.

Lemma free_nodes_eq fl h :
  free_nodes fl h = List.filter (fun i => negb (mem i (map (fun e => snd (fst (fst e))) (hiter (followers h)))))
    (zrange (w32 (zlen fl))).
Proof. unfold free_nodes. rewrite free_nodes_loop; [done|apply zrange_NoDup|by intros i _ ?%not_elem_of_nil]. Qed.

Lemma free_nodes_range fl h : Forall (fun i => 0 <= i < 2 ^ 32) (free_nodes fl h).
Proof.
  rewrite free_nodes_eq. apply Forall_forall. intros i [Hi%zrange_elem _]%elem_of_List_filter.
  pose proof (w32_range (zlen fl)). lia.
Qed.

Definition assign_all (l : list (string * Z * Z)) (m : gmap string Z) : gmap string Z :=
  foldl (fun m e => <[fst (fst e) := snd (fst e)]> m) m l.

Lemma assign_all_Some l m n i :
  assign_all l m !! n = Some i -> m !! n = Some i \/ exists v, ((n, i), v) ∈ l.
Proof.
  revert m. induction l as [|[[n' i'] v'] l IH]; intros m; simpl; [auto|].
  intros [Hm|[v Hv]]%IH; [|right; exists v; set_solver].
  apply lookup_insert_Some in Hm as [[<- <-]|[_ Hm]]; [right; exists v'; set_solver|auto].
Qed.

Lemma assign_all_kept l m n i :
  m !! n = Some i -> (forall i' v, ((n, i'), v) ∈ l -> i' = i) -> assign_all l m !! n = Some i.
Proof.
  revert m. induction l as [|[[n' i'] v'] l IH]; intros m Hm Hl; simpl; [done|]. apply IH; [|set_solver].
  simpl. destruct (decide (n' = n)) as [->|]; [|by rewrite lookup_insert_ne].
  rewrite lookup_insert_eq. f_equal. apply (Hl i' v'). set_solver.
Qed.

Lemma assign_all_elem l m n i v :
  ((n, i), v) ∈ l -> (forall i' v', ((n, i'), v') ∈ l -> i' = i) -> assign_all l m !! n = Some i.
Proof.
  revert m. induction l as [|e l IH]; intros m Hin Hl; [set_solver|]. simpl.
  apply elem_of_cons in Hin as [<-|Hin]; [|apply IH; set_solver].
  apply assign_all_kept; [by rewrite lookup_insert_eq|set_solver].
Qed.

Lemma assigned_nodes_ok h : cluster_inv cfg h -> assigned_ok (assigned_nodes h) h.
Proof.
  intros I. change (assigned_nodes h) with (assign_all (hiter (follower_history (load_balancer h))) ∅). split.
  - intros n i [v Hv]. eapply assign_all_elem; [by apply hiter_lookup|].
    intros i' v' Hv'%hiter_lookup. eapply (inv_name _ _ I); eauto.
  - intros n i [Hm|[v Hv]]%assign_all_Some; [by rewrite lookup_empty in Hm|].
    apply hiter_lookup in Hv. eapply (inv_index _ _ I). eauto.
Qed.

End FileLemmas.

(** ** Lemmas: the loops that file *)

Section FileLoops.
Context {HF : HashIter (string * Z * Z) nat} {HH : HashIter (string * Z) Z}.
Context (cfg : Config) (env : Env) (Henv : env_ok cfg env).
Context (cfg_range : 0 < conn_per_roomzin_node cfg < 2 ^ 32).

(** Every connection of a node finds its slot. *)
Lemma file_conns_spec l i name nidx free h :
  NoDup free -> filing cfg name nidx free i l h ->
  exists h' i', file_conns env i l name nidx free h = Some h' /\ files name h h' /\ filing cfg name nidx free i' [] h'.
Proof.
  intros Hnd. revert i h. induction l as [|x l IH]; intros i h F; cbn [file_conns].
  { exists h, i. split_and!; [done|apply files_refl|done]. }
  pose proof (await_held_rely cfg env Henv h (filing_inv _ _ _ _ _ _ _ F)) as R.
  apply (filing_held _ _ _ _ _ _ _ _ R) in F.
  destruct (filing_step cfg name nidx free i x l _ ltac:(lia) Hnd F) as (c & j & -> & -> & F1 & S1). cbn [mbind option_bind].
  destruct (IH _ _ F1) as (h' & i' & -> & S' & F'). exists h', i'. split_and!; [done| |done].
  eapply files_trans; [by eapply held_files|]. by eapply files_trans.
Qed.

(** Filing the nodes one after the other: every new connection finds a slot. *)
Lemma file_nodes_spec l free a h :
  filing_nodes cfg l free a h ->
  exists h', file_nodes cfg env l free a h = Some h' /\ cluster_inv cfg h' /\ grows h h'.
Proof.
  revert free a h. induction l as [|[name cs] l IH]; intros free a h F; cbn [file_nodes].
  { exists h. split_and!; [done|apply F|apply grows_refl]. }
  apply filing_node in F; [|lia]. destruct (assign_node name free a h) as [[[nidx|] free'] a']; [|by apply IH].
  destruct F as [F Hnext].
  destruct (file_conns_spec cs 0 name nidx _ h (free_conns_NoDup cfg name h) F) as (h1 & i & -> & S1 & F1).
  cbn [mbind option_bind]. destruct (IH _ _ h1 (Hnext _ _ S1 F1)) as (h' & -> & I' & G').
  exists h'. split_and!; [done|done|]. eapply grows_trans; [apply S1|done].
Qed.

End FileLoops.

(** ** The synchronisation as a whole *)

Section SyncLemmas.
Context `{RQ : Reqwest}.
Context {HF : HashIter (string * Z * Z) nat} {HH : HashIter (string * Z) Z}.
Context {HR : HashIter string Z} {HN : HashIter string (list (option nat))}.
Context (cfg : Config) (tcp : nat -> string -> Result unit io_Error) (env : Env).
Context (Henv : env_ok cfg env).
Context (cfg_range : 0 < conn_per_roomzin_node cfg < 2 ^ 32).

(** The outer loop starts well, with what the plan [req] and the attempts made
    of it. *)
Lemma filing_start fl (req : gmap string Z) m h1 h3 h4 :
  cluster_inv cfg h3 -> held_rely cfg h3 h4 -> followers h3 ⊆ followers h1 -> conns_ok m (net h3) ->
  (forall name r, req !! name = Some r -> 0 <= r /\ r = conn_per_roomzin_node cfg - filed_count name h1) ->
  (forall name, name ∉ (hiter req).*1 -> m !! name = None) ->
  (forall name r, (name, r) ∈ hiter req -> new_count m name <= r) ->
  filing_nodes cfg (hiter m) (free_nodes fl h3) (assigned_nodes h4) h4.
Proof.
  intros I3 R Hsub Hm Hreq Hout Hle. pose proof (held_inv cfg _ _ R I3) as I4. pose proof R as [R' Ff _].
  split; [done|by apply assigned_nodes_ok with cfg|apply free_nodes_range|apply hiter_NoDup|].
  apply Forall_forall. intros [n l] Hin%hiter_lookup. simpl. split.
  - apply (conns_ok_le m (net h3)); [apply R'|done|done].
  - assert (Hc : new_count m n = zlen l) by (unfold new_count; by rewrite Hin).
    pose proof (filed_count_sub n h1 h4 ltac:(by rewrite Ff)) as Hs.
    destruct (req !! n) as [r|] eqn:Er.
    + pose proof Er as Er'. apply Hreq in Er' as [_ ->]. apply hiter_lookup in Er. apply Hle in Er. lia.
    + rewrite Hout in Hin; [done|]. intros ([n' r] & -> & Hi)%list_elem_of_fmap.
      apply hiter_lookup in Hi. simpl in Er. congruence.
Qed.

Lemma sync_followers_lemma fl h :
  cluster_inv cfg h ->
  exists h', sync_followers cfg tcp env fl h = Some h' /\ cluster_inv cfg h' /\ grows h h'.
Proof.
  intros I. unfold sync_followers.
  pose proof (await_rely cfg env Henv h I) as R1. pose proof (await_inv cfg env Henv h I) as I1.
  set (h1 := await env h) in *. clearbody h1.
  destruct (required_conns_spec cfg fl h1 ltac:(lia) I1) as (req & -> & Hreq). cbn [mbind option_bind].
  assert (Hrange : Forall (fun e => 0 <= snd e) (hiter req)).
  { apply Forall_forall. intros [n r] Hin%hiter_lookup. by apply Hreq in Hin as [? _]. }
  pose proof (dial_all_spec cfg tcp env Henv (hiter req) ∅ h1 I1) as Hd.
  specialize (Hd ltac:(by intros n l Hl) (hiter_NoDup req) Hrange).
  destruct (dial_all cfg tcp env (hiter req) ∅ h1) as [m h2].
  destruct Hd as (R2 & I2 & Hm & Hout & Hle & _).
  pose proof (await_rely cfg env Henv h2 I2) as R3. pose proof (await_inv cfg env Henv h2 I2) as I3.
  set (h3 := await env h2) in *. clearbody h3.
  assert (R : rely cfg h1 h3) by (by eapply rely_trans).
  pose proof (await_held_rely cfg env Henv h3 I3) as R4. set (h4 := await_held env h3) in *. clearbody h4.
  destruct (file_nodes_spec cfg env Henv cfg_range (hiter m) (free_nodes fl h3) (assigned_nodes h4) h4) as (h' & -> & I' & G).
  - apply (filing_start fl req m h1 h3 h4); try done; [apply R|].
    apply (conns_ok_le m (net h2)); [apply R3|done].
  - exists h'. split_and!; [done|done|]. eapply grows_trans; [|exact G].
    apply (rely_grows cfg). eapply rely_trans; [exact R1|]. eapply rely_trans; [exact R|apply R4].
Qed.

Lemma set_syncing_rely h b : frely cfg h (set_syncing h b).
Proof. split; try done; [apply net_le_refl|by intros key c]. Qed.

Lemma set_syncing_inv h b : cluster_inv cfg h -> cluster_inv cfg (set_syncing h b).
Proof. intros I. eapply frely_inv; [apply set_syncing_rely|exact I|apply I|apply I]. Qed.

(** What a synchronisation guarantees about the connections in use. *)
Record synced (h h' : HandlerInner) : Prop := {
  synced_net : net_le (net h) (net h');
  synced_kept : keeps_open h h';
  synced_dom : dom (follower_history (load_balancer h)) ⊆ dom (follower_history (load_balancer h'))
}.

Lemma synced_trans a b c : synced a b -> synced b c -> synced a c.
Proof.
  intros [N1 K1 D1] [N2 K2 D2]. split; [by eapply net_le_trans|by eapply keeps_open_trans|by etrans].
Qed.

Lemma frely_synced h h' : frely cfg h h' -> synced h h'.
Proof. intros [N A F K D W]. split; [done|done|by rewrite D]. Qed.

Lemma grows_synced h h' : grows h h' -> synced h h'.
Proof. by intros []. Qed.

Lemma sync_with_cluster_lemma discover h :
  cluster_inv cfg h ->
  exists h', sync_with_cluster cfg tcp env discover h = Some h' /\ cluster_inv cfg h' /\ synced h h'
  /\ syncing h' = syncing h
  /\ (syncing h = false -> forall topo, discover (awaits h) = Ok topo -> leader_host h' = Some (leader topo)).
Proof.
  intros I. unfold sync_with_cluster. destruct (syncing h) eqn:Es.
  { exists h. split_and!; try done. apply (frely_synced _ _ (frely_refl cfg h)). }
  set (h0 := set_syncing h true). pose proof (set_syncing_inv h true I) as I0.
  pose proof (await_rely cfg env Henv h0 I0) as R1. pose proof (await_inv cfg env Henv h0 I0) as I1.
  assert (S1 : synced h (await env h0)).
  { eapply synced_trans; eapply frely_synced; [apply set_syncing_rely|apply R1]. }
  set (h1 := await env h0) in *. clearbody h1. change (awaits h0) with (awaits h).
  destruct (discover (awaits h)) as [topo|e] eqn:Ed; cbn [mbind option_bind].
  - destruct (sync_leader_lemma cfg tcp env Henv (leader topo) h1 I1) as (h2 & -> & I2 & Hh2 & _ & F2 & _).
    cbn [mbind option_bind].
    destruct (sync_followers_lemma (topo_followers topo) h2 I2) as (h3 & -> & I3 & G3). cbn [mbind option_bind].
    exists (set_syncing h3 false). split_and!; [done|by apply set_syncing_inv| |done|].
    + eapply synced_trans; [exact S1|]. eapply synced_trans; [eapply frely_synced, F2|].
      eapply synced_trans; [apply grows_synced, G3|eapply frely_synced, set_syncing_rely].
    + intros _ topo' [= <-]. simpl. by rewrite (grows_host _ _ G3).
  - exists (set_syncing h1 false). split_and!; [done|by apply set_syncing_inv| |done|done].
    eapply synced_trans; [exact S1|eapply frely_synced, set_syncing_rely].
Qed.

End SyncLemmas.

(** ** The other tasks meet the rely condition *)

(** A change of the contents of references that keeps their addresses and
    opens nothing. *)
Lemma set_net_rely cfg h st n :
  net_le (net h) st -> (alloc_ok (net h) -> alloc_ok st) -> rely cfg h (set_net h st n).
Proof.
  intros N A. split; try done. split; try done. by intros key c.
Qed.

Lemma on_conn_rely cfg r f h :
  (forall c, addr (f c) = addr c /\ (closed c = true -> closed (f c) = true)) ->
  rely cfg h (set_net h (on_conn r f (net h)) (awaits h)).
Proof.
  intros Hf. apply set_net_rely.
  - intros c ci Hc. simpl. destruct (decide (r = c)) as [->|Hne].
    + exists (f ci). rewrite lookup_alter_eq, Hc. by destruct (Hf ci).
    + exists ci. by rewrite lookup_alter_ne.
  - intros Ha c Hc. apply Ha. simpl in Hc. destruct (decide (r = c)) as [->|Hne].
    + rewrite lookup_alter_eq in Hc. by apply fmap_is_Some in Hc.
    + by rewrite lookup_alter_ne in Hc.
Qed.

Lemma close_rely cfg r h : rely cfg h (set_net h (close r (net h)) (awaits h)).
Proof. by apply on_conn_rely. Qed.

(** A choice of leader meets it, and so does an iteration of the search for a
    follower: [pruned] with unchanged references. *)
Section Guarantee.
Context {HD : HashIter Z (nat * Z)} {HH : HashIter (string * Z) Z} (clock : nat -> Z) (cfg : Config).

Lemma same_conns_net_le st st' : same_conns st st' -> net_le st st'.
Proof.
  intros [Hv _] c ci Hc. specialize (Hv c). rewrite Hc in Hv.
  destruct (conns st' !! c) as [ci'|]; [|done]. exists ci'.
  assert (He : conn_view ci' = conn_view ci) by (by apply (inj Some)).
  pose proof (f_equal addr He). pose proof (f_equal closed He) as Hcl. simpl in *.
  split_and!; [done|done|]. by rewrite Hcl.
Qed.

Lemma same_conns_alloc st st' : same_conns st st' -> alloc_ok st -> alloc_ok st'.
Proof.
  intros [Hv Hn] Ha c Hc. rewrite Hn. apply Ha. specialize (Hv c).
  destruct (conns st' !! c), (conns st !! c); simplify_eq/=; destruct Hc; eauto; done.
Qed.

Lemma follower_turn_rely h res h' :
  0 < conn_per_roomzin_node cfg < 2 ^ 32 -> cluster_inv cfg h ->
  follower_turn clock cfg h = Some (res, h') -> rely cfg h h'.
Proof.
  intros Hcpr I Ht. pose proof (follower_turn_step clock cfg h Hcpr (inv_lb _ _ I)) as Hs. rewrite Ht in Hs.
  destruct Hs as ((L & H & S & C & F & K & D) & Hwf & _). split; [done..|]. split; try done.
  - by apply same_conns_net_le.
  - by apply same_conns_alloc.
  - intros key c Hk _ Ho. apply K; [done|]. by rewrite <- (same_conns_is_closed _ _ _ C).
Qed.

(** An iteration whose index belongs to no node leaves the table and the history
    alone. *)
Lemma follower_turn_targetless h res h' :
  0 < conn_per_roomzin_node cfg < 2 ^ 32 -> cluster_inv cfg h -> node_of h (first_node h) = None ->
  follower_turn clock cfg h = Some (res, h') ->
  followers h' = followers h /\ follower_history (load_balancer h') = follower_history (load_balancer h).
Proof.
  unfold follower_turn. cbv zeta. fold (node_count h). fold (first_node h). fold (node_of h (first_node h)).
  intros _ _ ->. by intros [= _ <-].
Qed.

Lemma next_leader_conn_rely h res h' :
  0 < conn_per_roomzin_node cfg < 2 ^ 32 -> cluster_inv cfg h ->
  next_leader_conn clock cfg h = Some (res, h') -> rely cfg h h'.
Proof.
  intros Hcpr I Hn. pose proof (inv_lb _ _ I) as Hwf.
  pose proof (leader_step clock cfg h ltac:(lia) Hwf) as Hs. rewrite Hn in Hs. destruct Hs as ((L & H & F & S & C) & Hf & Hwf').
  split; try done. split; try done; simpl.
  - by apply same_conns_net_le.
  - by apply same_conns_alloc.
  - by rewrite F.
  - intros key c Hk _ _. simpl. by rewrite F.
  - by rewrite Hf.
Qed.

End Guarantee.
