(* ===== verification/ClusterProps.v ===== *)
(** * Properties of the synchronisation with the cluster

    The reachable states of the handler, what the first synchronisation
    establishes, what a leader change leaves alone, and the states in which a
    connected follower is never used. *)

From S2P Require Import Prelude RustStd Error Config Demux Connection LoadBalancer Topology ClusterSync.
Local Open Scope Z_scope.

(** ** The handler as a transition system

    A timer tick of [sync_task], an iteration of a read's search for a follower,
    a write choosing its leader connection, and a change of a connection by its own tasks. *)
Section Steps.
Context `{RQ : Reqwest}.
Context {HF : HashIter (string * Z * Z) nat} {HH : HashIter (string * Z) Z}.
Context {HR : HashIter string Z} {HN : HashIter string (list (option nat))} {HD : HashIter Z (nat * Z)}.
Context (cfg : Config) (tcp : nat -> string -> Result unit io_Error) (env : Env).
Context (discover : nat -> Result ClusterTopology RZError) (clock : nat -> Z).

Inductive hstep : HandlerInner -> HandlerInner -> Prop :=
| step_tick t h h' : sync_tick cfg tcp env discover t h = Some h' -> hstep h h'
| step_read h res h' : follower_turn clock cfg h = Some (res, h') -> hstep h h'
| step_write h res h' : next_leader_conn clock cfg h = Some (res, h') -> hstep h h'
| step_conn r f h :
    (forall c, addr (f c) = addr c /\ (closed c = true -> closed (f c) = true)) ->
    hstep h (set_net h (on_conn r f (net h)) (awaits h)).

Context (Henv : env_ok cfg env).
Context (cfg_range : 0 < conn_per_roomzin_node cfg < 2 ^ 32).

Lemma handler_new_inv : cluster_inv cfg (handler_new cfg).
Proof.
  split; simpl.
  - unfold zlen. rewrite length_replicate. lia.
  - by intros i c [? _]%lookup_replicate.
  - intros c [ci Hc]. done.
  - by intros n i j c Hc.
  - by intros n i [v Hv].
  - by intros n i j [v Hv].
  - split; [simpl; lia|]. split; [simpl; lia|]. apply map_Forall_empty.
Qed.

Lemma sync_tick_lemma t h :
  cluster_inv cfg h -> exists h', sync_tick cfg tcp env discover t h = Some h' /\ cluster_inv cfg h'.
Proof.
  assert (Hs : forall g, cluster_inv cfg g ->
    exists h', sync_with_cluster cfg tcp env discover g = Some h' /\ cluster_inv cfg h').
  { intros g I. pose proof (sync_with_cluster_lemma cfg tcp env Henv cfg_range discover g I) as (h' & Hs & I' & _). eauto. }
  intros I. assert (I2 : cluster_inv cfg (await env (await env h))) by by do 2 apply (await_inv cfg env Henv).
  unfold sync_tick. destruct t; [destruct (_ || _)|]; eauto.
Qed.

Lemma hstep_inv h h' : hstep h h' -> cluster_inv cfg h -> cluster_inv cfg h'.
Proof.
  intros [t g g' Hs|g res g' Hs|g res g' Hs|r f g Hf] I.
  - destruct (sync_tick_lemma t g I) as (g2 & Hs' & I'). congruence.
  - eapply rely_inv; [by eapply follower_turn_rely|done].
  - eapply rely_inv; [by eapply next_leader_conn_rely|done].
  - eapply rely_inv; [by apply on_conn_rely|done].
Qed.

Lemma reachable_inv h : rtc hstep (handler_new cfg) h -> cluster_inv cfg h.
Proof.
  intros Hr. eapply (rtc_ind_r (cluster_inv cfg)); [apply handler_new_inv| |exact Hr].
  intros g g' _ Hs I. by eapply hstep_inv.
Qed.

End Steps.

(** ** Lemmas: a synchronisation on its own

    With nothing else running, what was in the store stays there. *)
Definition quiet (_ : bool) (_ : nat) (h : HandlerInner) : HandlerInner := h.

Lemma quiet_ok cfg : env_ok cfg quiet.
Proof. split; try done. intros b k h _. apply rely_refl. Qed.

Section Quiet.
Context `{RQ : Reqwest}.
Context (cfg : Config) (tcp : nat -> string -> Result unit io_Error).

(** The store only gained connections, with nothing registered on them. *)
Record extends (st st' : Store) : Prop := {
  ext_conns : conns st ⊆ conns st';
  ext_new : forall c ci, conns st' !! c = Some ci ->
    conns st !! c = Some ci \/ ((next_conn st <= c)%nat /\ demux ci = ∅);
  ext_shots : shots st' = shots st;
  ext_next_shot : next_shot st' = next_shot st;
  ext_next : (next_conn st <= next_conn st')%nat
}.

Definition in_tables (c : nat) (h : HandlerInner) : Prop :=
  (exists i, leader_conns h !! i = Some (Some c)) \/ exists key, followers h !! key = Some c.

(** ... and the tables only gained new ones. *)
Record sync_effect (h h' : HandlerInner) : Prop := {
  eff_net : extends (net h) (net h');
  eff_alloc : alloc_ok (net h) -> alloc_ok (net h');
  eff_tables : forall c, in_tables c h' -> in_tables c h \/ (next_conn (net h) <= c)%nat
}.

Lemma extends_refl st : extends st st.
Proof. by split; auto. Qed.

Lemma extends_trans a b c : extends a b -> extends b c -> extends a c.
Proof.
  intros [C1 F1 S1 N1 X1] [C2 F2 S2 N2 X2]. split; [by etrans| |congruence|congruence|lia].
  intros r ci [Hr|[Hr Hd]]%F2; [by apply F1|right; split; [lia|done]].
Qed.

Lemma sync_effect_refl h : sync_effect h h.
Proof. split; [apply extends_refl|done|auto]. Qed.

Lemma sync_effect_trans a b c : sync_effect a b -> sync_effect b c -> sync_effect a c.
Proof.
  intros [E1 A1 T1] [E2 A2 T2]. split; [by eapply extends_trans|auto|].
  intros r [Hr|Hr]%T2; [by apply T1|]. right. pose proof (ext_next _ _ E1). lia.
Qed.

(** A change of the tables that adds nothing old. *)
Lemma tables_effect h h' :
  net h' = net h -> (forall c, in_tables c h' -> in_tables c h \/ (next_conn (net h) <= c)%nat) -> sync_effect h h'.
Proof. intros Hn Ht. split; [rewrite Hn; apply extends_refl|by rewrite Hn|done]. Qed.

(** Nothing old comes into the tables, seen from [n]. *)
Definition newer (n : nat) (x : option nat) : Prop := match x with Some c => (n <= c)%nat | None => True end.

Lemma dial_effect host h :
  alloc_ok (net h) -> let '(res, h') := dial cfg tcp quiet host h in
  sync_effect h h' /\ leader_conns h' = leader_conns h /\ followers h' = followers h
  /\ match res with Ok c => (next_conn (net h) <= c)%nat | Err _ => True end.
Proof.
  intros Ha. unfold dial, connect, await, quiet. destruct (tcp (awaits h) host).
  - split_and!; [|done|done|simpl; lia]. split; simpl.
    + split; simpl; [|intros c ci [[<- <-]|[_ Hc]]%lookup_insert_Some; [right; split; [lia|done]|auto]|done|done|lia].
      apply insert_subseteq. destruct (conns (net h) !! next_conn (net h)) eqn:E; [|done].
      specialize (Ha _ (mk_is_Some _ _ E)). lia.
    + intros _ c. simpl. rewrite lookup_insert_is_Some. intros [<-|[_ Hc]]; [lia|]. specialize (Ha _ Hc). lia.
    + auto.
  - split_and!; try done. by apply tables_effect; auto.
Qed.

Lemma fill_slots_effect n slots host h h' :
  alloc_ok (net h) -> (n <= next_conn (net h))%nat -> fill_slots cfg tcp quiet slots host h = Some h' ->
  sync_effect h h'.
Proof.
  revert h. induction slots as [|i r IH]; intros h Ha Hn; cbn [fill_slots]; [intros [= <-]; apply sync_effect_refl|].
  pose proof (dial_effect host h Ha) as Hd.
  destruct (dial cfg tcp quiet host h) as [[c|e] h1]; destruct Hd as (E & Hl & Hf & Hc).
  - destruct (leader_conns (await quiet h1) !! i); simpl; [|done]. intros Hfill.
    set (h2 := set_leader_host _ _) in Hfill.
    assert (E2 : sync_effect h h2).
    { destruct E as [X A T]. split; [exact X|exact A|]. intros d [[k Hk]|[key Hk]]; [|apply T; by right; exists key].
      simpl in Hk. apply list_lookup_insert_Some in Hk as [(_ & [= <-] & _)|[_ Hk]]; [by right|].
      apply T. left. by exists k. }
    eapply sync_effect_trans; [exact E2|]. apply IH in Hfill; [done|by apply E2|]. pose proof (ext_next _ _ (eff_net _ _ E2)). lia.
  - intros Hfill. eapply sync_effect_trans; [exact E|]. apply IH in Hfill; [done|by apply E|].
    pose proof (ext_next _ _ (eff_net _ _ E)). lia.
Qed.

Lemma sync_leader_effect host h h' :
  alloc_ok (net h) -> sync_leader cfg tcp quiet host h = Some h' -> sync_effect h h'.
Proof.
  intros Ha. unfold sync_leader. set (h1 := if leader_changed host h then _ else h).
  assert (E : sync_effect h (await quiet h1)).
  { apply tables_effect; [by subst h1; destruct (leader_changed host h)|].
    intros c [[i Hi]|[key Hk]]; subst h1; destruct (leader_changed host h); simpl in *.
    - apply list_lookup_fmap_Some in Hi as (? & [=] & _).
    - left. left. eauto.
    - left. right. eauto.
    - left. right. eauto. }
  intros Hf. eapply sync_effect_trans; [exact E|]. eapply (fill_slots_effect 0); [|lia|exact Hf]. by apply E.
Qed.

Definition all_newer (n : nat) (m : gmap string (list (option nat))) : Prop :=
  forall name l, m !! name = Some l -> Forall (newer n) l.

Lemma dial_n_effect n k host m h :
  alloc_ok (net h) -> (n <= next_conn (net h))%nat -> all_newer n m ->
  let '(m', h') := dial_n cfg tcp quiet k host m h in
  sync_effect h h' /\ all_newer n m' /\ leader_conns h' = leader_conns h /\ followers h' = followers h.
Proof.
  revert m h. induction k as [|k IH]; intros m h Ha Hn Hm; cbn [dial_n]; [by split; [apply sync_effect_refl|]|].
  pose proof (dial_effect host h Ha) as Hd.
  destruct (dial cfg tcp quiet host h) as [[c|e] h1]; destruct Hd as (E & Hl & Hf & Hc).
  - assert (Hm1 : all_newer n (push_conn host c m)).
    { intros name l Hl'. unfold push_conn in Hl'. apply lookup_insert_Some in Hl' as [[<- <-]|[_ Hl']]; [|by eapply Hm].
      apply Forall_app. split; [destruct (m !! host) eqn:Em; simpl; [by eapply Hm|constructor]|].
      constructor; [simpl; lia|constructor]. }
    pose proof (ext_next _ _ (eff_net _ _ E)) as Hx.
    specialize (IH (push_conn host c m) h1 (eff_alloc _ _ E Ha) ltac:(lia) Hm1).
    destruct (dial_n _ _ _ k host _ h1) as [m' h']. destruct IH as (E' & Hm' & Hl' & Hf').
    split_and!; [by eapply sync_effect_trans|done|congruence|congruence].
  - pose proof (ext_next _ _ (eff_net _ _ E)) as Hx.
    specialize (IH m h1 (eff_alloc _ _ E Ha) ltac:(lia) Hm).
    destruct (dial_n _ _ _ k host _ h1) as [m' h']. destruct IH as (E' & Hm' & Hl' & Hf').
    split_and!; [by eapply sync_effect_trans|done|congruence|congruence].
Qed.

Lemma dial_all_effect n l m h :
  alloc_ok (net h) -> (n <= next_conn (net h))%nat -> all_newer n m ->
  let '(m', h') := dial_all cfg tcp quiet l m h in sync_effect h h' /\ all_newer n m'.
Proof.
  revert m h. induction l as [|[host k] l IH]; intros m h Ha Hn Hm; cbn [dial_all]; [by split; [apply sync_effect_refl|]|].
  pose proof (dial_n_effect n (Z.to_nat k) host m h Ha Hn Hm) as Hd.
  destruct (dial_n _ _ _ _ host m h) as [m1 h1]. destruct Hd as (E & Hm1 & _ & _).
  pose proof (ext_next _ _ (eff_net _ _ E)) as Hx.
  specialize (IH m1 h1 (eff_alloc _ _ E Ha) ltac:(lia) Hm1). destruct (dial_all _ _ _ l m1 h1) as [m' h'].
  destruct IH as [E' Hm']. split; [by eapply sync_effect_trans|done].
Qed.

Lemma file_conns_tables n i l name nidx free h h' :
  Forall (newer n) l -> file_conns quiet i l name nidx free h = Some h' ->
  net h' = net h /\ forall c, in_tables c h' -> in_tables c h \/ (n <= c)%nat.
Proof.
  intros Hl. revert i h. induction Hl as [|[c|] l Hc Hl IH]; intros i h; cbn [file_conns]; [intros [= <-]; auto| |apply IH].
  destruct (free !! i) as [j|]; [|done]. cbn [mbind option_bind]. intros [Hn Ht]%IH. split; [done|].
  intros d [[Hd|[key Hd]]|Hd]%Ht; [left; by left| |by right].
  simpl in Hd. apply lookup_insert_Some in Hd as [[_ <-]|[_ Hd]]; [by right|]. left. right. eauto.
Qed.

End Quiet.

Section QuietSync.
Context `{RQ : Reqwest}.
Context {HF : HashIter (string * Z * Z) nat} {HH : HashIter (string * Z) Z}.
Context {HR : HashIter string Z} {HN : HashIter string (list (option nat))}.
Context (cfg : Config) (tcp : nat -> string -> Result unit io_Error).

Lemma file_nodes_tables n l free a h h' :
  Forall (fun e => Forall (newer n) (snd e)) l -> file_nodes cfg quiet l free a h = Some h' ->
  net h' = net h /\ forall c, in_tables c h' -> in_tables c h \/ (n <= c)%nat.
Proof.
  intros Hl. revert free a h. induction Hl as [|[name cs] l Hc Hl IH]; intros free a h; cbn [file_nodes]; [intros [= <-]; auto|].
  destruct (assign_node name free a h) as [[[nidx|] free'] a']; [|apply IH].
  destruct (file_conns _ _ _ _ _ _ h) as [h1|] eqn:Ef; [|done]. cbn [mbind option_bind].
  apply (file_conns_tables n) in Ef as [Hn Ht]; [|done]. intros [Hn' Ht']%IH. split; [congruence|].
  intros c [Hc'|Hc']%Ht'; auto.
Qed.

Lemma sync_followers_effect fl h h' :
  alloc_ok (net h) -> sync_followers cfg tcp quiet fl h = Some h' -> sync_effect h h'.
Proof.
  intros Ha. unfold sync_followers. destruct (required_conns _ _ _) as [req|]; [|done]. cbn [mbind option_bind].
  set (h1 := await quiet h). pose proof (dial_all_effect cfg tcp (next_conn (net h)) (hiter req) ∅ h1 Ha) as Hd.
  specialize (Hd ltac:(done) ltac:(by intros n l Hl)).
  destruct (dial_all _ _ _ _ ∅ h1) as [m h2]. destruct Hd as [E Hm]. set (h3 := await quiet h2).
  intros Hf. apply (file_nodes_tables (next_conn (net h))) in Hf as [Hn Ht].
  2:{ apply Forall_forall. intros [name l] Hin%hiter_lookup. by eapply Hm. }
  destruct E as [X A T]. split; [by rewrite Hn|by rewrite Hn|].
  intros c [Hc|Hc]%Ht; [|by right]. by apply T.
Qed.

Lemma sync_tick_effect discover t h h' :
  alloc_ok (net h) -> sync_tick cfg tcp quiet discover t h = Some h' -> sync_effect h h'.
Proof.
  assert (Hs : forall h g, alloc_ok (net h) -> sync_with_cluster cfg tcp quiet discover h = Some g -> sync_effect h g).
  { clear. intros h g Ha. unfold sync_with_cluster. destruct (syncing h); [intros [= <-]; apply sync_effect_refl|].
    set (h1 := await quiet _). assert (E1 : sync_effect h h1) by (apply tables_effect; auto).
    destruct (discover _) as [topo|e]; cbn [mbind option_bind].
    - destruct (sync_leader _ _ _ _ h1) as [h2|] eqn:E2; [|done]. cbn [mbind option_bind].
      apply sync_leader_effect in E2; [|by apply E1].
      destruct (sync_followers _ _ _ _ h2) as [h3|] eqn:E3; [|done]. cbn [mbind option_bind].
      apply sync_followers_effect in E3; [|apply E2; by apply E1]. intros [= <-].
      eapply sync_effect_trans; [exact E1|]. eapply sync_effect_trans; [exact E2|].
      eapply sync_effect_trans; [exact E3|]. apply tables_effect; auto.
    - intros [= <-]. eapply sync_effect_trans; [exact E1|]. apply tables_effect; auto. }
  intros Ha. assert (E2 : sync_effect h (await quiet (await quiet h))) by (apply tables_effect; auto).
  unfold sync_tick. destruct t; [|by apply Hs]. destruct (_ || _); [|by intros [= <-]].
  intros Hg. eapply sync_effect_trans; [exact E2|]. by apply Hs.
Qed.

End QuietSync.


(** ** Lemmas: the first synchronisation *)

Section Fresh.
Context {HF : HashIter (string * Z * Z) nat} {HH : HashIter (string * Z) Z}.
Context (cfg : Config) (env : Env) (Henv : env_ok cfg env).

Lemma await_held_followers h : followers (await_held env h) = followers h.
Proof. apply (env_followers _ _ Henv). Qed.

Lemma await_held_history h : follower_history (load_balancer (await_held env h)) = follower_history (load_balancer h).
Proof. apply (env_history _ _ Henv). Qed.

(** All free slots get filled when there are as many connections. *)
Lemma file_conns_fills l i name nidx free h h' :
  file_conns env i l name nidx free h = Some h' -> Forall is_Some l -> (i + length l)%nat = length free ->
  (forall key, is_Some (followers h !! key) -> is_Some (followers h' !! key))
  /\ (forall k j, free !! k = Some j -> (i <= k)%nat -> is_Some (followers h' !! (name, nidx, j)))
  /\ (l <> [] -> dom (follower_history (load_balancer h')) = {[(name, nidx)]} ∪ dom (follower_history (load_balancer h))).
Proof.
  revert i h. induction l as [|x l IH]; intros i h; cbn [file_conns].
  { intros [= <-] _ Hl. split_and!; try done. intros k j Hk Hge. apply lookup_lt_Some in Hk. simpl in Hl. lia. }
  intros Hf [[c ->] Hl]%Forall_cons Hlen. simpl in Hlen. revert Hf.
  destruct (free !! i) as [j|] eqn:Ej; [|done]. cbn [mbind option_bind]. intros Hf.
  destruct (IH _ _ Hf Hl ltac:(lia)) as (Hk & Hfill & Hdom).
  pose proof (await_held_followers h) as Ff. rewrite <- (await_held_history h). set (h1 := await_held env h) in *. clearbody h1.
  assert (Hone : dom (follower_history (load_balancer (file_conn name nidx j c h1)))
    = {[(name, nidx)]} ∪ dom (follower_history (load_balancer h1))).
  { apply set_eq. intros key. rewrite elem_of_union, elem_of_singleton, !elem_of_dom. apply or_insert_lookup. }
  split_and!.
  - intros key Hs. rewrite <- Ff in Hs. apply Hk. simpl. apply lookup_insert_is_Some'. auto.
  - intros k j' Hk' Hge. destruct (decide (k = i)) as [->|Hne]; [|apply (Hfill k); [done|lia]].
    simplify_eq. apply Hk. simpl. apply lookup_insert_is_Some'. auto.
  - intros _. destruct l as [|y l]; [by injection Hf as <-|]. rewrite Hdom by done. rewrite Hone. set_solver.
Qed.

Lemma last_reverse_cons {A} (x : A) l : last (reverse (x :: l)) = Some x.
Proof. rewrite reverse_cons. apply last_snoc. Qed.

Lemma removelast_reverse_cons {A} (x : A) l : removelast (reverse (x :: l)) = reverse l.
Proof. rewrite reverse_cons. apply removelast_last. Qed.

Lemma filed_index_fresh name h :
  (forall i j, followers h !! (name, i, j) = None) -> filed_index name h = 0.
Proof.
  intros Hno. unfold filed_index. destruct (List.find _ _) as [[[[n i] j] c]|] eqn:E; [|done].
  apply find_Some_elem in E as [Hin Hn]. apply hiter_lookup in Hin. simpl in Hn. unfold named in Hn.
  apply bool_decide_eq_true in Hn. simpl in Hn. subst n. by rewrite Hno in Hin.
Qed.

Lemma free_conns_fresh name h :
  (forall i j, followers h !! (name, i, j) = None) ->
  free_conns cfg name h ≡ₚ zrange (w32 (conn_per_roomzin_node cfg)).
Proof.
  intros Hno. apply NoDup_Permutation; [apply free_conns_NoDup|apply zrange_NoDup|].
  intros j. rewrite free_conns_elem, zrange_elem. split; [tauto|]. intros Hj. split; [done|].
  intros i c Hc. by rewrite Hno in Hc.
Qed.

Lemma file_conns_other l i name nidx free h h' key :
  file_conns env i l name nidx free h = Some h' -> fst (fst key) <> name -> followers h' !! key = followers h !! key.
Proof.
  intros Hf Hne. revert i h Hf. induction l as [|[c|] l IH]; intros i h; cbn [file_conns]; [by intros [= <-]| |by apply IH].
  destruct (free !! i) as [j|]; [|done]. cbn [mbind option_bind]. intros Hf. rewrite (IH _ _ Hf).
  simpl. rewrite lookup_insert_ne; [by rewrite (env_followers _ _ Henv)|]. by intros <-.
Qed.

Lemma file_nodes_fresh l rf a h h' :
  file_nodes cfg env l (reverse rf) a h = Some h' -> (length l <= length rf)%nat -> NoDup l.*1 ->
  0 < conn_per_roomzin_node cfg < 2 ^ 32 ->
  Forall (fun e => Forall is_Some (snd e) /\ zlen (snd e) = conn_per_roomzin_node cfg
    /\ a !! fst e = None /\ forall i j, followers h !! (fst e, i, j) = None) l ->
  dom (follower_history (load_balancer h'))
    = list_to_set (zip l.*1 rf) ∪ dom (follower_history (load_balancer h))
  /\ (forall key, is_Some (followers h !! key) -> is_Some (followers h' !! key))
  /\ forall name i j, (name, i) ∈ zip l.*1 rf -> 0 <= j < conn_per_roomzin_node cfg ->
       is_Some (followers h' !! (name, i, j)).
Proof.
  intros Hf Hlen Hnd Hn. revert rf a h Hf Hlen. induction l as [|[name cs] l IH]; intros rf a h; cbn [file_nodes].
  { intros [= <-] _ _. split_and!; [set_solver|done|]. intros ? ? ? []%elem_of_nil. }
  destruct rf as [|i rf]; simpl; [lia|]. intros Hf Hlen%le_S_n [(Hs & Hz & Ha & Hno) Hl]%Forall_cons.
  apply NoDup_cons in Hnd as [Hni Hnd]. simpl in Hs, Hz, Ha, Hno, Hni. revert Hf.
  unfold assign_node. rewrite filed_index_fresh, Ha, last_reverse_cons, removelast_reverse_cons by done. simpl.
  destruct (file_conns _ _ _ _ _ _ h) as [h1|] eqn:Ef; [|done]. cbn [mbind option_bind]. intros Hf.
  assert (Hfree : zlen (free_conns cfg name h) = conn_per_roomzin_node cfg).
  { transitivity (zlen (zrange (w32 (conn_per_roomzin_node cfg)))); [|rewrite w32_small, zlen_zrange; lia].
    unfold zlen. by rewrite free_conns_fresh. }
  destruct (file_conns_fills _ _ _ _ _ _ _ Ef Hs) as (Hk & Hfill & Hdom); [unfold zlen in *; lia|].
  assert (Hcs : cs <> []) by (intros ->; unfold zlen in Hz; simpl in Hz; lia). specialize (Hdom Hcs).
  destruct (IH Hnd rf (<[name := i]> a) h1 Hf Hlen) as (Hd' & Hk' & Hf').
  { apply Forall_forall. intros e He. apply (proj1 (Forall_forall _ _) Hl) in He as Hq.
    destruct Hq as (? & ? & Hae & Hne). assert (fst e <> name).
    { intros <-. apply Hni, list_elem_of_fmap. by exists e. }
    split_and!; [done|done|by rewrite lookup_insert_ne|].
    intros k j. rewrite (file_conns_other _ _ _ _ _ _ _ _ Ef) by done. apply Hne. }
  split_and!.
  - rewrite Hd', Hdom. simpl. set_solver.
  - auto.
  - simpl. intros nm k j [[= -> ->]|Hin]%elem_of_cons Hj; [|by eapply Hf'].
    apply Hk'. assert (Hin : j ∈ free_conns cfg name h).
    { rewrite free_conns_fresh by done. apply zrange_elem. rewrite w32_small; lia. }
    apply list_elem_of_lookup in Hin as [p Hp]. eapply Hfill; [exact Hp|lia].
Qed.

End Fresh.

Section First.
Context `{RQ : Reqwest}.
Context {HF : HashIter (string * Z * Z) nat} {HH : HashIter (string * Z) Z}.
Context {HR : HashIter string Z} {HN : HashIter string (list (option nat))}.
Context (cfg : Config) (tcp : nat -> string -> Result unit io_Error) (env : Env).
Context (Henv : env_ok cfg env).
Context (cfg_range : 0 < conn_per_roomzin_node cfg < 2 ^ 32).

Lemma required_new_empty fl name :
  required_new cfg fl [] !! name = Some (w32 (conn_per_roomzin_node cfg)) <-> name ∈ fl.
Proof.
  split; [by intros (? & _)%required_new_spec|]. intros Hin. unfold required_new.
  assert (Hg : forall (m : gmap string Z),
    name ∈ fl \/ m !! name = Some (w32 (conn_per_roomzin_node cfg)) ->
    foldl (fun m name => if existsb (named name) [] then m else <[name := w32 (conn_per_roomzin_node cfg)]> m) m fl
      !! name = Some (w32 (conn_per_roomzin_node cfg))).
  { clear Hin. induction fl as [|n fl IH]; intros m Hm; simpl.
    - destruct Hm as [?%not_elem_of_nil|]; done.
    - apply IH. destruct (decide (n = name)) as [->|Hne]; [right; by rewrite lookup_insert_eq|].
      rewrite lookup_insert_ne by done. set_solver. }
  apply Hg. by left.
Qed.

Lemma no_followers_iter h : followers h = ∅ -> hiter (followers h) = [].
Proof. intros ->. apply Permutation_nil_r. rewrite hiter_perm. by rewrite map_to_list_empty. Qed.

Lemma frely_empty h h' : frely cfg h h' -> followers h = ∅ -> follower_history (load_balancer h) = ∅ ->
  followers h' = ∅ /\ follower_history (load_balancer h') = ∅.
Proof.
  intros [N A F K D W] Hf Hh. split.
  - apply map_eq. intros k. rewrite lookup_empty. destruct (followers h' !! k) as [c|] eqn:E; [|done].
    apply (lookup_weaken _ _ _ _ E) in F. by rewrite Hf in F.
  - apply dom_empty_inv_L. rewrite D, Hh. apply dom_empty_L.
Qed.

(** What the plan and the attempts give when nothing is filed yet: the followers
    that accept, with all their connections, and nobody who refuses. *)
Definition accepts (name : string) : Prop := forall k, is_ok (tcp k name) = true.
Definition refuses (name : string) : Prop := forall k, is_ok (tcp k name) = false.

Lemma first_dials fl h :
  cluster_inv cfg h -> followers h = ∅ ->
  exists req, required_conns cfg fl h = Some req
  /\ let '(m, h') := dial_all cfg tcp env (hiter req) ∅ h in
     rely cfg h h' /\ cluster_inv cfg h'
     /\ (forall name l, m !! name = Some l -> name ∈ fl /\ Forall is_Some l
          /\ (accepts name -> zlen l = conn_per_roomzin_node cfg))
     /\ (forall name, name ∈ fl -> accepts name -> is_Some (m !! name))
     /\ (forall name, refuses name -> m !! name = None).
Proof.
  intros I Hf. unfold required_conns, cur_nodes. rewrite no_followers_iter by done. simpl.
  eexists. split; [done|]. set (req := required_new cfg fl []).
  assert (Hreq : forall name r, req !! name = Some r -> name ∈ fl /\ r = conn_per_roomzin_node cfg).
  { intros name r Hr. apply required_new_spec in Hr as (? & -> & _). rewrite w32_small by lia. done. }
  assert (Hrange : Forall (fun e => 0 <= snd e) (hiter req)).
  { apply Forall_forall. intros [n r] [_ ->]%hiter_lookup%Hreq. simpl. lia. }
  pose proof (dial_all_spec cfg tcp env Henv (hiter req) ∅ h I) as Hd.
  specialize (Hd ltac:(by intros n l Hl) (hiter_NoDup req) Hrange).
  pose proof (fun name => dial_all_refused cfg tcp env (hiter req) name ∅ h) as Href.
  destruct (dial_all cfg tcp env (hiter req) ∅ h) as [m h'].
  destruct Hd as (R & I' & Hm & Hout & _ & Heq). split; [done|]. split; [done|].
  split_and!; [| |exact Href].
  2:{ intros name Hin Hok. apply required_new_empty, hiter_lookup, Heq in Hin; [|done].
      destruct (m !! name) as [l|] eqn:E; [eauto|]. unfold new_count in Hin. rewrite E, w32_small in Hin by lia.
      change (0 = 0 + conn_per_roomzin_node cfg) in Hin. lia. }
  intros name l Hl. destruct (req !! name) as [r|] eqn:Er.
  - pose proof Er as Er'. apply Hreq in Er' as [Hin ->]. split; [done|]. split.
    + eapply Forall_impl; [by eapply Hm|]. intros x (c & ci & -> & _). eauto.
    + intros Hok. apply hiter_lookup, Heq in Er; [|done]. unfold new_count in Er. rewrite Hl in Er. exact Er.
  - rewrite Hout, lookup_empty in Hl; [done|]. intros ([n' r] & -> & Hi)%list_elem_of_fmap.
    apply hiter_lookup in Hi. simpl in Er. congruence.
Qed.

Lemma fresh_free_nodes fl h :
  followers h = ∅ -> zlen fl < 2 ^ 32 -> free_nodes fl h = reverse (reverse (zrange (zlen fl))).
Proof.
  intros Hf Hl. pose proof (zlen_nonneg fl).
  rewrite free_nodes_eq, no_followers_iter, w32_small, reverse_involutive by done || lia.
  simpl. generalize (zrange (zlen fl)). intros l. induction l as [|x l IH]; simpl; [done|by rewrite IH].
Qed.

(** The first synchronisation, with followers that accept and followers that
    refuse: those that accept get the last indices, one each, and all their
    connections. *)
Lemma first_sync_lemma fl h :
  cluster_inv cfg h -> followers h = ∅ -> follower_history (load_balancer h) = ∅ ->
  zlen fl < 2 ^ 32 -> (forall name, accepts name \/ refuses name) ->
  exists h', sync_followers cfg tcp env fl h = Some h' /\ cluster_inv cfg h'
  /\ exists names, NoDup names /\ (forall name, name ∈ names <-> name ∈ fl /\ accepts name)
     /\ dom (follower_history (load_balancer h')) = list_to_set (zip names (reverse (zrange (zlen fl))))
     /\ forall name i j, (name, i) ∈ zip names (reverse (zrange (zlen fl))) ->
          0 <= j < conn_per_roomzin_node cfg -> is_Some (followers h' !! (name, i, j)).
Proof.
  intros I Hf Hh Hfl Hok.
  destruct (sync_followers_lemma cfg tcp env Henv cfg_range fl h I) as (h' & Hs & I' & _).
  exists h'. split; [done|]. split; [done|]. revert Hs. unfold sync_followers.
  pose proof (await_rely cfg env Henv h I) as R1. pose proof (await_inv cfg env Henv h I) as I1.
  set (h1 := await env h) in *. clearbody h1.
  destruct (frely_empty _ _ (rely_frely R1) Hf Hh) as [Hf1 Hh1].
  destruct (first_dials fl h1 I1 Hf1) as (req & -> & Hd). cbn [mbind option_bind].
  destruct (dial_all cfg tcp env (hiter req) ∅ h1) as [m h2]. destruct Hd as (R2 & I2 & Hm & Hall & Href).
  pose proof (await_rely cfg env Henv h2 I2) as R3. set (h3 := await env h2) in *. clearbody h3.
  destruct (frely_empty h1 h3 (rely_frely (rely_trans _ _ _ _ R2 R3)) Hf1 Hh1) as [Hf3 Hh3].
  assert (Hacc : forall name l, m !! name = Some l -> accepts name).
  { intros name l Hl. destruct (Hok name) as [|Hr%Href]; [done|congruence]. }
  assert (Hnames : forall name, name ∈ (hiter m).*1 <-> name ∈ fl /\ accepts name).
  { intros name. rewrite list_elem_of_fmap. split.
    - intros ([n l] & -> & Hin%hiter_lookup). split; [by apply Hm in Hin as [? _]|by eapply Hacc].
    - intros [Hin Ha]. destruct (Hall name Hin Ha) as [l Hl]. exists (name, l). split; [done|]. by apply hiter_lookup. }
  rewrite (fresh_free_nodes fl h3 Hf3 Hfl).
  pose proof (await_held_followers cfg env Henv h3) as Hf4. pose proof (await_held_history cfg env Henv h3) as Hh4.
  rewrite Hf3 in Hf4. rewrite Hh3 in Hh4. set (h4 := await_held env h3) in *. clearbody h4. intros Hs. exists (hiter m).*1.
  split; [apply hiter_NoDup|]. split; [done|].
  apply (file_nodes_fresh cfg env Henv) in Hs; [| | |done|].
  - destruct Hs as (Hd & _ & Hfill). rewrite Hh4, dom_empty_L, (right_id_L ∅ (∪)) in Hd. done.
  - rewrite length_reverse. pose proof (NoDup_incl_zlen (hiter m).*1 fl (hiter_NoDup m)) as Hle.
    pose proof (zlen_zrange (zlen fl) (zlen_nonneg _)). unfold zlen in *. rewrite length_fmap in Hle.
    specialize (Hle ltac:(intros n Hn; by apply Hnames in Hn as [? _])). lia.
  - apply hiter_NoDup.
  - apply Forall_forall. intros [name l] Hin%hiter_lookup. pose proof (Hacc _ _ Hin) as Ha.
    apply Hm in Hin as (_ & ? & Hz). split_and!; [done|by apply Hz| |].
    + unfold assigned_nodes. rewrite Hh4, hiter_empty. apply lookup_empty.
    + intros i j. rewrite Hf4. apply lookup_empty.
Qed.

(** An assignment by zipping with distinct indices. *)
Lemma zip_index_unique {A} (names : list A) (ids : list Z) a b i :
  NoDup ids -> (a, i) ∈ zip names ids -> (b, i) ∈ zip names ids -> a = b.
Proof.
  intros Hnd [k Hk]%list_elem_of_lookup [k' Hk']%list_elem_of_lookup.
  apply lookup_zip_Some in Hk as [Ha Hi]. apply lookup_zip_Some in Hk' as [Hb Hi'].
  assert (k = k') as -> by (by eapply NoDup_lookup). congruence.
Qed.

Lemma zip_index_exists {A} (names : list A) (ids : list Z) i :
  length names = length ids -> i ∈ ids -> exists a, a ∈ names /\ (a, i) ∈ zip names ids.
Proof.
  intros Hl [k Hk]%list_elem_of_lookup. destruct (lookup_lt_is_Some_2 names k) as [a Ha].
  { rewrite Hl. by eapply lookup_lt_Some. }
  exists a. split; [by eapply list_elem_of_lookup_2|]. apply list_elem_of_lookup. exists k. by apply lookup_zip_Some.
Qed.

End First.

(** Nothing is required for nodes whose entries are all there. *)
Lemma required_more_full cfg l ids m :
  (forall e, e ∈ l -> zlen (List.filter (named (fst e)) ids) = conn_per_roomzin_node cfg) ->
  required_more cfg l ids m = Some m.
Proof.
  induction l as [|[i x] l IH]; intros Hl; cbn [required_more]; [done|].
  pose proof (Hl (i, x) ltac:(set_solver)) as Hi. simpl in Hi. rewrite Hi, Z.ltb_irrefl, Z.sub_diag.
  apply IH. set_solver.
Qed.

Lemma no_requirements {HF : HashIter (string * Z * Z) nat} cfg fl h :
  0 < conn_per_roomzin_node cfg ->
  (forall name, name ∈ fl -> filed_count name h = conn_per_roomzin_node cfg) ->
  (forall key, is_Some (followers h !! key) -> filed_count (fst (fst key)) h = conn_per_roomzin_node cfg) ->
  required_conns cfg fl h = Some ∅.
Proof.
  intros Hn Hfl Hall. unfold required_conns.
  assert (Hnew : required_new cfg fl (cur_nodes h) = ∅).
  { apply map_eq. intros name. rewrite lookup_empty. destruct (_ !! name) as [r|] eqn:E; [|done].
    apply required_new_spec in E as (Hin & _ & Hno%not_named_count). apply Hfl in Hin.
    unfold filed_count in Hin. lia. }
  rewrite Hnew. apply required_more_full. intros e ([k c] & -> & Hin)%elem_of_map.
  apply (Hall k). exists c. by apply hiter_lookup.
Qed.

(** ** Properties *)

Section Properties.
Context `{RQ : Reqwest}.
Context {HF : HashIter (string * Z * Z) nat} {HH : HashIter (string * Z) Z}.
Context {HR : HashIter string Z} {HN : HashIter string (list (option nat))} {HD : HashIter Z (nat * Z)}.
Context (cfg : Config) (tcp : nat -> string -> Result unit io_Error) (env : Env).
Context (discover : nat -> Result ClusterTopology RZError) (clock : nat -> Z).

(** C4. In every reachable state, whatever the nodes answer and however the
    tasks interleave at the suspension points: there is a slot per configured
    connection and every filled slot is connected to the stored leader; every
    follower entry has a connection to its node, a connection index below the
    configured number and a node index the history knows, one per name; and
    the next synchronisation does not panic (no underflow, no index out of
    range). *)
Theorem cluster_invariant h :
  env_ok cfg env -> 0 < conn_per_roomzin_node cfg < 2 ^ 32 ->
  rtc (hstep cfg tcp env discover clock) (handler_new cfg) h ->
  cluster_inv cfg h /\ forall t, is_Some (sync_tick cfg tcp env discover t h).
Proof.
  intros He Hn Hr. pose proof (reachable_inv cfg tcp env discover clock He Hn h Hr) as I. split; [done|].
  intros t. destruct (sync_tick_lemma cfg tcp env discover He Hn t h I) as (h' & -> & _). eauto.
Qed.

(** C25. [sync_leader] stores the host, leaves every filled slot connected to it,
    fills every slot if the connection attempts succeed, keeps the open
    connections of an unchanged leader, and leaves the followers alone. *)
Theorem sync_leader_spec host h :
  env_ok cfg env -> cluster_inv cfg h ->
  exists h', sync_leader cfg tcp env host h = Some h' /\ leader_host h' = Some host
  /\ (forall i c, leader_conns h' !! i = Some (Some c) ->
        exists ci, conns (net h') !! c = Some ci /\ addr ci = host)
  /\ ((forall k, is_ok (tcp k host) = true) -> Forall is_Some (leader_conns h'))
  /\ (leader_host h = Some host -> forall i c, leader_conns h !! i = Some (Some c) ->
        is_closed c (net h') = false -> leader_conns h' !! i = Some (Some c))
  /\ followers h' ⊆ followers h /\ keeps_open h h'.
Proof.
  intros He I. destruct (sync_leader_lemma cfg tcp env He host h I) as (h' & Hs & I' & Hh & _ & F & Hall & Hkeep).
  exists h'. split_and!; try done; [|apply F|apply F].
  intros i c Hc. destruct (inv_slot _ _ I' _ _ Hc) as (ci & Hci & Ha). exists ci. split; [done|congruence].
Qed.

(** C24. A synchronisation of the followers never panics and never drops an open
    follower connection, whatever the topology says: a node that became the
    leader or left the cluster keeps serving reads; and node indices, once
    assigned, stay. *)
Theorem sync_followers_keeps fl h :
  env_ok cfg env -> 0 < conn_per_roomzin_node cfg < 2 ^ 32 ->
  cluster_inv cfg h ->
  exists h', sync_followers cfg tcp env fl h = Some h' /\ cluster_inv cfg h'
  /\ (forall key c, followers h !! key = Some c -> is_closed c (net h') = false -> followers h' !! key = Some c)
  /\ (forall name i, is_Some (follower_history (load_balancer h) !! (name, i)) ->
        is_Some (follower_history (load_balancer h') !! (name, i)))
  /\ leader_conns h' = leader_conns h /\ leader_host h' = leader_host h.
Proof.
  intros He Hn I. destruct (sync_followers_lemma cfg tcp env He Hn fl h I) as (h' & Hs & I' & G).
  exists h'. split_and!; try done; [| |apply G|apply G].
  - intros [[n i] j] c Hc Ho. apply (grows_kept _ _ G); [done| |done].
    apply (inv_key _ _ I) in Hc as (_ & _ & ci & Hci & _). eauto.
  - intros name i Hi. apply elem_of_dom, (grows_dom _ _ G), elem_of_dom, Hi.
Qed.

(** C26. The first synchronisation of the followers, over distinct names and when
    all nodes accept, whatever the other tasks do meanwhile and in whatever order
    the maps are iterated, gives them the indices 0 to n-1, one each, with all
    their connections: the state in which reads reach every follower. *)
Theorem first_sync_complete fl h :
  env_ok cfg env -> 0 < conn_per_roomzin_node cfg < 2 ^ 32 ->
  cluster_inv cfg h -> followers h = ∅ -> follower_history (load_balancer h) = ∅ ->
  NoDup fl -> zlen fl < 2 ^ 32 -> (forall name, accepts tcp name) ->
  exists h', sync_followers cfg tcp env fl h = Some h' /\ node_count h' = zlen fl /\ ids_functional h'
  /\ forall i, 0 <= i < zlen fl -> exists name, name ∈ fl
       /\ is_Some (follower_history (load_balancer h') !! (name, i))
       /\ forall j, 0 <= j < conn_per_roomzin_node cfg -> is_Some (followers h' !! (name, i, j)).
Proof.
  intros He Hn I Hf Hh Hnd Hfl Hok.
  destruct (first_sync_lemma cfg tcp env He Hn fl h I Hf Hh Hfl) as (h' & Hs & _ & names & Hnn & Hmem' & Hd & Hfill).
  { by left. }
  assert (Hp : names ≡ₚ fl) by (apply NoDup_Permutation; [done..|intros nm; rewrite Hmem'; naive_solver]).
  set (ids := reverse (zrange (zlen fl))) in *.
  assert (Hids : NoDup ids) by (unfold ids; rewrite reverse_Permutation; apply zrange_NoDup).
  assert (Hlen : length names = length ids).
  { unfold ids. rewrite length_reverse, Hp. pose proof (zlen_zrange (zlen fl) (zlen_nonneg _)). unfold zlen in *. lia. }
  assert (Hmem : forall k, is_Some (follower_history (load_balancer h') !! k) <-> k ∈ zip names ids).
  { intros k. by rewrite <- elem_of_dom, Hd, elem_of_list_to_set. }
  exists h'. split; [done|]. split_and!.
  - unfold node_count. rewrite <- size_dom, Hd, size_list_to_set.
    + rewrite length_zip. rewrite Hlen, Nat.min_id. unfold ids. rewrite length_reverse.
      apply (zlen_zrange (zlen fl)), zlen_nonneg.
    + apply (NoDup_fmap_1 snd). rewrite snd_zip by lia. done.
  - intros a b i Ha%Hmem Hb%Hmem. by eapply zip_index_unique.
  - intros i Hi. destruct (zip_index_exists names ids i Hlen) as (name & Hname & Hz).
    { unfold ids. by apply elem_of_reverse, zrange_elem. }
    exists name. split; [by rewrite <- Hp|]. split; [by apply Hmem|]. intros j Hj. by apply Hfill.
Qed.

(** But when a single one of several followers accepts at that time, it gets
    the last index while the history holds one node, so its connections are
    never chosen: reads find no follower. *)
Theorem lone_follower_unreachable fl name h :
  env_ok cfg env -> 0 < conn_per_roomzin_node cfg < 2 ^ 32 ->
  cluster_inv cfg h -> followers h = ∅ -> follower_history (load_balancer h) = ∅ ->
  name ∈ fl -> 2 <= zlen fl < 2 ^ 32 -> accepts tcp name -> (forall n, n <> name -> refuses tcp n) ->
  exists h', sync_followers cfg tcp env fl h = Some h'
  /\ (forall j, 0 <= j < conn_per_roomzin_node cfg -> is_Some (followers h' !! (name, zlen fl - 1, j)))
  /\ (clock_covers clock (cleanup_age cfg) -> exists h2, next_follower_conn clock cfg alone h' = Some (None, h2)).
Proof.
  intros He Hn I Hf Hh Hin Hfl Hok Hno.
  destruct (first_sync_lemma cfg tcp env He Hn fl h I Hf Hh ltac:(lia)) as (h' & Hs & I' & names & Hnn & Hmem & Hd & Hfill).
  { intros n. destruct (decide (n = name)) as [->|]; [by left|right; auto]. }
  assert (Hp : names ≡ₚ [name]).
  { apply NoDup_Permutation; [done|apply NoDup_singleton|]. intros n. rewrite Hmem, list_elem_of_singleton. split.
    - intros [_ Ha]. destruct (decide (n = name)) as [|Hne]; [done|]. specialize (Ha 0%nat). by rewrite (Hno n Hne) in Ha.
    - by intros ->. }
  apply Permutation_singleton_r in Hp as ->.
  assert (Hz : zip [name] (reverse (zrange (zlen fl))) = [(name, zlen fl - 1)]).
  { replace (zlen fl) with (zlen fl - 1 + 1) at 1 by lia. rewrite zrange_snoc, reverse_snoc by lia. done. }
  rewrite Hz in *. exists h'. split; [done|]. split; [intros j Hj; apply Hfill; [set_solver|done]|].
  assert (Hk : forall k, is_Some (follower_history (load_balancer h') !! k) <-> k = (name, zlen fl - 1)).
  { intros k. rewrite <- elem_of_dom, Hd. set_solver. }
  assert (Hcount : node_count h' = 1).
  { unfold node_count. rewrite <- size_dom, Hd, size_list_to_set; [done|apply NoDup_singleton]. }
  intros Hcov. pose proof (follower_reaches clock cfg h' Hn (inv_lb _ _ I') ltac:(lia)) as Hr.
  destruct (next_follower_conn clock cfg alone h') as [[[c|] h2]|]; [|by exists h2|by destruct Hr]. exfalso.
  destruct (proj1 Hr) as (i & Hi & (nm & v & j & Hnd & _)%node_ready_first); [eauto| |lia].
  apply node_of_Some in Hnd as (nm' & v' & [= <- <-] & Hv). pose proof (proj1 (Hk (nm, i)) (mk_is_Some _ _ Hv)) as [= _ ->].
  lia.
Qed.

(** A leader change leaves the connections to the old leader as they are:
    they are not closed, their correlation maps and queues are untouched and
    no waiting request is answered or failed. *)
Theorem leader_change_keeps_requests host h h' :
  alloc_ok (net h) -> sync_leader cfg tcp quiet host h = Some h' ->
  conns (net h) ⊆ conns (net h') /\ shots (net h') = shots (net h).
Proof.
  intros Ha Hs. apply sync_leader_effect in Hs as [[C _ S _ _] _ _]; [|done]. by split.
Qed.

(** A closed connection that is still filed counts as present: when every
    node concerned has all its entries, [sync_followers] connects nowhere,
    even if all of them are closed, and no entry is replaced. *)
Theorem closed_followers_not_replaced fl h :
  0 < conn_per_roomzin_node cfg ->
  (forall name, name ∈ fl -> filed_count name h = conn_per_roomzin_node cfg) ->
  (forall key, is_Some (followers h !! key) -> filed_count (fst (fst key)) h = conn_per_roomzin_node cfg) ->
  exists h', sync_followers cfg tcp quiet fl h = Some h' /\ followers h' = followers h
  /\ conns (net h') = conns (net h).
Proof.
  intros Hn Hfl Hall. unfold sync_followers. change (await quiet h) with (set_net h (net h) (S (awaits h))).
  set (h1 := set_net h (net h) (S (awaits h))).
  rewrite (no_requirements cfg fl h1) by (done || lia). cbn [mbind option_bind].
  rewrite hiter_empty. cbn [dial_all]. rewrite hiter_empty. cbn [file_nodes]. eauto.
Qed.

(** A synchronisation that starts while another one runs does nothing; the
    running one stores the leader it discovered and clears the flag. *)
Theorem sync_exclusive h :
  env_ok cfg env -> 0 < conn_per_roomzin_node cfg < 2 ^ 32 ->
  cluster_inv cfg h ->
  exists h', sync_with_cluster cfg tcp env discover h = Some h' /\ syncing h' = syncing h
  /\ (syncing h = true -> h' = h)
  /\ (syncing h = false -> forall topo, discover (awaits h) = Ok topo -> leader_host h' = Some (leader topo)).
Proof.
  intros He Hn I. destruct (sync_with_cluster_lemma cfg tcp env He Hn discover h I) as (h' & Hs & _ & _ & Hsy & Hl).
  exists h'. split_and!; try done. intros Ht. unfold sync_with_cluster in Hs. rewrite Ht in Hs. congruence.
Qed.

End Properties.

(** ** Concrete runs *)

#[local] Existing Instance reqwest_text.
#[local] Instance run_demux_order : HashIter Z (nat * Z) := list_order Z (nat * Z).
#[local] Instance run_history_order : HashIter (string * Z) Z := list_order (string * Z) Z.
#[local] Instance run_followers_order : HashIter (string * Z * Z) nat := list_order (string * Z * Z) nat.
#[local] Instance run_required_order : HashIter string Z := list_order string Z.
#[local] Instance run_new_order : HashIter string (list (option nat)) := list_order string (list (option nat)).

Definition run_cfg : Config := sample_config 1.
Definition run_new : HandlerInner := handler_new run_cfg.
Definition run_tcp (accepting : list string) (_ : nat) (host : string) : Result unit io_Error :=
  if bool_decide (host ∈ accepting) then Ok () else Err "connection refused".
Definition run_topo (_ : nat) : Result ClusterTopology RZError := Ok (mkTopo "l" ["a"; "b"; "c"]).
Definition run_all (_ : nat) (_ : string) : Result unit io_Error := Ok ().
Definition run_clock (_ : nat) : Z := 0.

Lemma run_inv : cluster_inv run_cfg run_new.
Proof. apply handler_new_inv. vm_compute. split; congruence. Qed.

Lemma run_covers : clock_covers run_clock (cleanup_age run_cfg).
Proof. intros n. vm_compute. by eexists. Qed.

Lemma run_range : 0 < conn_per_roomzin_node run_cfg < 2 ^ 32.
Proof. simpl. lia. Qed.

Lemma cluster_invariant_witness :
  exists h, sync_tick run_cfg run_all quiet run_topo Slow run_new = Some h /\ cluster_inv run_cfg h.
Proof.
  destruct (sync_tick run_cfg run_all quiet run_topo Slow run_new) as [h|] eqn:E; [|vm_compute in E; discriminate].
  exists h. split; [reflexivity|].
  apply (cluster_invariant run_cfg run_all quiet run_topo run_clock h (quiet_ok run_cfg) run_range).
  apply rtc_once, (step_tick _ _ _ _ _ Slow), E.
Defined.

Lemma sync_leader_spec_witness :
  exists h', sync_leader run_cfg run_all quiet "l" run_new = Some h' /\ Forall is_Some (leader_conns h').
Proof.
  destruct (sync_leader_spec run_cfg run_all quiet "l" run_new (quiet_ok run_cfg) run_inv)
    as (h' & Hs & _ & _ & Hall & _).
  exists h'. split; [exact Hs|]. apply Hall. by intros k.
Defined.

Lemma sync_followers_keeps_witness :
  exists h', sync_followers run_cfg run_all quiet ["a"; "b"] run_new = Some h' /\ cluster_inv run_cfg h'.
Proof.
  destruct (sync_followers_keeps run_cfg run_all quiet ["a"; "b"] run_new (quiet_ok run_cfg) run_range run_inv)
    as (h' & Hs & I & _). exists h'. split; [exact Hs|exact I].
Defined.

Lemma first_sync_complete_witness :
  exists h', sync_followers run_cfg run_all quiet ["a"; "b"] run_new = Some h' /\ node_count h' = 2.
Proof.
  destruct (first_sync_complete run_cfg run_all quiet ["a"; "b"] run_new (quiet_ok run_cfg) run_range run_inv)
    as (h' & Hs & Hc & _); [done..|apply (bool_decide_unpack _); reflexivity|done|done|].
  exists h'. split; [exact Hs|exact Hc].
Defined.

Lemma lone_follower_unreachable_witness :
  exists h', sync_followers run_cfg (run_tcp ["b"]) quiet ["a"; "b"; "c"] run_new = Some h'
  /\ is_Some (followers h' !! ("b", 2, 0))
  /\ exists h2, next_follower_conn run_clock run_cfg alone h' = Some (None, h2).
Proof.
  destruct (lone_follower_unreachable run_cfg (run_tcp ["b"]) quiet run_clock ["a"; "b"; "c"] "b" run_new
    (quiet_ok run_cfg) run_range run_inv) as (h' & Hs & Hf & Hn).
  - done.
  - done.
  - set_solver.
  - vm_compute. split; congruence.
  - by intros k.
  - intros n Hn k. unfold run_tcp. rewrite bool_decide_false by set_solver. done.
  - exists h'. split; [exact Hs|split; [|exact (Hn run_covers)]]. apply (Hf 0). simpl. lia.
Defined.

(** A leader with one connection, to be replaced. *)
Definition run_led : HandlerInner :=
  set_net (set_leader_host (set_leader_conns run_new [Some 0%nat]) (Some "old"))
    (mkStore {[0%nat := new_inner "old" run_cfg]} {[7%nat := Empty]} 1 8 0) 0.

Lemma leader_change_keeps_requests_witness :
  exists h', sync_leader run_cfg run_all quiet "new" run_led = Some h'
  /\ conns (net run_led) ⊆ conns (net h') /\ shots (net h') = shots (net run_led).
Proof.
  destruct (sync_leader run_cfg run_all quiet "new" run_led) as [h'|] eqn:E; [|vm_compute in E; discriminate].
  exists h'. split; [reflexivity|]. apply (leader_change_keeps_requests run_cfg run_all "new" run_led h'); [|exact E].
  intros c [ci Hc]. simpl in *. apply lookup_singleton_Some in Hc as [<- _]. lia.
Defined.

(** One follower, filed and closed. *)
Definition run_closed : HandlerInner :=
  set_net (set_followers run_new {[("a", 0, 0) := 0%nat]})
    (mkStore {[0%nat := set_closed (new_inner "a" run_cfg) true]} ∅ 1 0 0) 0.

Lemma closed_followers_not_replaced_witness :
  exists h', sync_followers run_cfg run_all quiet ["a"] run_closed = Some h' /\ followers h' = followers run_closed.
Proof.
  destruct (closed_followers_not_replaced run_cfg run_all ["a"] run_closed) as (h' & Hs & Hf & _).
  - simpl. lia.
  - intros name ->%list_elem_of_singleton. reflexivity.
  - intros key [c Hc]. simpl in Hc. apply lookup_singleton_Some in Hc as [<- _]. reflexivity.
  - exists h'. split; [exact Hs|exact Hf].
Defined.

Lemma sync_exclusive_witness :
  exists h', sync_with_cluster run_cfg run_all quiet run_topo run_new = Some h' /\ leader_host h' = Some "l".
Proof.
  destruct (sync_exclusive run_cfg run_all quiet run_topo run_new (quiet_ok run_cfg) run_range run_inv)
    as (h' & Hs & _ & _ & Hl). exists h'. split; [exact Hs|]. exact (Hl eq_refl (mkTopo "l" ["a"; "b"; "c"]) eq_refl).
Defined.

(** *** A node index used twice

    Follower [a] gets index 0; its connection closes and a read removes the
    entry; then [b] replaces it in the topology. *)
Definition close_all (h : HandlerInner) : HandlerInner :=
  set_net h (foldl (fun st c => close c st) (net h) (map snd (map_to_list (followers h)))) (awaits h).

Definition run_replaced : option HandlerInner :=
  h ← sync_with_cluster run_cfg run_all quiet (fun _ => Ok (mkTopo "l" ["a"])) run_new;
  '(_, h) ← next_follower_conn run_clock run_cfg alone (close_all h);
  sync_with_cluster run_cfg run_all quiet (fun _ => Ok (mkTopo "l" ["b"])) h.

(** The free node indices are those no follower entry uses, and the history
    keeps the index of a node without entries: a replacement follower gets the
    index of the node it replaces, the history then holds two nodes under it,
    and for some iteration order reads find no follower although the
    replacement is connected. *)
Theorem duplicate_index_unreachable :
  exists h, run_replaced = Some h
  /\ follower_history (load_balancer h) = {[("a", 0) := 0; ("b", 0) := 0]}
  /\ followers h = {[("b", 0, 0) := 2%nat]} /\ is_closed 2 (net h) = false
  /\ option_map fst (next_follower_conn run_clock run_cfg alone h) = Some None.
Proof.
  assert (Hrun : match run_replaced with
    | Some h => bool_decide (follower_history (load_balancer h) = {[("a", 0) := 0; ("b", 0) := 0]})
        && bool_decide (followers h = {[("b", 0, 0) := 2%nat]}) && negb (is_closed 2 (net h))
        && bool_decide (option_map fst (next_follower_conn run_clock run_cfg alone h) = Some None)
    | None => false end = true) by (vm_compute; reflexivity).
  destruct run_replaced as [h|]; [|discriminate]. exists h.
  apply andb_true_iff in Hrun as [[[H1 H2]%andb_true_iff H3]%andb_true_iff H4].
  apply bool_decide_eq_true in H1, H2, H4. apply negb_true_iff in H3. auto.
Qed.
