(* ===== verification/SyncSteps.v ===== *)
(** * [cluster_handler.rs], synchronisation, step by step

    [ClusterSync.v] has the synchronisation in direct style, with the other
    tasks as a function that is applied at every suspension point.  Here it is
    a resumption: [Prog] is a computation that either has ended or is suspended
    at an [.await] in a state, and goes on from whatever state the other tasks
    have made of it; a suspension tells whether the task holds the write guard
    of the follower table.  The two agree ([sync_tick_runs]), and the rely-guarantee
    predicate [rg] says of every segment between two suspension points what it
    may do. *)

From S2P Require Import Prelude RustStd Error Config Demux Connection LoadBalancer Topology ClusterSync ClusterProps.
Local Open Scope Z_scope.

(** ** Resumptions *)

(** [Ret None] is a panic. *)
Inductive Prog (A : Type) : Type :=
| Ret (r : option (A * HandlerInner))
| Susp (held : bool) (h : HandlerInner) (k : HandlerInner -> Prog A).
Arguments Ret {A} r.
Arguments Susp {A} held h k.

Fixpoint pbind {A B} (p : Prog A) (f : A -> HandlerInner -> Prog B) : Prog B :=
  match p with
  | Ret (Some (a, h)) => f a h
  | Ret None => Ret None
  | Susp b h k => Susp b h (fun h' => pbind (k h') f)
  end.

Notation "'do' ( x , h ) <- p ; q" := (pbind p (fun x h => q))
  (at level 10, x name, h name, p at level 100, q at level 200, only parsing).

Section Steps.
Context `{RQ : Reqwest}.
Context {HF : HashIter (string * Z * Z) nat} {HH : HashIter (string * Z) Z}.
Context {HR : HashIter string Z} {HN : HashIter string (list (option nat))}.
Context (cfg : Config) (tcp : nat -> string -> Result unit io_Error).
Context (discover : nat -> Result ClusterTopology RZError).

Definition await_p (h : HandlerInner) : Prog unit :=
  Susp false h (fun h' => Ret (Some (tt, set_net h' (net h') (S (awaits h))))).

Definition await_held_p (h : HandlerInner) : Prog unit :=
  Susp true h (fun h' => Ret (Some (tt, set_net h' (net h') (S (awaits h))))).

Definition dial_p (host : string) (h : HandlerInner) : Prog (Result nat RZError) :=
  let r := tcp (awaits h) host in
  do (_, h) <- await_p h;
  let '(res, st) := connect host cfg r (net h) in
  Ret (Some (res, set_net h st (awaits h))).

Definition reset_leader_p (host : string) (h : HandlerInner) : Prog unit :=
  do (_, h) <- await_p h;
  Ret (Some (tt, set_leader_host (set_leader_conns h (map (fun _ => None) (leader_conns h))) (Some host))).

Fixpoint fill_slots_p (slots : list nat) (host : string) (h : HandlerInner) : Prog unit :=
  match slots with
  | [] => Ret (Some (tt, h))
  | i :: r =>
      do (res, h) <- dial_p host h;
      match res with
      | Ok c =>
          do (_, h) <- await_p h;
          match leader_conns h !! i with
          | None => Ret None
          | Some _ => fill_slots_p r host
              (set_leader_host (set_leader_conns h (<[i := Some c]> (leader_conns h))) (Some host))
          end
      | Err _ => fill_slots_p r host h
      end
  end.

Definition sync_leader_p (host : string) (h : HandlerInner) : Prog unit :=
  do (_, h) <- (if leader_changed host h then reset_leader_p host h else Ret (Some (tt, h)));
  do (_, h) <- await_p h;
  fill_slots_p (required_slots h) host h.

Fixpoint dial_n_p (n : nat) (host : string) (m : gmap string (list (option nat))) (h : HandlerInner)
    : Prog (gmap string (list (option nat))) :=
  match n with
  | O => Ret (Some (m, h))
  | S k =>
      do (res, h) <- dial_p host h;
      dial_n_p k host (match res with Ok c => push_conn host c m | Err _ => m end) h
  end.

Fixpoint dial_all_p (l : list (string * Z)) (m : gmap string (list (option nat))) (h : HandlerInner)
    : Prog (gmap string (list (option nat))) :=
  match l with
  | [] => Ret (Some (m, h))
  | (host, count) :: r => do (m, h) <- dial_n_p (Z.to_nat count) host m h; dial_all_p r m h
  end.

Fixpoint file_conns_p (i : nat) (conns : list (option nat)) (name : string) (nidx : Z) (free_conn_ids : list Z)
    (h : HandlerInner) : Prog unit :=
  match conns with
  | [] => Ret (Some (tt, h))
  | None :: r => file_conns_p (S i) r name nidx free_conn_ids h
  | Some c :: r =>
      match free_conn_ids !! i with
      | None => Ret None
      | Some cidx =>
          do (_, h) <- await_held_p h;
          file_conns_p (S i) r name nidx free_conn_ids (file_conn name nidx cidx c h)
      end
  end.

Fixpoint file_nodes_p (l : list (string * list (option nat))) (free : list Z) (assigned : gmap string Z)
    (h : HandlerInner) : Prog unit :=
  match l with
  | [] => Ret (Some (tt, h))
  | (name, conns) :: r =>
      let free_conn_ids := free_conns cfg name h in
      let '(nidx, free, assigned) := assign_node name free assigned h in
      match nidx with
      | None => file_nodes_p r free assigned h
      | Some nidx =>
          do (_, h) <- file_conns_p 0 conns name nidx free_conn_ids h;
          file_nodes_p r free assigned h
      end
  end.

Definition sync_followers_p (fl : list string) (h : HandlerInner) : Prog unit :=
  do (_, h) <- await_p h;
  match required_conns cfg fl h with
  | None => Ret None
  | Some required =>
      do (new_conns, h) <- dial_all_p (hiter required) ∅ h;
      do (_, h) <- await_p h;
      let free_node_ids := free_nodes fl h in
      do (_, h) <- await_held_p h;
      file_nodes_p (hiter new_conns) free_node_ids (assigned_nodes h) h
  end.

Definition sync_with_cluster_p (h : HandlerInner) : Prog unit :=
  if syncing h then Ret (Some (tt, h)) else
  let h := set_syncing h true in
  let result := discover (awaits h) in
  do (_, h) <- await_p h;
  do (_, h) <- (match result with
    | Ok topo => do (_, h) <- sync_leader_p (leader topo) h; sync_followers_p (topo_followers topo) h
    | Err _ => Ret (Some (tt, h))
    end);
  Ret (Some (tt, set_syncing h false)).

Definition sync_tick_p (t : Tick) (h : HandlerInner) : Prog unit :=
  match t with
  | Fast =>
      do (_, h) <- await_p h;
      let any_leader := any_leader_conns h in
      do (_, h) <- await_p h;
      if negb any_leader || negb (any_follower_conns h) then sync_with_cluster_p h else Ret (Some (tt, h))
  | Slow => sync_with_cluster_p h
  end.

(** What [sync_task] does before its loop: its two timers, the fast and the slow
    one. *)
Definition sync_task_start : option (Duration * Duration) :=
  fast ← interval (from_millis 300);
  slow ← interval (from_secs (node_probe_interval_sec cfg));
  Some (fast, slow).

(** It panics before the loop exactly on a probe interval of zero. *)
Lemma sync_task_start_iff : is_Some sync_task_start <-> node_probe_interval_sec cfg <> 0.
Proof.
  unfold sync_task_start, interval, from_millis, from_secs. simpl.
  destruct (Z.eqb_spec (node_probe_interval_sec cfg * 1000000000) 0); simpl.
  - split; [by intros []|lia].
  - split; [lia|eauto].
Qed.

(** ** The direct style is the resumption run with its environment *)

Fixpoint prun {A} (env : Env) (p : Prog A) : option (A * HandlerInner) :=
  match p with
  | Ret r => r
  | Susp b h k => prun env (k (env b (awaits h) h))
  end.

Lemma prun_bind {A B} env (p : Prog A) (f : A -> HandlerInner -> Prog B) :
  prun env (pbind p f) = '(a, h) ← prun env p; prun env (f a h).
Proof. induction p as [[[a h]|]|b h k IH]; simpl; [done|done|apply IH]. Qed.

Context (env : Env).

Lemma dial_run host h : prun env (dial_p host h) = Some (dial cfg tcp env host h).
Proof.
  unfold dial_p, dial. rewrite prun_bind. simpl. fold (await env h).
  destruct (connect _ _ _ _) as [res st]. done.
Qed.

Lemma fill_slots_run slots host h :
  prun env (fill_slots_p slots host h) = h ← fill_slots cfg tcp env slots host h; Some (tt, h).
Proof.
  revert h. induction slots as [|i r IH]; intros h; [done|]. cbn [fill_slots_p fill_slots].
  rewrite prun_bind, dial_run. cbn [mbind option_bind]. destruct (dial cfg tcp env host h) as [[c|e] h1]; [|apply IH].
  rewrite prun_bind. simpl. fold (await env h1). destruct (_ !! i); [|done]. apply IH.
Qed.

Lemma sync_leader_run host h :
  prun env (sync_leader_p host h) = h ← sync_leader cfg tcp env host h; Some (tt, h).
Proof.
  unfold sync_leader_p, sync_leader. rewrite !prun_bind.
  replace (prun env (if leader_changed host h then reset_leader_p host h else Ret (Some (tt, h))))
    with (Some (tt, if leader_changed host h then reset_leader env host h else h))
    by (by destruct (leader_changed host h)).
  cbn [mbind option_bind]. rewrite prun_bind. simpl. apply fill_slots_run.
Qed.

Lemma dial_n_run n host m h : prun env (dial_n_p n host m h) = Some (dial_n cfg tcp env n host m h).
Proof.
  revert m h. induction n as [|n IH]; intros m h; [done|]. cbn [dial_n_p dial_n].
  rewrite prun_bind, dial_run. cbn [mbind option_bind]. destruct (dial _ _ _ _ _) as [[c|e] h1]; apply IH.
Qed.

Lemma dial_all_run l m h : prun env (dial_all_p l m h) = Some (dial_all cfg tcp env l m h).
Proof.
  revert m h. induction l as [|[host n] l IH]; intros m h; [done|]. cbn [dial_all_p dial_all].
  rewrite prun_bind, dial_n_run. cbn [mbind option_bind]. destruct (dial_n _ _ _ _ _ _ _) as [m1 h1]. apply IH.
Qed.

Lemma file_conns_run l i name nidx free h :
  prun env (file_conns_p i l name nidx free h) = h ← file_conns env i l name nidx free h; Some (tt, h).
Proof.
  revert i h. induction l as [|[c|] l IH]; intros i h; cbn [file_conns_p file_conns]; [done| |apply IH].
  destruct (free !! i) as [j|]; [|done]. rewrite prun_bind. simpl. fold (await_held env h). apply IH.
Qed.

Lemma file_nodes_run l free a h :
  prun env (file_nodes_p l free a h) = h ← file_nodes cfg env l free a h; Some (tt, h).
Proof.
  revert free a h. induction l as [|[name cs] l IH]; intros free a h; cbn [file_nodes_p file_nodes]; [done|].
  destruct (assign_node name free a h) as [[[nidx|] free'] a']; [|apply IH].
  cbn beta iota. rewrite prun_bind, file_conns_run. destruct (file_conns _ _ _ _ _ _ h) as [h1|]; [apply IH|done].
Qed.

Lemma sync_followers_run fl h :
  prun env (sync_followers_p fl h) = h ← sync_followers cfg tcp env fl h; Some (tt, h).
Proof.
  unfold sync_followers_p, sync_followers. rewrite prun_bind. simpl. fold (await env h).
  destruct (required_conns _ _ _) as [req|]; [|done]. cbn [mbind option_bind]. rewrite prun_bind, dial_all_run.
  cbn [mbind option_bind]. destruct (dial_all _ _ _ _ _ _) as [m h2].
  exact (file_nodes_run (hiter m) (free_nodes fl (await env h2)) (assigned_nodes (await_held env (await env h2)))
    (await_held env (await env h2))).
Qed.

Lemma sync_with_cluster_run h :
  prun env (sync_with_cluster_p h) = h ← sync_with_cluster cfg tcp env discover h; Some (tt, h).
Proof.
  unfold sync_with_cluster_p, sync_with_cluster. destruct (syncing h); [done|]. rewrite prun_bind. simpl.
  fold (await env (set_syncing h true)). rewrite prun_bind. destruct (discover _) as [topo|e]; [|done].
  rewrite prun_bind, sync_leader_run. destruct (sync_leader _ _ _ _ _) as [h2|]; [|done]. cbn [mbind option_bind].
  rewrite sync_followers_run. by destruct (sync_followers _ _ _ _ h2).
Qed.

Lemma sync_tick_runs t h :
  prun env (sync_tick_p t h) = h ← sync_tick cfg tcp env discover t h; Some (tt, h).
Proof.
  unfold sync_tick_p, sync_tick. destruct t; [|apply sync_with_cluster_run].
  rewrite prun_bind. cbn -[sync_with_cluster_p sync_with_cluster any_leader_conns any_follower_conns].
  fold (await env h). fold (await env (await env h)). destruct (_ || _); [apply sync_with_cluster_run|done].
Qed.

End Steps.

(** ** Rely and guarantee

    [others] is what happens while the synchronisation is suspended, holding the
    guard or not, [segment]
    what the synchronisation itself does between two suspension points; [n]
    bounds the references that may enter the tables from below. *)
Record others (cfg : Config) (held : bool) (h h' : HandlerInner) : Prop := {
  ot_rely : rely cfg h h';
  ot_next : (next_conn (net h) <= next_conn (net h'))%nat;
  ot_held : held = true -> followers h' = followers h
    /\ follower_history (load_balancer h') = follower_history (load_balancer h)
}.

Record segment (n : nat) (h h' : HandlerInner) : Prop := {
  seg_net : extends (net h) (net h');
  seg_alloc : alloc_ok (net h) -> alloc_ok (net h');
  seg_tables : forall c, in_tables c h' -> in_tables c h \/ (n <= c)%nat
}.

Lemma others_refl cfg b h : others cfg b h h.
Proof. split; [apply rely_refl|done|done]. Qed.

Lemma others_trans cfg b h1 h2 h3 : others cfg b h1 h2 -> others cfg b h2 h3 -> others cfg b h1 h3.
Proof.
  intros [R1 N1 H1] [R2 N2 H2]. split; [by eapply rely_trans|lia|]. intros Hb.
  destruct (H1 Hb) as [<- <-]. auto.
Qed.

Lemma others_inv cfg b h h' : others cfg b h h' -> cluster_inv cfg h -> cluster_inv cfg h'.
Proof. intros [R _ _]. by eapply rely_inv. Qed.

Lemma others_weaken cfg b h h' : others cfg b h h' -> others cfg false h h'.
Proof. intros [R N _]. by split. Qed.

Lemma others_held cfg h h' : others cfg true h h' -> held_rely cfg h h'.
Proof. intros [R _ H]. destruct (H eq_refl). by split. Qed.

#[export] Instance others_preorder cfg b : PreOrder (others cfg b).
Proof. split; [exact (others_refl cfg b)|exact (others_trans cfg b)]. Qed.

#[export] Instance segment_preorder n : PreOrder (segment n).
Proof.
  split.
  - intros h. split; [apply extends_refl|done|auto].
  - intros a b c [E1 A1 T1] [E2 A2 T2]. split; [by eapply extends_trans|auto|].
    intros r [Hr|Hr]%T2; [by apply T1|by right].
Qed.

(** A change of the tables that lets in nothing below [n]. *)
Lemma segment_tables n h h' :
  net h' = net h -> (forall c, in_tables c h' -> in_tables c h \/ (n <= c)%nat) -> segment n h h'.
Proof. intros Hn Ht. split; [rewrite Hn; apply extends_refl|by rewrite Hn|done]. Qed.

(** From [h0] the resumption never panics, keeps the invariant at every
    suspension point provided that the others do their part, each of its
    segments is a [segment], and it ends in [Q]. *)
Fixpoint rg {A} (cfg : Config) (n : nat) (Q : A -> HandlerInner -> Prop) (h0 : HandlerInner) (p : Prog A) : Prop :=
  match p with
  | Ret None => False
  | Ret (Some (a, h)) => segment n h0 h /\ Q a h
  | Susp b h k => segment n h0 h /\ cluster_inv cfg h /\ forall h', others cfg b h h' -> rg cfg n Q h' (k h')
  end.

Section Guarantee.
Context (cfg : Config) (n : nat).

Lemma rg_pre {A} (Q : A -> HandlerInner -> Prop) h0 h p :
  segment n h0 h -> rg cfg n Q h p -> rg cfg n Q h0 p.
Proof.
  intros S. destruct p as [[[a g]|]|b g k]; simpl; [|done|].
  - intros [S' HQ]. split; [by etrans|done].
  - intros (S' & I & Hk). split_and!; [by etrans|done|done].
Qed.

Lemma rg_bind {A B} (Q : B -> HandlerInner -> Prop) h0 (p : Prog A) (f : A -> HandlerInner -> Prog B) :
  rg cfg n (fun a h => rg cfg n Q h (f a h)) h0 p -> rg cfg n Q h0 (pbind p f).
Proof.
  revert h0. induction p as [[[a h]|]|b h k IH]; intros h0; simpl; [|done|].
  - intros [S Hf]. by eapply rg_pre.
  - intros (S & I & Hk). split_and!; [done|done|]. auto.
Qed.

Lemma rg_mono {A} (Q Q' : A -> HandlerInner -> Prop) h0 p :
  (forall a h, Q a h -> Q' a h) -> rg cfg n Q h0 p -> rg cfg n Q' h0 p.
Proof.
  intros HQ. revert h0. induction p as [[[a h]|]|b h k IH]; intros h0; simpl; [|done|].
  - intros [S Ha]. auto.
  - intros (S & I & Hk). split_and!; [done|done|]. auto.
Qed.

Lemma rg_ret {A} (Q : A -> HandlerInner -> Prop) a h : Q a h -> rg cfg n Q h (Ret (Some (a, h))).
Proof. by split. Qed.

Lemma rg_await (Q : unit -> HandlerInner -> Prop) h :
  cluster_inv cfg h -> (forall h', others cfg false h h' -> cluster_inv cfg h' -> Q tt h') -> rg cfg n Q h (await_p h).
Proof.
  intros I HQ. split_and!; [done|done|]. intros h' O.
  assert (O' : others cfg false h (set_net h' (net h') (S (awaits h)))).
  { destruct O as [[L H S [N A F K D W]] X _]. split; [by split; [..|split]|done|done]. }
  split; [by apply segment_tables; auto|]. apply HQ; [done|by eapply others_inv].
Qed.

Lemma rg_await_held (Q : unit -> HandlerInner -> Prop) h :
  cluster_inv cfg h -> (forall h', others cfg true h h' -> cluster_inv cfg h' -> Q tt h') -> rg cfg n Q h (await_held_p h).
Proof.
  intros I HQ. split_and!; [done|done|]. intros h' O.
  assert (O' : others cfg true h (set_net h' (net h') (S (awaits h)))).
  { destruct O as [[L H S [N A F K D W]] X Y]. split; [by split; [..|split]|done|done]. }
  split; [by apply segment_tables; auto|]. apply HQ; [done|by eapply others_inv].
Qed.

Lemma rg_dial `{RQ : Reqwest} tcp host (Q : Result nat RZError -> HandlerInner -> Prop) h :
  cluster_inv cfg h -> (n <= next_conn (net h))%nat ->
  (forall res h', others cfg false h h' -> cluster_inv cfg h' ->
     match res with
     | Ok c => (n <= c)%nat /\ exists ci, conns (net h') !! c = Some ci /\ addr ci = host
     | Err _ => True end -> Q res h') ->
  rg cfg n Q h (dial_p cfg tcp host h).
Proof.
  intros I Hn HQ. unfold dial_p. apply rg_bind, rg_await; [done|]. intros h1 O I1. unfold connect.
  pose proof (inv_alloc _ _ I1) as Ha. pose proof (ot_next _ _ _ _ O) as Hx. destruct (tcp _ host) as [u|e].
  2:{ split; [by apply segment_tables; auto|]. apply HQ; [|by destruct I1; split|done].
      destruct O as [[L H S [N A F K D W]] X _]. split; [by split; [..|split]|done|done]. }
  assert (Hf : forall c ci, conns (net h1) !! c = Some ci -> c <> next_conn (net h1)).
  { intros c ci Hc ->. specialize (Ha _ (mk_is_Some _ _ Hc)). lia. }
  set (h2 := set_net h1 _ _).
  assert (E : extends (net h1) (net h2)).
  { split; simpl; [|intros c ci [[<- <-]|[_ Hc]]%lookup_insert_Some; [right; split; [lia|done]|auto]|done|done|lia].
    apply insert_subseteq. destruct (conns (net h1) !! next_conn (net h1)) eqn:Ec; [|done]. by destruct (Hf _ _ Ec). }
  assert (A2 : alloc_ok (net h2)).
  { intros c. simpl. rewrite lookup_insert_is_Some. intros [<-|[_ Hc]]; [lia|]. specialize (Ha _ Hc). lia. }
  split; [by split; auto|]. assert (O2 : others cfg false h1 h2).
  { split; [|simpl; lia|done]. apply set_net_rely; [|done]. intros c ci Hc. exists ci. split; [|done].
    eapply lookup_weaken; [exact Hc|apply E]. }
  apply HQ; [by etrans|by eapply others_inv|]. split; [simpl; lia|]. eexists. split; [simpl; by rewrite lookup_insert_eq|done].
Qed.

End Guarantee.

Section SyncGuarantee.
Context `{RQ : Reqwest}.
Context {HF : HashIter (string * Z * Z) nat} {HH : HashIter (string * Z) Z}.
Context {HR : HashIter string Z} {HN : HashIter string (list (option nat))}.
Context (cfg : Config) (tcp : nat -> string -> Result unit io_Error) (n : nat).

(** Where a part of the synchronisation leaves the handler. *)
Definition done_at (h : HandlerInner) : Prop := cluster_inv cfg h /\ (n <= next_conn (net h))%nat.

Lemma done_at_others h h' : done_at h -> others cfg false h h' -> done_at h'.
Proof. intros [I N] O. pose proof (ot_next _ _ _ _ O). split; [by eapply others_inv|lia]. Qed.

Lemma rg_fill_slots slots host h :
  done_at h -> leader_host h = Some host -> (forall i, i ∈ slots -> is_Some (leader_conns h !! i)) ->
  rg cfg n (fun _ => done_at) h (fill_slots_p cfg tcp slots host h).
Proof.
  revert h. induction slots as [|i r IH]; intros h D Hh Hs; cbn [fill_slots_p]; [by apply rg_ret|].
  apply rg_bind, rg_dial; [apply D..|]. intros res h1 O1 I1 Hres.
  pose proof (done_at_others _ _ D O1) as D1. destruct res as [c|e].
  2:{ apply IH; [done|by rewrite (rely_host (ot_rely _ _ _ _ O1))|].
      rewrite (rely_leader (ot_rely _ _ _ _ O1)). set_solver. }
  destruct Hres as (Hnc & ci & Hc & Ha). apply rg_bind, rg_await; [done|]. intros h2 O2 I2.
  assert (O : others cfg false h h2) by (by etrans). pose proof (ot_rely _ _ _ _ O) as R.
  destruct (frely_net (rely_frely (ot_rely _ _ _ _ O2)) _ _ Hc) as (ci' & Hc' & Ha' & _).
  rewrite (rely_leader R). destruct (Hs i) as [s ->]; [set_solver|].
  assert (Hh2 : leader_host h2 = Some host) by (by rewrite (rely_host R)).
  pose proof (set_slot_inv cfg i c ci' host h2 I2 Hc' ltac:(congruence) Hh2) as I3. rewrite (rely_leader R) in I3.
  set (h3 := set_leader_host _ _) in *. apply rg_pre with h3.
  { apply segment_tables; [done|]. intros d [[k Hk]|[key Hk]]; [|left; right; by exists key].
    simpl in Hk. apply list_lookup_insert_Some in Hk as [(_ & [= <-] & _)|[_ Hk]]; [by right|].
    left. left. exists k. by rewrite (rely_leader R). }
  apply IH; [split; [done|apply (done_at_others _ _ D O)]|done|].
  intros k Hk. simpl. apply lookup_lt_is_Some. rewrite length_insert. apply lookup_lt_is_Some, Hs. set_solver.
Qed.

(** Emptying the slots for another host. *)
Lemma reset_slots_inv host h :
  cluster_inv cfg h ->
  let h' := set_leader_host (set_leader_conns h (map (fun _ => None) (leader_conns h))) (Some host) in
  cluster_inv cfg h' /\ forall c, in_tables c h' -> in_tables c h.
Proof.
  intros I. split.
  - eapply frely_inv; [by apply frely_slots, frely_refl|done|unfold zlen; simpl; rewrite length_map; apply I|].
    simpl. intros i c Hc. apply list_lookup_fmap_Some in Hc as (? & [=] & _).
  - intros c [[i Hi]|Hc]; [|by right]. simpl in Hi. apply list_lookup_fmap_Some in Hi as (? & [=] & _).
Qed.

Lemma rg_sync_leader host h : done_at h -> rg cfg n (fun _ => done_at) h (sync_leader_p cfg tcp host h).
Proof.
  intros D. unfold sync_leader_p. apply rg_bind.
  assert (Hgo : forall g, done_at g -> leader_host g = Some host ->
    rg cfg n (fun _ => done_at) g (do (_, h) <- await_p g; fill_slots_p cfg tcp (required_slots h) host h)).
  { intros g Dg Hg. apply rg_bind, rg_await; [apply Dg|]. intros g1 O1 I1.
    apply rg_fill_slots; [by eapply done_at_others|by rewrite (rely_host (ot_rely _ _ _ _ O1))|].
    intros i (s & Hs & _)%required_slots_elem. eauto. }
  destruct (leader_changed host h) eqn:El.
  2:{ apply rg_ret, Hgo; [done|]. unfold leader_changed in El. destruct (leader_host h) as [old|]; [|done].
      apply negb_false_iff, bool_decide_eq_true in El. congruence. }
  apply rg_bind, rg_await; [apply D|]. intros h1 O1 I1. pose proof (done_at_others _ _ D O1) as [_ N1].
  destruct (reset_slots_inv host h1 I1) as [I2 T2]. split; [|apply Hgo; [by split|done]].
  apply segment_tables; [done|]. intros c Hc. left. by apply T2.
Qed.

(** The new connections of a part of the synchronisation. *)
Definition dialled (m : gmap string (list (option nat))) (h : HandlerInner) : Prop :=
  conns_ok m (net h) /\ all_newer n m.

Lemma dialled_others m h h' : dialled m h -> others cfg false h h' -> dialled m h'.
Proof. intros [M N] O. split; [|done]. eapply conns_ok_le; [apply (ot_rely _ _ _ _ O)|done]. Qed.

Lemma dialled_push host c ci m h :
  dialled m h -> conns (net h) !! c = Some ci -> addr ci = host -> (n <= c)%nat -> dialled (push_conn host c m) h.
Proof.
  intros [M N] Hc Ha Hn. split; [by eapply push_conn_ok|]. intros name l Hl.
  unfold push_conn in Hl. apply lookup_insert_Some in Hl as [[<- <-]|[_ Hl]]; [|by eapply N].
  apply Forall_app. split; [|by repeat constructor]. destruct (m !! host) eqn:E; simpl; [by eapply N|constructor].
Qed.

Lemma rg_dial_n k host m h (Q : gmap string (list (option nat)) -> HandlerInner -> Prop) :
  done_at h -> dialled m h ->
  (forall m' h', others cfg false h h' -> done_at h' -> dialled m' h' ->
     (forall name, name <> host -> m' !! name = m !! name) ->
     new_count m' host <= new_count m host + Z.of_nat k -> Q m' h') ->
  rg cfg n Q h (dial_n_p cfg tcp k host m h).
Proof.
  revert m h. induction k as [|k IH]; intros m h D M HQ; cbn [dial_n_p].
  { apply rg_ret, HQ; [done|done|done|done|lia]. }
  apply rg_bind, rg_dial; [apply D..|]. intros res h1 O1 I1 Hres.
  pose proof (done_at_others _ _ D O1) as D1. pose proof (dialled_others _ _ _ M O1) as M1.
  destruct res as [c|e].
  - destruct Hres as (Hnc & ci & Hc & Ha). pose proof (push_conn_count host c m host) as Hp.
    rewrite bool_decide_true in Hp by done. apply IH; [done|by eapply dialled_push|].
    intros m' h' O' D' M' Hne Hle. apply HQ; [by etrans|done|done| |lia].
    intros name Hn. rewrite Hne by done. unfold push_conn. by rewrite lookup_insert_ne.
  - apply IH; [done|done|]. intros m' h' O' D' M' Hne Hle. apply HQ; [by etrans|done|done|done|lia].
Qed.

Lemma rg_dial_all l m h (Q : gmap string (list (option nat)) -> HandlerInner -> Prop) :
  done_at h -> dialled m h -> NoDup l.*1 -> Forall (fun e => 0 <= snd e) l ->
  (forall m' h', others cfg false h h' -> done_at h' -> dialled m' h' ->
     (forall name, name ∉ l.*1 -> m' !! name = m !! name) ->
     (forall name r, (name, r) ∈ l -> new_count m' name <= new_count m name + r) -> Q m' h') ->
  rg cfg n Q h (dial_all_p cfg tcp l m h).
Proof.
  revert m h. induction l as [|[host k] l IH]; intros m h D M Hnd Hr HQ; cbn [dial_all_p].
  { apply rg_ret, HQ; try done. intros name r ?%not_elem_of_nil. done. }
  apply NoDup_cons in Hnd as [Hh Hnd]. apply Forall_cons in Hr as [Hk Hr]. simpl in Hh, Hk.
  apply rg_bind, rg_dial_n; [done|done|]. intros m1 h1 O1 D1 M1 Hne Hle. rewrite Z2Nat.id in Hle by done.
  apply IH; [done|done|done|done|]. intros m' h' O' D' M' Hout Hle'. apply HQ; [by etrans|done|done|..].
  - intros name [Hn1 Hn2]%not_elem_of_cons. rewrite Hout by done. by apply Hne.
  - intros name r [[= -> ->]|Hin]%elem_of_cons; [rewrite (new_count_same _ _ _ (Hout host Hh)); lia|].
    assert (name <> host) by (intros ->; apply Hh, list_elem_of_fmap; by exists (host, r)).
    rewrite <- (new_count_same m m1) by auto. auto.
Qed.

Context (cfg_range : 0 < conn_per_roomzin_node cfg < 2 ^ 32).

(** The loops that file. *)
Lemma rg_file_conns l i name nidx free h (Q : unit -> HandlerInner -> Prop) :
  NoDup free -> Forall (newer n) l -> filing cfg name nidx free i l h ->
  (forall h' j, files name h h' -> filing cfg name nidx free j [] h' -> Q tt h') ->
  rg cfg n Q h (file_conns_p i l name nidx free h).
Proof.
  intros Hnd Hnew. revert i h. induction Hnew as [|x l Hx Hnew IH]; intros i h F HQ; cbn [file_conns_p].
  { apply rg_ret, (HQ _ i); [apply files_refl|done]. }
  destruct (filing_step cfg name nidx free i x l h ltac:(lia) Hnd F) as (c & j & -> & Hj & _). rewrite Hj.
  apply rg_bind, rg_await_held; [apply F|]. intros h1 O1 I1. pose proof (others_held _ _ _ O1) as R1.
  apply (filing_held _ _ _ _ _ _ _ _ R1) in F.
  destruct (filing_step cfg name nidx free i (Some c) l h1 ltac:(lia) Hnd F) as (c' & j' & [= <-] & Hj' & F1 & S1).
  simplify_eq. eapply rg_pre; [|apply IH; [exact F1|]].
  - apply segment_tables; [done|]. intros d [Hd|[key Hd]]; [left; by left|].
    simpl in Hd. apply lookup_insert_Some in Hd as [[_ <-]|[_ Hd]]; [by right|]. left. right. eauto.
  - intros h' k S' F'. apply (HQ _ k); [|done]. eapply files_trans; [by eapply held_files|]. by eapply files_trans.
Qed.

Lemma rg_file_nodes l free a h :
  filing_nodes cfg l free a h -> Forall (fun e => Forall (newer n) (snd e)) l ->
  rg cfg n (fun _ => cluster_inv cfg) h (file_nodes_p cfg l free a h).
Proof.
  intros F Hnew. revert free a h F. induction Hnew as [|[name cs] l Hx Hnew IH]; intros free a h F; cbn [file_nodes_p].
  { apply rg_ret, F. }
  apply filing_node in F; [|lia]. destruct (assign_node name free a h) as [[[nidx|] free'] a']; [|by apply IH].
  destruct F as [F Hnext]. apply rg_bind, rg_file_conns; [apply free_conns_NoDup|done|done|].
  intros h' k S' F'. apply IH. by eapply Hnext.
Qed.

Lemma rg_sync_followers fl h :
  done_at h -> rg cfg n (fun _ => cluster_inv cfg) h (sync_followers_p cfg tcp fl h).
Proof.
  intros D. unfold sync_followers_p. apply rg_bind, rg_await; [apply D|]. intros h1 O1 I1.
  pose proof (done_at_others _ _ D O1) as D1.
  destruct (required_conns_spec cfg fl h1 ltac:(lia) I1) as (req & -> & Hreq).
  apply rg_bind, rg_dial_all; [done|by split; intros k l Hl|apply hiter_NoDup|..].
  { apply Forall_forall. intros [k r] Hin%hiter_lookup. by apply Hreq in Hin as [? _]. }
  intros m h2 O2 D2 M2 Hout Hle. apply rg_bind, rg_await; [apply D2|]. intros h3 O3 I3.
  pose proof (dialled_others _ _ _ M2 O3) as [M3 N3]. assert (O : others cfg false h1 h3) by (by etrans).
  pose proof (done_at_others _ _ D2 O3) as D3.
  apply rg_bind, rg_await_held; [done|]. intros h4 O4 I4. pose proof (others_held _ _ _ O4) as R4.
  apply rg_file_nodes.
  - apply (filing_start cfg fl req m h1 h3 h4); try done; apply O.
  - apply Forall_forall. intros [k l] Hin%hiter_lookup. by eapply N3.
Qed.

Lemma rg_set_syncing (Q : unit -> HandlerInner -> Prop) h b p :
  rg cfg n Q (set_syncing h b) p -> rg cfg n Q h p.
Proof. apply rg_pre, segment_tables; auto. Qed.

Lemma rg_sync_tick discover t h :
  done_at h -> rg cfg n (fun _ => cluster_inv cfg) h (sync_tick_p cfg tcp discover t h).
Proof.
  assert (Hs : forall h, done_at h -> rg cfg n (fun _ => cluster_inv cfg) h (sync_with_cluster_p cfg tcp discover h)).
  { clear h. intros h D. unfold sync_with_cluster_p. destruct (syncing h); [by apply rg_ret, D|].
    apply rg_set_syncing with true. apply rg_bind, rg_await; [apply set_syncing_inv, D|]. intros h1 O1 I1.
    assert (D1 : done_at h1) by (split; [done|]; pose proof (ot_next _ _ _ _ O1); destruct D; simpl in *; lia).
    assert (Hend : forall g, cluster_inv cfg g -> rg cfg n (fun _ => cluster_inv cfg) g (Ret (Some (tt, set_syncing g false)))).
    { intros g Ig. apply rg_set_syncing with false, rg_ret. by apply set_syncing_inv. }
    apply rg_bind. destruct (discover _) as [topo|e]; [|by apply rg_ret, Hend].
    apply rg_bind. eapply rg_mono; [|by apply rg_sync_leader]. intros u2 h2 D2.
    eapply rg_mono; [|by apply rg_sync_followers]. intros u3 h3 I3. by apply Hend. }
  intros D. unfold sync_tick_p. destruct t; [|by apply Hs].
  apply rg_bind, rg_await; [apply D|]. intros h1 O1 I1. apply rg_bind, rg_await; [done|]. intros h2 O2 I2.
  assert (D2 : done_at h2) by (eapply done_at_others; [by eapply done_at_others|done]).
  destruct (_ || _); [by apply Hs|by apply rg_ret].
Qed.

End SyncGuarantee.

(** ** Properties *)

Section Properties.
Context `{RQ : Reqwest}.
Context {HF : HashIter (string * Z * Z) nat} {HH : HashIter (string * Z) Z}.
Context {HR : HashIter string Z} {HN : HashIter string (list (option nat))}.
Context (cfg : Config) (tcp : nat -> string -> Result unit io_Error).
Context (discover : nat -> Result ClusterTopology RZError).

(** C8. Wherever a synchronisation is suspended and whatever the other tasks
    then do, in their bounds: it never panics, the invariant of the handler
    holds at every suspension point and at the end, the store keeps all its
    connections and oneshots, and no connection that existed before enters
    the tables. *)
Theorem sync_contract t h :
  0 < conn_per_roomzin_node cfg < 2 ^ 32 -> cluster_inv cfg h ->
  rg cfg (next_conn (net h)) (fun _ => cluster_inv cfg) h (sync_tick_p cfg tcp discover t h).
Proof. intros Hn I. apply rg_sync_tick; [done|by split]. Qed.

End Properties.

#[local] Existing Instance reqwest_text.
#[local] Instance steps_history_order : HashIter (string * Z) Z := list_order (string * Z) Z.
#[local] Instance steps_followers_order : HashIter (string * Z * Z) nat := list_order (string * Z * Z) nat.
#[local] Instance steps_required_order : HashIter string Z := list_order string Z.
#[local] Instance steps_new_order : HashIter string (list (option nat)) := list_order string (list (option nat)).

Lemma sync_contract_witness :
  exists h k, sync_tick_p run_cfg run_all run_topo Fast run_new = Susp false h k /\ cluster_inv run_cfg h.
Proof.
  pose proof (sync_contract run_cfg run_all run_topo Fast run_new run_range run_inv) as Hc.
  assert (Ht : match sync_tick_p run_cfg run_all run_topo Fast run_new with Susp false _ _ => true | _ => false end = true)
    by (vm_compute; reflexivity).
  destruct (sync_tick_p run_cfg run_all run_topo Fast run_new) as [r|[] h k]; [discriminate|discriminate|].
  exists h, k. split; [reflexivity|exact (proj1 (proj2 Hc))].
Defined.
