(* ===== verification/Execute.v ===== *)
(** * [cluster_handler.rs], [execute]: a request to the cluster

    [execute] is a loop with a suspension point at each [.await]: [exec_step]
    is what it does from one to the next, the phases are where it stands.  A
    choice of leader is one step, under the locks it holds throughout; a read's
    search for a follower is the number of nodes, read under the load balancer's
    mutex, and then one step per iteration ([follower_turn]).  The second look
    at [is_closed], the registration and the sending are steps of their own. *)

From S2P Require Import Prelude RustStd Error Config Protocol Demux Connection LoadBalancer Topology.
From S2P Require Import ClusterSync ClusterProps.
Local Open Scope Z_scope.

(** ** One request *)

(** What the request registered last: connection, correlation id, oneshot. *)
Abbreviation Registration := (nat * Z * nat)%type (only parsing).

Section Execute.
Context `{RQ : Reqwest}.

Inductive Phase :=
| Picking                        (* at the top of the loop *)
| Scanning (n : nat)             (* a read, [n] iterations from the end of its search *)
| Chosen (c : nat)               (* the selection returned [c] *)
| Storing (now : Z)              (* the frame is patched, the oneshot not yet in the map *)
| Sending                        (* registered, the frame not yet queued *)
| Waiting                        (* on the oneshot *)
| Sleeping (d : Duration)
| Done (res : Result bytes RZError).

Record Exec := mkExec {
  is_write : bool;
  shard_frame_buf : bytes;       (* [shard_frame], patched in place *)
  original_clrid : Z;
  attempts : Z;
  registered : option (nat * Z * nat);
  phase : Phase
}.

Definition set_phase (e : Exec) p := mkExec (is_write e) (shard_frame_buf e) (original_clrid e) (attempts e) (registered e) p.

(** The entry of [execute]: validation and the original id. *)
Definition exec_start (write : bool) (frame : bytes) : option Exec :=
  let invalid := Some (mkExec write frame 0 0 None (Done (Err (Validation "invalid shard frame")))) in
  if zlen frame <? 9 then invalid else
  first ← frame.[0];
  if negb (bool_decide (first = xff)) then invalid else
  clr ← frame.[1; 5];
  Some (mkExec write frame (le_val clr) 0 None Picking).

(** [attempts += 1], then give up with [err] or sleep. *)
Definition exec_fail (err : RZError) (e : Exec) : Exec :=
  let n := attempts e + 1 in
  mkExec (is_write e) (shard_frame_buf e) (original_clrid e) n (registered e)
    (if 3 <=? n then Done (Err err) else Sleeping (from_millis (50 * (n + 1)))).

(** The client's id back in the response. *)
Definition restore_clrid (original : Z) (response : bytes) : option bytes :=
  if 9 <=? zlen response then patch response 1 (le_bytes 4 original) else Some response.

Inductive Outcome :=
| Moves (e : Exec) (h : HandlerInner)
| Blocked
| Panicked.

Definition moves (m : option (Exec * HandlerInner)) : Outcome :=
  match m with Some (e, h) => Moves e h | None => Panicked end.

Context {HD : HashIter Z (nat * Z)} {HH : HashIter (string * Z) Z} (clock : nat -> Z) (cfg : Config).

(** [NoLeaderAvailable] for a write, [NoFollowerNodeAvailable] for a read. *)
Definition no_conn (e : Exec) : RZError := if is_write e then NoLeaderAvailable else NoFollowerNodeAvailable.

(** The top of the loop: a write calls [next_leader_conn]; a read begins
    [next_follower_conn], which takes the number of nodes. *)
Definition exec_pick (e : Exec) (h : HandlerInner) : option (Exec * HandlerInner) :=
  if is_write e then
    '(conn, h) ← next_leader_conn clock cfg h;
    match conn with
    | Some c => Some (set_phase e (Chosen c), h)
    | None => Some (exec_fail (no_conn e) e, h)
    end
  else Some (set_phase e (Scanning (size (follower_history (load_balancer h)))), h).

(** The next iteration of a read's search, or its end. *)
Definition exec_scan (n : nat) (e : Exec) (h : HandlerInner) : option (Exec * HandlerInner) :=
  match n with
  | O => Some (exec_fail (no_conn e) e, h)
  | S k =>
      '(conn, h) ← follower_turn clock cfg h;
      match conn with
      | Some c => Some (set_phase e (Chosen c), h)
      | None => Some (set_phase e (Scanning k), h)
      end
  end.

(** If the connection is still open: take a correlation id, patch the frame,
    create the oneshot and read the clock. *)
Definition exec_chosen (c : nat) (e : Exec) (h : HandlerInner) : option (Exec * HandlerInner) :=
  if negb (is_closed c (net h)) then
    '(new_clrid, st) ← next_corr_id c (net h);
    frame ← patch (shard_frame_buf e) 1 (le_bytes 4 new_clrid);
    let '(tx, st) := oneshot_channel st in
    let '(now, st) := instant_now clock st in
    Some (mkExec (is_write e) frame (original_clrid e) (attempts e) (Some (c, new_clrid, tx)) (Storing now),
          set_net h st (awaits h))
  else Some (exec_fail (no_conn e) e, h).

Definition exec_step (e : Exec) (h : HandlerInner) : Outcome :=
  match phase e, registered e with
  | Picking, _ => moves (exec_pick e h)
  | Scanning n, _ => moves (exec_scan n e h)
  | Chosen c, _ => moves (exec_chosen c e h)
  | Storing now, Some (c, new_clrid, tx) =>
      Moves (set_phase e Sending) (set_net h (demux_store c new_clrid tx now (net h)) (awaits h))
  | Sending, Some (c, _, _) =>
      match send_raw c (shard_frame_buf e) (net h) with
      | Some (Sent, st) => Moves (set_phase e Waiting) (set_net h st (awaits h))
      | Some (SendErr, st) => Moves (exec_fail Timeout e) (set_net h st (awaits h))
      | Some (SendPending, _) => Blocked
      | None => Panicked
      end
  | Waiting, Some (_, _, rx) =>
      match shots (net h) !! rx with
      | Some (Value response) =>
          match restore_clrid (original_clrid e) response with
          | Some b => Moves (set_phase e (Done (Ok b))) h
          | None => Panicked
          end
      | Some SenderDropped => Moves (exec_fail Timeout e) h
      | Some Empty => Blocked
      | None => Panicked
      end
  | Sleeping _, _ => Moves (set_phase e Picking) h
  | _, _ => Blocked
  end.

End Execute.

(** ** Lemmas: rewriting the id of a frame *)

(** The same but for the id, bytes 1 to 4. *)
Definition same_frame (b b' : bytes) : Prop := zlen b' = zlen b /\ head b' = head b /\ drop 5 b' = drop 5 b.

Lemma same_frame_refl b : same_frame b b.
Proof. done. Qed.

Lemma same_frame_trans a b c : same_frame a b -> same_frame b c -> same_frame a c.
Proof. intros (? & ? & ?) (? & ? & ?). split_and!; congruence. Qed.

Lemma patch_same_frame b id b' : zlen id = 4 -> patch b 1 id = Some b' -> same_frame b b' /\ b'.[1; 5] = Some id.
Proof.
  intros Hid Hp. pose proof (patch_bounds _ _ _ _ Hp) as Hl. pose proof (patch_slice _ _ _ _ Hp) as Hs.
  rewrite Hid in Hl, Hs. split; [|exact Hs].
  destruct b as [|b0 [|b1 [|b2 [|b3 [|b4 b]]]]]; try (exfalso; clear -Hl; unfold zlen in Hl; simpl in Hl; lia).
  destruct id as [|i0 [|i1 [|i2 [|i3 [|]]]]]; try (exfalso; clear -Hid; unfold zlen in Hid; simpl in Hid; lia).
  pose proof (patch_mid [b0] [b1; b2; b3; b4] b [i0; i1; i2; i3] 1 eq_refl eq_refl) as Hm.
  change ([b0] ++ [b1; b2; b3; b4] ++ b) with (b0 :: b1 :: b2 :: b3 :: b4 :: b) in Hm. simplify_eq. done.
Qed.

Lemma restore_spec orig v b :
  restore_clrid orig v = Some b ->
  same_frame v b /\ (9 <= zlen v -> b.[1; 5] = Some (le_bytes 4 orig)) /\ (zlen v < 9 -> b = v).
Proof.
  unfold restore_clrid. destruct (Z.leb_spec 9 (zlen v)) as [H9|H9].
  - intros [Hf Hs]%patch_same_frame; [|zl]. split_and!; [done|done|lia].
  - intros [= <-]. split_and!; [done|lia|done].
Qed.
