(* ===== verification/System.v ===== *)
(** * The bridge as a system: requests, connections, synchronisation

    [Sys] holds the handler's state, the requests in progress, the connections
    whose read loop has ended, the responses read so far (connection,
    correlation id, frame), the synchronisation where it is suspended, with
    whether it holds the write guard of the follower table there, and the
    frames queued so far.
    [sys_step] interleaves the steps of the requests ([Execute.v]), of the read
    and write loops ([Connection.v]) and of [sync_task] ([SyncSteps.v]), which
    goes from one suspension point to the next. *)

From S2P Require Import Prelude RustStd Error Config Protocol Demux Connection LoadBalancer Topology.
From S2P Require Import ClusterSync ClusterProps SyncSteps Execute.
Local Open Scope Z_scope.

Section System.
Context `{RQ : Reqwest}.
Context {HF : HashIter (string * Z * Z) nat} {HH : HashIter (string * Z) Z}.
Context {HR : HashIter string Z} {HN : HashIter string (list (option nat))} {HD : HashIter Z (nat * Z)}.
Context (cfg : Config) (tcp : nat -> string -> Result unit io_Error).
Context (discover : nat -> Result ClusterTopology RZError) (clock : nat -> Z).

Record Sys := mkSys {
  hd : HandlerInner;
  tasks : gmap nat Exec;
  ended : gset nat;                    (* connections whose read loop has ended *)
  responses : list (nat * Z * bytes);  (* what the read loops read *)
  syncer : option (bool * (HandlerInner -> Prog unit));  (* the synchronisation, if it is suspended *)
  sends : list (nat * bytes)           (* what the requests have queued so far *)
}.

Definition sys_new : Sys := mkSys (handler_new cfg) ∅ ∅ [] None [].

Definition set_hd (s : Sys) h := mkSys h (tasks s) (ended s) (responses s) (syncer s) (sends s).
Definition set_task (s : Sys) t e := mkSys (hd s) (<[t := e]> (tasks s)) (ended s) (responses s) (syncer s) (sends s).

(** The request [t] went from [e] to [e']; if that queued its frame, it is
    recorded. *)
Definition sends_of (e e' : Exec) : list (nat * bytes) :=
  match phase e, phase e', registered e with
  | Sending, Waiting, Some (c, _, _) => [(c, shard_frame_buf e)]
  | _, _, _ => []
  end.

Definition exec_to (s : Sys) (t : nat) (e e' : Exec) (h' : HandlerInner) : Sys :=
  mkSys h' (<[t := e']> (tasks s)) (ended s) (responses s) (syncer s) (sends_of e e' ++ sends s).

Definition set_store (h : HandlerInner) (st : Store) : HandlerInner := set_net h st (awaits h).

(** The read loop of [c] got a frame: its effect on the connection and on the
    waiting request. *)
Definition deliver (c : nat) (ci : ConnectionInner) (out : option (nat * bytes)) (st : Store) : Store :=
  let st := on_conn c (fun _ => ci) st in
  match out with Some (tx, payload) => send_shot tx payload st | None => st end.

(** The synchronisation ran to the end of a segment; [None] is a panic. *)
Definition settle (s : Sys) (p : Prog unit) : option Sys :=
  match p with
  | Ret None => None
  | Ret (Some (_, h)) => Some (mkSys h (tasks s) (ended s) (responses s) None (sends s))
  | Susp b h k => Some (mkSys h (tasks s) (ended s) (responses s) (Some (b, k)) (sends s))
  end.

(** A read waits for the guard: the iteration of its search locks the follower
    table, unless the next index belongs to no node. *)
Definition guarded (s : Sys) : bool := match syncer s with Some (b, _) => b | None => false end.
Definition waits_guard (s : Sys) (e : Exec) : bool :=
  match phase e with
  | Scanning (S _) => guarded s && bool_decide (is_Some (node_of (hd s) (first_node (hd s))))
  | _ => false
  end.

Inductive sys_step : Sys -> Sys -> Prop :=
| sys_start s t w frame e :
    tasks s !! t = None -> exec_start w frame = Some e -> sys_step s (set_task s t e)
| sys_exec s t e e' h' :
    tasks s !! t = Some e -> waits_guard s e = false -> exec_step clock cfg e (hd s) = Moves e' h' ->
    sys_step s (exec_to s t e e' h')
| sys_read s c ci hdr frame go ci' out :
    c ∉ ended s -> conns (net (hd s)) !! c = Some ci ->
    read_loop_step hdr frame ci = Some (go, ci', out) ->
    sys_step s (mkSys (set_store (hd s) (deliver c ci' out (net (hd s)))) (tasks s)
      (if (go : bool) then ended s else {[c]} ∪ ended s) ((c, clr_id hdr, frame) :: responses s) (syncer s) (sends s))
| sys_read_end s c :
    c ∉ ended s -> is_Some (conns (net (hd s)) !! c) ->
    sys_step s (mkSys (set_store (hd s) (close c (net (hd s)))) (tasks s) ({[c]} ∪ ended s) (responses s) (syncer s) (sends s))
| sys_write s c ci ok frame ci' :
    conns (net (hd s)) !! c = Some ci -> write_loop_step ok ci = Some (frame, ci') ->
    sys_step s (set_hd s (set_store (hd s) (on_conn c (fun _ => ci') (net (hd s)))))
| sys_tick s t s' :         (* a timer of [sync_task] fires *)
    is_Some (sync_task_start cfg) -> syncer s = None -> settle s (sync_tick_p cfg tcp discover t (hd s)) = Some s' -> sys_step s s'
| sys_resume s b k s' :     (* what the synchronisation awaited is there *)
    syncer s = Some (b, k) -> settle s (k (hd s)) = Some s' -> sys_step s s'.

End System.

(** An entry leaves a correlation map only when its request is told: what is
    still waiting is still registered. *)
Definition keeps_entries (st st' : Store) : Prop :=
  forall c ci k tx ts, conns st !! c = Some ci -> demux ci !! k = Some (tx, ts) -> shots st' !! tx = Some Empty ->
    exists ci', conns st' !! c = Some ci' /\ demux ci' !! k = Some (tx, ts).

(** ** Lemmas: what a selection does to the store

    It cleans up correlation maps of connections in the tables: entries leave,
    and their requests get the empty response. *)
Record cleans (T : nat -> Prop) (st st' : Store) : Prop := {
  cl_same : same_conns st st';
  cl_demux : forall c ci', conns st' !! c = Some ci' ->
    exists ci, conns st !! c = Some ci /\ demux ci' ⊆ demux ci;
  cl_next_shot : next_shot st' = next_shot st;
  cl_shots : forall s, shots st' !! s = shots st !! s
    \/ (shots st !! s = Some Empty /\ shots st' !! s = Some (Value [])
        /\ exists c ci k ts, T c /\ conns st !! c = Some ci /\ demux ci !! k = Some (s, ts));
  cl_entries : keeps_entries st st'
}.

Record sel_effect (h h' : HandlerInner) : Prop := {
  sel_cleans : cleans (fun c => in_tables c h) (net h) (net h');
  sel_tables : forall c, in_tables c h' -> in_tables c h;
  sel_awaits : awaits h' = awaits h
}.

Lemma cleans_refl T st : cleans T st st.
Proof. split; [done|intros c ci Hc; eauto|done|auto|intros c ci k tx ts Hc Hk _; eauto]. Qed.

Lemma cleans_mono (T T' : nat -> Prop) st st' : (forall c, T c -> T' c) -> cleans T st st' -> cleans T' st st'.
Proof.
  intros HT [S D N X E]. split; try done. intros s. destruct (X s) as [|(? & ? & c & ci & k & ts & ? & ?)]; [auto|].
  right. split_and!; try done. exists c, ci, k, ts. auto.
Qed.

Lemma cleans_trans T a b c : cleans T a b -> cleans T b c -> cleans T a c.
Proof.
  intros [S1 D1 N1 X1 E1] [S2 D2 N2 X2 E2]. split; [by etrans| |congruence| |].
  - intros r ci (ci1 & H1 & Hs1)%D2. destruct (D1 _ _ H1) as (ci0 & H0 & Hs0). exists ci0. split; [done|by etrans].
  - intros s. destruct (X2 s) as [->|(M2 & V2 & r & ci & k & ts & HT & Hr & Hk)]; [apply X1|].
    destruct (X1 s) as [He|(_ & V1 & _)]; [|congruence]. right. rewrite <- He. split_and!; [done|done|].
    destruct (D1 _ _ Hr) as (ci0 & H0 & Hs0). exists r, ci0, k, ts. split_and!; [done|done|by eapply lookup_weaken].
  - intros r ci k tx ts Hr Hk He. assert (Hb : shots b !! tx = Some Empty).
    { destruct (X2 tx) as [<-|(_ & Hv & _)]; [done|congruence]. }
    destruct (E1 _ _ _ _ _ Hr Hk Hb) as (ci1 & H1 & Hk1). by apply (E2 _ _ _ _ _ H1 Hk1).
Qed.

Lemma send_shot_foldl (l : list nat) st s :
  let st' := foldl (fun st s => send_shot s [] st) st l in
  next_shot st' = next_shot st
  /\ (shots st' !! s = shots st !! s \/ (s ∈ l /\ shots st !! s = Some Empty /\ shots st' !! s = Some (Value []))).
Proof.
  revert st. induction l as [|x l IH]; intros st; simpl; [auto|].
  destruct (IH (send_shot x [] st)) as [-> Hs]. split; [done|].
  assert (Hx : shots (send_shot x [] st) !! s = (if decide (x = s) then shot_send [] <$> shots st !! s else shots st !! s)).
  { simpl. case_decide as Hd; [subst; apply lookup_alter_eq|by apply lookup_alter_ne]. }
  rewrite Hx in Hs. case_decide as Hd.
  - subst x. destruct (shots st !! s) as [[| |]|] eqn:Es; simpl in Hs.
    + right. split; [set_solver|]. split; [done|]. destruct Hs as [->|(_ & ? & _)]; done.
    + destruct Hs as [->|(_ & ? & _)]; [by left|done].
    + destruct Hs as [->|(_ & ? & _)]; [by left|done].
    + destruct Hs as [->|(_ & ? & _)]; [by left|done].
  - destruct Hs as [->|(? & ? & ?)]; [by left|]. right. set_solver.
Qed.

Lemma send_shot_foldl_value l st s :
  s ∈ l -> shots st !! s = Some Empty ->
  shots (foldl (fun st s => send_shot s [] st) st l) !! s = Some (Value []).
Proof.
  assert (Hkeep : forall l st, shots st !! s = Some (Value []) ->
    shots (foldl (fun st s => send_shot s [] st) st l) !! s = Some (Value [])).
  { clear. induction l as [|x l IH]; intros st Hs; simpl; [done|]. apply IH. simpl.
    destruct (decide (x = s)) as [->|]; [by rewrite lookup_alter_eq, Hs|by rewrite lookup_alter_ne]. }
  revert st. induction l as [|x l IH]; intros st Hin Hs; [set_solver|]. simpl.
  destruct (decide (x = s)) as [->|Hne]; [apply Hkeep; simpl; by rewrite lookup_alter_eq, Hs|].
  apply IH; [set_solver|]. simpl. by rewrite lookup_alter_ne.
Qed.

Lemma demux_cleanup_cleans clock {HD : HashIter Z (nat * Z)} r age st st' :
  demux_cleanup clock r age st = Some st' -> cleans (eq r) st st'.
Proof.
  intros Hd0. pose proof (demux_cleanup_same clock r age st st' Hd0) as Hsame. revert Hd0 Hsame. unfold demux_cleanup.
  destruct (conns st !! r) as [ci|] eqn:Er; [|intros [= <-] _; apply cleans_refl]. simpl.
  destruct (cleanup (clock (ticks st)) age (demux ci)) as [[d sent]|] eqn:Ecl; [|done]. intros [= <-].
  pose proof (fun k => cleanup_lookup _ _ _ _ _ k Ecl) as Hl. pose proof (fun k => cleanup_sent _ _ _ _ _ k Ecl) as Hsent.
  set (st1 := on_conn r _ _). intros Hsame.
  assert (Hsub : d ⊆ demux ci).
  { apply map_subseteq_spec. intros k v. rewrite Hl. destruct (demux ci !! k) as [[tx t]|]; [|done]. by zcase. }
  split; [exact Hsame| |apply (send_shot_foldl sent st1 0)| |].
  - intros c ci'. rewrite foldl_send_shot_conns. simpl. destruct (decide (r = c)) as [->|Hne].
    + rewrite lookup_alter_eq, Er. intros [= <-]. exists ci. by split.
    + rewrite lookup_alter_ne by done. eauto.
  - intros s. destruct (send_shot_foldl sent st1 s) as [_ [Hs|(Hin & He & Hv)]]; [by left|right].
    split_and!; [done|done|]. apply Hsent in Hin as (k & t & Hk & _). exists r, ci, k, t. done.
  - intros c cc k tx ts Hc Hk He. rewrite foldl_send_shot_conns. simpl. destruct (decide (r = c)) as [->|Hne].
    + rewrite lookup_alter_eq, Hc. eexists. split; [done|]. simpl. simplify_eq. rewrite Hl, Hk. zcase; [|done].
      exfalso. assert (Hin : tx ∈ sent) by (apply Hsent; eauto).
      destruct (send_shot_foldl sent st1 tx) as [_ [Hs|(_ & _ & Hv)]]; [|congruence]. rewrite He in Hs.
      rewrite (send_shot_foldl_value sent st1 tx Hin) in He by done. done.
    + rewrite lookup_alter_ne by done. eauto.
Qed.

Section Selections.
Context {HD : HashIter Z (nat * Z)} {HH : HashIter (string * Z) Z} (clock : nat -> Z) (cfg : Config).

Lemma sel_effect_refl h : sel_effect h h.
Proof. split; [apply cleans_refl|done|done]. Qed.

Lemma sel_effect_trans a b c : sel_effect a b -> sel_effect b c -> sel_effect a c.
Proof.
  intros [C1 T1 A1] [C2 T2 A2]. split; [|auto|congruence]. eapply cleans_trans; [exact C1|]. by eapply cleans_mono; [|exact C2].
Qed.

Lemma cleanup_conn_effect c h h' : in_tables c h -> cleanup_conn clock cfg c h = Some h' -> sel_effect h h'.
Proof.
  intros Hc (st & Hs & ->)%cleanup_conn_Some. split; [|done|done].
  eapply cleans_mono; [|by eapply demux_cleanup_cleans]. by intros ? <-.
Qed.

Lemma sel_effect_closed h h' c : sel_effect h h' -> is_closed c (net h') = is_closed c (net h).
Proof. intros [[S _ _ _ _] _ _]. by apply same_conns_is_closed. Qed.

(** What a selection does; the connection it returns is open and in the tables. *)
Lemma leader_scan_effect m next h res h' :
  leader_scan clock cfg m next h = Some (res, h') ->
  sel_effect h h' /\ forall c, res = Some c ->
    is_closed c (net h) = false /\ exists i, leader_conns h !! i = Some (Some c).
Proof.
  revert next h. induction m as [|m IH]; intros next h; cbn [leader_scan].
  { intros [= <- <-]. split; [apply sel_effect_refl|done]. }
  destruct (mjoin _) as [c|] eqn:Ec; [|apply IH].
  assert (Hc : leader_conns h !! Z.to_nat next = Some (Some c))
    by (destruct (leader_conns h !! Z.to_nat next) as [[d|]|]; simplify_eq/=; done).
  destruct (is_closed c (net h)) eqn:Eo.
  - destruct (cleanup_conn clock cfg c h) as [h1|] eqn:E1; [|done]. cbn [mbind option_bind]. intros [E Hsrc]%IH.
    assert (E0 : sel_effect h h1) by (eapply cleanup_conn_effect; [|exact E1]; left; eauto).
    pose proof (cleanup_conn_Some _ _ _ _ _ E1) as (st & _ & ->). split; [by eapply sel_effect_trans|].
    intros d Hd%Hsrc. by rewrite (sel_effect_closed _ _ d E0) in Hd.
  - intros [= <- <-]. split; [by split; [apply cleans_refl|..]|]. intros d [= <-]. eauto.
Qed.

Lemma next_leader_conn_effect h res h' :
  next_leader_conn clock cfg h = Some (res, h') ->
  sel_effect h h' /\ forall c, res = Some c ->
    is_closed c (net h) = false /\ exists i, leader_conns h !! i = Some (Some c).
Proof.
  unfold next_leader_conn. destruct (_ || _); [|apply leader_scan_effect].
  intros [= <- <-]. split; [apply sel_effect_refl|done].
Qed.

Lemma node_scan_effect m name nidx next h res h' :
  node_scan clock cfg m name nidx next h = Some (res, h') ->
  sel_effect h h' /\ forall c, res = Some c ->
    is_closed c (net h) = false /\ exists key, followers h !! key = Some c.
Proof.
  revert next h. induction m as [|m IH]; intros next h; cbn [node_scan].
  { intros [= <- <-]. split; [apply sel_effect_refl|done]. }
  destruct (followers h !! _) as [c|] eqn:Ec; [|apply IH]. destruct (is_closed c (net h)) eqn:Eo.
  - destruct (cleanup_conn clock cfg c h) as [h1|] eqn:E1; [|done]. cbn [mbind option_bind]. intros [E Hsrc]%IH.
    pose proof (cleanup_conn_effect _ _ _ (or_intror (ex_intro _ _ Ec)) E1) as E2.
    apply cleanup_conn_Some in E1 as (st & _ & ->). split.
    + eapply sel_effect_trans; [|exact E]. eapply sel_effect_trans; [exact E2|].
      split; [apply cleans_refl| |done]. intros d [Hd|[key Hd]]; [by left|]. right.
      simpl in Hd. apply lookup_delete_Some in Hd as [_ Hd]. eauto.
    + intros d [Ho [key Hk]]%Hsrc. simpl in Hk. apply lookup_delete_Some in Hk as [_ Hk].
      change (is_closed d (net (set_net h st (awaits h))) = false) in Ho.
      rewrite (sel_effect_closed _ _ d E2) in Ho. eauto.
  - intros [= <- <-]. split; [by split; [apply cleans_refl|..]|]. intros d [= <-]. eauto.
Qed.

Lemma follower_turn_effect h res h' :
  follower_turn clock cfg h = Some (res, h') ->
  sel_effect h h' /\ forall c, res = Some c ->
    is_closed c (net h) = false /\ exists key, followers h !! key = Some c.
Proof.
  unfold follower_turn. cbv zeta. set (h1 := set_lb h _).
  assert (E1 : sel_effect h h1) by (by split; [apply cleans_refl|..]).
  destruct (List.find _ _) as [[[name nidx] v]|]; [|by intros [= <- <-]].
  intros [E2 Hsrc]%node_scan_effect. split; [by eapply sel_effect_trans|done].
Qed.

End Selections.

(** ** Lemmas: steps of the store

    What every step respects: registrations stay unique, and a oneshot gets a
    value only from [cleanup] (the empty one) or from a frame read under the
    id it is registered with.  An entry that was not there is for a oneshot made
    in the step, or is the one a request is about to register, [N]. *)
Record sstep_of (N : nat -> Z -> nat -> Prop) (log : list (nat * Z * bytes)) (st st' : Store) : Prop := {
  ss_net : net_le st st';
  ss_alloc : alloc_ok st -> alloc_ok st';
  ss_next : (next_shot st <= next_shot st')%nat;
  ss_shot : forall tx, is_Some (shots st !! tx) -> is_Some (shots st' !! tx);
  ss_demux : forall c ci' k tx ts, conns st' !! c = Some ci' -> demux ci' !! k = Some (tx, ts) ->
    (exists ci, conns st !! c = Some ci /\ demux ci !! k = Some (tx, ts))
    \/ (next_shot st <= tx < next_shot st')%nat \/ N c k tx;
  ss_value : forall tx v, (tx < next_shot st)%nat -> shots st' !! tx = Some (Value v) ->
    shots st !! tx = Some (Value v) \/ v = []
    \/ exists c ci k ts, conns st !! c = Some ci /\ demux ci !! k = Some (tx, ts) /\ (c, k, v) ∈ log;
  ss_next_conn : (next_conn st <= next_conn st')%nat;
  ss_keep : forall tx v, (tx < next_shot st)%nat -> shots st !! tx = Some (Value v) -> shots st' !! tx = Some (Value v)
}.

Abbreviation sstep := (sstep_of (fun _ _ _ => False)).

(** Every registered oneshot exists. *)
Definition demux_ok (st : Store) : Prop :=
  forall c ci k tx ts, conns st !! c = Some ci -> demux ci !! k = Some (tx, ts) -> (tx < next_shot st)%nat.

(** A registration: one place only, and only the answer to it. *)
Record reg_ok (log : list (nat * Z * bytes)) (st : Store) (c : nat) (k : Z) (tx : nat) : Prop := {
  reg_lt : (tx < next_shot st)%nat;
  reg_shot : is_Some (shots st !! tx);
  reg_conn : is_Some (conns st !! c);
  reg_only : forall c' ci' k' ts, conns st !! c' = Some ci' -> demux ci' !! k' = Some (tx, ts) -> c' = c /\ k' = k;
  reg_value : forall v, shots st !! tx = Some (Value v) -> v = [] \/ (c, k, v) ∈ log
}.

Lemma sstep_refl N log st : sstep_of N log st st.
Proof. split; [apply net_le_refl|done|lia|done|intros; left; eauto|auto|lia|done]. Qed.

Lemma sstep_any N log st st' : sstep log st st' -> sstep_of N log st st'.
Proof. intros [A B C D E F G I]. split; try done. intros c ci' k tx ts Hc Hk. destruct (E _ _ _ _ _ Hc Hk) as [?|[?|[]]]; auto. Qed.

Lemma sstep_demux_ok N log st st' :
  (forall c k tx, N c k tx -> (tx < next_shot st)%nat) -> sstep_of N log st st' -> demux_ok st -> demux_ok st'.
Proof.
  intros HN S D c ci k tx ts Hc Hk. pose proof (ss_next _ _ _ _ S).
  destruct (ss_demux _ _ _ _ S _ _ _ _ _ Hc Hk) as [(ci0 & H0 & Hk0)|[?|HNc]]; [|lia|apply HN in HNc; lia].
  pose proof (D _ _ _ _ _ H0 Hk0). lia.
Qed.

Lemma sstep_reg_ok N log log' st st' c k tx :
  (forall x, x ∈ log -> x ∈ log') -> (forall c' k', N c' k' tx -> c' = c /\ k' = k) ->
  sstep_of N log' st st' -> reg_ok log st c k tx -> reg_ok log' st' c k tx.
Proof.
  intros HL HN S [L X C O V]. pose proof (ss_next _ _ _ _ S). split.
  - lia.
  - by apply (ss_shot _ _ _ _ S).
  - by eapply net_le_alloc; [apply S|].
  - intros c' ci' k' ts Hc Hk. destruct (ss_demux _ _ _ _ S _ _ _ _ _ Hc Hk) as [(ci0 & H0 & Hk0)|[?|?]]; [by eapply O|lia|auto].
  - intros v Hv. destruct (ss_value _ _ _ _ S _ _ L Hv) as [Hs|[->|(c' & ci' & k' & ts & Hc & Hk & Hin)]]; [|by left|].
    + destruct (V _ Hs); auto.
    + right. by destruct (O _ _ _ _ Hc Hk) as [-> ->].
Qed.

Lemma cleans_sstep log T st st' : cleans T st st' -> sstep log st st'.
Proof.
  intros [S D N X _]. split.
  - by apply same_conns_net_le.
  - by apply same_conns_alloc.
  - lia.
  - intros tx Hx. destruct (X tx) as [->|(_ & -> & _)]; eauto.
  - intros c ci' k tx ts Hc Hk. destruct (D _ _ Hc) as (ci & Hci & Hsub). left. exists ci. split; [done|].
    by eapply lookup_weaken.
  - intros tx v _ Hv. destruct (X tx) as [He|(_ & Hv' & _)]; [rewrite He in Hv; by left|].
    right. left. congruence.
  - by rewrite (same_next _ _ S).
  - intros tx v _ Hv. destruct (X tx) as [->|(He & _)]; [done|congruence].
Qed.

Lemma extends_sstep log st st' : alloc_ok st' -> extends st st' -> sstep log st st'.
Proof.
  intros A [C F S N X]. split; [|done|lia|by intros tx; rewrite S| | |lia|by intros tx v _; rewrite S].
  - intros c ci Hc. exists ci. split; [by eapply lookup_weaken|done].
  - intros c ci' k tx ts Hc Hk. destruct (F _ _ Hc) as [Hc'|[_ Hd]]; [by left; eauto|].
    rewrite Hd in Hk. by rewrite lookup_empty in Hk.
  - intros tx v _. rewrite S. auto.
Qed.

(** Rewriting one connection, keeping its address and registering nothing. *)
Lemma on_conn_sstep log c ci ci' st :
  conns st !! c = Some ci -> addr ci' = addr ci -> (closed ci = true -> closed ci' = true) ->
  demux ci' ⊆ demux ci -> sstep log st (on_conn c (fun _ => ci') st).
Proof.
  intros Hc Ha Hcl Hd. split; simpl.
  - intros r cr Hr. destruct (decide (c = r)) as [->|Hne].
    + exists ci'. simpl. rewrite lookup_alter_eq, Hc. simplify_eq. done.
    + exists cr. simpl. by rewrite lookup_alter_ne.
  - intros A r. simpl. destruct (decide (c = r)) as [->|Hne]; [|rewrite lookup_alter_ne by done; apply A].
    intros _. apply A. eauto.
  - lia.
  - done.
  - intros r cr k tx ts. destruct (decide (c = r)) as [->|Hne].
    + rewrite lookup_alter_eq, Hc. intros [= <-] Hk. left. exists ci. split; [done|by eapply lookup_weaken].
    + rewrite lookup_alter_ne by done. eauto.
  - auto.
  - done.
  - done.
Qed.

Lemma on_conn_const f c ci st : conns st !! c = Some ci -> on_conn c f st = on_conn c (fun _ => f ci) st.
Proof.
  intros Hc. unfold on_conn, set_conns. f_equal. apply map_eq. intros r.
  destruct (decide (c = r)) as [->|Hne]; [by rewrite !lookup_alter_eq, Hc|by rewrite !lookup_alter_ne].
Qed.

Lemma alter_value (f : Oneshot -> Oneshot) s (m : gmap nat Oneshot) tx v :
  f (Value v) = Value v -> m !! tx = Some (Value v) -> alter f s m !! tx = Some (Value v).
Proof.
  intros Hf Hm. destruct (decide (s = tx)) as [->|Hne]; [|by rewrite lookup_alter_ne].
  rewrite lookup_alter_eq, Hm. simpl. by rewrite Hf.
Qed.

Lemma send_shot_sstep log s v st :
  (v = [] \/ exists c ci k ts, conns st !! c = Some ci /\ demux ci !! k = Some (s, ts) /\ (c, k, v) ∈ log) ->
  sstep log st (send_shot s v st).
Proof.
  intros Hv. split; simpl; [intros c ci Hc; exists ci; done|intros A; exact A|lia| |intros; left; eauto| |done|].
  - intros tx Hx. destruct (decide (s = tx)) as [->|Hne]; [|by rewrite lookup_alter_ne].
    rewrite lookup_alter_eq. by apply fmap_is_Some.
  - intros tx w _. destruct (decide (s = tx)) as [->|Hne]; [|rewrite lookup_alter_ne by done; auto].
    rewrite lookup_alter_eq. destruct (shots st !! tx) as [[| |]|]; simpl; intros [= <-]; [|by left].
    destruct Hv as [->|Hv]; [auto|]. right. right. done.
  - intros tx w _. by apply alter_value.
Qed.

Lemma drop_shot_sstep log s st : sstep log st (drop_shot s st).
Proof.
  split; simpl; [intros c ci Hc; exists ci; done|intros A; exact A|lia| |intros; left; eauto| |done|].
  - intros tx Hx. destruct (decide (s = tx)) as [->|Hne]; [|by rewrite lookup_alter_ne].
    rewrite lookup_alter_eq. by apply fmap_is_Some.
  - intros tx w _. destruct (decide (s = tx)) as [->|Hne]; [|rewrite lookup_alter_ne by done; auto].
    rewrite lookup_alter_eq. destruct (shots st !! tx) as [[| |]|]; simpl; intros [= <-]; by left.
  - intros tx w _. by apply alter_value.
Qed.

Lemma read_loop_step_inv hdr frame ci go ci' out :
  read_loop_step hdr frame ci = Some (go, ci', out) ->
  addr ci' = addr ci /\ (closed ci = true -> closed ci' = true) /\ demux ci' ⊆ demux ci
  /\ (go = false -> closed ci' = true)
  /\ match out with
     | Some (tx, p) => p = frame /\ exists ts, demux ci !! clr_id hdr = Some (tx, ts)
     | None => True
     end.
Proof.
  unfold read_loop_step, load_remove. destruct (demux ci !! clr_id hdr) as [[tx ts]|] eqn:Ed.
  - destruct (should_close hdr frame) as [[]|]; simpl; [| |done]; intros [= <- <- <-]; simpl.
    all: split_and!; try done; [apply delete_subseteq|eauto].
  - intros [= <- <- <-]. done.
Qed.

Lemma write_loop_step_inv ok ci frame ci' :
  write_loop_step ok ci = Some (frame, ci') ->
  addr ci' = addr ci /\ (closed ci = true -> closed ci' = true) /\ demux ci' = demux ci.
Proof.
  unfold write_loop_step. destruct (negb _); [done|]. destruct (send_q ci) as [|f q]; [done|].
  intros [= <- <-]. by destruct ok.
Qed.

Lemma deliver_sstep log c ci ci' hdr frame go out st :
  conns st !! c = Some ci -> demux_ok st -> read_loop_step hdr frame ci = Some (go, ci', out) ->
  (c, clr_id hdr, frame) ∈ log -> sstep log st (deliver c ci' out st).
Proof.
  intros Hc D Hs Hin. apply read_loop_step_inv in Hs as (Ha & Hcl & Hd & _ & Ho). unfold deliver.
  pose proof (on_conn_sstep log c ci ci' st Hc Ha Hcl Hd) as S1. destruct out as [[tx p]|]; [|done].
  destruct Ho as [-> [ts Hk]]. split; simpl; try apply S1.
  - intros t Ht. destruct (decide (tx = t)) as [->|Hne]; [|by rewrite lookup_alter_ne].
    rewrite lookup_alter_eq. by apply fmap_is_Some.
  - intros t w _. destruct (decide (tx = t)) as [->|Hne]; [|rewrite lookup_alter_ne by done; auto].
    rewrite lookup_alter_eq. destruct (shots st !! t) as [[| |]|]; simpl; intros [= <-]; [|by left].
    right. right. exists c, ci, (clr_id hdr), ts. done.
  - intros t w _. by apply alter_value.
Qed.

(** ** Lemmas: the steps of a request *)

Section Requests.
Context `{RQ : Reqwest}.
Context {HD : HashIter Z (nat * Z)} {HH : HashIter (string * Z) Z} (clock : nat -> Z) (cfg : Config).

Lemma alter_at {A} (f : A -> A) (m : gmap nat A) i x : m !! i = Some x -> alter f i m = <[i := f x]> m.
Proof.
  intros Hm. apply map_eq. intros j. destruct (decide (i = j)) as [->|Hne].
  - by rewrite lookup_alter_eq, lookup_insert_eq, Hm.
  - by rewrite lookup_alter_ne, lookup_insert_ne.
Qed.

(** The store once a request has its id and its oneshot. *)
Definition chosen_store (c : nat) (ci : ConnectionInner) (st : Store) : Store :=
  mkStore (<[c := set_corr_id ci (w32 (corr_id ci + 1))]> (conns st))
    (<[next_shot st := Empty]> (shots st)) (next_conn st) (S (next_shot st)) (S (ticks st)).

Lemma exec_chosen_eq c ci e h :
  conns (net h) !! c = Some ci -> closed ci = false -> 9 <= zlen (shard_frame_buf e) ->
  exists frame, patch (shard_frame_buf e) 1 (le_bytes 4 (corr_id ci)) = Some frame
  /\ zlen frame = zlen (shard_frame_buf e) /\ frame.[1; 5] = Some (le_bytes 4 (corr_id ci))
  /\ exec_chosen clock c e h
     = Some (mkExec (is_write e) frame (original_clrid e) (attempts e)
               (Some (c, corr_id ci, next_shot (net h))) (Storing (clock (ticks (net h)))),
             set_net h (chosen_store c ci (net h)) (awaits h)).
Proof.
  intros Hc Hcl Hl. destruct (patch_Some (shard_frame_buf e) 1 (le_bytes 4 (corr_id ci))) as [frame Hf]; [lia|zl|].
  pose proof (patch_slice _ _ _ _ Hf) as Hsl. rewrite zlen_le_bytes in Hsl.
  exists frame. split; [done|]. split; [|split; [exact Hsl|]].
  { unfold patch in Hf. destruct (_ && _) eqn:Eb; [|done]. injection Hf as <-. apply andb_true_iff in Eb as [_ Hb].
    apply Z.leb_le in Hb. zl. }
  unfold exec_chosen, is_closed, next_corr_id, on_conn. rewrite Hc, Hcl. cbn [negb mbind option_bind]. rewrite Hf.
  cbn [mbind option_bind]. by rewrite (alter_at _ _ _ ci) by done.
Qed.

Lemma chosen_sstep log c ci st :
  conns st !! c = Some ci -> demux_ok st ->
  sstep log st (chosen_store c ci st) /\ reg_ok log (chosen_store c ci st) c (corr_id ci) (next_shot st).
Proof.
  intros Hc D. split; split; simpl.
  - intros r cr Hr. destruct (decide (c = r)) as [->|Hne].
    + eexists. split; [simpl; apply lookup_insert_eq|]. simplify_eq. done.
    + exists cr. simpl. by rewrite lookup_insert_ne.
  - intros A r. simpl. rewrite lookup_insert_is_Some. intros [<-|[_ Hr]]; apply A; eauto.
  - lia.
  - intros tx Hx. apply lookup_insert_is_Some'. auto.
  - intros r cr k tx ts. destruct (decide (c = r)) as [->|Hne].
    + rewrite lookup_insert_eq. intros [= <-]. simpl. eauto.
    + rewrite lookup_insert_ne by done. eauto.
  - intros tx v Hlt. rewrite lookup_insert_ne by lia. auto.
  - lia.
  - intros tx v Hlt. by rewrite lookup_insert_ne by lia.
  - lia.
  - apply lookup_insert_is_Some'. auto.
  - apply lookup_insert_is_Some'. auto.
  - intros r cr k ts. destruct (decide (c = r)) as [->|Hne].
    + rewrite lookup_insert_eq. intros [= <-]. simpl. intros Hk. pose proof (D _ _ _ _ _ Hc Hk). lia.
    + rewrite lookup_insert_ne by done. intros Hr Hk. pose proof (D _ _ _ _ _ Hr Hk). lia.
  - intros v. rewrite lookup_insert_eq. intros [=].
Qed.

(** The store once the request is registered, before a replaced sender is
    dropped. *)
Definition stored (c : nat) (ci : ConnectionInner) (k : Z) (tx : nat) (now : Z) (st : Store) : Store :=
  set_conns st (<[c := set_demux ci (<[k := (tx, now)]> (demux ci))]> (conns st)).

Lemma demux_store_eq c ci k tx now st :
  conns st !! c = Some ci ->
  demux_store c k tx now st =
    match demux ci !! k with Some (s, _) => drop_shot s (stored c ci k tx now st) | None => stored c ci k tx now st end.
Proof.
  intros Hc. unfold demux_store, store, on_conn, stored. rewrite Hc, (alter_at _ _ _ ci) by done. simpl.
  by destruct (demux ci !! k) as [[s t]|].
Qed.

(** The entry a request is about to register. *)
Definition will_store (e : Exec) (c : nat) (k : Z) (tx : nat) : Prop :=
  registered e = Some (c, k, tx) /\ exists now, phase e = Storing now.

Lemma store_sstep N log c ci k tx now st :
  conns st !! c = Some ci -> N c k tx -> sstep_of N log st (demux_store c k tx now st).
Proof.
  intros Hc HN. assert (S : sstep_of N log st (stored c ci k tx now st)).
  { split; simpl; [|intros A r|lia|done| |auto|lia|done].
    - intros r cr Hr. destruct (decide (c = r)) as [->|Hne].
      + eexists. split; [simpl; apply lookup_insert_eq|]. simplify_eq. done.
      + exists cr. simpl. by rewrite lookup_insert_ne.
    - simpl. rewrite lookup_insert_is_Some. intros [<-|[_ Hr]]; apply A; eauto.
    - intros r cr k' tx' ts. destruct (decide (c = r)) as [->|Hne].
      + rewrite lookup_insert_eq. intros [= <-]. simpl. intros [[<- [= <- <-]]|[_ Hk]]%lookup_insert_Some; [auto|eauto].
      + rewrite lookup_insert_ne by done. eauto. }
  rewrite (demux_store_eq _ _ _ _ _ _ Hc). destruct (demux ci !! k) as [[s t]|]; [|done].
  destruct S as [S1 S2 S3 S4 S5 S6 S7 S8], (drop_shot_sstep log s (stored c ci k tx now st)) as [T1 T2 T3 T4 T5 T6 T7 T8].
  split; [exact S1|exact S2|exact S3|by intros x Hx; apply T4, S4|exact S5| |exact S7|].
  - intros x v Hx Hv. destruct (T6 x v Hx Hv) as [Hv'|[->|(c' & ci' & k' & ts & Hc' & Hk' & Hin)]]; [auto|auto|].
    left. simpl in Hv. destruct (decide (s = x)) as [->|Hne]; [|by rewrite lookup_alter_ne in Hv].
    rewrite lookup_alter_eq in Hv. destruct (shots st !! x) as [[| |]|]; simplify_eq/=; done.
  - intros x v Hx Hv. by apply T8, S8.
Qed.

(** What is true of a request at any time. *)
Definition task_ok (log : list (nat * Z * bytes)) (st : Store) (e : Exec) : Prop :=
  match registered e with
  | Some (c, k, tx) => reg_ok log st c k tx /\ (shard_frame_buf e).[1; 5] = Some (le_bytes 4 k)
  | None => True
  end
  /\ match phase e with
     | Done (Ok b) => exists c k tx v, registered e = Some (c, k, tx) /\ (v = [] \/ (c, k, v) ∈ log)
         /\ restore_clrid (original_clrid e) v = Some b
     | Done (Err _) => True
     | Storing _ | Sending | Waiting =>
         9 <= zlen (shard_frame_buf e) /\ 0 <= attempts e <= 2 /\ is_Some (registered e)
     | Scanning _ => 9 <= zlen (shard_frame_buf e) /\ 0 <= attempts e <= 2 /\ is_write e = false
     | Picking | Chosen _ | Sleeping _ => 9 <= zlen (shard_frame_buf e) /\ 0 <= attempts e <= 2
     end.

Lemma task_ok_step N log log' st st' e :
  (forall x, x ∈ log -> x ∈ log') ->
  (forall c k tx c' k', registered e = Some (c, k, tx) -> N c' k' tx -> c' = c /\ k' = k) ->
  sstep_of N log' st st' -> task_ok log st e -> task_ok log' st' e.
Proof.
  intros HL HN S [Hr Hp]. split.
  - destruct (registered e) as [[[c k] tx]|]; [|done]. destruct Hr as [Hr Hf]. split; [|done].
    eapply (sstep_reg_ok N); [exact HL| |exact S|exact Hr]. intros c' k'. by apply HN.
  - destruct (phase e) as [|n|c|now| | |d|[b|]]; try done. destruct Hp as (c & k & tx & v & Hreg & Hv & Hb).
    exists c, k, tx, v. split_and!; [done| |done]. destruct Hv; auto.
Qed.

Lemma exec_start_ok log st w frame e : exec_start w frame = Some e -> task_ok log st e.
Proof.
  unfold exec_start. destruct (Z.ltb_spec (zlen frame) 9) as [|H9]; [by intros [= <-]|].
  destruct frame.[0] as [b|]; [|done]. cbn [mbind option_bind]. destruct (negb _); [by intros [= <-]|].
  destruct frame.[1; 5]; [|done]. cbn [mbind option_bind]. intros [= <-]. split; [done|]. simpl. lia.
Qed.

(** [execute] never panics on its input. *)
Lemma exec_start_total w frame : is_Some (exec_start w frame).
Proof.
  unfold exec_start. destruct (Z.ltb_spec (zlen frame) 9) as [|H9]; [eauto|].
  destruct (idx_Some frame 0) as [b ->]; [lia|]. cbn [mbind option_bind]. destruct (negb _); [eauto|].
  destruct (slice_Some frame 1 5) as [s ->]; [lia|lia|]. cbn [mbind option_bind]. eauto.
Qed.

Lemma exec_fail_ok log st err e :
  match registered e with
  | Some (c, k, tx) => reg_ok log st c k tx /\ (shard_frame_buf e).[1; 5] = Some (le_bytes 4 k)
  | None => True
  end ->
  9 <= zlen (shard_frame_buf e) -> 0 <= attempts e <= 2 -> task_ok log st (exec_fail err e).
Proof.
  intros Hr H9 Ha. unfold exec_fail. split; [done|]. simpl. destruct (Z.leb_spec 3 (attempts e + 1)); simpl; [done|lia].
Qed.

Lemma restore_total orig v : is_Some (restore_clrid orig v).
Proof. unfold restore_clrid. destruct (Z.leb_spec 9 (zlen v)); [apply patch_Some; [lia|zl]|eauto]. Qed.

Lemma is_closed_false c st : is_closed c st = false -> exists ci, conns st !! c = Some ci /\ closed ci = false.
Proof. unfold is_closed. destruct (conns st !! c) as [ci|]; [eauto|done]. Qed.

(** The step of a request in terms of what it does to the store: what holds of a
    step that selects, that takes an id, that registers, and of any other. *)
Definition step_ok (log : list (nat * Z * bytes)) (e : Exec) (h : HandlerInner) (e' : Exec) (h' : HandlerInner) : Prop :=
  rely cfg h h' /\ sstep_of (will_store e) log (net h) (net h') /\ task_ok log (net h') e'.

Lemma task_ok_keeps log st st' e e' :
  sstep log st st' -> task_ok log st e -> registered e' = registered e -> shard_frame_buf e' = shard_frame_buf e ->
  match registered e' with
  | Some (c, k, tx) => reg_ok log st' c k tx /\ (shard_frame_buf e').[1; 5] = Some (le_bytes 4 k)
  | None => True
  end.
Proof.
  intros S [Hr _] -> ->. destruct (registered e) as [[[c k] tx]|]; [|done]. destruct Hr as [Hr Hf]. split; [|done].
  by eapply (sstep_reg_ok (fun _ _ _ => False)); [| |exact S|exact Hr].
Qed.

Lemma exec_fail_step_ok log e h h' err :
  rely cfg h h' -> sstep log (net h) (net h') -> task_ok log (net h) e ->
  9 <= zlen (shard_frame_buf e) -> 0 <= attempts e <= 2 -> step_ok log e h (exec_fail err e) h'.
Proof.
  intros R S T H9 Ha. split; [done|]. split; [by apply sstep_any|]. apply exec_fail_ok; [|done|done].
  exact (task_ok_keeps log _ _ e e S T eq_refl eq_refl).
Qed.

(** A step that only goes on to another phase. *)
Lemma set_phase_step_ok log e h h' p :
  rely cfg h h' -> sstep log (net h) (net h') -> task_ok log (net h) e ->
  9 <= zlen (shard_frame_buf e) -> 0 <= attempts e <= 2 ->
  match p with Picking | Chosen _ => True | Scanning _ => is_write e = false | _ => False end -> step_ok log e h (set_phase e p) h'.
Proof.
  intros R S T H9 Ha Hp. split; [done|]. split; [by apply sstep_any|]. split.
  - exact (task_ok_keeps log _ _ e (set_phase e p) S T eq_refl eq_refl).
  - by destruct p.
Qed.

Abbreviation covers := (clock_covers clock (cleanup_age cfg)).

Lemma exec_pick_ok log e h :
  0 < conn_per_roomzin_node cfg < 2 ^ 32 -> cluster_inv cfg h ->
  task_ok log (net h) e -> phase e = Picking ->
  match exec_pick clock cfg e h with None => ~ covers | Some (e', h') => step_ok log e h e' h' end.
Proof.
  intros Hn I T Hph. pose proof T as [_ Hp]. rewrite Hph in Hp. destruct Hp as [H9 Ha]. unfold exec_pick.
  destruct (is_write e) eqn:Ew.
  - pose proof (leader_step clock cfg h ltac:(lia) (inv_lb _ _ I)) as Hs.
    destruct (next_leader_conn clock cfg h) as [[conn h1]|] eqn:El; cbn [mbind option_bind]; [clear Hs|exact Hs].
    pose proof (next_leader_conn_rely clock cfg h conn h1 Hn I El) as R.
    apply next_leader_conn_effect in El as [E _]. pose proof (cleans_sstep log _ _ _ (sel_cleans _ _ E)) as S.
    destruct conn as [c|]; [by apply set_phase_step_ok|by apply exec_fail_step_ok].
  - apply set_phase_step_ok; try done; [apply rely_refl|apply sstep_refl].
Qed.

Lemma exec_scan_ok log n e h :
  0 < conn_per_roomzin_node cfg < 2 ^ 32 -> cluster_inv cfg h ->
  task_ok log (net h) e -> phase e = Scanning n ->
  match exec_scan clock cfg n e h with None => ~ covers | Some (e', h') => step_ok log e h e' h' end.
Proof.
  intros Hn I T Hph. pose proof T as [_ Hp]. rewrite Hph in Hp. destruct Hp as (H9 & Ha & Hw). unfold exec_scan.
  destruct n as [|n]; [apply exec_fail_step_ok; try done; [apply rely_refl|apply sstep_refl]|].
  pose proof (follower_turn_step clock cfg h Hn (inv_lb _ _ I)) as Hs.
  destruct (follower_turn clock cfg h) as [[conn h1]|] eqn:El; cbn [mbind option_bind]; [clear Hs|exact Hs].
  pose proof (follower_turn_rely clock cfg h conn h1 Hn I El) as R.
  apply follower_turn_effect in El as [E _]. pose proof (cleans_sstep log _ _ _ (sel_cleans _ _ E)) as S.
  destruct conn as [c|]; by apply set_phase_step_ok.
Qed.

Lemma exec_chosen_ok log c e h :
  demux_ok (net h) -> task_ok log (net h) e -> phase e = Chosen c ->
  exists e' h', exec_chosen clock c e h = Some (e', h') /\ step_ok log e h e' h'.
Proof.
  intros D T Hph. pose proof T as [_ Hp]. rewrite Hph in Hp. destruct Hp as [H9 Ha].
  destruct (is_closed c (net h)) eqn:Ec.
  { unfold exec_chosen. rewrite Ec. do 2 eexists. split; [done|].
    apply exec_fail_step_ok; try done; [apply rely_refl|apply sstep_refl]. }
  destruct (is_closed_false _ _ Ec) as (ci & Hci & Hcl).
  destruct (exec_chosen_eq c ci e h Hci Hcl H9) as (frame & _ & Hl & Hfr & ->). do 2 eexists. split; [done|].
  destruct (chosen_sstep log c ci (net h) Hci D) as [S R].
  split; [apply set_net_rely; apply S|]. split; [by apply sstep_any|]. split; [by split|]. simpl. rewrite Hl. eauto.
Qed.

Lemma exec_store_ok log c k tx now e h :
  task_ok log (net h) e -> phase e = Storing now -> registered e = Some (c, k, tx) ->
  step_ok log e h (set_phase e Sending) (set_net h (demux_store c k tx now (net h)) (awaits h)).
Proof.
  intros [Hr Hp] Hph Hreg. rewrite Hreg in Hr. rewrite Hph in Hp. destruct Hr as [Hr Hf].
  destruct (reg_conn _ _ _ _ _ Hr) as [ci Hci].
  assert (S : sstep_of (will_store e) log (net h) (demux_store c k tx now (net h))).
  { eapply store_sstep; [exact Hci|]. split; [done|by exists now]. }
  split; [apply set_net_rely; apply S|]. split; [done|]. split; [|exact Hp].
  simpl. rewrite Hreg. split; [|done]. eapply (sstep_reg_ok (will_store e)); [| |exact S|exact Hr]; [done|].
  intros c' k' [He _]. split; congruence.
Qed.

(** A step of a request panics only on a clock that does not cover the age of
    expiry, and keeps everything in order. *)
Lemma exec_step_ok log e h :
  0 < conn_per_roomzin_node cfg < 2 ^ 32 -> cluster_inv cfg h -> demux_ok (net h) -> task_ok log (net h) e ->
  match exec_step clock cfg e h with
  | Panicked => ~ covers
  | Blocked => True
  | Moves e' h' => step_ok log e h e' h'
  end.
Proof.
  intros Hn I D T. pose proof T as [Hr Hp]. unfold exec_step, moves. destruct (phase e) as [|n|c|now| | |d|res] eqn:Eph.
  - pose proof (exec_pick_ok log e h Hn I T Eph). by destruct (exec_pick clock cfg e h) as [[e' h']|].
  - pose proof (exec_scan_ok log n e h Hn I T Eph). by destruct (exec_scan clock cfg n e h) as [[e' h']|].
  - destruct (exec_chosen_ok log c e h D T Eph) as (e' & h' & -> & ?). done.
  - destruct Hp as (H9 & Ha & [[[c k] tx] Hreg]). rewrite Hreg. by apply exec_store_ok.
  - destruct Hp as (H9 & Ha & [[[c k] tx] Hreg]). rewrite Hreg in *. destruct Hr as [Hr Hf].
    unfold send_raw. destruct (reg_conn _ _ _ _ _ Hr) as [ci Hci]. rewrite Hci. cbn [mbind option_bind].
    destruct (negb (rx_alive ci)).
    { apply exec_fail_step_ok; try done; [by apply set_net_rely; [apply net_le_refl|]|apply sstep_refl]. }
    destruct (send_cap ci <=? zlen (send_q ci)); [done|].
    rewrite (on_conn_const _ _ _ _ Hci).
    pose proof (on_conn_sstep log c ci (set_queue ci (send_q ci ++ [shard_frame_buf e]) true) (net h) Hci) as S.
    specialize (S eq_refl ltac:(done) ltac:(done)). split; [apply set_net_rely; apply S|]. split; [by apply sstep_any|].
    split; [exact (task_ok_keeps log _ _ e (set_phase e Waiting) S T eq_refl eq_refl)|]. simpl. rewrite Hreg. eauto.
  - destruct Hp as (H9 & Ha & [[[c k] tx] Hreg]). rewrite Hreg in *. destruct Hr as [Hr Hf].
    destruct (reg_shot _ _ _ _ _ Hr) as [o Ho]. rewrite Ho. destruct o as [|v|]; [done| |].
    + destruct (restore_total (original_clrid e) v) as [b Hb]. rewrite Hb.
      split; [apply rely_refl|]. split; [apply sstep_refl|]. split; simpl; rewrite Hreg; [done|].
      exists c, k, tx, v. split_and!; [done| |done]. by eapply reg_value.
    + apply exec_fail_step_ok; try done; [apply rely_refl|apply sstep_refl].
  - destruct Hp as [H9 Ha]. destruct (registered e) as [[[? ?] ?]|];
      (apply set_phase_step_ok; try done; [apply rely_refl|apply sstep_refl]).
  - by destruct (registered e) as [[[? ?] ?]|].
Qed.

End Requests.
