(* ===== verification/SystemProps.v ===== *)
(** * Properties of requests in the running system

    The invariant of the reachable states of [System.v] and what follows for
    [execute]: no panic, at most three attempts, answers that belong to the
    request, and the requests that never complete. *)

From S2P Require Import Prelude RustStd Error Config Protocol Demux Connection LoadBalancer Topology.
From S2P Require Import ClusterSync ClusterProps SyncSteps Execute System.
Local Open Scope Z_scope.

(** ** Termination measure of a request

    Attempts first, then the phase, then the iterations left of a search. *)

Definition exec_rank {RQ : Reqwest} (e : Exec) : Z :=
  let left := 3 - attempts e in
  match phase e with
  | Picking => 7 * left
  | Scanning _ => 7 * left - 1
  | Chosen _ => 7 * left - 2
  | Storing _ => 7 * left - 3
  | Sending => 7 * left - 4
  | Waiting => 7 * left - 5
  | Sleeping _ => 7 * left + 1
  | Done _ => 0
  end.

Definition scan_left {RQ : Reqwest} (e : Exec) : nat :=
  match phase e with Scanning n => n | _ => 0%nat end.

(** The number of attempts is in bounds. *)
Definition exec_wf {RQ : Reqwest} (e : Exec) : Prop :=
  0 <= attempts e <= 3 /\ match phase e with Done _ => True | _ => attempts e <= 2 end.

Section Rank.
Context `{RQ : Reqwest}.
Context {HD : HashIter Z (nat * Z)} {HH : HashIter (string * Z) Z} (clock : nat -> Z) (cfg : Config).

Lemma exec_fail_rank err e :
  0 <= attempts e <= 2 -> exec_wf (exec_fail err e) /\ 0 <= exec_rank (exec_fail err e) <= 7 * (3 - attempts e) - 6.
Proof.
  intros Ha. unfold exec_fail, exec_wf, exec_rank. simpl.
  destruct (Z.leb_spec 3 (attempts e + 1)); simpl; lia.
Qed.

(** A step is to a later phase, or to the next iteration of a search. *)
Definition advances (e e' : Exec) : Prop :=
  exec_wf e' /\ 0 <= exec_rank e'
  /\ (exec_rank e' < exec_rank e \/ exec_rank e' = exec_rank e /\ (scan_left e' < scan_left e)%nat).

Lemma exec_fail_advances err e :
  exec_wf e -> match phase e with Done _ | Sleeping _ => False | _ => True end -> advances e (exec_fail err e).
Proof.
  intros [H0 Hw] Hp. assert (Ha : 0 <= attempts e <= 2) by (destruct (phase e); try done; lia).
  destruct (exec_fail_rank err e Ha) as [Hf Hr]. split; [done|]. split; [lia|left].
  unfold exec_rank at 2. destruct (phase e); try done; lia.
Qed.

Lemma set_phase_advances e p :
  exec_wf e ->
  match phase e, p with
  | Picking, (Scanning _ | Chosen _) | Scanning _, Chosen _ | Storing _, Sending | Sending, Waiting
  | Waiting, Done _ | Sleeping _, Picking => True
  | Scanning n, Scanning m => (m < n)%nat
  | _, _ => False
  end -> advances e (set_phase e p).
Proof.
  intros [H0 Hw]. unfold advances, exec_wf, exec_rank, scan_left.
  destruct (phase e), p; simpl; try done; intros; repeat split; lia.
Qed.

Lemma exec_step_advances e h e' h' :
  exec_wf e -> exec_step clock cfg e h = Moves e' h' -> advances e e'.
Proof.
  intros Hw. unfold exec_step, moves. destruct (phase e) as [|n|c|now| | |d|res] eqn:Eph.
  - unfold exec_pick. destruct (is_write e).
    + destruct (next_leader_conn _ _ _) as [[[c|] h1]|]; cbn [mbind option_bind]; [..|done]; intros [= <- _].
      * by apply set_phase_advances; rewrite ?Eph.
      * by apply exec_fail_advances; rewrite ?Eph.
    + intros [= <- _]. by apply set_phase_advances; rewrite ?Eph.
  - unfold exec_scan. destruct n as [|n]; [intros [= <- _]; by apply exec_fail_advances; rewrite ?Eph|].
    destruct (follower_turn _ _ _) as [[[c|] h1]|]; cbn [mbind option_bind]; [..|done]; intros [= <- _].
    + by apply set_phase_advances; rewrite ?Eph.
    + apply set_phase_advances; rewrite ?Eph; [done|lia].
  - unfold exec_chosen. destruct (negb _); [|intros [= <- _]; by apply exec_fail_advances; rewrite ?Eph].
    destruct (next_corr_id _ _) as [[k st]|]; [|done]. cbn [mbind option_bind].
    destruct (patch _ _ _); [|done]. cbn [mbind option_bind]. simpl. intros [= <- _].
    destruct Hw as [H0 Hw]. rewrite Eph in Hw. unfold advances, exec_wf, exec_rank. simpl. rewrite Eph. lia.
  - destruct (registered e) as [[[c k] tx]|]; [|done]. intros [= <- _]. by apply set_phase_advances; rewrite ?Eph.
  - destruct (registered e) as [[[c k] tx]|]; [|done].
    destruct (send_raw _ _ _) as [[[| |] st]|]; try done; intros [= <- _].
    + by apply set_phase_advances; rewrite ?Eph.
    + by apply exec_fail_advances; rewrite ?Eph.
  - destruct (registered e) as [[[c k] tx]|]; [|done]. destruct (shots _ !! tx) as [[|v|]|]; try done.
    + destruct (restore_clrid _ v); [|done]. intros [= <- _]. by apply set_phase_advances; rewrite ?Eph.
    + intros [= <- _]. by apply exec_fail_advances; rewrite ?Eph.
  - destruct (registered e) as [[[? ?] ?]|]; intros [= <- _]; by apply set_phase_advances; rewrite ?Eph.
  - by destruct (registered e) as [[[? ?] ?]|].
Qed.


(** A step of the request, whatever state the rest of the system is in. *)
Definition own_step (e e' : Exec) : Prop := exists h h', exec_step clock cfg e h = Moves e' h'.

Lemma own_steps_wf n e e' : exec_wf e -> nsteps own_step n e e' -> exec_wf e'.
Proof.
  intros Hw Hs. induction Hs as [e|n e e1 e2 (h & h' & Hs) _ IH]; [done|]. apply IH.
  by apply (exec_step_advances _ _ _ _ Hw) in Hs as [? _].
Qed.


(** What a step makes of the registration: none, or one on the connection that
    was chosen and a fresh oneshot. *)
Lemma exec_step_registered e h e' h' :
  exec_step clock cfg e h = Moves e' h' ->
  registered e' = registered e \/ exists c k, phase e = Chosen c /\ registered e' = Some (c, k, next_shot (net h)).
Proof.
  unfold exec_step, moves. destruct (phase e) as [|n|c|now| | |d|res].
  - unfold exec_pick. destruct (is_write e); [|intros [= <- _]; by left].
    destruct (next_leader_conn _ _ _) as [[[c|] h1]|]; cbn [mbind option_bind]; [..|done]; intros [= <- _]; by left.
  - unfold exec_scan. destruct n as [|n]; [intros [= <- _]; by left|].
    destruct (follower_turn _ _ _) as [[[c|] h1]|]; cbn [mbind option_bind]; [..|done]; intros [= <- _]; by left.
  - unfold exec_chosen, next_corr_id. destruct (negb _); [|intros [= <- _]; by left].
    destruct (conns (net h) !! c) as [ci|]; [|done]. cbn [mbind option_bind].
    destruct (patch _ _ _); [|done]. cbn [mbind option_bind]. simpl. intros [= <- _]. right. eauto.
  - destruct (registered e) as [[[c k] tx]|] eqn:Er; [|done]. rewrite <- Er. intros [= <- _]. by left.
  - destruct (registered e) as [[[c k] tx]|] eqn:Er; [|done]. rewrite <- Er.
    destruct (send_raw _ _ _) as [[[| |] st]|]; try done; intros [= <- _]; by left.
  - destruct (registered e) as [[[c k] tx]|] eqn:Er; [|done]. rewrite <- Er.
    destruct (shots _ !! tx) as [[|v|]|]; try done; [destruct (restore_clrid _ v); [|done]|]; intros [= <- _]; by left.
  - intros [= <- _]. by left.
  - by destruct (registered e) as [[[? ?] ?]|].
Qed.

End Rank.

(** ** What was sent *)

Section Logs.
Context `{RQ : Reqwest}.
Context {HF : HashIter (string * Z * Z) nat} {HH : HashIter (string * Z) Z}.
Context {HR : HashIter string Z} {HN : HashIter string (list (option nat))} {HD : HashIter Z (nat * Z)}.
Context (cfg : Config) (tcp : nat -> string -> Result unit io_Error).
Context (discover : nat -> Result ClusterTopology RZError) (clock : nat -> Z).

Abbreviation step := (sys_step cfg tcp discover clock).

(** A request that waits or was answered has queued its frame on the
    connection it is registered on. *)
Definition queued (log : list (nat * bytes)) (e : Exec) : Prop :=
  match phase e with
  | Waiting | Done (Ok _) => exists c k tx, registered e = Some (c, k, tx) /\ (c, shard_frame_buf e) ∈ log
  | _ => True
  end.

Lemma queued_mono log log' e : log ⊆ log' -> queued log e -> queued log' e.
Proof.
  intros Hl. unfold queued. destruct (phase e) as [| | | | | | |[b|]]; try done; intros (c & k & tx & Hr & Hq).
  - exists c, k, tx. auto.
  - exists c, k, tx. auto.
Qed.

Lemma exec_fail_queued log err e : queued log (exec_fail err e).
Proof. unfold queued, exec_fail. simpl. by destruct (3 <=? _). Qed.

Lemma exec_step_queued log e h e' h' :
  queued log e -> exec_step clock cfg e h = Moves e' h' -> queued (sends_of e e' ++ log) e'.
Proof.
  unfold exec_step, moves. intros Hq. destruct (phase e) as [|n|c|now| | |d|res] eqn:Ep.
  - unfold exec_pick. destruct (is_write e); [|by intros [= <- _]].
    destruct (next_leader_conn _ _ _) as [[[c|] h1]|]; cbn [mbind option_bind]; [..|done]; intros [= <- _]; [done|].
    apply exec_fail_queued.
  - unfold exec_scan. destruct n as [|n]; [intros [= <- _]; apply exec_fail_queued|].
    by destruct (follower_turn _ _ _) as [[[c|] h1]|]; cbn [mbind option_bind]; [..|done]; intros [= <- _].
  - unfold exec_chosen. destruct (negb _); [|intros [= <- _]; apply exec_fail_queued].
    destruct (next_corr_id _ _) as [[k st]|]; [|done]. cbn [mbind option_bind].
    destruct (patch _ _ _); [|done]. cbn [mbind option_bind]. simpl. by intros [= <- _].
  - destruct (registered e) as [[[c k] tx]|]; [|done]. by intros [= <- _].
  - destruct (registered e) as [[[c k] tx]|] eqn:Er; [|done].
    destruct (send_raw _ _ _) as [[[| |] st]|]; try done; intros [= <- _]; [|apply exec_fail_queued].
    exists c, k, tx. split; [done|]. unfold sends_of. rewrite Ep, Er. simpl. set_solver.
  - destruct (registered e) as [[[c k] tx]|] eqn:Er; [|done]. destruct (shots _ !! tx) as [[|v|]|]; try done.
    + destruct (restore_clrid _ v); [|done]. intros [= <- _]. unfold queued in *. simpl. rewrite Ep in Hq.
      destruct Hq as (c' & k' & tx' & Hr & Hin). exists c', k', tx'. split; [done|set_solver].
    + intros [= <- _]. apply exec_fail_queued.
  - by intros [= <- _].
  - by destruct (registered e) as [[[? ?] ?]|].
Qed.

Definition sent_ok (s : Sys) : Prop := forall t e, tasks s !! t = Some e -> queued (sends s) e.

Lemma settle_tasks s p s' : settle s p = Some s' -> tasks s' = tasks s /\ sends s' = sends s /\ responses s' = responses s.
Proof. unfold settle. destruct p as [[[u h]|]|b h k]; [|done|]; by intros [= <-]. Qed.

Lemma sent_step s s' : step s s' -> sent_ok s -> sent_ok s'.
Proof.
  intros Hstep Q. destruct Hstep as [s t w frame e Hn He|s t e e' h' Ht Hg He| | | |s t s' Hb Hk Hs|s b k s' Hk Hs]; try exact Q.
  - intros t' e' Ht'. simpl in Ht'. apply lookup_insert_Some in Ht' as [[<- <-]|[_ Ht']]; [|by apply Q in Ht'].
    revert He. unfold exec_start. destruct (zlen frame <? 9); [by intros [= <-]|].
    destruct frame.[0]; [|done]. cbn [mbind option_bind]. destruct (negb _); [by intros [= <-]|].
    destruct frame.[1; 5]; [|done]. cbn [mbind option_bind]. by intros [= <-].
  - intros t' e2 Ht'. simpl in Ht' |- *. apply lookup_insert_Some in Ht' as [[<- <-]|[_ Ht']].
    + eapply exec_step_queued; [by apply Q in Ht|done].
    + eapply queued_mono; [|by apply Q in Ht']. set_solver.
  - apply settle_tasks in Hs as (Ht & Hq & _). unfold sent_ok. by rewrite Ht, Hq.
  - apply settle_tasks in Hs as (Ht & Hq & _). unfold sent_ok. by rewrite Ht, Hq.
Qed.

Lemma reachable_sent s : rtc step (sys_new cfg) s -> sent_ok s.
Proof.
  intros Hr. assert (H0 : sent_ok (sys_new cfg)) by (by intros t e Ht).
  eapply (rtc_ind_r sent_ok); [exact H0| |exact Hr]. intros s1 s2 _. apply sent_step.
Qed.


(** The logs only grow. *)
Lemma step_logs s s' : step s s' -> responses s ⊆ responses s' /\ sends s ⊆ sends s'.
Proof.
  destruct 1 as [| | | | |g tk g' _ _ Hs|g b k g' _ Hs]; simpl; try done; [set_solver|set_solver|..].
  - apply settle_tasks in Hs as (_ & -> & ->). done.
  - apply settle_tasks in Hs as (_ & -> & ->). done.
Qed.

Lemma steps_logs s s' : rtc step s s' -> responses s ⊆ responses s' /\ sends s ⊆ sends s'.
Proof.
  induction 1 as [|a b c Hs _ [IH1 IH2]]; [done|]. apply step_logs in Hs as [H1 H2]. split; by etrans.
Qed.

End Logs.

(** ** The invariant *)

Section Invariant.
Context `{RQ : Reqwest}.
Context {HF : HashIter (string * Z * Z) nat} {HH : HashIter (string * Z) Z}.
Context {HR : HashIter string Z} {HN : HashIter string (list (option nat))} {HD : HashIter Z (nat * Z)}.
Context (cfg : Config) (tcp : nat -> string -> Result unit io_Error).
Context (discover : nat -> Result ClusterTopology RZError) (clock : nat -> Z).
Context (cfg_range : 0 < conn_per_roomzin_node cfg < 2 ^ 32).

Abbreviation step := (sys_step cfg tcp discover clock).

(** A suspended synchronisation goes on well from here, and lets nothing below
    [n] into the tables. *)
Definition sync_from (n : nat) (s : Sys) : Prop :=
  match syncer s with
  | None => True
  | Some (b, k) => exists h, others cfg b h (hd s)
      /\ forall h', others cfg b h h' -> rg cfg n (fun _ => cluster_inv cfg) h' (k h')
  end.

(** The request [t] has made the oneshot [tx] for its answer. *)
Definition waits_on (s : Sys) (t : nat) (tx : nat) : Prop :=
  exists e c k, tasks s !! t = Some e /\ registered e = Some (c, k, tx).

Definition private (s : Sys) : Prop := forall t t' tx, waits_on s t tx -> waits_on s t' tx -> t = t'.

(** A connection whose read loop has ended is closed. *)
Definition ended_ok (E : gset nat) (st : Store) : Prop :=
  forall c, c ∈ E -> exists ci, conns st !! c = Some ci /\ closed ci = true.

Record sys_inv (s : Sys) : Prop := {
  sys_cluster : cluster_inv cfg (hd s);
  sys_demux : demux_ok (net (hd s));
  sys_tasks : forall t e, tasks s !! t = Some e -> task_ok (responses s) (net (hd s)) e;
  sys_syncer : exists n, sync_from n s;
  sys_private : private s;
  sys_ended : ended_ok (ended s) (net (hd s))
}.

Lemma sys_new_inv : sys_inv (sys_new cfg).
Proof.
  split; simpl; [apply handler_new_inv; done|by intros c ci k tx ts Hc|by intros t e Ht|by exists 0%nat| |set_solver].
  by intros t t' tx (e & c & k & Ht & _).
Qed.

Lemma waits_on_lt s t tx : sys_inv s -> waits_on s t tx -> (tx < next_shot (net (hd s)))%nat.
Proof.
  intros [_ _ T _ _ _] (e & c & k & Ht & Hr). destruct (T _ _ Ht) as [Hreg _]. rewrite Hr in Hreg. apply Hreg.
Qed.

(** A task may change to one with the same oneshot, or a fresh one. *)
Lemma private_insert s t e' s' :
  sys_inv s -> tasks s' = <[t := e']> (tasks s) ->
  (registered e' = None \/ (exists e, tasks s !! t = Some e /\ registered e' = registered e)
   \/ exists c k, registered e' = Some (c, k, next_shot (net (hd s)))) -> private s'.
Proof.
  intros Inv He Hreg. pose proof (sys_private s Inv) as P.
  assert (Hw : forall t1 tx, waits_on s' t1 tx ->
    waits_on s t1 tx \/ (t1 = t /\ tx = next_shot (net (hd s)))).
  { intros t1 tx (e1 & c1 & k1 & H1 & Hr1). rewrite He in H1.
    apply lookup_insert_Some in H1 as [[<- <-]|[_ H1]]; [|left; by exists e1, c1, k1].
    destruct Hreg as [Hn|[(e & Ht & Hsame)|(c & k & Hnew)]]; [congruence| |right; split; congruence].
    left. exists e, c1, k1. split; [done|congruence]. }
  intros t1 t2 tx [H1|[-> ->]]%Hw [H2|[-> Hx]]%Hw; [by eapply P| | |done].
  - subst tx. apply waits_on_lt in H1; [lia|done].
  - apply waits_on_lt in H2; [lia|done].
Qed.

Lemma private_same s s' : sys_inv s -> tasks s' = tasks s -> private s'.
Proof. intros Inv He t t' tx. unfold waits_on. rewrite He. apply (sys_private s Inv). Qed.

(** What is closed stays closed. *)
Lemma ended_le E st st' : net_le st st' -> ended_ok E st -> ended_ok E st'.
Proof.
  intros Hn He c Hc. destruct (He c Hc) as (ci & Hci & Hcl). destruct (Hn c ci Hci) as (ci' & Hci' & _ & Hk). eauto.
Qed.

Lemma ended_closed E st c : ended_ok E st -> c ∈ E -> is_closed c st = true.
Proof. intros He Hc. destruct (He c Hc) as (ci & Hci & Hcl). unfold is_closed. by rewrite Hci. Qed.

Lemma sync_from_others n s s' :
  syncer s' = syncer s -> others cfg (guarded s) (hd s) (hd s') -> sync_from n s -> sync_from n s'.
Proof.
  unfold sync_from, guarded. intros -> O. destruct (syncer s) as [[b k]|]; [|done]. intros (h & O' & Hk). exists h.
  split; [by etrans|done].
Qed.

(** A request leaves the follower table and the history alone but for the
    iterations of a read's search whose index has a node. *)
Lemma exec_step_held e h e' h' :
  cluster_inv cfg h -> (forall k, phase e = Scanning (S k) -> node_of h (first_node h) = None) ->
  exec_step clock cfg e h = Moves e' h' ->
  followers h' = followers h /\ follower_history (load_balancer h') = follower_history (load_balancer h).
Proof.
  intros I Hw. unfold exec_step, moves. destruct (phase e) as [|n|c|now| | |d|res] eqn:Ep.
  - unfold exec_pick. destruct (is_write e); [|by intros [= <- <-]].
    pose proof (leader_choice clock cfg h ltac:(lia) (inv_len _ _ I) (proj1 (proj2 (inv_lb _ _ I)))) as Hc.
    destruct (next_leader_conn clock cfg h) as [[conn h1]|]; cbn [mbind option_bind]; [|done].
    destruct Hc as ((_ & _ & Hf & _) & Hh & _). by destruct conn as [c|]; intros [= <- <-].
  - unfold exec_scan. destruct n as [|n]; [by intros [= <- <-]|].
    destruct (follower_turn clock cfg h) as [[conn h1]|] eqn:Et; cbn [mbind option_bind]; [|done].
    pose proof (follower_turn_targetless clock cfg h conn h1 cfg_range I (Hw n eq_refl) Et) as Hs.
    by destruct conn as [c|]; intros [= <- <-].
  - unfold exec_chosen. destruct (negb _); [|by intros [= <- <-]].
    destruct (next_corr_id _ _) as [[k st]|]; [|done]. cbn [mbind option_bind].
    destruct (patch _ _ _); [|done]. cbn [mbind option_bind]. simpl. by intros [= <- <-].
  - destruct (registered e) as [[[c k] tx]|]; [|done]. by intros [= <- <-].
  - destruct (registered e) as [[[c k] tx]|]; [|done].
    destruct (send_raw _ _ _) as [[[| |] st]|]; try done; by intros [= <- <-].
  - destruct (registered e) as [[[c k] tx]|]; [|done]. destruct (shots _ !! tx) as [[|v|]|]; try done.
    + destruct (restore_clrid _ v); [|done]. by intros [= <- <-].
    + by intros [= <- <-].
  - by intros [= <- <-].
  - by destruct (registered e) as [[[? ?] ?]|].
Qed.

Lemma waits_guard_false s e k :
  waits_guard s e = false -> guarded s = true -> phase e = Scanning (S k) -> node_of (hd s) (first_node (hd s)) = None.
Proof.
  unfold waits_guard. intros Hw Hg Hp. rewrite Hp, Hg in Hw. apply bool_decide_eq_false in Hw.
  destruct (node_of _ _); [by destruct Hw|done].
Qed.

(** A step of a request, seen by the synchronisation. *)
Lemma exec_others N log s e e' h' :
  cluster_inv cfg (hd s) -> waits_guard s e = false -> exec_step clock cfg e (hd s) = Moves e' h' ->
  rely cfg (hd s) h' -> sstep_of N log (net (hd s)) (net h') -> others cfg (guarded s) (hd s) h'.
Proof.
  intros I Hw He R S. split; [done|apply S|]. intros Hg. eapply exec_step_held; [done| |exact He].
  intros k. by apply waits_guard_false.
Qed.

(** A step of the store that keeps the handler's tables. *)
Lemma store_others log b h st : sstep log (net h) st -> others cfg b h (set_store h st).
Proof. intros S. split; [apply set_net_rely; apply S|apply S|done]. Qed.

Lemma store_step_inv s st ended' log' :
  sys_inv s -> sstep log' (net (hd s)) st -> (forall x, x ∈ responses s -> x ∈ log') -> ended_ok ended' st ->
  sys_inv (mkSys (set_store (hd s) st) (tasks s) ended' log' (syncer s) (sends s)).
Proof.
  intros Inv S HL He. pose proof Inv as [I D T [n Y] _ _]. pose proof (store_others _ (guarded s) _ _ S) as O.
  split; simpl; [by eapply others_inv|eapply sstep_demux_ok; [|exact S|exact D]; done| | | |done].
  - intros t e Ht. eapply (task_ok_step (fun _ _ _ => False)); [exact HL|done|exact S|by apply T in Ht].
  - exists n. by apply (sync_from_others n s).
  - by eapply private_same.
Qed.

(** A segment of the synchronisation. *)
Lemma settle_segment n s p s' :
  rg cfg n (fun _ => cluster_inv cfg) (hd s) p -> settle s p = Some s' ->
  segment n (hd s) (hd s') /\ cluster_inv cfg (hd s') /\ sync_from n s'
  /\ tasks s' = tasks s /\ ended s' = ended s /\ responses s' = responses s.
Proof.
  destruct p as [[[u h]|]|b h k]; simpl; [|done|].
  - intros [S I] [= <-]. done.
  - intros (S & I & Hk) [= <-]. split_and!; try done. by exists h.
Qed.

Lemma settle_inv n s p s' :
  sys_inv s -> rg cfg n (fun _ => cluster_inv cfg) (hd s) p -> settle s p = Some s' -> sys_inv s'.
Proof.
  intros Inv Hp (S & I' & Y & Ht & He & Hr)%(settle_segment n); [|done]. pose proof Inv as [I D T _ _ E].
  pose proof (extends_sstep (responses s) _ _ (inv_alloc _ _ I') (seg_net _ _ _ S)) as S'.
  split; [done|eapply sstep_demux_ok; [|exact S'|exact D]; done| |by exists n|by eapply private_same|].
  - intros t e. rewrite Ht, Hr. intros Hte. eapply (task_ok_step (fun _ _ _ => False)); [|done|exact S'|by apply T in Hte]. done.
  - rewrite He. eapply ended_le; [apply S'|done].
Qed.


(** The next segment of the synchronisation, wherever it is. *)
Lemma tick_rg s tick :
  sys_inv s ->
  rg cfg (next_conn (net (hd s))) (fun _ => cluster_inv cfg) (hd s) (sync_tick_p cfg tcp discover tick (hd s)).
Proof. intros Inv. apply rg_sync_tick; [done|]. split; [apply Inv|done]. Qed.

Lemma resume_rg n s b k :
  syncer s = Some (b, k) -> sync_from n s -> rg cfg n (fun _ => cluster_inv cfg) (hd s) (k (hd s)).
Proof. unfold sync_from. intros ->. intros (h & O & Hk). by apply Hk. Qed.

(** A step of a request. *)
Lemma exec_to_inv s t e e' h' :
  sys_inv s -> tasks s !! t = Some e -> waits_guard s e = false -> exec_step clock cfg e (hd s) = Moves e' h' ->
  sys_inv (exec_to s t e e' h').
Proof.
  intros Inv Ht Hg He. pose proof Inv as [I D T [n Y] P E].
  pose proof (exec_step_ok clock cfg (responses s) e (hd s) cfg_range I D (T _ _ Ht)) as Ho. rewrite He in Ho.
  destruct Ho as (R & S & T'). pose proof (exec_others _ _ _ _ _ _ I Hg He R S) as O.
  assert (Hlt : forall c k tx, will_store e c k tx -> (tx < next_shot (net (hd s)))%nat).
  { intros c k tx [Hr _]. apply (waits_on_lt s t tx Inv). by exists e, c, k. }
  split; [by eapply others_inv|by eapply sstep_demux_ok| |exists n; by apply (sync_from_others n s)| |].
  - intros t' e2 Ht'. simpl in Ht' |- *. apply lookup_insert_Some in Ht' as [[<- <-]|[Hne Ht']]; [done|].
    eapply (task_ok_step (will_store e)); [done| |exact S|by apply T in Ht'].
    intros c k tx c' k' H2 [H1 _]. destruct Hne. apply (P t t' tx); [by exists e, c', k'|by exists e2, c, k].
  - apply (private_insert s t e'); [done|done|]. apply exec_step_registered in He as [He|(c & k & _ & He)]; [right; left; eauto|eauto].
  - simpl. eapply ended_le; [apply R|done].
Qed.

Lemma sys_step_inv s s' : step s s' -> sys_inv s -> sys_inv s'.
Proof.
  intros Hstep Inv. pose proof Inv as [I D T [n Y] P E]. destruct Hstep as
    [s t w frame e Hn He|s t e e' h' Ht Hg He|s c ci hdr frame go ci' out Hr Hc Hs|s c Hr [ci Hc]|s c ci ok frame ci' Hc Hw
    |s t s' Hb Hk Hs|s b k s' Hk Hs].
  - split; [done|done| |by exists n| |done].
    + intros t' e' Ht'. simpl in Ht'. apply lookup_insert_Some in Ht' as [[<- <-]|[_ Ht']]; [|by eapply T].
      by eapply exec_start_ok.
    + apply (private_insert s t e); [done|done|left]. revert He. unfold exec_start. destruct (_ <? 9); [by intros [= <-]|].
      destruct frame.[0]; [|done]. cbn [mbind option_bind]. destruct (negb _); [by intros [= <-]|].
      destruct frame.[1; 5]; [|done]. by intros [= <-].
  - by eapply exec_to_inv.
  - assert (S : sstep ((c, clr_id hdr, frame) :: responses s) (net (hd s)) (deliver c ci' out (net (hd s))))
      by (eapply deliver_sstep; [done|done|exact Hs|set_solver]).
    apply store_step_inv; [done|done|set_solver|].
    pose proof (ended_le _ _ _ (ss_net _ _ _ _ S) E) as E'. destruct go; [done|].
    intros d [->%elem_of_singleton|Hd]%elem_of_union; [|by apply E'].
    exists ci'. split; [unfold deliver; destruct out as [[tx p]|]; simpl; by rewrite lookup_alter_eq, Hc|].
    apply read_loop_step_inv in Hs as (_ & _ & _ & Hcl & _). by apply Hcl.
  - assert (S : sstep (responses s) (net (hd s)) (close c (net (hd s)))).
    { unfold close. rewrite (on_conn_const _ _ _ _ Hc). by apply on_conn_sstep with ci. }
    apply store_step_inv; [done|done|done|]. intros d [->%elem_of_singleton|Hd]%elem_of_union.
    + exists (set_closed ci true). split; [simpl; by rewrite lookup_alter_eq, Hc|done].
    + by apply (ended_le _ _ _ (ss_net _ _ _ _ S) E).
  - apply write_loop_step_inv in Hw as (Ha & Hcl & Hd).
    assert (S : sstep (responses s) (net (hd s)) (on_conn c (fun _ => ci') (net (hd s))))
      by (apply on_conn_sstep with ci; [done..|by rewrite Hd]).
    apply (store_step_inv s _ (ended s) (responses s)); [done|done|done|]. eapply ended_le; [apply S|done].
  - eapply settle_inv; [done|by apply tick_rg|exact Hs].
  - eapply settle_inv; [done|by eapply resume_rg|exact Hs].
Qed.

Lemma reachable_sys_inv s : rtc step (sys_new cfg) s -> sys_inv s.
Proof.
  intros Hr. eapply (rtc_ind_r sys_inv); [apply sys_new_inv| |exact Hr].
  intros s1 s2 _ Hs I. by eapply sys_step_inv.
Qed.

(** Where the answer of a finished request comes from. *)
Lemma answer_source s t e b :
  rtc step (sys_new cfg) s -> tasks s !! t = Some e -> phase e = Done (Ok b) ->
  exists c k tx v, registered e = Some (c, k, tx) /\ (shard_frame_buf e).[1; 5] = Some (le_bytes 4 k)
  /\ (c, shard_frame_buf e) ∈ sends s /\ (v = [] \/ (c, k, v) ∈ responses s)
  /\ restore_clrid (original_clrid e) v = Some b.
Proof.
  intros Hr Ht Hp. destruct (reachable_sys_inv s Hr) as [_ _ T _ _ _]. destruct (T _ _ Ht) as [Hreg Hd].
  rewrite Hp in Hd. destruct Hd as (c & k & tx & v & Hr' & Hv & Hb). rewrite Hr' in Hreg. destruct Hreg as [_ Hf].
  pose proof (reachable_sent cfg tcp discover clock s Hr t e Ht) as Hq. unfold queued in Hq. rewrite Hp in Hq.
  destruct Hq as (c' & k' & tx' & Hr'' & Hq). rewrite Hr' in Hr''. injection Hr'' as <- <- <-.
  exists c, k, tx, v. auto.
Qed.

(** ** Requests that hang *)

(** Nobody is about to register under the id [k] of the connection [c]: a
    second registration would drop the first one's sender, and only takes place
    if the ids of the connection have gone all the way round meanwhile. *)
Definition id_settled (s : Sys) (c : nat) (k : Z) : Prop :=
  forall t e tx, tasks s !! t = Some e -> ~ will_store e c k tx.

(** The request waits for an answer on a connection whose read loop has ended
    and which is no longer in the tables; no synchronisation is under way. *)
Record orphaned (t : nat) (e : Exec) (s : Sys) : Prop := {
  orph_task : tasks s !! t = Some e;
  orph_waits : phase e = Waiting;
  orph_reg : exists c k tx, registered e = Some (c, k, tx) /\ shots (net (hd s)) !! tx = Some Empty
    /\ c ∈ ended s /\ ~ in_tables c (hd s) /\ id_settled s c k;
  orph_idle : syncer s = None
}.

(** The same while synchronisations run that started after the connection was
    made. *)
Record hanging (t : nat) (e : Exec) (s : Sys) : Prop := {
  hang_task : tasks s !! t = Some e;
  hang_waits : phase e = Waiting;
  hang_reg : exists c k tx, registered e = Some (c, k, tx) /\ shots (net (hd s)) !! tx = Some Empty
    /\ c ∈ ended s /\ ~ in_tables c (hd s) /\ id_settled s c k /\ exists n, (c < n)%nat /\ sync_from n s
}.

Lemma orphaned_hanging t e s : orphaned t e s -> hanging t e s.
Proof.
  intros [Ht Hw (c & k & tx & Hreg & He & Hend & Hn & Hid) Hi]. split; [done|done|]. exists c, k, tx. split_and!; try done.
  exists (S c). split; [lia|]. unfold sync_from. by rewrite Hi.
Qed.

Lemma sel_effect_orphan log h h1 c k tx :
  sel_effect h h1 -> reg_ok log (net h) c k tx -> ~ in_tables c h -> shots (net h) !! tx = Some Empty ->
  shots (net h1) !! tx = Some Empty /\ ~ in_tables c h1.
Proof.
  intros [C1 T1] R Hn He. split; [|intros Hc; by apply Hn, T1].
  destruct (cl_shots _ _ _ C1 tx) as [->|(_ & _ & c' & ci & k' & ts & HT & Hci & Hk)]; [done|].
  destruct (reg_only _ _ _ _ _ R _ _ _ _ Hci Hk) as [-> _]. done.
Qed.

(** A step of another request leaves the oneshot and the tables alone. *)
Lemma exec_step_orphan log e h e' h' c k tx :
  demux_ok (net h) -> reg_ok log (net h) c k tx -> (forall tx', ~ will_store e c k tx') ->
  ~ in_tables c h -> shots (net h) !! tx = Some Empty -> exec_step clock cfg e h = Moves e' h' ->
  shots (net h') !! tx = Some Empty /\ ~ in_tables c h'.
Proof.
  intros D R Hid Hn He. unfold exec_step, moves. destruct (phase e) as [|n|d|now| | |d|res] eqn:Eph.
  - unfold exec_pick. destruct (is_write e); [|by intros [= <- <-]].
    destruct (next_leader_conn _ _ _) as [[conn h1]|] eqn:El; cbn [mbind option_bind]; [|done].
    apply next_leader_conn_effect in El as [E _]. destruct conn; intros [= <- <-]; by eapply sel_effect_orphan.
  - unfold exec_scan. destruct n as [|n]; [by intros [= <- <-]|].
    destruct (follower_turn _ _ _) as [[conn h1]|] eqn:El; cbn [mbind option_bind]; [|done].
    apply follower_turn_effect in El as [E _]. destruct conn; intros [= <- <-]; by eapply sel_effect_orphan.
  - unfold exec_chosen, next_corr_id. destruct (negb _); [|by intros [= <- <-]].
    destruct (conns (net h) !! d) as [ci|]; [|done]. cbn [mbind option_bind].
    destruct (patch _ _ _); [|done]. cbn [mbind option_bind]. simpl. intros [= <- <-]. split; [|done]. simpl.
    pose proof (reg_lt _ _ _ _ _ R). by rewrite lookup_insert_ne by lia.
  - destruct (registered e) as [[[d k'] tx']|] eqn:Er; [|done]. intros [= <- <-]. split; [|done]. simpl.
    destruct (conns (net h) !! d) as [ci|] eqn:Hci; [|unfold demux_store; by rewrite Hci].
    rewrite (demux_store_eq _ _ _ _ _ _ Hci). destruct (demux ci !! k') as [[old ts]|] eqn:Eo; [|done]. simpl.
    rewrite lookup_alter_ne; [done|]. intros ->. destruct (reg_only _ _ _ _ _ R _ _ _ _ Hci Eo) as [-> ->].
    apply (Hid tx'). split; [done|by exists now].
  - destruct (registered e) as [[[d k'] tx']|]; [|done]. unfold send_raw.
    destruct (conns (net h) !! d) as [ci|]; [|done]. cbn [mbind option_bind].
    destruct (negb _); [by intros [= <- <-]|]. destruct (send_cap ci <=? _); [done|]. by intros [= <- <-].
  - destruct (registered e) as [[[d k'] tx']|]; [|done]. destruct (shots (net h) !! tx') as [[|v|]|]; try done.
    + destruct (restore_clrid _ _); [|done]. by intros [= <- <-].
    + by intros [= <- <-].
  - by intros [= <- <-].
  - by destruct (registered e) as [[[? ?] ?]|].
Qed.

(** An id is only taken on an open connection. *)
Lemma exec_step_will_store e h e' h' c k tx :
  exec_step clock cfg e h = Moves e' h' -> will_store e' c k tx -> is_closed c (net h) = false.
Proof.
  intros He [Hr [now Hp]]. revert He Hr Hp. unfold exec_step, moves.
  assert (Hfail : forall err, phase (exec_fail err e) <> Storing now) by (intros err; unfold exec_fail; simpl; by destruct (3 <=? _)).
  destruct (phase e) as [|n|d|now'| | |d|res] eqn:Eph.
  - unfold exec_pick. destruct (is_write e); [|by intros [= <- <-]].
    destruct (next_leader_conn _ _ _) as [[[d|] h1]|]; cbn [mbind option_bind]; [..|done]; intros [= <- <-]; [done|].
    by intros _ ?%Hfail.
  - unfold exec_scan. destruct n as [|n]; [intros [= <- <-] _ ?%Hfail; done|].
    by destruct (follower_turn _ _ _) as [[[d|] h1]|]; cbn [mbind option_bind]; [..|done]; intros [= <- <-].
  - unfold exec_chosen, next_corr_id. destruct (is_closed d (net h)) eqn:Ed; simpl negb; cbn iota; [intros [= <- <-] _ ?%Hfail; done|].
    destruct (conns (net h) !! d) as [ci|]; [|done]. cbn [mbind option_bind].
    destruct (patch _ _ _); [|done]. cbn [mbind option_bind]. simpl. intros [= <- <-] [= -> _ _] _. done.
  - destruct (registered e) as [[[d k'] tx']|]; [|done]. by intros [= <- <-].
  - destruct (registered e) as [[[d k'] tx']|]; [|done]. destruct (send_raw _ _ _) as [[[| |] st]|]; try done; intros [= <- <-]; [done|].
    by intros _ ?%Hfail.
  - destruct (registered e) as [[[d k'] tx']|]; [|done]. destruct (shots (net h) !! tx') as [[|v|]|]; try done.
    + destruct (restore_clrid _ _); [|done]. by intros [= <- <-].
    + by intros [= <- <-] _ ?%Hfail.
  - by intros [= <- <-].
  - by destruct (registered e) as [[[? ?] ?]|].
Qed.

(** Nobody comes to store under an id of a closed connection. *)
Lemma id_settled_exec s t e e' h' c k :
  is_closed c (net (hd s)) = true -> id_settled s c k -> exec_step clock cfg e (hd s) = Moves e' h' ->
  id_settled (exec_to s t e e' h') c k.
Proof.
  intros Hc Hid He t' e2 tx Ht'. simpl in Ht'. apply lookup_insert_Some in Ht' as [[<- <-]|[_ Ht']]; [|by eapply Hid].
  intros Hw. pose proof (exec_step_will_store _ _ _ _ _ _ _ He Hw). congruence.
Qed.

Lemma id_settled_start s t w frame e c k :
  exec_start w frame = Some e -> id_settled s c k -> id_settled (set_task s t e) c k.
Proof.
  intros He Hid t' e2 tx Ht'. simpl in Ht'. apply lookup_insert_Some in Ht' as [[<- <-]|[_ Ht']]; [|by eapply Hid].
  intros [Hr _]. revert He Hr. unfold exec_start. destruct (zlen frame <? 9); [by intros [= <-]|].
  destruct frame.[0]; [|done]. cbn [mbind option_bind]. destruct (negb _); [by intros [= <-]|].
  destruct frame.[1; 5]; [|done]. cbn [mbind option_bind]. by intros [= <-].
Qed.

Lemma id_settled_same s s' c k : tasks s' = tasks s -> id_settled s c k -> id_settled s' c k.
Proof. intros Ht Hid t e tx. rewrite Ht. apply Hid. Qed.

(** A segment of the synchronisation leaves it alone as well. *)
Lemma settle_hanging n t e s p s' :
  sys_inv s -> tasks s !! t = Some e -> phase e = Waiting ->
  (exists c k tx, registered e = Some (c, k, tx) /\ shots (net (hd s)) !! tx = Some Empty
     /\ c ∈ ended s /\ ~ in_tables c (hd s) /\ id_settled s c k /\ (c < n)%nat) ->
  rg cfg n (fun _ => cluster_inv cfg) (hd s) p -> settle s p = Some s' -> hanging t e s'.
Proof.
  intros Inv Ht Hw (c & k & tx & Hreg & He & Hend & Hn & Hid & Hlt) Hp (S & I' & Y & Et & Ee & _)%(settle_segment n); [|done].
  split; [by rewrite Et|done|]. exists c, k, tx. rewrite Ee, (ext_shots _ _ (seg_net _ _ _ S)). split_and!; try done.
  - intros [Hc|Hc]%(seg_tables _ _ _ S); [done|lia].
  - by eapply id_settled_same.
  - by exists n.
Qed.

Lemma hanging_step t e s s' : sys_inv s -> hanging t e s -> step s s' -> hanging t e s'.
Proof.
  intros Inv [Ht Hw (c & k & tx & Hreg & He & Hend & Hn & Hid & n & Hlt & Y)] Hstep. pose proof Inv as [I D T _ _ E].
  pose proof (T _ _ Ht) as [R _]. rewrite Hreg in R. destruct R as [R _].
  destruct Hstep as
    [s t' w frame e2 Hn' He'|s t' e2 e' h' Ht' Hg He'|s d ci hdr frame go ci' out Hr Hc Hs|s d Hr [ci Hc]|s d ci ok frame ci' Hc Hwr
    |s t' s' Hb Hk Hs|s b k' s' Hk Hs].
  - split; [|done|exists c, k, tx; split_and!; try done; [by eapply id_settled_start|by exists n]].
    simpl. rewrite lookup_insert_ne; [done|]. congruence.
  - destruct (decide (t' = t)) as [->|Hne].
    { simplify_eq. unfold exec_step in He'. rewrite Hw, Hreg, He in He'. discriminate. }
    destruct (exec_step_orphan (responses s) e2 (hd s) e' h' c k tx D R (fun tx' => Hid _ _ tx' Ht') Hn He He') as [He2 Hn2].
    split; [simpl; by rewrite lookup_insert_ne|done|]. exists c, k, tx. split_and!; try done.
    { eapply id_settled_exec; [by eapply ended_closed|done|done]. }
    exists n. split; [done|].
    pose proof (exec_step_ok clock cfg (responses s) e2 (hd s) cfg_range I D (T _ _ Ht')) as Ho. rewrite He' in Ho.
    destruct Ho as (R' & S & _). apply (sync_from_others n s); [done|by eapply exec_others|done].
  - pose proof (deliver_sstep ((d, clr_id hdr, frame) :: responses s) d ci ci' hdr frame go out _ Hc D Hs ltac:(set_solver)) as S.
    split; [done|done|]. exists c, k, tx. simpl. split_and!; [done| |destruct go; set_solver|done|done|].
    2:{ exists n. split; [done|]. apply (sync_from_others n s); [done|by eapply store_others|done]. }
    apply read_loop_step_inv in Hs as (_ & _ & _ & _ & Ho). unfold deliver. destruct out as [[tx' p]|]; [|done]. simpl.
    destruct Ho as [_ [ts Hk]]. rewrite lookup_alter_ne; [done|]. intros ->.
    destruct (reg_only _ _ _ _ _ R _ _ _ _ Hc Hk) as [-> _]. done.
  - split; [done|done|]. exists c, k, tx. simpl. split_and!; [done|done|set_solver|done|done|]. exists n. split; [done|].
    apply (sync_from_others n s); [done| |done]. apply (store_others (responses s)). unfold close.
    rewrite (on_conn_const _ _ _ _ Hc). by apply on_conn_sstep with ci.
  - split; [done|done|]. exists c, k, tx. split_and!; try done. exists n. split; [done|].
    apply (sync_from_others n s); [done| |done]. apply write_loop_step_inv in Hwr as (Ha & Hcl & Hd).
    apply (store_others (responses s)), on_conn_sstep with ci; [done..|by rewrite Hd].
  - eapply settle_hanging; [done|done|done| |by apply tick_rg|exact Hs]. exists c, k, tx. split_and!; try done.
    apply (inv_alloc _ _ I), (reg_conn _ _ _ _ _ R).
  - eapply (settle_hanging n); [done|done|done| |by eapply resume_rg|exact Hs]. by exists c, k, tx.
Qed.

End Invariant.

(** ** Lemmas: the choice of a request *)

Section Choice.
Context `{RQ : Reqwest}.
Context {HD : HashIter Z (nat * Z)} {HH : HashIter (string * Z) Z} (clock : nat -> Z) (cfg : Config).

Lemma exec_step_chooses e h e' h' c :
  exec_step clock cfg e h = Moves e' h' -> phase e' = Chosen c ->
  is_closed c (net h) = false
  /\ match phase e with
     | Picking => is_write e = true /\ exists i, leader_conns h !! i = Some (Some c)
     | Scanning _ => exists key, followers h !! key = Some c
     | _ => False
     end.
Proof.
  unfold exec_step, moves.
  assert (Hfail : forall err, phase (exec_fail err e) <> Chosen c) by (intros err; unfold exec_fail; simpl; by destruct (3 <=? _)).
  destruct (phase e) as [|n|d|now| | |d|res] eqn:Eph.
  - unfold exec_pick. destruct (is_write e); [|by intros [= <- <-]].
    destruct (next_leader_conn _ _ _) as [[conn h1]|] eqn:El; cbn [mbind option_bind]; [|done].
    apply next_leader_conn_effect in El as [_ Hsrc].
    destruct conn as [d|]; [intros [= <- <-] [= ->]|intros [= <- <-] ?%Hfail; done].
    by destruct (Hsrc _ eq_refl).
  - unfold exec_scan. destruct n as [|n]; [intros [= <- <-] ?%Hfail; done|].
    destruct (follower_turn _ _ _) as [[conn h1]|] eqn:El; cbn [mbind option_bind]; [|done].
    apply follower_turn_effect in El as [_ Hsrc]. destruct conn as [d|]; [intros [= <- <-] [= ->]; by apply Hsrc|by intros [= <- <-]].
  - unfold exec_chosen, next_corr_id. destruct (negb _); [|intros [= <- <-] ?%Hfail; done].
    destruct (conns (net h) !! d) as [ci|]; [|done]. cbn [mbind option_bind].
    destruct (patch _ _ _); [|done]. cbn [mbind option_bind]. simpl. by intros [= <- <-].
  - destruct (registered e) as [[[d k'] tx']|]; [|done]. by intros [= <- <-].
  - destruct (registered e) as [[[d k'] tx']|]; [|done].
    destruct (send_raw _ _ _) as [[[| |] st]|]; try done; intros [= <- <-]; [done|]. by intros ?%Hfail.
  - destruct (registered e) as [[[d k'] tx']|]; [|done]. destruct (shots (net h) !! tx') as [[|v|]|]; try done.
    + destruct (restore_clrid _ _); [|done]. by intros [= <- <-].
    + by intros [= <- <-] ?%Hfail.
  - by intros [= <- <-].
  - by destruct (registered e) as [[[? ?] ?]|].
Qed.


End Choice.

(** ** Lemmas: without a synchronisation *)

Section Idle.
Context `{RQ : Reqwest}.
Context {HF : HashIter (string * Z * Z) nat} {HH : HashIter (string * Z) Z}.
Context {HR : HashIter string Z} {HN : HashIter string (list (option nat))} {HD : HashIter Z (nat * Z)}.
Context (cfg : Config) (tcp : nat -> string -> Result unit io_Error).
Context (discover : nat -> Result ClusterTopology RZError) (clock : nat -> Z).

(** The request has no connection. *)
Definition unserved (e : Exec) : Prop :=
  match phase e with Picking | Scanning _ | Sleeping _ | Done (Err _) => True | _ => False end.

Record unsynced (s : Sys) : Prop := {
  unsynced_conns : conns (net (hd s)) = ∅;
  unsynced_syncer : syncer s = None;
  unsynced_tasks : forall t e, tasks s !! t = Some e -> unserved e
}.

Lemma exec_fail_unserved err e : unserved (exec_fail err e).
Proof. unfold unserved, exec_fail. simpl. by destruct (3 <=? _). Qed.

(** With no connection at all a request finds none. *)
Lemma exec_step_idle e h e' h' :
  conns (net h) = ∅ -> unserved e -> exec_step clock cfg e h = Moves e' h' -> conns (net h') = ∅ /\ unserved e'.
Proof.
  intros Hc Hu He.
  assert (Hch : forall c, phase e' <> Chosen c).
  { intros c Hp. destruct (exec_step_chooses _ _ _ _ _ _ _ He Hp) as [Ho _]. unfold is_closed in Ho.
    by rewrite Hc, lookup_empty in Ho. }
  assert (Hsel : forall h1, sel_effect h h1 -> conns (net h1) = ∅).
  { intros h1 [C _ _]. apply map_eq. intros c. rewrite lookup_empty. destruct (conns (net h1) !! c) as [ci|] eqn:Ec; [|done].
    destruct (cl_demux _ _ _ C _ _ Ec) as (ci0 & H0 & _). by rewrite Hc, lookup_empty in H0. }
  unfold exec_step, moves in He. unfold unserved in Hu. destruct (phase e) as [|n|d|now| | |d|res] eqn:Eph; try done.
  - revert He. unfold exec_pick. destruct (is_write e); [|by intros [= <- <-]].
    destruct (next_leader_conn _ _ _) as [[[c|] h1]|] eqn:El; cbn [mbind option_bind]; [..|done]; intros [= <- <-].
    + by destruct (Hch c).
    + split; [|apply exec_fail_unserved]. by apply next_leader_conn_effect in El as [E _]; apply Hsel.
  - revert He. unfold exec_scan. destruct n as [|n]; [intros [= <- <-]; split; [done|apply exec_fail_unserved]|].
    destruct (follower_turn _ _ _) as [[[c|] h1]|] eqn:El; cbn [mbind option_bind]; [..|done]; intros [= <- <-].
    + by destruct (Hch c).
    + split; [|done]. by apply follower_turn_effect in El as [E _]; apply Hsel.
  - destruct (registered e) as [[[? ?] ?]|]; by injection He as <- <-.
Qed.

Lemma unsynced_step s s' :
  node_probe_interval_sec cfg = 0 -> sys_step cfg tcp discover clock s s' -> unsynced s -> unsynced s'.
Proof.
  intros Hz Hstep [C Y U]. destruct Hstep as
    [s t w frame e Hn He|s t e e' h' Ht Hg He|s c ci hdr frame go ci' out Hr Hc Hs|s c Hr [ci Hc]|s c ci ok frame ci' Hc Hw
    |s t s' Hb Hk Hs|s b k s' Hk Hs]; [| |by rewrite C, lookup_empty in Hc..| |congruence].
  - split; [done|done|]. intros t' e' Ht'. simpl in Ht'. apply lookup_insert_Some in Ht' as [[<- <-]|[_ Ht']]; [|by eapply U].
    revert He. unfold exec_start, unserved. destruct (zlen frame <? 9); [by intros [= <-]|].
    destruct frame.[0]; [|done]. cbn [mbind option_bind]. destruct (negb _); [by intros [= <-]|].
    destruct frame.[1; 5]; [|done]. cbn [mbind option_bind]. by intros [= <-].
  - destruct (exec_step_idle _ _ _ _ C (U _ _ Ht) He) as [C' U']. split; [done|done|].
    intros t' e2 Ht'. simpl in Ht'. apply lookup_insert_Some in Ht' as [[<- <-]|[_ Ht']]; [done|by eapply U].
  - by apply sync_task_start_iff in Hb.
Qed.

End Idle.

(** ** Properties *)

Section Properties.
Context `{RQ : Reqwest}.
Context {HF : HashIter (string * Z * Z) nat} {HH : HashIter (string * Z) Z}.
Context {HR : HashIter string Z} {HN : HashIter string (list (option nat))} {HD : HashIter Z (nat * Z)}.
Context (cfg : Config) (tcp : nat -> string -> Result unit io_Error).
Context (discover : nat -> Result ClusterTopology RZError) (clock : nat -> Z).


(** C2. A request gets the answer to its own frame and nobody else's: a finished
    request returns what the read loop read on the connection its frame was
    queued on, under the correlation id the frame carries there, with the
    client's id put back into bytes 1 to 4 of a response of at least nine bytes; or else the empty
    answer of an expired entry. *)
Theorem answers_belong s t e b :
  0 < conn_per_roomzin_node cfg < 2 ^ 32 -> rtc (sys_step cfg tcp discover clock) (sys_new cfg) s ->
  tasks s !! t = Some e -> phase e = Done (Ok b) ->
  exists c k tx v, registered e = Some (c, k, tx) /\ (shard_frame_buf e).[1; 5] = Some (le_bytes 4 k)
  /\ (c, shard_frame_buf e) ∈ sends s /\ (v = [] \/ (c, k, v) ∈ responses s)
  /\ zlen b = zlen v /\ head b = head v
  /\ (9 <= zlen v -> b.[1; 5] = Some (le_bytes 4 (original_clrid e)) /\ drop 5 b = drop 5 v)
  /\ (zlen v < 9 -> b = v).
Proof.
  intros Hn Hr Ht Hp.
  destruct (answer_source cfg tcp discover clock Hn s t e b Hr Ht Hp) as (c & k & tx & v & Hreg & Hf & Hq & Hv & Hb).
  apply restore_spec in Hb as ((Hl & Hh & Hd') & H9 & Hs). exists c, k, tx, v. split_and!; auto.
Qed.


(** C16. But it may wait forever: a request that waits for an answer on a
    connection whose read loop has ended, and that a completed synchronisation
    has taken out of the tables, is never answered, failed or timed out,
    whatever happens afterwards. *)
Theorem orphaned_request_hangs s s' t e :
  0 < conn_per_roomzin_node cfg < 2 ^ 32 -> rtc (sys_step cfg tcp discover clock) (sys_new cfg) s ->
  orphaned t e s -> rtc (sys_step cfg tcp discover clock) s s' ->
  tasks s' !! t = Some e /\ phase e = Waiting.
Proof.
  intros Hn Hr Ho Hs. pose proof (reachable_sys_inv cfg tcp discover clock Hn s Hr) as I.
  apply orphaned_hanging with (cfg := cfg) in Ho. enough (hanging cfg t e s') as [? ? _] by done.
  clear Hr. induction Hs as [s|s s1 s' Hstep _ IH]; [done|]. apply IH.
  - by eapply hanging_step.
  - by eapply sys_step_inv.
Qed.

(** C28. With a probe interval of zero, which the configuration accepts, the
    synchronisation task dies when it is started and nobody notices: no
    connection is ever made, and no request ever succeeds. *)
Theorem zero_interval_never_serves s :
  node_probe_interval_sec cfg = 0 -> rtc (sys_step cfg tcp discover clock) (sys_new cfg) s ->
  sync_task_start cfg = None /\ conns (net (hd s)) = ∅
  /\ forall t e b, tasks s !! t = Some e -> phase e <> Done (Ok b).
Proof.
  intros Hz Hr. split.
  { destruct (sync_task_start cfg) eqn:E; [|done]. by destruct (proj1 (sync_task_start_iff cfg) (mk_is_Some _ _ E)). }
  assert (H0 : unsynced (sys_new cfg)) by (split; [done|done|by intros t e Ht]).
  assert (Hi : unsynced s).
  { eapply (rtc_ind_r unsynced); [exact H0| |exact Hr]. intros s1 s2 _. by apply unsynced_step. }
  destruct Hi as [C _ U]. split; [done|]. intros t e b Ht Hp. pose proof (U _ _ Ht) as Hu. unfold unserved in Hu.
  by rewrite Hp in Hu.
Qed.

(** C40. A request that expires on a closed connection (it was sent more than
    twice the timeout before another request meets the connection) is given
    the empty answer and returns it as a success. *)
Theorem expired_request_succeeds_empty e h c ci k tx t0 :
  registered e = Some (c, k, tx) -> phase e = Waiting -> conns (net h) !! c = Some ci ->
  demux ci !! k = Some (tx, t0) -> 0 <= timeout_sec cfg < 2 ^ 63 -> 0 <= t0 ->
  t0 < clock (ticks (net h)) - from_secs (timeout_sec cfg * 2) ->
  shots (net h) !! tx = Some Empty ->
  exists h', cleanup_conn clock cfg c h = Some h'
    /\ exec_step clock cfg e h' = Moves (set_phase e (Done (Ok []))) h'.
Proof.
  intros Hr Hp Hc Hk Hs H0 Ht He.
  assert (Hage : cleanup_age cfg = from_secs (timeout_sec cfg * 2)) by (unfold cleanup_age, w64; by rewrite Z.mod_small by lia).
  unfold cleanup_conn, demux_cleanup. rewrite Hc. simpl. rewrite Hage.
  destruct (cleanup (clock (ticks (net h))) (from_secs (timeout_sec cfg * 2)) (demux ci)) as [[d sent]|] eqn:Ec; cbn [mbind option_bind].
  2: { exfalso. apply cleanup_None in Ec. unfold instant_sub, instant_min in Ec.
       destruct (Z.leb_spec (- 2 ^ 63 * 1000000000) (clock (ticks (net h)) - from_secs (timeout_sec cfg * 2))); [done|lia]. }
  eexists. split; [done|]. unfold exec_step. rewrite Hp, Hr. set (h' := set_net _ _ _).
  assert (Hv : shots (net h') !! tx = Some (Value [])); [|by rewrite Hv].
  apply send_shot_foldl_value; [|done]. apply (cleanup_sent _ _ _ _ _ tx Ec). exists k, t0. split; [done|lia].
Qed.

(** Writes go to the leader, reads to the followers: the connection a request
    chooses is, at that moment, an open connection of a leader slot or of the
    follower table. *)
Theorem execute_routes s t e e' h' c :
  0 < conn_per_roomzin_node cfg < 2 ^ 32 -> rtc (sys_step cfg tcp discover clock) (sys_new cfg) s ->
  tasks s !! t = Some e -> exec_step clock cfg e (hd s) = Moves e' h' -> phase e' = Chosen c ->
  is_closed c (net (hd s)) = false
  /\ if is_write e then exists i, leader_conns (hd s) !! i = Some (Some c)
     else exists key, followers (hd s) !! key = Some c.
Proof.
  intros Hn Hr Ht He Hp. destruct (reachable_sys_inv cfg tcp discover clock Hn s Hr) as [_ _ T _ _ _].
  destruct (T _ _ Ht) as [_ Hw]. destruct (exec_step_chooses _ _ _ _ _ _ _ He Hp) as [Ho Hsrc]. split; [done|].
  destruct (phase e); try done; [by destruct Hsrc as [-> ?]|]. destruct Hw as (_ & _ & ->). done.
Qed.

End Properties.

(** ** Concrete runs

    Steps as functions, for runs that are evaluated. *)
Section Runs.
Context `{RQ : Reqwest}.
Context {HF : HashIter (string * Z * Z) nat} {HH : HashIter (string * Z) Z}.
Context {HR : HashIter string Z} {HN : HashIter string (list (option nat))} {HD : HashIter Z (nat * Z)}.
Context (cfg : Config) (tcp : nat -> string -> Result unit io_Error).
Context (discover : nat -> Result ClusterTopology RZError) (clock : nat -> Z).

Definition do_start (t : nat) (w : bool) (frame : bytes) (s : Sys) : option Sys :=
  match tasks s !! t with
  | Some _ => None
  | None => e ← exec_start w frame; Some (set_task s t e)
  end.

Definition do_exec (t : nat) (s : Sys) : option Sys :=
  e ← tasks s !! t;
  if waits_guard s e then None else
  match exec_step clock cfg e (hd s) with
  | Moves e' h' => Some (exec_to s t e e' h')
  | _ => None
  end.

(** A synchronisation that nothing interrupts. *)
Definition do_sync (tick : Tick) (s : Sys) : option Sys :=
  match syncer s with
  | Some _ => None
  | None => _ ← sync_task_start cfg; h ← sync_tick cfg tcp quiet discover tick (hd s); Some (set_hd s h)
  end.

Definition do_read (c : nat) (hdr : Header) (frame : bytes) (s : Sys) : option Sys :=
  if bool_decide (c ∈ ended s) then None else
  ci ← conns (net (hd s)) !! c;
  '(go, ci', out) ← read_loop_step hdr frame ci;
  Some (mkSys (set_store (hd s) (deliver c ci' out (net (hd s)))) (tasks s)
      (if (go : bool) then ended s else {[c]} ∪ ended s) ((c, clr_id hdr, frame) :: responses s) (syncer s) (sends s)).

Definition do_read_end (c : nat) (s : Sys) : option Sys :=
  if bool_decide (c ∈ ended s) then None else
  _ ← conns (net (hd s)) !! c;
  Some (mkSys (set_store (hd s) (close c (net (hd s)))) (tasks s) ({[c]} ∪ ended s) (responses s) (syncer s) (sends s)).

Definition is_step (f : Sys -> option Sys) : Prop :=
  forall s s', f s = Some s' -> rtc (sys_step cfg tcp discover clock) s s'.

Lemma do_start_step t w frame : is_step (do_start t w frame).
Proof.
  intros s s'. unfold do_start. destruct (tasks s !! t) eqn:Et; [done|].
  destruct (exec_start w frame) eqn:Ee; [|done]. intros [= <-]. by eapply rtc_once, sys_start.
Qed.

Lemma do_exec_step t : is_step (do_exec t).
Proof.
  intros s s'. unfold do_exec. destruct (tasks s !! t) eqn:Et; [|done]. cbn [mbind option_bind].
  destruct (waits_guard s e) eqn:Eg; [done|].
  destruct (exec_step clock cfg e (hd s)) eqn:Ee; [|done..]. intros [= <-]. by eapply rtc_once, sys_exec.
Qed.

(** The segments of an uninterrupted synchronisation are steps of the system. *)
Lemma segments_path p s s1 h' :
  settle s p = Some s1 -> snd <$> prun quiet p = Some h' ->
  rtc (sys_step cfg tcp discover clock) s1 (mkSys h' (tasks s) (ended s) (responses s) None (sends s)).
Proof.
  revert s s1. induction p as [[[u h]|]|b h k IH]; intros s s1; simpl; [|done|].
  - by intros [= <-] [= <-].
  - intros [= <-] Hp. unfold quiet in Hp. fold quiet in Hp. set (s1 := mkSys h _ _ _ _ _).
    destruct (settle s1 (k h)) as [s2|] eqn:E.
    + eapply rtc_l; [by apply (sys_resume _ _ _ _ s1 b k s2)|]. apply (IH h s1 s2 E Hp).
    + destruct (k h) as [[[u g]|]|b' g k']; done.
Qed.

Lemma do_sync_step tick : is_step (do_sync tick).
Proof.
  intros s s'. unfold do_sync. destruct (syncer s) eqn:Ey; [done|].
  destruct (sync_task_start cfg) as [timers|] eqn:Eb; [|done]. cbn [mbind option_bind].
  destruct (sync_tick _ _ _ _ _ _) as [h|] eqn:Es; [|done]. intros [= <-].
  pose proof (sync_tick_runs cfg tcp discover quiet tick (hd s)) as Hp. rewrite Es in Hp. simpl in Hp.
  destruct (settle s (sync_tick_p cfg tcp discover tick (hd s))) as [s1|] eqn:E.
  - eapply rtc_l; [eapply sys_tick; [by eexists|done|exact E]|]. unfold set_hd. rewrite Ey. eapply segments_path; [exact E|]. by rewrite Hp.
  - destruct (sync_tick_p cfg tcp discover tick (hd s)) as [[[u g]|]|b g k]; done.
Qed.

Lemma do_read_step c hdr frame : is_step (do_read c hdr frame).
Proof.
  intros s s'. unfold do_read. case_bool_decide as He; [done|]. destruct (conns _ !! c) eqn:Ec; [|done].
  cbn [mbind option_bind]. destruct (read_loop_step _ _ _) as [[[go ci'] out]|] eqn:Er; [|done]. intros [= <-].
  by eapply rtc_once, sys_read.
Qed.

Lemma do_read_end_step c : is_step (do_read_end c).
Proof.
  intros s s'. unfold do_read_end. case_bool_decide as He; [done|]. destruct (conns _ !! c) eqn:Ec; [|done].
  intros [= <-]. apply rtc_once, sys_read_end; [done|by eexists].
Qed.

Definition run (fs : list (Sys -> option Sys)) (s : Sys) : option Sys := foldl (fun o f => o ≫= f) (Some s) fs.

Lemma run_reaches fs s s' :
  Forall is_step fs -> run fs s = Some s' -> rtc (sys_step cfg tcp discover clock) s s'.
Proof.
  intros Hf. revert s. unfold run. induction Hf as [|f fs Hf _ IH]; intros s; simpl; [by intros [= ->]|].
  destruct (f s) as [s1|] eqn:E; simpl.
  - intros Hr. etrans; [by apply Hf|]. by apply IH.
  - intros Hr. exfalso. revert Hr. clear. induction fs; simpl; [done|exact IHfs].
Qed.

End Runs.

#[local] Existing Instance reqwest_text.
#[local] Instance sys_demux_order : HashIter Z (nat * Z) := list_order Z (nat * Z).
#[local] Instance sys_history_order : HashIter (string * Z) Z := list_order (string * Z) Z.
#[local] Instance sys_followers_order : HashIter (string * Z * Z) nat := list_order (string * Z * Z) nat.
#[local] Instance sys_required_order : HashIter string Z := list_order string Z.
#[local] Instance sys_new_order : HashIter string (list (option nat)) := list_order string (list (option nat)).

(** One write: the topology is a leader [l] and a follower [a]. *)
Definition ex_topo (_ : nat) : Result ClusterTopology RZError := Ok (mkTopo "l" ["a"]).
Definition ex_frame : bytes := prepend_header 7 (response_payload (str_bytes "SETROOM") 0 []).
Definition ex_answer : bytes := prepend_header 1 (response_payload (str_bytes "SUCCESS") 0 []).

Abbreviation ex_step := (sys_step run_cfg run_all ex_topo run_clock).

(** Connect, start the write, choose, take an id, register, send. *)
Definition ex_send : list (Sys -> option Sys) :=
  [do_sync run_cfg run_all ex_topo Fast; do_start 0 true ex_frame; do_exec run_cfg run_clock 0;
   do_exec run_cfg run_clock 0; do_exec run_cfg run_clock 0; do_exec run_cfg run_clock 0].

(** The leader answers. *)
Definition ex_answered : option Sys :=
  run (ex_send ++ [do_read 0 (mkHeader 1 x07 0) ex_answer; do_exec run_cfg run_clock 0]) (sys_new run_cfg).

(** The leader dies before it answers; the timer reconnects. *)
Definition ex_lost : option Sys :=
  run (ex_send ++ [do_read_end 0; do_sync run_cfg run_all ex_topo Fast]) (sys_new run_cfg).

Lemma ex_send_steps : Forall (is_step run_cfg run_all ex_topo run_clock) ex_send.
Proof.
  repeat constructor; [apply do_sync_step|apply do_start_step|apply do_exec_step..].
Qed.

Lemma ex_answered_reach s : ex_answered = Some s -> rtc ex_step (sys_new run_cfg) s.
Proof.
  apply run_reaches. apply Forall_app. split; [apply ex_send_steps|].
  repeat constructor; [apply do_read_step|apply do_exec_step].
Qed.

Lemma ex_lost_reach s : ex_lost = Some s -> rtc ex_step (sys_new run_cfg) s.
Proof.
  apply run_reaches. apply Forall_app. split; [apply ex_send_steps|].
  repeat constructor; [apply do_read_end_step|apply do_sync_step].
Qed.

(** The request of a state. *)
Definition task0 (s : option Sys) : option Exec := s ≫= fun s => tasks s !! 0%nat.

Example ex_answered_result :
  phase <$> task0 ex_answered = Some (Done (Ok (prepend_header 7 (response_payload (str_bytes "SUCCESS") 0 [])))).
Proof. vm_compute. reflexivity. Qed.


Lemma task0_Some o s p : o = Some s -> phase <$> task0 o = Some p -> exists e, tasks s !! 0%nat = Some e /\ phase e = p.
Proof.
  intros ->. unfold task0. simpl. destruct (tasks s !! 0%nat) as [e|]; [|done]. intros [= <-]. eauto.
Qed.


Lemma answers_belong_witness :
  exists s e c k v b, tasks s !! 0%nat = Some e /\ phase e = Done (Ok b) /\ (v = [] \/ (c, k, v) ∈ responses s)
  /\ zlen b = zlen v.
Proof.
  destruct ex_answered as [s|] eqn:E; [|vm_compute in E; discriminate].
  pose proof ex_answered_result as Hw. destruct (task0_Some _ _ _ E Hw) as (e & He & Hp).
  destruct (answers_belong run_cfg run_all ex_topo run_clock s 0 e _ run_range (ex_answered_reach s E) He Hp)
    as (c & k & tx & v & _ & _ & _ & Hv & Hl & _).
  exists s, e, c, k, v, (prepend_header 7 (response_payload (str_bytes "SUCCESS") 0 [])).
  split; [exact He|split; [exact Hp|split; [exact Hv|exact Hl]]].
Defined.



(** The test of [orphaned], as a function. *)
Definition orphan_test (s : Sys) : bool :=
  match tasks s !! 0%nat with
  | Some e =>
      match phase e, registered e with
      | Waiting, Some (c, _, tx) =>
          match shots (net (hd s)) !! tx with Some Empty => true | _ => false end
          && match syncer s with None => true | Some _ => false end
          && forallb (fun x => bool_decide (fst x = 0%nat)) (map_to_list (tasks s))
          && bool_decide (c ∈ ended s) && negb (existsb (fun x => bool_decide (x = Some c)) (leader_conns (hd s)))
          && negb (existsb (fun x => bool_decide (snd x = c)) (map_to_list (followers (hd s))))
      | _, _ => false
      end
  | None => false
  end.

Lemma orphan_test_sound s : orphan_test s = true -> exists e, orphaned 0 e s.
Proof.
  unfold orphan_test. destruct (tasks s !! 0%nat) as [e|] eqn:Et; [|done]. destruct (phase e) eqn:Ep; try done.
  destruct (registered e) as [[[c k] tx]|] eqn:Er; [|done].
  intros [[[[[Hs Hy]%andb_true_iff Ha]%andb_true_iff Hc%bool_decide_eq_true]%andb_true_iff Hl%negb_true_iff]%andb_true_iff Hf%negb_true_iff]%andb_true_iff.
  exists e. split; [done|done| |by destruct (syncer s)]. exists c, k, tx. split; [done|]. split; [by destruct (_ !! tx) as [[]|]|].
  split; [done|]. split.
  2: { intros t' e' tx' Ht' [_ [now Hw]]. assert (t' = 0%nat) as ->.
       { apply elem_of_map_to_list, list_elem_of_In in Ht'. rewrite forallb_forall in Ha. apply Ha in Ht'.
         by apply bool_decide_eq_true in Ht'. }
       congruence. }
  intros [[i Hi]|[key Hk]].
  - apply list_elem_of_lookup_2, list_elem_of_In in Hi. rewrite (proj2 (existsb_exists _ _)) in Hl; [done|].
    exists (Some c). split; [done|]. by apply bool_decide_true.
  - apply elem_of_map_to_list, list_elem_of_In in Hk. rewrite (proj2 (existsb_exists _ _)) in Hf; [done|].
    exists (key, c). split; [done|]. by apply bool_decide_true.
Qed.

Lemma orphaned_request_hangs_witness :
  exists s e, rtc ex_step (sys_new run_cfg) s /\ tasks s !! 0%nat = Some e /\ phase e = Waiting
  /\ forall s', rtc ex_step s s' -> tasks s' !! 0%nat = Some e.
Proof.
  assert (Ht : match ex_lost with Some s => orphan_test s | None => false end = true) by (vm_compute; reflexivity).
  destruct ex_lost as [s|] eqn:E; [|discriminate]. destruct (orphan_test_sound s Ht) as [e He].
  exists s, e. split; [exact (ex_lost_reach s E)|]. split; [exact (orph_task _ _ _ He)|].
  split; [exact (orph_waits _ _ _ He)|]. intros s' Hs.
  exact (proj1 (orphaned_request_hangs run_cfg run_all ex_topo run_clock s s' 0 e run_range (ex_lost_reach s E) He Hs)).
Defined.

(** A request sent at time 0 on a connection that closed; it is ten seconds later. *)
Definition ex_expired : HandlerInner :=
  set_net run_new (mkStore {[0%nat := set_closed (set_demux (new_inner "l" run_cfg) {[1 := (0%nat, 0)]}) true]}
    {[0%nat := Empty]} 1 1 0) 0.
Definition ex_waiting : Exec := mkExec true ex_frame 7 0 (Some (0%nat, 1, 0%nat)) Waiting.

Lemma expired_request_succeeds_empty_witness :
  exists h', cleanup_conn (fun _ => 10000000000) run_cfg 0 ex_expired = Some h'
  /\ exec_step (fun _ => 10000000000) run_cfg ex_waiting h' = Moves (set_phase ex_waiting (Done (Ok []))) h'.
Proof.
  apply (expired_request_succeeds_empty run_cfg (fun _ => 10000000000) ex_waiting ex_expired 0
    (set_closed (set_demux (new_inner "l" run_cfg) {[1 := (0%nat, 0)]}) true) 1 0 0); try reflexivity; simpl; lia.
Defined.

(** Connected, and a write about to choose. *)
Definition ex_picking : option Sys :=
  run [do_sync run_cfg run_all ex_topo Fast; do_start 0 true ex_frame] (sys_new run_cfg).

Lemma ex_picking_reach s : ex_picking = Some s -> rtc ex_step (sys_new run_cfg) s.
Proof. apply run_reaches. repeat constructor; [apply do_sync_step|apply do_start_step]. Qed.

(** The first request has chosen the connection 0. *)
Definition chose0 (s : Sys) : bool :=
  match tasks s !! 0%nat with
  | Some e => is_write e && match exec_step run_clock run_cfg e (hd s) with
      | Moves e' _ => match phase e' with Chosen 0 => true | _ => false end | _ => false end
  | None => false
  end.

Lemma chose0_inv s :
  chose0 s = true -> exists e e' h', tasks s !! 0%nat = Some e /\ is_write e = true
    /\ exec_step run_clock run_cfg e (hd s) = Moves e' h' /\ phase e' = Chosen 0.
Proof.
  unfold chose0. destruct (tasks s !! 0%nat) as [e|]; [|done]. intros [Hw Ht]%andb_true_iff.
  destruct (exec_step run_clock run_cfg e (hd s)) as [e' h'| |] eqn:Es; [|done..]. exists e, e', h'.
  split_and!; try done. by destruct (phase e') as [| |[]| | | | |].
Qed.

Lemma execute_routes_witness :
  exists s e, tasks s !! 0%nat = Some e /\ is_write e = true /\ exists i, leader_conns (hd s) !! i = Some (Some 0%nat).
Proof.
  assert (Ht : match ex_picking with Some s => chose0 s | None => false end = true) by (vm_compute; reflexivity).
  destruct ex_picking as [s|] eqn:E; [|discriminate]. pose proof (ex_picking_reach s E) as Hr.
  destruct (chose0_inv s Ht) as (e & e' & h' & Ee & Hw & Es & Hc).
  exists s, e. split; [exact Ee|]. split; [exact Hw|].
  pose proof (proj2 (execute_routes run_cfg run_all ex_topo run_clock s 0 e e' h' 0 run_range Hr Ee Es Hc)) as Hroute.
  rewrite Hw in Hroute. exact Hroute.
Defined.

(** The default configuration but for a probe interval of zero: a write comes
    and has to sleep. *)
Definition zero_cfg : Config :=
  let c := run_cfg in
  mkConfig (zone_id c) (shard_id c) (bridge_id c) (rzid_addr c) (rzpoint_addr c)
    (roomzin_api_port c) (roomzin_tcp_port c) (rzid_heartbeat_interval_secs c)
    (listen_host c) (listen_port c) (api_listening_addr c) (conn_per_roomzin_node c) (max_active_conns c)
    (max_connections c) (timeout_sec c) (http_timeout_sec c) (keep_alive_sec c)
    0 (worker_threads c) (frame_timeout_secs c) (idle_timeout_secs c) (max_buffer_size c) (max_frame_size c).

Definition ex_zero : option Sys := run [do_start 0 true ex_frame; do_exec zero_cfg run_clock 0] (sys_new zero_cfg).

Lemma ex_zero_reach s : ex_zero = Some s -> rtc (sys_step zero_cfg run_all ex_topo run_clock) (sys_new zero_cfg) s.
Proof. apply run_reaches. repeat constructor; [apply do_start_step|apply do_exec_step]. Qed.

Lemma zero_interval_never_serves_witness :
  exists s e, tasks s !! 0%nat = Some e /\ phase e = Sleeping (from_millis 100) /\ conns (net (hd s)) = ∅.
Proof.
  assert (Hw : phase <$> task0 ex_zero = Some (Sleeping (from_millis 100))) by (vm_compute; reflexivity).
  destruct ex_zero as [s|] eqn:E; [|discriminate]. destruct (task0_Some _ _ _ eq_refl Hw) as (e & He & Hp).
  exists s, e. split; [exact He|split; [exact Hp|]].
  exact (proj1 (proj2 (zero_interval_never_serves zero_cfg run_all ex_topo run_clock s eq_refl (ex_zero_reach s E)))).
Defined.
