(* ===== verification/Recovery.v ===== *)
(** * Recovery: what a synchronisation brings back

    The [syncing] flag of [cluster_handler.rs] keeps two synchronisations from
    running at once; it is down again whenever none is under way, in every
    reachable state of the system, so that a later tick can always start one.
    One that nothing disturbs, over nodes that accept, leaves every leader slot
    open and connected to the leader, and writes find it. *)

From S2P Require Import Prelude RustStd Error Config Protocol Demux Connection LoadBalancer Topology.
From S2P Require Import ClusterSync ClusterProps SyncSteps Execute System SystemProps.
Local Open Scope Z_scope.

(** ** Where resumptions end *)

(** Resumed in whatever states, with the flag as [p] left it, [p] ends in [P],
    if it ends. *)
Fixpoint ends {A} (P : HandlerInner -> Prop) (p : Prog A) : Prop :=
  match p with
  | Ret None => True
  | Ret (Some (_, h)) => P h
  | Susp _ h k => forall h', syncing h' = syncing h -> ends P (k h')
  end.

Lemma ends_bind {A B} P (p : Prog A) (f : A -> HandlerInner -> Prog B) :
  (forall a h, ends P (f a h)) -> ends P (pbind p f).
Proof. intros Hf. induction p as [[[a h]|]|b h k IH]; simpl; auto. Qed.

(** ** Lemmas: the flag *)

Section Flag.
Context `{RQ : Reqwest}.
Context {HF : HashIter (string * Z * Z) nat} {HH : HashIter (string * Z) Z}.
Context {HR : HashIter string Z} {HN : HashIter string (list (option nat))} {HD : HashIter Z (nat * Z)}.
Context (cfg : Config) (tcp : nat -> string -> Result unit io_Error).
Context (discover : nat -> Result ClusterTopology RZError) (clock : nat -> Z).
Context (cfg_range : 0 < conn_per_roomzin_node cfg < 2 ^ 32).

Definition idle (h : HandlerInner) : Prop := syncing h = false.

Lemma sync_tick_ends t h : idle h -> ends idle (sync_tick_p cfg tcp discover t h).
Proof.
  assert (Hs : forall h, idle h -> ends idle (sync_with_cluster_p cfg tcp discover h)).
  { clear h. intros h Hi. unfold sync_with_cluster_p. destruct (syncing h); [exact Hi|]. apply ends_bind. intros _ h1.
    apply ends_bind. by intros _ h2. }
  intros Hi. destruct t; simpl; [|by apply Hs].
  intros h1 H1 h2 H2. simpl in H2. unfold idle in *. destruct (_ || _); simpl; [apply Hs|]; simpl; congruence.
Qed.

(** Idle when nothing runs; what runs ends idle. *)
Definition flag_ok (s : Sys) : Prop :=
  match syncer s with
  | None => idle (hd s)
  | Some (_, k) => forall h, syncing h = syncing (hd s) -> ends idle (k h)
  end.

Lemma settle_flag s p s' : ends idle p -> settle s p = Some s' -> flag_ok s'.
Proof.
  unfold flag_ok. destruct p as [[[u h]|]|b h k]; simpl; [|done|]; intros He [= <-]; exact He.
Qed.

Lemma flag_step s s' : sys_inv cfg s -> sys_step cfg tcp discover clock s s' -> flag_ok s -> flag_ok s'.
Proof.
  intros [I D T _ _ _] Hstep. unfold flag_ok at 1. destruct Hstep as
    [s t w frame e Hn He|s t e e' h' Ht Hg He|s c ci hdr frame go ci' out Hr Hc Hs|s c Hr Hc|s c ci ok frame ci' Hc Hw
    |s t s' Hb Hk Hs|s b k s' Hk Hs]; try done.
  - pose proof (exec_step_ok clock cfg (responses s) e (hd s) cfg_range I D (T _ _ Ht)) as Ho. rewrite He in Ho.
    destruct Ho as ([_ _ Hsy _] & _). unfold flag_ok, idle. simpl. by rewrite Hsy.
  - rewrite Hk. intros Hi. eapply settle_flag; [by apply sync_tick_ends|exact Hs].
  - rewrite Hk. intros He. eapply settle_flag; [by apply He|exact Hs].
Qed.

Lemma reachable_flag s : rtc (sys_step cfg tcp discover clock) (sys_new cfg) s -> flag_ok s.
Proof.
  intros Hr. assert (H0 : flag_ok (sys_new cfg)) by done. eapply (rtc_ind_r flag_ok); [exact H0| |exact Hr].
  intros s1 s2 Hr1 Hs I. eapply flag_step; [|exact Hs|exact I]. by eapply reachable_sys_inv.
Qed.

End Flag.

(** ** Lemmas: the slots a quiet synchronisation leaves *)

Definition all_open (h : HandlerInner) : Prop := forall i s, leader_conns h !! i = Some s -> slot_open (net h) s = true.

(** A slot open in a store is open in one that extends it. *)
Lemma slot_open_extends st st' s : extends st st' -> slot_open st s = true -> slot_open st' s = true.
Proof.
  intros E. destruct s as [c|]; [|done]. simpl. unfold is_closed. destruct (conns st !! c) as [ci|] eqn:Ec; [|done].
  by rewrite (lookup_weaken _ _ _ _ Ec (ext_conns _ _ E)).
Qed.

Section Slots.
Context `{RQ : Reqwest}.
Context {HF : HashIter (string * Z * Z) nat} {HH : HashIter (string * Z) Z}.
Context {HR : HashIter string Z} {HN : HashIter string (list (option nat))} {HD : HashIter Z (nat * Z)}.
Context (cfg : Config) (tcp : nat -> string -> Result unit io_Error).
Context (tcp_ok : forall k host, is_ok (tcp k host) = true).

Lemma dial_open host h :
  exists c h1, dial cfg tcp quiet host h = (Ok c, h1) /\ leader_conns h1 = leader_conns h
  /\ slot_open (net h1) (Some c) = true.
Proof.
  unfold dial, connect, await, quiet. pose proof (tcp_ok (awaits h) host) as Hok.
  destruct (tcp (awaits h) host); [|done]. eexists _, _. split; [reflexivity|]. split; [done|].
  simpl. unfold is_closed. simpl. by rewrite lookup_insert_eq.
Qed.

Lemma fill_slots_open slots host h h' :
  alloc_ok (net h) -> fill_slots cfg tcp quiet slots host h = Some h' ->
  (forall i s, leader_conns h !! i = Some s -> i ∈ slots \/ slot_open (net h) s = true) -> all_open h'.
Proof.
  revert h. induction slots as [|i r IH]; intros h Ha; cbn [fill_slots].
  - intros [= <-] Ho i s Hs. destruct (Ho i s Hs) as [?%elem_of_nil|]; done.
  - pose proof (dial_effect cfg tcp host h Ha) as Hd. destruct (dial_open host h) as (c & h1 & Ed & Hl & Hc).
    rewrite Ed in Hd |- *. destruct Hd as (E & _ & _ & _).
    destruct (leader_conns (await quiet h1) !! i); simpl; [|done]. intros Hf Ho.
    apply IH in Hf; [done|by apply (eff_alloc _ _ E)|]. intros j s Hj. simpl in Hj |- *.
    apply list_lookup_insert_Some in Hj as [(-> & <- & _)|[Hne Hj]]; [by right|].
    unfold quiet in Hj |- *. rewrite Hl in Hj.
    destruct (Ho j s Hj) as [Hin|Hopen]; [left; set_solver|right]. eapply slot_open_extends; [apply E|done].
Qed.

Lemma sync_leader_open host h h' :
  alloc_ok (net h) -> sync_leader cfg tcp quiet host h = Some h' -> all_open h'.
Proof.
  intros Ha. unfold sync_leader. set (h1 := if leader_changed host h then _ else h). intros Hf.
  eapply fill_slots_open; [|exact Hf|].
  - subst h1. by destruct (leader_changed host h).
  - intros i s Hs. destruct (slot_open (net (await quiet h1)) s) eqn:Eo; [by right|left].
    apply required_slots_elem. eauto.
Qed.

Lemma sync_open discover topo h :
  0 < conn_per_roomzin_node cfg < 2 ^ 32 -> cluster_inv cfg h -> idle h -> (forall k, discover k = Ok topo) ->
  exists h', sync_with_cluster cfg tcp quiet discover h = Some h' /\ cluster_inv cfg h'
  /\ leader_host h' = Some (leader topo) /\ all_open h'.
Proof.
  intros Hn I Hi Hd. unfold sync_with_cluster. rewrite Hi. simpl. rewrite Hd.
  set (h1 := await quiet _). assert (I1 : cluster_inv cfg h1) by (destruct I; by split).
  destruct (sync_leader_lemma cfg tcp quiet (quiet_ok cfg) (leader topo) h1 I1) as (h2 & E2 & I2 & Hh2 & _).
  rewrite E2. cbn [mbind option_bind].
  destruct (sync_followers_lemma cfg tcp quiet (quiet_ok cfg) Hn (topo_followers topo) h2 I2) as (h3 & E3 & I3 & G3).
  rewrite E3. cbn [mbind option_bind]. eexists. split; [reflexivity|]. split; [destruct I3; by split|].
  split; [simpl; by rewrite (grows_host _ _ G3)|]. intros i s. simpl. rewrite (grows_leader _ _ G3). intros Hs.
  eapply slot_open_extends; [apply (sync_followers_effect cfg tcp _ _ _ (inv_alloc _ _ I2) E3)|].
  eapply sync_leader_open; [apply I1|exact E2|exact Hs].
Qed.

Lemma sync_tick_open discover topo tick h :
  0 < conn_per_roomzin_node cfg < 2 ^ 32 -> cluster_inv cfg h -> idle h -> (forall k, discover k = Ok topo) ->
  tick = Slow \/ any_leader_conns h = false \/ any_follower_conns h = false ->
  exists h', sync_tick cfg tcp quiet discover tick h = Some h' /\ cluster_inv cfg h'
  /\ leader_host h' = Some (leader topo) /\ all_open h'.
Proof.
  intros Hn I Hi Hd Ht. destruct tick; [|by apply sync_open]. unfold sync_tick.
  change (any_leader_conns (await quiet h)) with (any_leader_conns h).
  change (any_follower_conns (await quiet (await quiet h))) with (any_follower_conns h).
  replace (negb _ || negb _) with true by (destruct Ht as [?|[-> | ->]]; [done|done|by rewrite orb_true_r]).
  apply sync_open; [done|destruct I; by split|done|done].
Qed.

(** With every slot open a write chooses a connection to the leader. *)
Lemma write_chooses clock e h host :
  0 < conn_per_roomzin_node cfg < 2 ^ 32 -> clock_covers clock (cleanup_age cfg) ->
  cluster_inv cfg h -> all_open h -> leader_host h = Some host -> phase e = Picking -> is_write e = true ->
  exists h' c ci, exec_step clock cfg e h = Moves (set_phase e (Chosen c)) h' /\ is_closed c (net h') = false
  /\ conns (net h) !! c = Some ci /\ addr ci = host /\ closed ci = false.
Proof.
  intros Hn Hcov I Ho Hh Hp Hw. unfold exec_step, exec_pick. rewrite Hp, Hw.
  pose proof (leader_choice clock cfg h ltac:(lia) (inv_len _ _ I) (proj1 (proj2 (inv_lb _ _ I)))) as Hc.
  destruct (next_leader_conn clock cfg h) as [[res h1]|] eqn:El; cbn [mbind option_bind]; [|by destruct (Hc Hcov)].
  destruct (next_leader_conn_effect clock cfg h res h1 El) as [E Hsrc].
  destruct Hc as (_ & _ & Hc).
  assert (Hslot : exists c, leader_conns h !! 0%nat = Some (Some c) /\ is_closed c (net h) = false).
  { destruct (lookup_lt_is_Some_2 (leader_conns h) 0) as [s Hs]; [pose proof (inv_len _ _ I); unfold zlen in *; lia|].
    specialize (Ho _ _ Hs). destruct s as [c|]; [|done]. exists c. split; [done|]. by apply negb_true_iff. }
  destruct (List.find _ _) as [i|].
  2:{ destruct Hc as (_ & Hnone & _). destruct Hslot as (c & Hs & Hcl). specialize (Hnone 0 ltac:(lia)).
      unfold open_at in Hnone. change (Z.to_nat 0) with 0%nat in Hnone. rewrite Hs in Hnone. simpl in Hnone.
      by rewrite Hcl in Hnone. }
  destruct Hc as (_ & [c ->] & _). destruct (Hsrc c eq_refl) as [Hop [j Hj]].
  destruct (inv_slot _ _ I _ _ Hj) as (ci & Hci & Ha).
  exists h1, c, ci. split_and!; [done|by rewrite (sel_effect_closed _ _ c E)|done|congruence|].
  unfold is_closed in Hop. by rewrite Hci in Hop.
Qed.

(** The next step takes an id on the connection chosen, if it is still open. *)
Lemma chosen_takes clock c e h :
  9 <= zlen (shard_frame_buf e) -> is_closed c (net h) = false ->
  exists e' h' k tx now, exec_step clock cfg (set_phase e (Chosen c)) h = Moves e' h' /\ phase e' = Storing now
  /\ registered e' = Some (c, k, tx).
Proof.
  intros H9 Ho. destruct (is_closed_false _ _ Ho) as (ci & Hci & Hcl).
  destruct (exec_chosen_eq clock c ci (set_phase e (Chosen c)) h Hci Hcl H9) as (frame & _ & _ & _ & He).
  unfold exec_step. simpl phase. cbn iota. rewrite He. simpl. by do 5 eexists.
Qed.

End Slots.

(** ** Lemmas: a synchronisation depends on what happens from its start on *)

Section FromNow.
Context `{RQ : Reqwest}.
Context {HF : HashIter (string * Z * Z) nat} {HH : HashIter (string * Z) Z}.
Context {HR : HashIter string Z} {HN : HashIter string (list (option nat))}.
Context (cfg : Config) (tcp tcp' : nat -> string -> Result unit io_Error).
Context (discover discover' : nat -> Result ClusterTopology RZError) (N : nat).
Context (tcp_same : forall k host, (N <= k)%nat -> tcp k host = tcp' k host).
Context (discover_same : forall k, (N <= k)%nat -> discover k = discover' k).

Lemma dial_now host h :
  (N <= awaits h)%nat -> dial cfg tcp quiet host h = dial cfg tcp' quiet host h
  /\ (N <= awaits (snd (dial cfg tcp quiet host h)))%nat.
Proof.
  intros Hle. unfold dial. rewrite tcp_same by done. split; [done|].
  destruct (connect _ _ _ _). simpl. lia.
Qed.

Lemma fill_slots_now slots host h :
  (N <= awaits h)%nat -> fill_slots cfg tcp quiet slots host h = fill_slots cfg tcp' quiet slots host h
  /\ forall h', fill_slots cfg tcp quiet slots host h = Some h' -> (N <= awaits h')%nat.
Proof.
  revert h. induction slots as [|i r IH]; intros h Hle; cbn [fill_slots]; [by split; [|intros h' [= <-]]|].
  destruct (dial_now host h Hle) as [<- Hle1]. destruct (dial cfg tcp quiet host h) as [[c|e] h1]; simpl in Hle1; [|by apply IH].
  destruct (leader_conns (await quiet h1) !! i); cbn [mbind option_bind]; [|done]. apply IH. simpl. lia.
Qed.

Lemma sync_leader_now host h :
  (N <= awaits h)%nat -> sync_leader cfg tcp quiet host h = sync_leader cfg tcp' quiet host h
  /\ forall h', sync_leader cfg tcp quiet host h = Some h' -> (N <= awaits h')%nat.
Proof.
  intros Hle. unfold sync_leader. apply fill_slots_now. destruct (leader_changed host h); simpl; lia.
Qed.

Lemma dial_n_now n host m h :
  (N <= awaits h)%nat -> dial_n cfg tcp quiet n host m h = dial_n cfg tcp' quiet n host m h
  /\ (N <= awaits (snd (dial_n cfg tcp quiet n host m h)))%nat.
Proof.
  revert m h. induction n as [|n IH]; intros m h Hle; cbn [dial_n]; [done|].
  destruct (dial_now host h Hle) as [<- Hle1]. destruct (dial cfg tcp quiet host h) as [[c|e] h1]; by apply IH.
Qed.

Lemma dial_all_now l m h :
  (N <= awaits h)%nat -> dial_all cfg tcp quiet l m h = dial_all cfg tcp' quiet l m h.
Proof.
  revert m h. induction l as [|[host k] l IH]; intros m h Hle; cbn [dial_all]; [done|].
  destruct (dial_n_now (Z.to_nat k) host m h Hle) as [<- Hle1]. destruct (dial_n _ _ _ _ host m h) as [m1 h1]. by apply IH.
Qed.

Lemma sync_followers_now fl h :
  (N <= awaits h)%nat -> sync_followers cfg tcp quiet fl h = sync_followers cfg tcp' quiet fl h.
Proof.
  intros Hle. unfold sync_followers. destruct (required_conns _ _ _) as [req|]; cbn [mbind option_bind]; [|done].
  rewrite dial_all_now; [done|]. simpl. lia.
Qed.

Lemma sync_tick_now t h :
  (N <= awaits h)%nat -> sync_tick cfg tcp quiet discover t h = sync_tick cfg tcp' quiet discover' t h.
Proof.
  assert (Hs : forall g, (N <= awaits g)%nat ->
    sync_with_cluster cfg tcp quiet discover g = sync_with_cluster cfg tcp' quiet discover' g).
  { intros g Hle. unfold sync_with_cluster. destruct (syncing g); [done|].
    change (awaits (set_syncing g true)) with (awaits g). rewrite discover_same by done.
    destruct (discover' (awaits g)) as [topo|e]; [|done].
    destruct (sync_leader_now (leader topo) (await quiet (set_syncing g true))) as [<- Hle']; [simpl; lia|].
    destruct (sync_leader _ _ _ _ _) as [h1|]; cbn [mbind option_bind]; [|done].
    by rewrite sync_followers_now by (by apply Hle'). }
  intros Hle. unfold sync_tick. destruct t; [|by apply Hs]. destruct (_ || _); [|done]. apply Hs. simpl. lia.
Qed.

End FromNow.

(** The outcomes from [N] on, and [x] before. *)
Definition from_now {A} (N : nat) (f : nat -> A) (x : A) (k : nat) : A := if decide (N <= k)%nat then f k else x.

Lemma from_now_same {A} N (f : nat -> A) x k : (N <= k)%nat -> f k = from_now N f x k.
Proof. intros Hk. unfold from_now. by rewrite decide_True. Qed.

Lemma from_now_all {A} (P : A -> Prop) N (f : nat -> A) x k :
  P x -> (forall k, (N <= k)%nat -> P (f k)) -> P (from_now N f x k).
Proof. intros Hx Hf. unfold from_now. case_decide; auto. Qed.

(** ** Properties *)

Section Properties.
Context `{RQ : Reqwest}.
Context {HF : HashIter (string * Z * Z) nat} {HH : HashIter (string * Z) Z}.
Context {HR : HashIter string Z} {HN : HashIter string (list (option nat))} {HD : HashIter Z (nat * Z)}.
Context (cfg : Config) (tcp : nat -> string -> Result unit io_Error).
Context (discover : nat -> Result ClusterTopology RZError) (clock : nat -> Z).

(** C10. The bridge recovers: from every reachable state in which no
    synchronisation is under way, whatever was lost, refused or named leader
    before, a tick of the slow timer (or of the fast one, if it finds
    connections missing) starts a synchronisation, the flag [syncing] never
    being stuck; if from now on discovery names the leader [leader topo] and the
    nodes accept, and nothing interferes, it ends with every leader slot open
    and connected to that leader, no request having been touched, and any write
    at the top of its loop chooses one of these connections with its next step
    and takes its id on it with the one after.  The probe interval is not zero,
    and the clock is never less than the age of expiry above the first instant,
    so that the timers and [cleanup] do not panic. *)
Theorem leader_recovers s tick topo :
  0 < conn_per_roomzin_node cfg < 2 ^ 32 -> node_probe_interval_sec cfg <> 0 ->
  clock_covers clock (cleanup_age cfg) -> rtc (sys_step cfg tcp discover clock) (sys_new cfg) s ->
  syncer s = None -> tick = Slow \/ any_leader_conns (hd s) = false \/ any_follower_conns (hd s) = false ->
  (forall k, (awaits (hd s) <= k)%nat -> discover k = Ok topo) ->
  (forall k host, (awaits (hd s) <= k)%nat -> is_ok (tcp k host) = true) ->
  exists s', rtc (sys_step cfg tcp discover clock) s s' /\ syncer s' = None /\ tasks s' = tasks s
  /\ (forall i, 0 <= i < conn_per_roomzin_node cfg -> exists c ci, leader_conns (hd s') !! Z.to_nat i = Some (Some c)
        /\ conns (net (hd s')) !! c = Some ci /\ addr ci = leader topo /\ closed ci = false)
  /\ forall t e, tasks s' !! t = Some e -> phase e = Picking -> is_write e = true ->
       exists h1 c ci, exec_step clock cfg e (hd s') = Moves (set_phase e (Chosen c)) h1
       /\ conns (net (hd s')) !! c = Some ci /\ addr ci = leader topo /\ closed ci = false
       /\ exists e2 h2 k tx now, exec_step clock cfg (set_phase e (Chosen c)) h1 = Moves e2 h2
          /\ phase e2 = Storing now /\ registered e2 = Some (c, k, tx).
Proof.
  intros Hn Hiv Hcov Hr Hy Ht Hd Hok. pose proof (reachable_sys_inv cfg tcp discover clock Hn s Hr) as [I _ T _ _ _].
  pose proof (reachable_flag cfg tcp discover clock Hn s Hr) as Hi. unfold flag_ok in Hi. rewrite Hy in Hi.
  set (N := awaits (hd s)). set (tcp' := fun k host => from_now N (fun k => tcp k host) (Ok tt) k).
  set (discover' := from_now N discover (Ok topo)).
  assert (Hsame : sync_tick cfg tcp quiet discover tick (hd s) = sync_tick cfg tcp' quiet discover' tick (hd s)).
  { apply (sync_tick_now cfg tcp tcp' discover discover' N); [intros k host|intros k|done].
    - exact (from_now_same N (fun k => tcp k host) (Ok tt) k).
    - exact (from_now_same N discover (Ok topo) k). }
  assert (Hok' : forall k host, is_ok (tcp' k host) = true).
  { intros k host. apply (from_now_all (fun r : Result unit io_Error => is_ok r = true)); [done|]. intros k' Hk. by apply Hok. }
  assert (Hd' : forall k, discover' k = Ok topo) by (intros k; by apply (from_now_all (fun r => r = Ok topo))).
  destruct (sync_tick_open cfg tcp' Hok' discover' topo tick (hd s) Hn I Hi Hd' Ht) as (h' & Hs & I' & Hh & Ho).
  rewrite <- Hsame in Hs.
  assert (Hp : rtc (sys_step cfg tcp discover clock) s (set_hd s h')).
  { apply (do_sync_step cfg tcp discover clock tick). unfold do_sync. rewrite Hy.
    destruct (proj2 (sync_task_start_iff cfg) Hiv) as [timers ->]. cbn [mbind option_bind]. by rewrite Hs. }
  exists (set_hd s h'). split_and!; [exact Hp|done|done| |].
  - intros i Hi'. destruct (lookup_lt_is_Some_2 (leader_conns h') (Z.to_nat i)) as [sl Hsl].
    { pose proof (inv_len _ _ I'). unfold zlen in *. lia. }
    specialize (Ho _ _ Hsl) as Hop. destruct sl as [c|]; [|done]. destruct (inv_slot _ _ I' _ _ Hsl) as (ci & Hci & Ha).
    exists c, ci. split_and!; [done|done|simpl in Hh; congruence|]. simpl in Hop. apply negb_true_iff in Hop.
    unfold is_closed in Hop. by rewrite Hci in Hop.
  - intros t e He Hpe Hw. pose proof (T _ _ He) as [_ Hph]. rewrite Hpe in Hph.
    destruct (write_chooses cfg clock e h' (leader topo) Hn Hcov I' Ho Hh Hpe Hw) as (h1 & c & ci & Hst & Hop & Hci & Ha & Hcl).
    exists h1, c, ci. split_and!; try done. apply chosen_takes; [lia|done].
Qed.

End Properties.

(** ** A run: the leader dies, another write arrives *)

#[local] Existing Instance reqwest_text.
#[local] Instance rec_demux_order : HashIter Z (nat * Z) := list_order Z (nat * Z).
#[local] Instance rec_history_order : HashIter (string * Z) Z := list_order (string * Z) Z.
#[local] Instance rec_followers_order : HashIter (string * Z * Z) nat := list_order (string * Z * Z) nat.
#[local] Instance rec_required_order : HashIter string Z := list_order string Z.
#[local] Instance rec_new_order : HashIter string (list (option nat)) := list_order string (list (option nat)).

Definition ex_new : Exec := mkExec true ex_frame 7 0 None Picking.

(** The first round names another leader, and the follower refuses at first. *)
Definition flaky_topo (k : nat) : Result ClusterTopology RZError :=
  Ok (mkTopo (if decide (k < 5)%nat then "old" else "l") ["a"]).
Definition flaky_tcp (k : nat) (host : string) : Result unit io_Error :=
  if decide (k < 5)%nat then (if decide (host = "a") then Err "connection refused" else Ok tt) else Ok tt.

Abbreviation flaky_step := (sys_step run_cfg flaky_tcp flaky_topo run_clock).

(** Connect to the old leader, send a write there, lose it; another write
    arrives. *)
Definition ex_down : option Sys :=
  run [do_sync run_cfg flaky_tcp flaky_topo Fast; do_start 0 true ex_frame; do_exec run_cfg run_clock 0;
       do_exec run_cfg run_clock 0; do_exec run_cfg run_clock 0; do_exec run_cfg run_clock 0;
       do_read_end 0; do_start 1 true ex_frame] (sys_new run_cfg).

Lemma ex_down_reach s : ex_down = Some s -> rtc flaky_step (sys_new run_cfg) s.
Proof.
  apply run_reaches.
  repeat constructor; [apply do_sync_step|apply do_start_step|apply do_exec_step..|apply do_read_end_step|apply do_start_step].
Qed.

(** The second write, which has not chosen yet, chooses a connection to the new
    leader. *)
Lemma leader_recovers_witness :
  exists s s' h1 c ci, ex_down = Some s /\ leader_host (hd s) = Some "old" /\ rtc flaky_step s s'
  /\ tasks s' !! 1%nat = Some ex_new /\ exec_step run_clock run_cfg ex_new (hd s') = Moves (set_phase ex_new (Chosen c)) h1
  /\ conns (net (hd s')) !! c = Some ci /\ addr ci = "l".
Proof.
  assert (Ht : ex_down ≫= (fun s => tasks s !! 1%nat) = Some ex_new) by (vm_compute; reflexivity).
  assert (Hy : syncer <$> ex_down = Some None) by (vm_compute; reflexivity).
  assert (Ha : (fun s => (leader_host (hd s), awaits (hd s))) <$> ex_down = Some (Some "old", 12%nat))
    by (vm_compute; reflexivity).
  destruct ex_down as [s|] eqn:E; [|discriminate Ht]. simpl in Ht, Hy. injection Hy as Hy.
  injection Ha as Hl Ha.
  destruct (leader_recovers run_cfg flaky_tcp flaky_topo run_clock s Slow (mkTopo "l" ["a"]) run_range ltac:(done) run_covers
    (ex_down_reach s E) Hy (or_introl eq_refl)) as (s' & Hp & _ & Hk & _ & Hw).
  - intros k Hk. unfold flaky_topo. rewrite decide_False by lia. reflexivity.
  - intros k host Hk. unfold flaky_tcp. rewrite decide_False by lia. reflexivity.
  - rewrite <- Hk in Ht. destruct (Hw _ _ Ht eq_refl eq_refl) as (h1 & c & ci & Hs & Hci & Hadr & _).
    exists s, s', h1, c, ci. split_and!; [reflexivity|exact Hl|exact Hp|exact Ht|exact Hs|exact Hci|exact Hadr].
Defined.
