(* ===== verification/ReadRecovery.v ===== *)
(** * Recovery of the reads

    A closed follower connection counts as present for the synchronisation of
    [cluster_handler.rs] until a read has met and removed it.  When all of them
    are closed one read that nothing disturbs is enough: its search goes all the
    way round, removes every entry and finds nothing; the next tick finds the
    table empty and connects every follower again, under the node index the
    history has for it, and the read's next attempt finds one of them. *)

From S2P Require Import Prelude RustStd Error Config Protocol Demux Connection LoadBalancer Topology.
From S2P Require Import ClusterSync ClusterProps SyncSteps Execute System SystemProps Recovery.
Local Open Scope Z_scope.

(** ** Definitions *)

Definition all_closed (h : HandlerInner) : Prop :=
  forall key c, followers h !! key = Some c -> is_closed c (net h) = true.

(** The node indices of the history are one per name and below their number, as
    a synchronisation in which all followers accept leaves them. *)
Record tight (h : HandlerInner) : Prop := {
  tight_ids : ids_functional h;
  tight_index : forall name i, is_Some (follower_history (load_balancer h) !! (name, i)) -> 0 <= i < node_count h;
  tight_count : node_count h <= 2 ^ 32
}.

Lemma node_count_dom h h' :
  dom (follower_history (load_balancer h')) = dom (follower_history (load_balancer h)) -> node_count h' = node_count h.
Proof. intros Hd. unfold node_count. by rewrite <- !size_dom, Hd. Qed.

Lemma tight_dom h h' :
  dom (follower_history (load_balancer h')) = dom (follower_history (load_balancer h)) -> tight h -> tight h'.
Proof.
  intros Hd [F R C]. pose proof (node_count_dom _ _ Hd) as Hn. split.
  - intros a b i Ha%(lookup_dom_eq _ _ _ Hd) Hb%(lookup_dom_eq _ _ _ Hd). by eapply F.
  - intros name i Hi%(lookup_dom_eq _ _ _ Hd). rewrite Hn. by eapply R.
  - by rewrite Hn.
Qed.

(** ** Lemmas: a read that finds nothing leaves nothing *)

Section Clears.
Context {HD : HashIter Z (nat * Z)} {HH : HashIter (string * Z) Z} (clock : nat -> Z) (cfg : Config).

Lemma all_closed_pruned h h' : pruned h h' -> all_closed h -> all_closed h'.
Proof.
  intros (_ & _ & _ & C & F & _) A key c Hk. rewrite (same_conns_is_closed _ _ _ C).
  eapply A. by eapply lookup_weaken.
Qed.

Lemma pruned_none h h' key : pruned h h' -> followers h !! key = None -> followers h' !! key = None.
Proof.
  intros (_ & _ & _ & _ & F & _) Hn. destruct (followers h' !! key) as [c|] eqn:E; [|done].
  apply (lookup_weaken _ _ _ _ E) in F. congruence.
Qed.

Lemma find_open_none h name i l : all_closed h -> List.find (open_key h name i) l = None.
Proof.
  intros A. destruct (List.find _ l) as [j|] eqn:E; [|done]. apply find_some in E as [_ Ho]. unfold open_key in Ho.
  destruct (followers h !! (name, i, j)) as [c|] eqn:Ec; [|done]. by rewrite (A _ _ Ec) in Ho.
Qed.

Lemma node_scan_clears m name nidx start h res h' :
  all_closed h -> node_scan clock cfg m name nidx start h = Some (res, h') ->
  pruned h h' /\ res = None /\ load_balancer h' = load_balancer h
  /\ forall j, j ∈ ring (w32 (conn_per_roomzin_node cfg)) m start -> followers h' !! (name, nidx, j) = None.
Proof.
  set (cpr := w32 (conn_per_roomzin_node cfg)).
  revert start h. induction m as [|m IH]; intros start h A; cbn [node_scan ring].
  { intros [= <- <-]. split_and!; [apply pruned_refl|done|done|]. by intros j ?%not_elem_of_nil. }
  fold cpr. assert (Hstep : forall h1, pruned h h1 -> load_balancer h1 = load_balancer h ->
    followers h1 !! (name, nidx, start) = None -> node_scan clock cfg m name nidx (bump cpr start) h1 = Some (res, h') ->
    pruned h h' /\ res = None /\ load_balancer h' = load_balancer h
    /\ forall j, j ∈ start :: ring cpr m (bump cpr start) -> followers h' !! (name, nidx, j) = None).
  { intros h1 Hp Hl Hn Hs. destruct (IH (bump cpr start) h1 (all_closed_pruned _ _ Hp A) Hs) as (Hp' & -> & Hl' & Hj).
    split_and!; [by eapply pruned_trans|done|congruence|]. intros j [->|Hin]%elem_of_cons; [by eapply pruned_none|auto]. }
  destruct (followers h !! (name, nidx, start)) as [c|] eqn:Ek; [|by apply Hstep; [apply pruned_refl| |]].
  rewrite (A _ _ Ek). destruct (cleanup_conn clock cfg c h) as [h1|] eqn:Ec; [|done]. cbn [mbind option_bind].
  apply Hstep; [by eapply drop_closed_pruned, Ec; [|eapply A]| |simpl; by rewrite lookup_delete_eq].
  by apply cleanup_conn_Some in Ec as (st & _ & ->).
Qed.

(** An iteration empties the slots of the node it comes to. *)
Lemma follower_turn_clears h res h' :
  0 < conn_per_roomzin_node cfg < 2 ^ 32 -> lb_wf cfg (load_balancer h) -> ids_functional h -> all_closed h ->
  follower_turn clock cfg h = Some (res, h') ->
  pruned h h' /\ res = None /\ load_balancer h' = set_last_node (load_balancer h) (first_node h)
  /\ forall name j, is_Some (follower_history (load_balancer h) !! (name, first_node h)) ->
       0 <= j < conn_per_roomzin_node cfg -> followers h' !! (name, first_node h, j) = None.
Proof.
  intros Hcpr Hwf Hids A. unfold follower_turn. cbv zeta. fold (node_count h). fold (first_node h).
  set (h1 := set_lb h (set_last_node (load_balancer h) (first_node h))).
  assert (H1 : pruned h h1) by apply pruned_set_last.
  fold (node_of h (first_node h)). destruct (node_of h (first_node h)) as [[[name i] v]|] eqn:En.
  2:{ intros [= <- <-]. split_and!; try done. intros name j [v Hv]. by rewrite (node_of_None _ _ name En) in Hv. }
  apply node_of_Some in En as (? & ? & [= <- Hi <-] & Hv). rewrite Hi. set (st := if _ <=? v then 0 else v).
  intros (Hp & -> & Hl & Hclr)%node_scan_clears; [|exact A].
  split_and!; [by eapply pruned_trans|done|done|]. rewrite (w32_small (conn_per_roomzin_node cfg)) in * by lia.
  intros nm j Hnm Hr. assert (nm = name) as -> by (eapply Hids; [exact Hnm|by eexists]). apply Hclr, ring_all; [|done].
  subst st. rewrite (w32_small (conn_per_roomzin_node cfg)) by lia.
  by apply (turn_start cfg name (first_node h) v h); [lia| |].
Qed.

Lemma follower_scan_clears m h res h' :
  0 < conn_per_roomzin_node cfg < 2 ^ 32 -> lb_wf cfg (load_balancer h) -> 0 < node_count h <= 2 ^ 32 ->
  ids_functional h -> all_closed h -> follower_scan clock cfg alone m h = Some (res, h') ->
  pruned h h' /\ res = None /\ follower_history (load_balancer h') = follower_history (load_balancer h)
  /\ forall i name j, i ∈ ring (node_count h) m (first_node h) ->
       is_Some (follower_history (load_balancer h) !! (name, i)) -> 0 <= j < conn_per_roomzin_node cfg ->
       followers h' !! (name, i, j) = None.
Proof.
  intros Hcpr. revert h. induction m as [|m IH]; intros h Hwf Hn Hids A; cbn [follower_scan ring].
  { intros [= <- <-]. split_and!; [apply pruned_refl|done|done|]. by intros i name j ?%not_elem_of_nil. }
  change (alone m h) with h. pose proof (first_node_range h ltac:(lia)) as Hfn.
  destruct (follower_turn clock cfg h) as [[res1 h1]|] eqn:Et; cbn [mbind option_bind]; [|done].
  apply follower_turn_clears in Et as (Hp & -> & Hl & Hclr); [|done..].
  assert (Hh : follower_history (load_balancer h1) = follower_history (load_balancer h)) by (by rewrite Hl).
  assert (Hc : node_count h1 = node_count h) by (unfold node_count; by rewrite Hh).
  assert (Hf1 : first_node h1 = bump (node_count h) (first_node h)).
  { unfold first_node at 1. rewrite Hc, Hl. by apply wrap_next. }
  assert (Hwf1 : lb_wf cfg (load_balancer h1)) by (rewrite Hl; destruct Hwf as (? & ? & ?); split_and!; simpl; try done; lia).
  intros Hs. destruct (IH h1 Hwf1 ltac:(lia) ltac:(intros a b i; rewrite Hh; apply Hids) (all_closed_pruned _ _ Hp A) Hs)
    as (Hp' & -> & Hh' & Hj). rewrite Hc, Hf1, Hh in Hj.
  split_and!; [by eapply pruned_trans|done|congruence|].
  intros i name j [->|Hin]%elem_of_cons Hk Hr; [eapply pruned_none; [exact Hp'|by apply Hclr]|by apply Hj].
Qed.

(** The whole search, when every entry is closed. *)
Lemma next_follower_conn_clears h res h' :
  0 < conn_per_roomzin_node cfg < 2 ^ 32 -> cluster_inv cfg h -> tight h -> all_closed h ->
  next_follower_conn clock cfg alone h = Some (res, h') ->
  pruned h h' /\ res = None /\ followers h' = ∅.
Proof.
  intros Hcpr I [Ids Rng Cnt] A Hs. destruct (decide (node_count h = 0)) as [Hz|Hz].
  { rewrite next_follower_conn_empty in Hs by done. injection Hs as <- <-. split_and!; [apply pruned_refl|done|].
    apply map_empty. intros [[n i] j]. destruct (followers h !! (n, i, j)) as [c|] eqn:E; [|done].
    apply (inv_key _ _ I) in E as (_ & Hk & _). specialize (Rng _ _ Hk). lia. }
  assert (Hn : 0 < node_count h <= 2 ^ 32) by (unfold node_count in *; lia).
  unfold next_follower_conn in Hs. replace (size _) with (Z.to_nat (node_count h)) in Hs by (unfold node_count; lia).
  destruct (follower_scan_clears _ _ _ _ Hcpr (inv_lb _ _ I) Hn Ids A Hs) as (Hp & -> & _ & Hclr). split_and!; [done|done|].
  apply map_empty. intros [[n i] j]. destruct (followers h !! (n, i, j)) as [c|] eqn:E; [|by eapply pruned_none].
  apply (inv_key _ _ I) in E as (Hj & Hk & _). apply Hclr; [|done|done].
  apply ring_all; [apply first_node_range; lia|by eapply Rng].
Qed.

Lemma next_follower_conn_awaits h res h' : next_follower_conn clock cfg alone h = Some (res, h') -> awaits h' = awaits h.
Proof.
  unfold next_follower_conn. generalize (size (follower_history (load_balancer h))). intros m. revert h.
  induction m as [|m IH]; intros h; cbn [follower_scan]; [by intros [= <- <-]|]. change (alone m h) with h.
  destruct (follower_turn clock cfg h) as [[r1 h1]|] eqn:Et; cbn [mbind option_bind]; [|done].
  apply follower_turn_effect in Et as [[_ _ Ha] _]. destruct r1 as [c|]; [by intros [= <- <-]|]. intros Hr%IH. congruence.
Qed.

End Clears.

(** ** Lemmas: what a quiet synchronisation files *)

Section Files.
Context `{RQ : Reqwest}.
Context {HF : HashIter (string * Z * Z) nat} {HH : HashIter (string * Z) Z}.
Context {HR : HashIter string Z} {HN : HashIter string (list (option nat))}.
Context (cfg : Config) (tcp : nat -> string -> Result unit io_Error).
Context (cfg_range : 0 < conn_per_roomzin_node cfg < 2 ^ 32).
Context (tcp_ok : forall k host, is_ok (tcp k host) = true).

(** All connections made are open. *)
Definition all_opened (st : Store) (m : gmap string (list (option nat))) : Prop :=
  forall name l, m !! name = Some l -> Forall (fun x => slot_open st x = true) l.

Lemma all_opened_extends st st' m : extends st st' -> all_opened st m -> all_opened st' m.
Proof. intros E Hm name l Hl. eapply Forall_impl; [by eapply Hm|]. intros x. by apply slot_open_extends. Qed.

Lemma dial_n_opened n host m h :
  alloc_ok (net h) -> all_opened (net h) m ->
  let '(m', h') := dial_n cfg tcp quiet n host m h in all_opened (net h') m' /\ alloc_ok (net h').
Proof.
  revert m h. induction n as [|n IH]; intros m h Ha Hm; cbn [dial_n]; [done|].
  destruct (dial_open cfg tcp tcp_ok host h) as (c & h1 & Ed & _ & Ho).
  pose proof (dial_effect cfg tcp host h Ha) as Hd. rewrite Ed in Hd |- *. destruct Hd as (X & _).
  apply IH; [by apply X|]. pose proof (all_opened_extends _ _ _ (eff_net _ _ X) Hm) as Hm1. intros name l Hl. unfold push_conn in Hl.
  apply lookup_insert_Some in Hl as [[<- <-]|[_ Hl]]; [|by eapply Hm1]. apply Forall_app. split; [|by constructor].
  destruct (m !! host) eqn:Em; simpl; [by eapply Hm1|constructor].
Qed.

Lemma dial_all_opened l m h :
  alloc_ok (net h) -> all_opened (net h) m ->
  let '(m', h') := dial_all cfg tcp quiet l m h in all_opened (net h') m'.
Proof.
  revert m h. induction l as [|[host k] l IH]; intros m h Ha Hm; cbn [dial_all]; [done|].
  pose proof (dial_n_opened (Z.to_nat k) host m h Ha Hm) as Hd.
  destruct (dial_n _ _ _ _ host m h) as [m1 h1]. destruct Hd as [Hm1 Ha1]. by apply IH.
Qed.

(** Where the entries of the table come from. *)
Lemma file_conns_source i l name nidx free h h' key c :
  file_conns quiet i l name nidx free h = Some h' -> followers h' !! key = Some c ->
  followers h !! key = Some c \/ (fst (fst key) = name /\ Some c ∈ l).
Proof.
  revert i h. induction l as [|[d|] l IH]; intros i h; cbn [file_conns]; [intros [= <-]; by left| |].
  - destruct (free !! i) as [j|]; [|done]. cbn [mbind option_bind]. intros Hf Hk.
    destruct (IH _ _ Hf Hk) as [H1|[H1 H2]]; [|right; split; [done|by apply list_elem_of_further]].
    simpl in H1. apply lookup_insert_Some in H1 as [[<- <-]|[_ H1]]; [right; split; [done|by apply list_elem_of_here]|by left].
  - intros Hf Hk. destruct (IH _ _ Hf Hk) as [H1|[H1 H2]]; [by left|right; split; [done|by apply list_elem_of_further]].
Qed.

Lemma file_nodes_source l free a h h' key c :
  file_nodes cfg quiet l free a h = Some h' -> followers h' !! key = Some c ->
  followers h !! key = Some c \/ exists cs, (fst (fst key), cs) ∈ l /\ Some c ∈ cs.
Proof.
  revert free a h. induction l as [|[name cs] l IH]; intros free a h; cbn [file_nodes]; [intros [= <-]; by left|].
  assert (Hrest : (exists cs', (fst (fst key), cs') ∈ l /\ Some c ∈ cs') ->
    exists cs', (fst (fst key), cs') ∈ (name, cs) :: l /\ Some c ∈ cs') by (intros (cs' & ? & ?); exists cs'; split; [by apply list_elem_of_further|done]).
  destruct (assign_node name free a h) as [[[nidx|] free'] a'].
  - destruct (file_conns _ _ _ _ _ _ h) as [h1|] eqn:Ef; [|done]. cbn [mbind option_bind]. intros Hf Hk.
    destruct (IH _ _ _ Hf Hk) as [H1|H1]; [|auto].
    destruct (file_conns_source _ _ _ _ _ _ _ _ _ Ef H1) as [H2|[<- H2]]; [by left|right; exists cs; split; [apply list_elem_of_here|done]].
  - intros Hf Hk. destruct (IH _ _ _ Hf Hk) as [H1|H1]; auto.
Qed.

(** Nodes the history knows get their index back and fill all its slots. *)
Lemma file_nodes_known l free a h h' :
  file_nodes cfg quiet l free a h = Some h' -> NoDup l.*1 ->
  Forall (fun e => Forall is_Some (snd e) /\ zlen (snd e) = conn_per_roomzin_node cfg
    /\ (exists i, a !! fst e = Some i /\ is_Some (follower_history (load_balancer h) !! (fst e, i)))
    /\ forall i j, followers h !! (fst e, i, j) = None) l ->
  dom (follower_history (load_balancer h')) = dom (follower_history (load_balancer h))
  /\ (forall key, is_Some (followers h !! key) -> is_Some (followers h' !! key))
  /\ forall name i j, name ∈ l.*1 -> a !! name = Some i -> 0 <= j < conn_per_roomzin_node cfg ->
       is_Some (followers h' !! (name, i, j)).
Proof.
  revert h. induction l as [|[name cs] l IH]; intros h; cbn [file_nodes].
  { intros [= <-] _ _. split_and!; [done|done|]. intros ? ? ? []%elem_of_nil. }
  intros Hf [Hni Hnd]%NoDup_cons [(Hs & Hz & (i & Ha & Hh) & Hno) Hl]%Forall_cons. simpl in *. revert Hf.
  unfold assign_node. rewrite filed_index_fresh, Ha by done. simpl.
  destruct (file_conns _ _ _ _ _ _ h) as [h1|] eqn:Ef; [|done]. cbn [mbind option_bind]. intros Hf.
  assert (Hfree : zlen (free_conns cfg name h) = conn_per_roomzin_node cfg).
  { transitivity (zlen (zrange (w32 (conn_per_roomzin_node cfg)))); [|rewrite w32_small, zlen_zrange; lia].
    unfold zlen. by rewrite free_conns_fresh. }
  destruct (file_conns_fills cfg quiet (quiet_ok cfg) _ _ _ _ _ _ _ Ef Hs) as (Hk & Hfill & Hdom); [unfold zlen in *; lia|].
  assert (Hd1 : dom (follower_history (load_balancer h1)) = dom (follower_history (load_balancer h))).
  { rewrite Hdom by (intros ->; unfold zlen in Hz; simpl in Hz; lia). apply subseteq_union_1_L, singleton_subseteq_l. by apply elem_of_dom. }
  destruct (IH h1 Hf Hnd) as (Hd' & Hk' & Hf').
  { apply Forall_forall. intros e He. apply (proj1 (Forall_forall _ _) Hl) in He as Hq.
    destruct Hq as (? & ? & (i' & Hai & Hhi) & Hne). assert (fst e <> name).
    { intros <-. apply Hni, list_elem_of_fmap. by exists e. }
    split_and!; [done|done|exists i'; split; [done|by apply (lookup_dom_eq _ _ _ Hd1)]|].
    intros k j. rewrite (file_conns_other cfg quiet (quiet_ok cfg) _ _ _ _ _ _ _ _ Ef) by done. apply Hne. }
  split_and!; [congruence|auto|]. intros nm k j [->|Hin]%elem_of_cons Hnk Hj; [|by eapply Hf'].
  assert (k = i) as -> by congruence. apply Hk'. assert (Hin : j ∈ free_conns cfg name h).
  { rewrite free_conns_fresh by done. apply zrange_elem. rewrite w32_small; lia. }
  apply list_elem_of_lookup in Hin as [p Hp]. eapply Hfill; [exact Hp|lia].
Qed.

(** What a synchronisation of an empty table leaves: an open connection in every
    slot of every follower, each under the index the history has for it. *)
Record reconnected (fl : list string) (h h' : HandlerInner) : Prop := {
  rc_dom : dom (follower_history (load_balancer h')) = dom (follower_history (load_balancer h));
  rc_source : forall key c, followers h' !! key = Some c -> fst (fst key) ∈ fl /\ is_closed c (net h') = false;
  rc_filled : forall name i j, name ∈ fl -> is_Some (follower_history (load_balancer h) !! (name, i)) ->
    0 <= j < conn_per_roomzin_node cfg -> is_Some (followers h' !! (name, i, j))
}.

Lemma sync_followers_known fl h :
  cluster_inv cfg h -> followers h = ∅ ->
  (forall name, name ∈ fl -> exists i, is_Some (follower_history (load_balancer h) !! (name, i))) ->
  exists h', sync_followers cfg tcp quiet fl h = Some h' /\ cluster_inv cfg h' /\ reconnected fl h h'.
Proof.
  intros I Hf Hknown. destruct (sync_followers_lemma cfg tcp quiet (quiet_ok cfg) cfg_range fl h I) as (h' & Hs & I' & _).
  exists h'. split; [done|]. split; [done|]. revert Hs. unfold sync_followers. set (h1 := await quiet h).
  assert (I1 : cluster_inv cfg h1) by (destruct I; by split).
  destruct (first_dials cfg tcp quiet (quiet_ok cfg) cfg_range fl h1 I1 Hf) as (req & -> & Hd). cbn [mbind option_bind].
  pose proof (dial_all_opened (hiter req) ∅ h1 (inv_alloc _ _ I1)) as Ho. specialize (Ho ltac:(by intros n l Hl)).
  destruct (dial_all cfg tcp quiet (hiter req) ∅ h1) as [m h2]. destruct Hd as (R & I2 & Hm & Hall & _).
  set (h3 := await_held quiet (await quiet h2)). pose proof (rely_frely R) as F.
  assert (Hf3 : followers h3 = ∅).
  { apply map_empty. intros k. destruct (followers h3 !! k) as [c|] eqn:E; [|done].
    pose proof (lookup_weaken _ _ _ _ E (frely_sub F)) as Hx. change (followers h !! k = Some c) in Hx. by rewrite Hf in Hx. }
  assert (Hd3 : dom (follower_history (load_balancer h3)) = dom (follower_history (load_balancer h))) by apply F.
  assert (I3 : cluster_inv cfg h3) by (destruct I2; by split). destruct (assigned_nodes_ok cfg h3 I3) as [Has _].
  assert (Hassigned : forall name i, is_Some (follower_history (load_balancer h) !! (name, i)) -> assigned_nodes h3 !! name = Some i).
  { intros name i Hi%(lookup_dom_eq _ _ _ Hd3). by apply Has. }
  intros Hs. pose proof Hs as Hk. apply file_nodes_known in Hk as (Hd' & _ & Hfill); [|apply hiter_NoDup|].
  - split; [congruence| |].
    + intros key c Hc. destruct (file_nodes_source _ _ _ _ _ _ _ Hs Hc) as [E|(cs & Hin%hiter_lookup & Hcs)]; [by rewrite Hf3 in E|].
      split; [by apply Hm in Hin as [? _]|].
      apply (file_nodes_tables cfg 0) in Hs as [-> _].
      2:{ apply Forall_forall. intros e _. apply Forall_forall. intros [d|] _; simpl; [lia|done]. }
      pose proof (proj1 (Forall_forall _ _) (Ho _ _ Hin) _ Hcs) as Hopen. by apply negb_true_iff.
    + intros name i j Hin Hi Hj. apply Hfill; [|by apply Hassigned|done].
      destruct (Hall name Hin ltac:(intros k; apply tcp_ok)) as [l Hl]. apply list_elem_of_fmap. exists (name, l). split; [done|].
      by apply hiter_lookup.
  - apply Forall_forall. intros [name l] Hin%hiter_lookup. apply Hm in Hin as (Hin & Hl & Hz). simpl. split_and!; [done|by apply Hz; intros k; apply tcp_ok| |].
    + destruct (Hknown name Hin) as [i Hi]. exists i. split; [by apply Hassigned|by apply (lookup_dom_eq _ _ _ Hd3)].
    + intros i j. change (followers h3 !! (name, i, j) = None). by rewrite Hf3.
Qed.

(** A tick that finds the follower table empty. *)
Lemma sync_tick_known discover topo tick h :
  cluster_inv cfg h -> idle h -> followers h = ∅ -> (forall k, discover k = Ok topo) ->
  (forall name, name ∈ topo_followers topo -> exists i, is_Some (follower_history (load_balancer h) !! (name, i))) ->
  exists h', sync_tick cfg tcp quiet discover tick h = Some h' /\ cluster_inv cfg h'
  /\ reconnected (topo_followers topo) h h'.
Proof.
  intros I Hi Hf Hd Hknown. assert (Hsync : forall g, net g = net h -> leader_conns g = leader_conns h -> leader_host g = leader_host h ->
    followers g = followers h -> load_balancer g = load_balancer h -> syncing g = syncing h ->
    exists h', sync_with_cluster cfg tcp quiet discover g = Some h' /\ cluster_inv cfg h' /\ reconnected (topo_followers topo) h h').
  { intros g Hn Hl Hh Hfo Hlb Hsy. unfold sync_with_cluster. rewrite Hsy, Hi, Hd. set (h1 := await quiet _).
    assert (I1 : cluster_inv cfg h1) by (destruct I; split; subst h1; simpl; rewrite ?Hn, ?Hl, ?Hh, ?Hfo, ?Hlb; done).
    destruct (sync_leader_lemma cfg tcp quiet (quiet_ok cfg) (leader topo) h1 I1) as (h2 & E2 & I2 & _ & _ & F & _).
    rewrite E2. cbn [mbind option_bind].
    assert (Hd2 : dom (follower_history (load_balancer h2)) = dom (follower_history (load_balancer h))).
    { rewrite (frely_dom _ _ _ F). subst h1. simpl. by rewrite Hlb. }
    destruct (sync_followers_known (topo_followers topo) h2 I2) as (h3 & E3 & I3 & [Rd Rs Rf]).
    - apply map_empty. intros k. destruct (followers h2 !! k) as [c|] eqn:E; [|done].
      pose proof (lookup_weaken _ _ _ _ E (frely_sub F)) as Hx. subst h1. simpl in Hx. by rewrite Hfo, Hf in Hx.
    - intros name Hin. destruct (Hknown name Hin) as [i Hx]. exists i. by apply (lookup_dom_eq _ _ _ Hd2).
    - rewrite E3. cbn [mbind option_bind]. eexists. split; [reflexivity|]. split; [destruct I3; by split|].
      split; simpl; [congruence|done|]. intros name i j Hin Hx. apply Rf; [done|by apply (lookup_dom_eq _ _ _ Hd2)]. }
  destruct tick; [|by apply Hsync]. unfold sync_tick.
  replace (negb _ || negb _) with true; [by apply Hsync|].
  change (any_follower_conns (await quiet (await quiet h))) with (any_follower_conns h).
  unfold any_follower_conns. rewrite no_followers_iter by done. simpl. by rewrite orb_true_r.
Qed.

End Files.

(** ** Lemmas: reads before and after *)

Section Reads.
Context `{RQ : Reqwest}.
Context {HF : HashIter (string * Z * Z) nat} {HH : HashIter (string * Z) Z}.
Context {HR : HashIter string Z} {HN : HashIter string (list (option nat))} {HD : HashIter Z (nat * Z)}.
Context (cfg : Config) (tcp : nat -> string -> Result unit io_Error).
Context (discover : nat -> Result ClusterTopology RZError) (clock : nat -> Z).
Context (cfg_range : 0 < conn_per_roomzin_node cfg < 2 ^ 32).

Abbreviation step := (sys_step cfg tcp discover clock).

(** The system with the request [t] at [e] and the handler in [h]. *)
Definition task_to (s : Sys) (t : nat) (e : Exec) (h : HandlerInner) : Sys :=
  mkSys h (<[t := e]> (tasks s)) (ended s) (responses s) (syncer s) (sends s).

(** The iterations of a read, one step each and nobody else's in between, are the
    search on its own. *)
Lemma scan_path n s t e res h' :
  tasks s !! t = Some e -> phase e = Scanning n -> syncer s = None ->
  follower_scan clock cfg alone n (hd s) = Some (res, h') ->
  rtc step s (task_to s t (match res with Some c => set_phase e (Chosen c) | None => exec_fail (no_conn e) e end) h').
Proof.
  revert s e. induction n as [|n IH]; intros s e Ht Hp Hy; cbn [follower_scan].
  { intros [= <- <-]. apply rtc_once.
    assert (Hs : step s (exec_to s t e (exec_fail (no_conn e) e) (hd s))).
    { apply sys_exec; [done|unfold waits_guard; by rewrite Hp|unfold exec_step; by rewrite Hp]. }
    unfold exec_to, sends_of in Hs. by rewrite Hp in Hs. }
  change (alone n (hd s)) with (hd s).
  destruct (follower_turn clock cfg (hd s)) as [[r1 h1]|] eqn:Et; cbn [mbind option_bind]; [|done]. intros Hs.
  set (e1 := match r1 with Some c => set_phase e (Chosen c) | None => set_phase e (Scanning n) end).
  assert (H1 : step s (task_to s t e1 h1)).
  { assert (Hst : step s (exec_to s t e e1 h1)).
    { apply sys_exec; [done|unfold waits_guard, guarded; by rewrite Hp, Hy|].
      unfold exec_step, exec_scan. rewrite Hp, Et. simpl. by destruct r1. }
    unfold exec_to, sends_of in Hst. by rewrite Hp in Hst. }
  destruct r1 as [c|]; [injection Hs as <- <-; by apply rtc_once|].
  eapply rtc_l; [exact H1|].
  specialize (IH (task_to s t e1 h1) e1 (lookup_insert_eq _ _ _) eq_refl Hy Hs). unfold task_to in IH |- *.
  simpl in IH. by rewrite insert_insert_eq in IH.
Qed.

(** The same from the top of the loop. *)
Lemma read_path s t e res h' :
  tasks s !! t = Some e -> phase e = Picking -> is_write e = false -> syncer s = None ->
  next_follower_conn clock cfg alone (hd s) = Some (res, h') ->
  rtc step s (task_to s t (match res with Some c => set_phase e (Chosen c) | None => exec_fail NoFollowerNodeAvailable e end) h').
Proof.
  intros Ht Hp Hw Hy Hs. set (e1 := set_phase e (Scanning (size (follower_history (load_balancer (hd s)))))).
  assert (H1 : step s (task_to s t e1 (hd s))).
  { assert (Hst : step s (exec_to s t e e1 (hd s))).
    { apply sys_exec; [done|unfold waits_guard; by rewrite Hp|]. unfold exec_step, exec_pick. by rewrite Hp, Hw. }
    unfold exec_to, sends_of in Hst. by rewrite Hp in Hst. }
  eapply rtc_l; [exact H1|].
  pose proof (scan_path _ (task_to s t e1 (hd s)) t e1 res h' (lookup_insert_eq _ _ _) eq_refl Hy Hs) as Hr.
  unfold task_to in Hr |- *. simpl in Hr. rewrite insert_insert_eq in Hr.
  replace (match res with Some c => set_phase e (Chosen c) | None => exec_fail NoFollowerNodeAvailable e end)
    with (match res with Some c => set_phase e1 (Chosen c) | None => exec_fail (no_conn e1) e1 end); [done|].
  destruct res; [done|]. unfold no_conn, e1. simpl. by rewrite Hw.
Qed.

Context (covers : clock_covers clock (cleanup_age cfg)).

(** A read that finds every entry closed fails, and the table is empty. *)
Lemma read_fails s t e :
  cluster_inv cfg (hd s) -> tight (hd s) -> all_closed (hd s) -> tasks s !! t = Some e ->
  phase e = Picking -> is_write e = false -> syncer s = None ->
  exists h', rtc step s (task_to s t (exec_fail NoFollowerNodeAvailable e) h') /\ followers h' = ∅
  /\ dom (follower_history (load_balancer h')) = dom (follower_history (load_balancer (hd s))) /\ awaits h' = awaits (hd s).
Proof.
  intros I T A Ht Hp Hw Hy.
  pose proof (follower_scan_step clock cfg (size (follower_history (load_balancer (hd s)))) (hd s) cfg_range (inv_lb _ _ I)) as Hc.
  fold (next_follower_conn clock cfg alone (hd s)) in Hc.
  destruct (next_follower_conn clock cfg alone (hd s)) as [[res h']|] eqn:En; [|by destruct (Hc covers)]. clear Hc.
  pose proof (read_path s t e res h' Ht Hp Hw Hy En) as Hpath. pose proof (next_follower_conn_awaits clock cfg (hd s) res h' En) as Haw.
  apply next_follower_conn_clears in En as (Hpr & -> & Hf); [|done..]. exists h'. split_and!; [done|done|apply Hpr|done].
Qed.

(** With open connections alone in the table, and one at least, it chooses one
    of them. *)
Lemma read_chooses s t e (fl : list string) name i j :
  cluster_inv cfg (hd s) -> tight (hd s) ->
  (forall key c, followers (hd s) !! key = Some c -> fst (fst key) ∈ fl /\ is_closed c (net (hd s)) = false) ->
  is_Some (followers (hd s) !! (name, i, j)) ->
  tasks s !! t = Some e -> phase e = Picking -> is_write e = false -> syncer s = None ->
  exists h' c ci, rtc step s (task_to s t (set_phase e (Chosen c)) h') /\ is_closed c (net h') = false
  /\ conns (net h') !! c = Some ci /\ addr ci ∈ fl /\ closed ci = false.
Proof.
  intros I T Ho [c0 Hc0] Ht Hp Hw Hy.
  pose proof (inv_key _ _ I _ _ _ _ Hc0) as (Hj & Hk & _).
  pose proof (follower_reaches clock cfg (hd s) cfg_range (inv_lb _ _ I) (tight_count _ T)) as Hs.
  pose proof (follower_scan_step clock cfg (size (follower_history (load_balancer (hd s)))) (hd s) cfg_range (inv_lb _ _ I)) as Hst.
  fold (next_follower_conn clock cfg alone (hd s)) in Hst.
  destruct (next_follower_conn clock cfg alone (hd s)) as [[res h']|] eqn:En; [|by destruct (Hs covers)].
  assert (Hr : is_Some res).
  { apply Hs. exists i. split; [by eapply T|]. apply node_ready_iff; [lia|apply T|]. exists name, j. split; [done|]. split; [done|].
    unfold open_key. rewrite Hc0. by rewrite (proj2 (Ho _ _ Hc0)). }
  destruct Hr as [c ->]. destruct Hst as (Hpr & _ & n & i' & j' & Hkey & Hop & _).
  destruct (Ho _ _ Hkey) as [Hin _]. destruct (inv_key _ _ I _ _ _ _ Hkey) as (_ & _ & ci & Hci & Ha).
  pose proof Hpr as (_ & _ & _ & C & _). pose proof (same_conns_net_le _ _ C c ci Hci) as (ci' & Hci' & Ha' & _).
  assert (Hop' : is_closed c (net h') = false) by (by rewrite (same_conns_is_closed _ _ _ C)).
  exists h', c, ci'. split_and!; [exact (read_path s t e (Some c) h' Ht Hp Hw Hy En)|done|done|by rewrite Ha', Ha|].
  unfold is_closed in Hop'. by rewrite Hci' in Hop'.
Qed.

End Reads.

(** ** Properties *)

Section Properties.
Context `{RQ : Reqwest}.
Context {HF : HashIter (string * Z * Z) nat} {HH : HashIter (string * Z) Z}.
Context {HR : HashIter string Z} {HN : HashIter string (list (option nat))} {HD : HashIter Z (nat * Z)}.
Context (cfg : Config) (tcp : nat -> string -> Result unit io_Error).
Context (discover : nat -> Result ClusterTopology RZError) (clock : nat -> Z).

(** The read [t], in the state [e], chooses an open connection to one of [fl] if
    nothing disturbs it, and takes its id on it with the step after. *)
Definition served (fl : list string) (s : Sys) (t : nat) (e : Exec) : Prop :=
  exists s' c ci, rtc (sys_step cfg tcp discover clock) s s'
  /\ tasks s' = <[t := set_phase e (Chosen c)]> (tasks s)
  /\ conns (net (hd s')) !! c = Some ci /\ addr ci ∈ fl /\ closed ci = false
  /\ exists e2 h2 k tx now, exec_step clock cfg (set_phase e (Chosen c)) (hd s') = Moves e2 h2
     /\ phase e2 = Storing now /\ registered e2 = Some (c, k, tx).

(** C11. Reads recover.  Take any reachable state in which every follower
    connection has closed and the node indices are as a complete synchronisation
    leaves them, with a read at its first or second attempt.  If nothing disturbs
    its search, the read fails that attempt and in doing so empties the follower
    table.  From there the next tick of either timer, undisturbed, with a
    discovery that from now on names followers known from before and with nodes
    that from now on accept, fills every slot of every follower with an open
    connection to it; and then the read, once it wakes up from its pause, and any
    other read at the top of its loop chooses an open connection to a follower
    when its search is not disturbed.  The probe interval and the clock are as in
    the theorem on the leader. *)
Theorem reads_recover s topo t e :
  let e1 := exec_fail NoFollowerNodeAvailable e in
  0 < conn_per_roomzin_node cfg < 2 ^ 32 -> node_probe_interval_sec cfg <> 0 ->
  clock_covers clock (cleanup_age cfg) -> rtc (sys_step cfg tcp discover clock) (sys_new cfg) s ->
  syncer s = None -> tight (hd s) -> all_closed (hd s) ->
  (forall k, (awaits (hd s) <= k)%nat -> discover k = Ok topo) ->
  (forall k host, (awaits (hd s) <= k)%nat -> is_ok (tcp k host) = true) -> topo_followers topo <> [] ->
  (forall name, name ∈ topo_followers topo -> exists i, is_Some (follower_history (load_balancer (hd s)) !! (name, i))) ->
  tasks s !! t = Some e -> phase e = Picking -> is_write e = false -> attempts e <= 1 ->
  exists s1, rtc (sys_step cfg tcp discover clock) s s1 /\ tasks s1 = <[t := e1]> (tasks s) /\ followers (hd s1) = ∅
  /\ forall tick, exists s2, rtc (sys_step cfg tcp discover clock) s1 s2 /\ do_sync cfg tcp discover tick s1 = Some s2
  /\ tasks s2 = tasks s1
  /\ (forall name j, name ∈ topo_followers topo -> 0 <= j < conn_per_roomzin_node cfg ->
        exists i c ci, followers (hd s2) !! (name, i, j) = Some c
        /\ conns (net (hd s2)) !! c = Some ci /\ addr ci = name /\ closed ci = false)
  /\ served (topo_followers topo) s2 t e1
  /\ forall t' e2, tasks s2 !! t' = Some e2 -> phase e2 = Picking -> is_write e2 = false ->
       served (topo_followers topo) s2 t' e2.
Proof.
  intros e1 Hn Hiv Hcov Hr Hy T A Hd Hok Hne Hknown He Hp Hw Hatt.
  pose proof (reachable_sys_inv cfg tcp discover clock Hn s Hr) as Inv.
  destruct (read_fails cfg tcp discover clock Hn Hcov s t e (sys_cluster _ _ Inv) T A He Hp Hw Hy) as (h1 & R1 & Hf1 & Hd1 & Haw).
  fold e1 in R1. set (s1 := task_to s t e1 h1) in *.
  assert (Hr1 : rtc (sys_step cfg tcp discover clock) (sys_new cfg) s1) by (by etrans).
  pose proof (reachable_flag cfg tcp discover clock Hn s1 Hr1) as Hi. unfold flag_ok in Hi.
  change (syncer s1) with (syncer s) in Hi. rewrite Hy in Hi.
  pose proof (reachable_sys_inv cfg tcp discover clock Hn s1 Hr1) as [I1 _ Ok1 _ _ _].
  exists s1. split; [done|]. split; [done|]. split; [done|]. intros tick.
  set (N := awaits (hd s)). set (tcp' := fun k host => from_now N (fun k => tcp k host) (Ok tt) k).
  set (discover' := from_now N discover (Ok topo)).
  assert (Hsame : sync_tick cfg tcp quiet discover tick h1 = sync_tick cfg tcp' quiet discover' tick h1).
  { apply (sync_tick_now cfg tcp tcp' discover discover' N); [intros k host|intros k|lia].
    - exact (from_now_same N (fun k => tcp k host) (Ok tt) k).
    - exact (from_now_same N discover (Ok topo) k). }
  assert (Hok' : forall k host, is_ok (tcp' k host) = true).
  { intros k host. apply (from_now_all (fun r : Result unit io_Error => is_ok r = true)); [done|]. intros k' Hk. by apply Hok. }
  assert (Hd' : forall k, discover' k = Ok topo) by (intros k; by apply (from_now_all (fun r => r = Ok topo))).
  destruct (sync_tick_known cfg tcp' Hn Hok' discover' topo tick h1 I1 Hi Hf1 Hd') as (h2 & Hs2 & I2 & [Rd Rs Rf]).
  { intros name Hin. destruct (Hknown name Hin) as [i Hx]. exists i. by apply (lookup_dom_eq _ _ _ Hd1). }
  rewrite <- Hsame in Hs2.
  assert (Hdo : do_sync cfg tcp discover tick s1 = Some (set_hd s1 h2)).
  { unfold do_sync. change (syncer s1) with (syncer s). change (hd s1) with h1. rewrite Hy.
    destruct (proj2 (sync_task_start_iff cfg) Hiv) as [timers ->]. cbn [mbind option_bind]. by rewrite Hs2. }
  assert (R2 : rtc (sys_step cfg tcp discover clock) s1 (set_hd s1 h2)) by (by apply (do_sync_step cfg tcp discover clock tick)).
  assert (T2 : tight h2) by (apply (tight_dom (hd s)); [congruence|done]).
  assert (Hfill : forall name j, name ∈ topo_followers topo -> 0 <= j < conn_per_roomzin_node cfg ->
    exists i c, followers h2 !! (name, i, j) = Some c).
  { intros name j Hin Hj. destruct (Hknown name Hin) as [i Hx]. exists i.
    apply (Rf name i j Hin); [by apply (lookup_dom_eq _ _ _ Hd1)|done]. }
  assert (Hserved : forall s2 t' e2, rtc (sys_step cfg tcp discover clock) (set_hd s1 h2) s2 -> hd s2 = h2 -> syncer s2 = None ->
    tasks s2 !! t' = Some e2 -> 9 <= zlen (shard_frame_buf e2) -> phase e2 = Picking -> is_write e2 = false ->
    exists h3 c ci, rtc (sys_step cfg tcp discover clock) (set_hd s1 h2) (task_to s2 t' (set_phase e2 (Chosen c)) h3)
    /\ conns (net h3) !! c = Some ci /\ addr ci ∈ topo_followers topo /\ closed ci = false
    /\ exists e3 h4 k tx now, exec_step clock cfg (set_phase e2 (Chosen c)) h3 = Moves e3 h4
       /\ phase e3 = Storing now /\ registered e3 = Some (c, k, tx)).
  { intros s2 t' e2 Hp2 Hh2 Hy2 Ht2 H9 Hpk Hw2. destruct (topo_followers topo) as [|name fl] eqn:Efl; [done|].
    destruct (Hfill name 0 ltac:(apply list_elem_of_here) ltac:(lia)) as (i & c & Hc).
    destruct (read_chooses cfg tcp discover clock Hn Hcov s2 t' e2 (name :: fl) name i 0)
      as (h3 & c' & ci & Hp3 & Hop & Hci & Ha & Hcl); rewrite ?Hh2; try done.
    exists h3, c', ci. split_and!; [by etrans|done|done|done|by apply chosen_takes]. }
  exists (set_hd s1 h2). split_and!; [done|done|done| | |].
  - intros name j Hin Hj. destruct (Hfill name j Hin Hj) as (i & c & Hc). destruct (Rs _ _ Hc) as [_ Ho].
    destruct (inv_key _ _ I2 _ _ _ _ Hc) as (_ & _ & ci & Hci & Ha). exists i, c, ci. split_and!; [done|done|done|].
    unfold is_closed in Ho. by rewrite Hci in Ho.
  - assert (H1 : tasks (set_hd s1 h2) !! t = Some e1) by apply lookup_insert_eq.
    assert (Hw1 : sys_step cfg tcp discover clock (set_hd s1 h2) (task_to (set_hd s1 h2) t (set_phase e1 Picking) h2)).
    { assert (Hph : phase e1 = Sleeping (from_millis (50 * (attempts e + 1 + 1)))).
      { unfold e1, exec_fail. simpl. destruct (Z.leb_spec 3 (attempts e + 1)); [lia|done]. }
      assert (Hst : sys_step cfg tcp discover clock (set_hd s1 h2) (exec_to (set_hd s1 h2) t e1 (set_phase e1 Picking) h2)).
      { apply sys_exec; [done|unfold waits_guard; by rewrite Hph|unfold exec_step; by rewrite Hph]. }
      unfold exec_to, sends_of in Hst. by rewrite Hph in Hst. }
    pose proof (sys_tasks _ _ Inv _ _ He) as [_ Hph]. rewrite Hp in Hph.
    destruct (Hserved (task_to (set_hd s1 h2) t (set_phase e1 Picking) h2) t (set_phase e1 Picking)) as (h3 & c & ci & Hp3 & Hci & Ha & Hcl & Htk).
    + by apply rtc_once.
    + done.
    + done.
    + apply lookup_insert_eq.
    + simpl. lia.
    + done.
    + done.
    + exists (task_to (task_to (set_hd s1 h2) t (set_phase e1 Picking) h2) t (set_phase e1 (Chosen c)) h3), c, ci.
      split_and!; [exact Hp3|simpl; by rewrite insert_insert_eq|done|done|done|exact Htk].
  - intros t' e2 Ht' Hp2 Hw2. pose proof (Ok1 _ _ Ht') as [_ Hph]. rewrite Hp2 in Hph.
    destruct (Hserved (set_hd s1 h2) t' e2) as (h3 & c & ci & Hp3 & Hci & Ha & Hcl & Htk); try done; [lia|].
    exists (task_to (set_hd s1 h2) t' (set_phase e2 (Chosen c)) h3), c, ci. split_and!; try done.
Qed.

End Properties.

(** ** A run: the follower dies, a read arrives *)

#[local] Existing Instance reqwest_text.
#[local] Instance rrec_demux_order : HashIter Z (nat * Z) := list_order Z (nat * Z).
#[local] Instance rrec_history_order : HashIter (string * Z) Z := list_order (string * Z) Z.
#[local] Instance rrec_followers_order : HashIter (string * Z * Z) nat := list_order (string * Z * Z) nat.
#[local] Instance rrec_required_order : HashIter string Z := list_order string Z.
#[local] Instance rrec_new_order : HashIter string (list (option nat)) := list_order string (list (option nat)).

Definition ex_deaf : option Sys :=
  run [do_sync run_cfg run_all ex_topo Fast; do_read_end 1; do_start 0 false ex_frame] (sys_new run_cfg).

Definition ex_read : Exec := mkExec false ex_frame 7 0 None Picking.

Lemma ex_deaf_reach s : ex_deaf = Some s -> rtc ex_step (sys_new run_cfg) s.
Proof. apply run_reaches. repeat constructor; [apply do_sync_step|apply do_read_end_step|apply do_start_step]. Qed.

Lemma ex_deaf_state :
  exists s, ex_deaf = Some s /\ syncer s = None /\ tasks s !! 0%nat = Some ex_read
  /\ map_to_list (followers (hd s)) = [(("a", 0, 0), 1%nat)] /\ is_closed 1 (net (hd s)) = true
  /\ map_to_list (follower_history (load_balancer (hd s))) = [(("a", 0), 0)].
Proof.
  assert (H : (s ← ex_deaf; Some (map_to_list (followers (hd s)), is_closed 1 (net (hd s)),
    map_to_list (follower_history (load_balancer (hd s))), tasks s !! 0%nat, bool_decide (syncer s = None)))
    = Some ([(("a", 0, 0), 1%nat)], true, [(("a", 0), 0)], Some ex_read, true)) by (vm_compute; reflexivity).
  destruct ex_deaf as [s|]; [|discriminate H]. cbn [mbind option_bind] in H. injection H as H1 H2 H3 H4 H5.
  exists s. split_and!; try done. by apply bool_decide_eq_true in H5.
Qed.

Lemma ex_deaf_tight s :
  map_to_list (follower_history (load_balancer (hd s))) = [(("a", 0), 0)] -> tight (hd s).
Proof.
  intros Hm. assert (Hk : forall k, is_Some (follower_history (load_balancer (hd s)) !! k) -> k = ("a", 0)).
  { intros k [v Hv%elem_of_map_to_list]. rewrite Hm in Hv. by apply list_elem_of_singleton in Hv as [= -> _]. }
  assert (Hc : node_count (hd s) = 1) by (unfold node_count; rewrite <- length_map_to_list, Hm; done).
  split; [|intros n i [= -> ->]%Hk; lia|lia]. by intros a b i [= -> ->]%Hk [= ->]%Hk.
Qed.

(** The read fails once, the follower is connected again, and the read gets the
    new connection. *)
Lemma reads_recover_witness :
  exists s s1 s2, ex_deaf = Some s /\ rtc ex_step s s1 /\ followers (hd s1) = ∅ /\ rtc ex_step s1 s2
  /\ served run_cfg run_all ex_topo run_clock ["a"] s2 0 (exec_fail NoFollowerNodeAvailable ex_read).
Proof.
  destruct ex_deaf_state as (s & E & Hy & He & Hf & Hc & Hh).
  destruct (reads_recover run_cfg run_all ex_topo run_clock s (mkTopo "l" ["a"]) 0 ex_read run_range ltac:(done) run_covers
    (ex_deaf_reach s E) Hy) as (s1 & H1 & _ & Hf1 & Hall).
  - exact (ex_deaf_tight s Hh).
  - intros key c Hk%elem_of_map_to_list. rewrite Hf in Hk. apply list_elem_of_singleton in Hk as [= -> ->]. exact Hc.
  - reflexivity.
  - reflexivity.
  - discriminate.
  - intros name ->%list_elem_of_singleton. exists 0, 0. apply elem_of_map_to_list. rewrite Hh. apply list_elem_of_here.
  - exact He.
  - reflexivity.
  - reflexivity.
  - vm_compute. discriminate.
  - destruct (Hall Slow) as (s2 & H2 & _ & _ & _ & Hserved & _).
    exists s, s1, s2. split; [exact E|]. split; [exact H1|]. split; [exact Hf1|]. split; [exact H2|exact Hserved].
Defined.
