(* ===== verification/Requests.v ===== *)
(** * Properties of requests: their frames, their answers

    What [execute] keeps of a request's frame, and that a response that was read
    reaches its request. *)

From S2P Require Import Prelude RustStd Error Config Protocol Demux Connection LoadBalancer Topology.
From S2P Require Import ClusterSync ClusterProps SyncSteps Execute System SystemProps.
Local Open Scope Z_scope.

(** ** Lemmas: what a step keeps of a request *)

Section Kept.
Context `{RQ : Reqwest}.
Context {HD : HashIter Z (nat * Z)} {HH : HashIter (string * Z) Z} (clock : nat -> Z) (cfg : Config).

Record kept (e e' : Exec) : Prop := {
  kept_write : is_write e' = is_write e;
  kept_clrid : original_clrid e' = original_clrid e;
  kept_frame : same_frame (shard_frame_buf e) (shard_frame_buf e')
}.

#[export] Instance kept_preorder : PreOrder kept.
Proof.
  split; [by intros e; split|]. intros a b c [W1 C1 F1] [W2 C2 F2].
  split; [congruence|congruence|by eapply same_frame_trans].
Qed.

(** A step that changes nothing of them but the phase and the attempts. *)
Lemma kept_same e p n : kept e (mkExec (is_write e) (shard_frame_buf e) (original_clrid e) n (registered e) p).
Proof. by split. Qed.

Lemma exec_step_kept e h e' h' : exec_step clock cfg e h = Moves e' h' -> kept e e'.
Proof.
  unfold exec_step, moves. destruct (phase e) as [|n|c|now| | |d|res].
  - unfold exec_pick. destruct (is_write e) eqn:Ew; [|intros [= <- _]; apply kept_same].
    destruct (next_leader_conn _ _ _) as [[[c|] h1]|]; cbn [mbind option_bind]; [..|done]; intros [= <- _]; apply kept_same.
  - unfold exec_scan. destruct n as [|n]; [intros [= <- _]; apply kept_same|].
    destruct (follower_turn _ _ _) as [[[c|] h1]|]; cbn [mbind option_bind]; [..|done]; intros [= <- _]; apply kept_same.
  - unfold exec_chosen, next_corr_id. destruct (negb _); [|intros [= <- _]; apply kept_same].
    destruct (conns (net h) !! c) as [ci|]; [|done]. cbn [mbind option_bind].
    destruct (patch _ _ _) as [f|] eqn:Ef; [|done]. cbn [mbind option_bind]. simpl. intros [= <- _].
    apply patch_same_frame in Ef as [Hf _]; [by split|zl].
  - destruct (registered e) as [[[c k] tx]|]; [|done]. intros [= <- _]. apply kept_same.
  - destruct (registered e) as [[[c k] tx]|]; [|done].
    destruct (send_raw _ _ _) as [[[] st]|]; try done; intros [= <- _]; apply kept_same.
  - destruct (registered e) as [[[c k] tx]|]; [|done]. destruct (shots (net h) !! tx) as [[|v|]|]; try done.
    + destruct (restore_clrid _ _); [|done]. intros [= <- _]. apply kept_same.
    + intros [= <- _]. apply kept_same.
  - intros [= <- _]. apply kept_same.
  - by destruct (registered e) as [[[? ?] ?]|].
Qed.

Lemma own_steps_kept n e e' : nsteps (own_step clock cfg) n e e' -> kept e e'.
Proof.
  induction 1 as [e|n e e1 e2 (h & h' & Hs) _ IH]; [done|]. apply exec_step_kept in Hs. by etrans.
Qed.

End Kept.

(** ** Lemmas: the owner of a oneshot, and a value that stays *)

Section Reachable.
Context `{RQ : Reqwest}.
Context {HF : HashIter (string * Z * Z) nat} {HH : HashIter (string * Z) Z}.
Context {HR : HashIter string Z} {HN : HashIter string (list (option nat))} {HD : HashIter Z (nat * Z)}.
Context (cfg : Config) (tcp : nat -> string -> Result unit io_Error).
Context (discover : nat -> Result ClusterTopology RZError) (clock : nat -> Z).
Context (cfg_range : 0 < conn_per_roomzin_node cfg < 2 ^ 32).

Abbreviation step := (sys_step cfg tcp discover clock).

(** What a step of the system does to the requests. *)
Lemma step_tasks s s' :
  step s s' -> tasks s' = tasks s \/ exists t e', tasks s' = <[t := e']> (tasks s)
    /\ (tasks s !! t = None \/ exists e, tasks s !! t = Some e /\ kept e e').
Proof.
  destruct 1 as [s t w frame e Hn He|s t e e' h' Ht Hg He|s c ci hdr frame go ci' out Hr Hc Hs|s c Hr Hc|s c ci ok frame ci' Hc Hw
    |s t s' Hb Hk Hs|s b k s' Hk Hs]; try (by left).
  - right. exists t, e. auto.
  - right. exists t, e'. split; [done|right]. exists e. split; [done|by eapply exec_step_kept].
  - left. by apply settle_tasks in Hs as (-> & _).
  - left. by apply settle_tasks in Hs as (-> & _).
Qed.

(** A request keeps its place and its frame. *)
Lemma steps_keep s s' t e :
  rtc step s s' -> tasks s !! t = Some e -> exists e', tasks s' !! t = Some e' /\ kept e e'.
Proof.
  intros Hs. revert e. induction Hs as [s|s s1 s' Hs _ IH]; intros e Ht; [by exists e|].
  enough (exists e1, tasks s1 !! t = Some e1 /\ kept e e1) as (e1 & H1 & K).
  { destruct (IH e1 H1) as (e' & H' & K'). exists e'. split; [done|by etrans]. }
  destruct (step_tasks _ _ Hs) as [->|(t2 & e2 & -> & Hreg)]; [by exists e|].
  destruct (decide (t2 = t)) as [->|Hne]; [|exists e; by rewrite lookup_insert_ne].
  rewrite lookup_insert_eq. exists e2. destruct Hreg as [Hn|(e0 & H0 & K)]; [congruence|].
  by simplify_eq.
Qed.

(** A value in a oneshot stays there. *)
Lemma value_stays_step s s' tx v :
  sys_inv cfg s -> step s s' -> (tx < next_shot (net (hd s)))%nat ->
  shots (net (hd s)) !! tx = Some (Value v) ->
  shots (net (hd s')) !! tx = Some (Value v) /\ (tx < next_shot (net (hd s')))%nat.
Proof.
  intros Inv Hs Hlt Hv. enough (exists N log, sstep_of N log (net (hd s)) (net (hd s'))) as (N & log & S).
  { split; [by apply S|]. pose proof (ss_next _ _ _ _ S). lia. }
  pose proof Inv as [I D T [n Y] _ _]. destruct Hs as
    [s t w frame e Hn He|s t e e' h' Ht Hg He|s c ci hdr frame go ci' out Hr Hc Hs|s c Hr [ci Hc]|s c ci ok frame ci' Hc Hw
    |s t s' Hb Hk Hs|s b k s' Hk Hs].
  - exists (fun _ _ _ => False), []. apply sstep_refl.
  - exists (will_store e), (responses s). pose proof (exec_step_ok clock cfg (responses s) e (hd s) cfg_range I D (T _ _ Ht)) as Ho.
    rewrite He in Ho. apply Ho.
  - exists (fun _ _ _ => False), [(c, clr_id hdr, frame)]. eapply deliver_sstep; [done|done|done|set_solver].
  - exists (fun _ _ _ => False), []. simpl. unfold close. rewrite (on_conn_const _ _ _ _ Hc). by apply on_conn_sstep with ci.
  - exists (fun _ _ _ => False), []. apply write_loop_step_inv in Hw as (Ha & Hcl & Hd). simpl.
    apply on_conn_sstep with ci; [done..|by rewrite Hd].
  - exists (fun _ _ _ => False), []. pose proof (settle_segment cfg _ _ _ _ (tick_rg cfg tcp discover cfg_range s t Inv) Hs) as (S & I' & _).
    eapply extends_sstep; [apply I'|apply S].
  - exists (fun _ _ _ => False), []. pose proof (settle_segment cfg _ _ _ _ (resume_rg cfg n s b k Hk Y) Hs) as (S & I' & _).
    eapply extends_sstep; [apply I'|apply S].
Qed.

Lemma value_stays s s' tx v :
  sys_inv cfg s -> rtc step s s' -> (tx < next_shot (net (hd s)))%nat ->
  shots (net (hd s)) !! tx = Some (Value v) -> shots (net (hd s')) !! tx = Some (Value v).
Proof.
  intros Inv Hs. revert Inv. induction Hs as [s|s s1 s' Hs _ IH]; intros Inv Hlt Hv; [done|].
  destruct (value_stays_step s s1 tx v Inv Hs Hlt Hv) as [Hv1 Hlt1]. apply IH; [by eapply sys_step_inv|done|done].
Qed.

End Reachable.

(** What [execute] makes of its input: the id to restore, or an error at once. *)
Lemma exec_start_id `{Reqwest} w frame e :
  exec_start w frame = Some e ->
  is_write e = w /\ shard_frame_buf e = frame
  /\ ((phase e = Picking /\ head frame = Some SHARD_MAGIC /\ frame.[1; 5] = Some (le_bytes 4 (original_clrid e)))
      \/ exists err, phase e = Done (Err err)).
Proof.
  unfold exec_start. destruct (zlen frame <? 9); [intros [= <-]; split_and!; eauto|].
  destruct frame as [|b frame]; [done|]. change ((b :: frame).[0]) with (Some b). cbn [mbind option_bind].
  case_bool_decide as Hb; simpl negb; [|intros [= <-]; split_and!; eauto]. subst b.
  destruct ((xff :: frame).[1; 5]) as [clr|] eqn:Ec; [|done]. cbn [mbind option_bind]. intros [= <-].
  split_and!; [done|done|left]. split_and!; [done|done|]. f_equal. simpl.
  pose proof (le_bytes_le_val clr) as Hb. apply slice_inv in Ec as (_ & _ & _ & Hz). unfold zlen in Hz.
  by replace (length clr) with 4%nat in Hb by lia.
Qed.

(** ** Properties *)

Section Properties.
Context `{RQ : Reqwest}.
Context {HF : HashIter (string * Z * Z) nat} {HH : HashIter (string * Z) Z}.
Context {HR : HashIter string Z} {HN : HashIter string (list (option nat))} {HD : HashIter Z (nat * Z)}.
Context (cfg : Config) (tcp : nat -> string -> Result unit io_Error).
Context (discover : nat -> Result ClusterTopology RZError) (clock : nat -> Z).

(** C31. What a node receives of a request is the router's frame with another
    correlation id and nothing else: through any number of steps and attempts
    the frame keeps its length, its magic byte and everything from byte 5 on,
    and [execute] keeps the write flag and the id to restore, which is the one
    in bytes 1 to 4 of the router's frame. *)
Theorem request_frame_kept w frame e e' n :
  exec_start w frame = Some e -> phase e = Picking -> nsteps (own_step clock cfg) n e e' ->
  is_write e' = w /\ zlen (shard_frame_buf e') = zlen frame /\ head (shard_frame_buf e') = Some SHARD_MAGIC
  /\ drop 5 (shard_frame_buf e') = drop 5 frame /\ frame.[1; 5] = Some (le_bytes 4 (original_clrid e')).
Proof.
  intros (Hw0 & Hf0 & [(_ & Hm & Hid)|(err & Hx)])%exec_start_id Hp [Hw Hc (Hl & Hh & Hd)]%own_steps_kept; [|congruence].
  rewrite Hf0 in *. rewrite Hw, Hc, Hh. done.
Qed.

(** A response that the read loop takes from the stream under the id of a
    waiting request reaches it: the read is a step of the system, and from
    then on, whatever else happens, the next step of the request returns that
    response with the client's id. *)
Theorem response_completes s t e c k tx ci ts reader buf hdr frame rd rest :
  0 < conn_per_roomzin_node cfg < 2 ^ 32 -> rtc (sys_step cfg tcp discover clock) (sys_new cfg) s ->
  tasks s !! t = Some e -> phase e = Waiting -> registered e = Some (c, k, tx) -> c ∉ ended s ->
  conns (net (hd s)) !! c = Some ci -> demux ci !! k = Some (tx, ts) -> shots (net (hd s)) !! tx = Some Empty ->
  drain_frame_async reader buf = Some (Ok (hdr, frame), rd, rest) -> clr_id hdr = k ->
  exists s1 b, sys_step cfg tcp discover clock s s1 /\ tasks s1 !! t = Some e
  /\ same_frame frame b /\ b.[1; 5] = Some (le_bytes 4 (original_clrid e))
  /\ forall s2, rtc (sys_step cfg tcp discover clock) s1 s2 ->
       exec_step clock cfg e (hd s2) = Moves (set_phase e (Done (Ok b))) (hd s2).
Proof.
  intros Hn Hr Ht Hp Hreg He Hc Hk Hx Hd <-. pose proof (reachable_sys_inv cfg tcp discover clock Hn s Hr) as Inv.
  destruct (drain_Ok _ _ _ _ _ _ Hd) as (_ & Hl & _). destruct (should_close_total hdr frame Hl) as [stop Hs].
  pose proof (u8_range (status_len hdr)) as Hu.
  assert (Hstep : read_loop_step hdr frame ci = Some (negb stop,
      (if stop then set_closed (set_demux ci (delete (clr_id hdr) (demux ci))) true
       else set_demux ci (delete (clr_id hdr) (demux ci))), Some (tx, frame))).
  { unfold read_loop_step, load_remove. rewrite Hk. cbn [mbind option_bind]. by rewrite Hs. }
  pose proof (sys_read cfg tcp discover clock s c ci hdr frame _ _ _ He Hc Hstep) as S1.
  destruct (restore_total (original_clrid e) frame) as [b Hb].
  destruct (restore_spec _ _ _ Hb) as (Hf & H9 & _). eexists. exists b. split; [exact S1|].
  split; [exact Ht|]. split; [exact Hf|]. split; [apply H9; lia|]. intros s2 Hs2.
  pose proof (value_stays cfg tcp discover clock Hn _ s2 tx frame (sys_step_inv cfg tcp discover clock Hn _ _ S1 Inv) Hs2) as Hv.
  unfold exec_step. rewrite Hp, Hreg, Hv, Hb; [done| |].
  - pose proof (waits_on_lt cfg s t tx Inv ltac:(by exists e, c, (clr_id hdr))). done.
  - simpl. by rewrite lookup_alter_eq, Hx.
Qed.

End Properties.

#[local] Existing Instance reqwest_text.
#[local] Instance req_demux_order : HashIter Z (nat * Z) := list_order Z (nat * Z).
#[local] Instance req_history_order : HashIter (string * Z) Z := list_order (string * Z) Z.
#[local] Instance req_followers_order : HashIter (string * Z * Z) nat := list_order (string * Z * Z) nat.
#[local] Instance req_required_order : HashIter string Z := list_order string Z.
#[local] Instance req_new_order : HashIter string (list (option nat)) := list_order string (list (option nat)).

Definition ex_new : Exec := mkExec true ex_frame 7 0 None Picking.

Lemma request_frame_kept_witness :
  exists e', own_step run_clock run_cfg ex_new e' /\ drop 5 (shard_frame_buf e') = drop 5 ex_frame
  /\ ex_frame.[1; 5] = Some (le_bytes 4 (original_clrid e')).
Proof.
  assert (E : exec_start true ex_frame = Some ex_new) by (vm_compute; reflexivity).
  exists (exec_fail NoLeaderAvailable ex_new).
  assert (Hs : own_step run_clock run_cfg ex_new (exec_fail NoLeaderAvailable ex_new)).
  { exists run_new, run_new. vm_compute. reflexivity. }
  destruct (request_frame_kept run_cfg run_clock true ex_frame ex_new (exec_fail NoLeaderAvailable ex_new) 1 E eq_refl) as (_ & _ & _ & Hd & Hc).
  - eapply nsteps_l; [exact Hs|constructor].
  - split; [exact Hs|split; [exact Hd|exact Hc]].
Defined.

(** The write of [ex_send], waiting for its answer. *)
Definition ex_waits : option Sys := run ex_send (sys_new run_cfg).

Lemma ex_waits_reach s : ex_waits = Some s -> rtc ex_step (sys_new run_cfg) s.
Proof. apply run_reaches, ex_send_steps. Qed.

(** What is known of that state. *)
Definition waits_test (s : Sys) : bool :=
  bool_decide (0%nat ∉ ended s)
  && match tasks s !! 0%nat, conns (net (hd s)) !! 0%nat, shots (net (hd s)) !! 0%nat with
     | Some e, Some ci, Some Empty =>
         match phase e with Waiting => true | _ => false end && bool_decide (registered e = Some (0%nat, 1, 0%nat))
         && bool_decide (demux ci !! 1 = Some (0%nat, 0))
     | _, _, _ => false
     end.

Lemma ex_waits_state :
  exists s e ci, rtc ex_step (sys_new run_cfg) s /\ tasks s !! 0%nat = Some e /\ phase e = Waiting
  /\ registered e = Some (0%nat, 1, 0%nat) /\ 0%nat ∉ ended s /\ conns (net (hd s)) !! 0%nat = Some ci
  /\ demux ci !! 1 = Some (0%nat, 0) /\ shots (net (hd s)) !! 0%nat = Some Empty.
Proof.
  assert (Ht : match ex_waits with Some s => waits_test s | None => false end = true) by (vm_compute; reflexivity).
  destruct ex_waits as [s|] eqn:E; [|discriminate]. unfold waits_test in Ht.
  apply andb_true_iff in Ht as [He%bool_decide_eq_true Ht].
  destruct (tasks s !! 0%nat) as [e|] eqn:Et; [|discriminate].
  destruct (conns (net (hd s)) !! 0%nat) as [ci|] eqn:Ec; [|discriminate].
  destruct (shots (net (hd s)) !! 0%nat) as [[| |]|] eqn:Es; try discriminate.
  apply andb_true_iff in Ht as [[Hp Hr%bool_decide_eq_true]%andb_true_iff Hd%bool_decide_eq_true].
  exists s, e, ci. split_and!; try done; [by apply ex_waits_reach|by destruct (phase e)].
Qed.

Lemma response_completes_witness :
  exists s s1 e b, ex_step s s1 /\ same_frame ex_answer b
  /\ exec_step run_clock run_cfg e (hd s1) = Moves (set_phase e (Done (Ok b))) (hd s1).
Proof.
  destruct ex_waits_state as (s & e & ci & Hs & Ht & Hp & Hr & He & Hc & Hd & Hx).
  assert (Hdr : drain_frame_async [] ex_answer = Some (Ok (mkHeader 1 x07 0, ex_answer), [], []))
    by (vm_compute; reflexivity).
  destruct (response_completes run_cfg run_all ex_topo run_clock s 0 e 0 1 0 ci 0 [] ex_answer _ _ _ _ run_range Hs Ht Hp Hr
    He Hc Hd Hx Hdr eq_refl) as (s1 & b & H1 & _ & Hf & _ & Hgo).
  exists s, s1, e, b. split; [exact H1|split; [exact Hf|]]. apply Hgo. constructor.
Defined.
