(* ===== verification/Tracking.v ===== *)
(** * No request is lost: what is waiting is registered

    In every reachable state a request that waits with nothing in its oneshot
    is in the correlation map of the connection it was sent on, under the id its
    frame carries.  So a request is never forgotten by the tables while it
    waits: it has its answer, or its id was taken over and it will try again, or
    the read loop of that connection will find it. *)

From S2P Require Import Prelude RustStd Error Config Protocol Demux Connection LoadBalancer Topology.
From S2P Require Import ClusterSync ClusterProps SyncSteps Execute System SystemProps Requests.
Local Open Scope Z_scope.

(** ** Lemmas: what a step of the store keeps *)

(** Nothing that waits is forgotten, and no oneshot is emptied. *)
Record keeps (st st' : Store) : Prop := {
  keeps_map : keeps_entries st st';
  keeps_empty : forall tx, (tx < next_shot st)%nat -> shots st' !! tx = Some Empty -> shots st !! tx = Some Empty
}.

Lemma keeps_refl st : keeps st st.
Proof. split; [intros c ci k tx ts Hc Hk _; eauto|done]. Qed.

Lemma keeps_trans a b c :
  demux_ok a -> (next_shot a <= next_shot b)%nat -> keeps a b -> keeps b c -> keeps a c.
Proof.
  intros D N [M1 E1] [M2 E2]. split.
  - intros r ci k tx ts Hr Hk He. pose proof (D _ _ _ _ _ Hr Hk).
    destruct (M1 _ _ _ _ _ Hr Hk) as (ci1 & H1 & Hk1); [apply E2; [lia|done]|]. by eapply M2.
  - intros tx Hl He. apply E1; [done|]. apply E2; [lia|done].
Qed.

Lemma cleans_keeps T st st' : cleans T st st' -> keeps st st'.
Proof.
  intros C. split; [apply C|]. intros tx _ He. destruct (cl_shots _ _ _ C tx) as [<-|(_ & Hv & _)]; [done|congruence].
Qed.

Lemma extends_keeps st st' : extends st st' -> keeps st st'.
Proof.
  intros [C _ S _ _]. split; [|intros tx _; by rewrite S].
  intros c ci k tx ts Hc Hk _. exists ci. split; [by eapply lookup_weaken|done].
Qed.

(** Rewriting one connection but for its correlation map. *)
Lemma on_conn_keeps c ci ci' st :
  conns st !! c = Some ci -> demux ci' = demux ci -> keeps st (on_conn c (fun _ => ci') st).
Proof.
  intros Hc Hd. split; [|done]. intros r cr k tx ts Hr Hk _. simpl. destruct (decide (c = r)) as [->|Hne].
  - rewrite lookup_alter_eq, Hr. eexists. split; [done|]. simplify_eq. by rewrite Hd.
  - rewrite lookup_alter_ne by done. eauto.
Qed.

(** The read loop takes an entry out and sends to it. *)
Lemma deliver_keeps c ci ci' hdr frame go out st :
  conns st !! c = Some ci -> read_loop_step hdr frame ci = Some (go, ci', out) -> keeps st (deliver c ci' out st).
Proof.
  intros Hc Hs. assert (Hmap : forall k, demux ci' !! k = demux ci !! k \/ exists tx ts,
    demux ci !! k = Some (tx, ts) /\ out = Some (tx, frame)).
  { revert Hs. unfold read_loop_step, load_remove. destruct (demux ci !! clr_id hdr) as [[tx ts]|] eqn:Ed.
    - destruct (should_close hdr frame) as [[]|]; simpl; [| |done]; intros [= <- <- <-] k; simpl.
      all: destruct (decide (clr_id hdr = k)) as [<-|Hne]; [right; eauto|left; by apply lookup_delete_ne].
    - intros [= <- <- <-] k. by left. }
  assert (Hshot : forall tx p, out = Some (tx, p) -> shots (deliver c ci' out st) !! tx <> Some Empty).
  { intros tx p ->. unfold deliver. simpl. rewrite lookup_alter_eq. by destruct (shots st !! tx) as [[]|]. }
  assert (Hconns : conns (deliver c ci' out st) = alter (fun _ => ci') c (conns st)) by (by destruct out as [[? ?]|]).
  split.
  - intros r cr k tx ts Hr Hk He. rewrite Hconns. destruct (decide (c = r)) as [->|Hne].
    + rewrite lookup_alter_eq, Hr. eexists. split; [done|]. simplify_eq.
      destruct (Hmap k) as [->|(tx' & ts' & Hk' & Ho)]; [done|]. assert (tx' = tx) as -> by congruence. by destruct (Hshot _ _ Ho).
    + rewrite lookup_alter_ne by done. eauto.
  - intros tx _. unfold deliver. destruct out as [[t p]|]; [|done]. simpl. destruct (decide (t = tx)) as [->|Hne].
    + rewrite lookup_alter_eq. by destruct (shots st !! tx) as [[]|].
    + by rewrite lookup_alter_ne.
Qed.

(** A registration: the sender it displaces is dropped. *)
Lemma drop_shot_not_empty s st : shots (drop_shot s st) !! s <> Some Empty.
Proof. simpl. rewrite lookup_alter_eq. by destruct (shots st !! s) as [[]|]. Qed.

Lemma drop_shot_empty s st tx : shots (drop_shot s st) !! tx = Some Empty -> shots st !! tx = Some Empty.
Proof.
  simpl. destruct (decide (s = tx)) as [->|Hne]; [|by rewrite lookup_alter_ne].
  rewrite lookup_alter_eq. by destruct (shots st !! tx) as [[]|].
Qed.

Section Steps.
Context `{RQ : Reqwest}.
Context {HD : HashIter Z (nat * Z)} {HH : HashIter (string * Z) Z} (clock : nat -> Z) (cfg : Config).

Lemma store_keeps c ci k tx now st :
  conns st !! c = Some ci ->
  keeps st (demux_store c k tx now st)
  /\ exists ci', conns (demux_store c k tx now st) !! c = Some ci' /\ demux ci' !! k = Some (tx, now).
Proof.
  intros Hc. rewrite (demux_store_eq _ _ _ _ _ _ Hc). set (st2 := stored c ci k tx now st).
  set (st3 := match demux ci !! k with Some (s, _) => drop_shot s st2 | None => st2 end).
  assert (Hconns : conns st3 = conns st2) by (subst st3; by destruct (demux ci !! k) as [[? ?]|]).
  assert (Hempty : forall x, shots st3 !! x = Some Empty -> shots st2 !! x = Some Empty).
  { intros x. subst st3. destruct (demux ci !! k) as [[s t]|]; [apply drop_shot_empty|done]. }
  split; [split|].
  - intros r cr k' x ts Hr Hk He. rewrite Hconns. unfold st2. simpl. destruct (decide (c = r)) as [->|Hne].
    + rewrite lookup_insert_eq. eexists. split; [done|]. simpl. simplify_eq.
      destruct (decide (k = k')) as [<-|Hnk]; [|by rewrite lookup_insert_ne].
      exfalso. revert He. subst st3. rewrite Hk. apply drop_shot_not_empty.
    + rewrite lookup_insert_ne by done. eauto.
  - intros x Hl He%Hempty. exact He.
  - rewrite Hconns. unfold st2. simpl. rewrite lookup_insert_eq. eexists. split; [done|]. simpl. by rewrite lookup_insert_eq.
Qed.

Lemma chosen_keeps c ci st : conns st !! c = Some ci -> keeps st (chosen_store c ci st).
Proof.
  intros Hc. split.
  - intros r cr k tx ts Hr Hk He. simpl. destruct (decide (c = r)) as [->|Hne].
    + rewrite lookup_insert_eq. eexists. split; [done|]. by simplify_eq.
    + rewrite lookup_insert_ne by done. eauto.
  - intros tx Hl He. simpl in He. by rewrite lookup_insert_ne in He by lia.
Qed.

(** A step of a request. *)
Definition waits (e : Exec) : Prop := match phase e with Sending | Waiting => True | _ => False end.

(** The entry of a registration. *)
Definition entry (st : Store) (c : nat) (k : Z) (tx : nat) : Prop :=
  exists ci ts, conns st !! c = Some ci /\ demux ci !! k = Some (tx, ts).

Lemma exec_fail_waits err e : ~ waits (exec_fail err e).
Proof. unfold waits, exec_fail. simpl. destruct (3 <=? _); simpl; tauto. Qed.

Lemma exec_step_keeps log e h e' h' :
  task_ok log (net h) e -> exec_step clock cfg e h = Moves e' h' ->
  keeps (net h) (net h')
  /\ (waits e' -> (waits e /\ registered e' = registered e)
       \/ exists c k tx, registered e' = Some (c, k, tx) /\ entry (net h') c k tx).
Proof.
  intros [Hr Hp]. unfold exec_step, moves. unfold waits at 2.
  assert (Hsel : forall h1 e1, sel_effect h h1 -> ~ waits e1 -> Moves e1 h1 = Moves e' h' ->
    keeps (net h) (net h') /\ (waits e' -> (match phase e with Sending | Waiting => True | _ => False end /\ registered e' = registered e)
       \/ exists c k tx, registered e' = Some (c, k, tx) /\ entry (net h') c k tx)).
  { intros h1 e1 [C _ _] Hw [= <- <-]. split; [by eapply cleans_keeps|done]. }
  destruct (phase e) as [|n|c|now| | |d|res] eqn:Ep.
  - unfold exec_pick. destruct (is_write e); [|apply Hsel; [apply sel_effect_refl|by intros []]].
    destruct (next_leader_conn _ _ _) as [[[c|] h1]|] eqn:El; cbn [mbind option_bind]; [..|done].
    all: apply next_leader_conn_effect in El as [E _]; apply (Hsel h1 _ E); first [apply exec_fail_waits|by intros []].
  - unfold exec_scan. destruct n as [|n]; [apply Hsel; [apply sel_effect_refl|apply exec_fail_waits]|].
    destruct (follower_turn _ _ _) as [[[c|] h1]|] eqn:El; cbn [mbind option_bind]; [..|done].
    all: apply follower_turn_effect in El as [E _]; apply (Hsel h1 _ E); by intros [].
  - destruct (is_closed c (net h)) eqn:Ec.
    { unfold exec_chosen. rewrite Ec. apply Hsel; [apply sel_effect_refl|apply exec_fail_waits]. }
    destruct (is_closed_false _ _ Ec) as (ci & Hci & Hcl).
    destruct (exec_chosen_eq clock c ci e h Hci Hcl (proj1 Hp)) as (frame & _ & _ & _ & ->). intros [= <- <-].
    split; [by apply chosen_keeps|done].
  - destruct Hp as (_ & _ & [[[c k] tx] Hreg]). rewrite Hreg in *. destruct Hr as [[_ _ [ci Hci] _ _] _]. intros [= <- <-].
    destruct (store_keeps c ci k tx now (net h) Hci) as [K (ci' & Hc' & Hk')]. split; [done|]. intros _. right.
    exists c, k, tx. split; [done|]. by exists ci', now.
  - destruct (registered e) as [[[c k] tx]|] eqn:Er; [|done]. unfold send_raw.
    destruct (conns (net h) !! c) as [ci|] eqn:Ec; [|done]. cbn [mbind option_bind].
    destruct (negb _).
    { intros [= <- <-]. split; [apply keeps_refl|]. intros Hw. by destruct (exec_fail_waits Timeout e Hw). }
    destruct (_ <=? _); [done|]. intros [= <- <-]. rewrite (on_conn_const _ _ _ _ Ec).
    split; [by apply on_conn_keeps with ci|]. intros _. by left.
  - destruct (registered e) as [[[c k] tx]|] eqn:Er; [|done]. destruct (shots (net h) !! tx) as [[|v|]|]; try done.
    + destruct (restore_clrid _ v); [|done]. intros [= <- <-]. split; [apply keeps_refl|done].
    + intros [= <- <-]. split; [apply keeps_refl|]. intros Hw. by destruct (exec_fail_waits Timeout e Hw).
  - intros [= <- <-]. split; [apply keeps_refl|done].
  - by destruct (registered e) as [[[? ?] ?]|].
Qed.

End Steps.

(** ** The invariant *)

Section Reachable.
Context `{RQ : Reqwest}.
Context {HF : HashIter (string * Z * Z) nat} {HH : HashIter (string * Z) Z}.
Context {HR : HashIter string Z} {HN : HashIter string (list (option nat))} {HD : HashIter Z (nat * Z)}.
Context (cfg : Config) (tcp : nat -> string -> Result unit io_Error).
Context (discover : nat -> Result ClusterTopology RZError) (clock : nat -> Z).
Context (cfg_range : 0 < conn_per_roomzin_node cfg < 2 ^ 32).

Abbreviation step := (sys_step cfg tcp discover clock).

Definition tracked (s : Sys) : Prop :=
  forall t e c k tx, tasks s !! t = Some e -> waits e -> registered e = Some (c, k, tx) ->
    shots (net (hd s)) !! tx = Some Empty -> entry (net (hd s)) c k tx.

(** What was tracked stays so. *)
Lemma tracked_keeps s s' t e c k tx :
  sys_inv cfg s -> tracked s -> keeps (net (hd s)) (net (hd s')) ->
  tasks s !! t = Some e -> waits e -> registered e = Some (c, k, tx) ->
  shots (net (hd s')) !! tx = Some Empty -> entry (net (hd s')) c k tx.
Proof.
  intros Inv T [M E] Ht Hw Hr He. pose proof (waits_on_lt cfg s t tx Inv ltac:(by exists e, c, k)) as Hl.
  destruct (T t e c k tx Ht Hw Hr (E _ Hl He)) as (ci & ts & Hc & Hk).
  destruct (M _ _ _ _ _ Hc Hk He) as (ci' & Hc' & Hk'). by exists ci', ts.
Qed.

Lemma tracked_same s s' :
  sys_inv cfg s -> tracked s -> keeps (net (hd s)) (net (hd s')) -> tasks s' = tasks s -> tracked s'.
Proof. intros Inv T K He t e c k tx Ht. rewrite He in Ht. intros Hw Hr. by eapply tracked_keeps. Qed.

Lemma settle_keeps n s p s' :
  rg cfg n (fun _ => cluster_inv cfg) (hd s) p -> settle s p = Some s' ->
  keeps (net (hd s)) (net (hd s')) /\ tasks s' = tasks s.
Proof.
  intros Hp Hs. destruct (settle_segment cfg n _ _ _ Hp Hs) as (S & _ & _ & Ht & _).
  split; [apply extends_keeps, S|done].
Qed.

Lemma tracked_step s s' : sys_inv cfg s -> tracked s -> step s s' -> tracked s'.
Proof.
  intros Inv T Hs. pose proof Inv as [I D TO [n Y] _ _]. destruct Hs as
    [s t w frame e Hn He|s t e e' h' Ht Hg He|s c ci hdr frame go ci' out Hr Hc Hs|s c Hr [ci Hc]|s c ci ok frame ci' Hc Hw
    |s t s' Hb Hk Hs|s b k s' Hk Hs].
  - intros t' e' c k tx Ht' Hw Hr. simpl in *. apply lookup_insert_Some in Ht' as [[<- <-]|[_ Ht']]; [|by eapply T].
    exfalso. apply exec_start_id in He as (_ & _ & [(Hp & _)|(err & Hp)]); unfold waits in Hw; by rewrite Hp in Hw.
  - destruct (exec_step_keeps clock cfg (responses s) e (hd s) e' h' (TO _ _ Ht) He) as [K W].
    intros t' e2 c k tx Ht' Hw Hr. simpl in Ht' |- *. apply lookup_insert_Some in Ht' as [[<- <-]|[_ Ht']].
    + destruct (W Hw) as [[Hw0 Hr0]|(c' & k' & tx' & Hr' & He')]; [|intros _; congruence].
      rewrite Hr0 in Hr. by apply (tracked_keeps s (exec_to s t e e' h') t e).
    + by apply (tracked_keeps s (exec_to s t e e' h') t' e2).
  - apply (tracked_same s); [done|done| |done]. simpl. by eapply deliver_keeps.
  - apply (tracked_same s); [done|done| |done]. simpl. unfold close. rewrite (on_conn_const _ _ _ _ Hc).
    by apply on_conn_keeps with ci.
  - apply (tracked_same s); [done|done| |done]. simpl. apply write_loop_step_inv in Hw as (_ & _ & Hd).
    by apply on_conn_keeps with ci.
  - destruct (settle_keeps _ _ _ _ (tick_rg cfg tcp discover cfg_range s t Inv) Hs) as [K Ht]. by apply (tracked_same s).
  - destruct (settle_keeps _ _ _ _ (resume_rg cfg n s b k Hk Y) Hs) as [K Ht]. by apply (tracked_same s).
Qed.

Lemma reachable_tracked s : rtc step (sys_new cfg) s -> tracked s.
Proof.
  intros Hr. enough (tracked s /\ sys_inv cfg s) as [? _] by done.
  eapply (rtc_ind_r (fun s => tracked s /\ sys_inv cfg s) (sys_new cfg)); [| |exact Hr].
  - split; [|by apply sys_new_inv]. intros t e c k tx Ht. done.
  - intros s1 s2 _ Hs [T I]. split; [by eapply tracked_step|by eapply sys_step_inv].
Qed.

End Reachable.

(** ** Properties *)

Section Properties.
Context `{RQ : Reqwest}.
Context {HF : HashIter (string * Z * Z) nat} {HH : HashIter (string * Z) Z}.
Context {HR : HashIter string Z} {HN : HashIter string (list (option nat))} {HD : HashIter Z (nat * Z)}.
Context (cfg : Config) (tcp : nat -> string -> Result unit io_Error).
Context (discover : nat -> Result ClusterTopology RZError) (clock : nat -> Z).

(** C12. No request is lost by the tables.  In every reachable state a request
    that waits for its response is in one of three conditions: it has been
    answered, and returns at its next step; its sender was dropped, and it counts
    an attempt and goes on; or its oneshot is empty and it is in the correlation
    map of the connection it was sent on, under the id in its frame, and then a
    response that the read loop takes from the stream under that id reaches it:
    from that read on, whatever else happens, its next step returns the response
    with the client's id. *)
Theorem request_fate s t e c k tx :
  0 < conn_per_roomzin_node cfg < 2 ^ 32 -> rtc (sys_step cfg tcp discover clock) (sys_new cfg) s ->
  tasks s !! t = Some e -> phase e = Waiting -> registered e = Some (c, k, tx) ->
  (exists b, exec_step clock cfg e (hd s) = Moves (set_phase e (Done (Ok b))) (hd s))
  \/ exec_step clock cfg e (hd s) = Moves (exec_fail Timeout e) (hd s)
  \/ (exec_step clock cfg e (hd s) = Blocked
      /\ (shard_frame_buf e).[1; 5] = Some (le_bytes 4 k)
      /\ (exists ci ts, conns (net (hd s)) !! c = Some ci /\ demux ci !! k = Some (tx, ts))
      /\ forall reader buf hdr frame rd rest,
           c ∉ ended s -> drain_frame_async reader buf = Some (Ok (hdr, frame), rd, rest) -> clr_id hdr = k ->
           exists s1 b, sys_step cfg tcp discover clock s s1 /\ tasks s1 !! t = Some e
           /\ same_frame frame b /\ b.[1; 5] = Some (le_bytes 4 (original_clrid e))
           /\ forall s2, rtc (sys_step cfg tcp discover clock) s1 s2 ->
                exec_step clock cfg e (hd s2) = Moves (set_phase e (Done (Ok b))) (hd s2)).
Proof.
  intros Hn Hr Ht Hp Hreg. pose proof (reachable_sys_inv cfg tcp discover clock Hn s Hr) as Inv.
  destruct (sys_tasks _ _ Inv _ _ Ht) as [Hro _]. rewrite Hreg in Hro. destruct Hro as [[_ [o Ho] _ _ _] Hf].
  assert (Hstep : exec_step clock cfg e (hd s) = match o with
    | Value v => match restore_clrid (original_clrid e) v with
                 | Some b => Moves (set_phase e (Done (Ok b))) (hd s) | None => Panicked end
    | SenderDropped => Moves (exec_fail Timeout e) (hd s)
    | Empty => Blocked end).
  { unfold exec_step. rewrite Hp, Hreg, Ho. by destruct o. }
  rewrite Hstep. destruct o as [|v|].
  - right. right. destruct (reachable_tracked cfg tcp discover clock Hn s Hr t e c k tx Ht) as (ci & ts & Hc & Hk);
      [by unfold waits; rewrite Hp|done|done|].
    split_and!; [done|done|eauto|]. intros reader buf hdr frame rd rest He Hd Hk'.
    by eapply (response_completes cfg tcp discover clock).
  - left. destruct (restore_total (original_clrid e) v) as [b ->]. eauto.
  - right. by left.
Qed.

End Properties.

#[local] Existing Instance reqwest_text.
#[local] Instance track_demux_order : HashIter Z (nat * Z) := list_order Z (nat * Z).
#[local] Instance track_history_order : HashIter (string * Z) Z := list_order (string * Z) Z.
#[local] Instance track_followers_order : HashIter (string * Z * Z) nat := list_order (string * Z * Z) nat.
#[local] Instance track_required_order : HashIter string Z := list_order string Z.
#[local] Instance track_new_order : HashIter string (list (option nat)) := list_order string (list (option nat)).

(** The write of [ex_send]: its answer is read and completes it. *)
Lemma request_fate_witness :
  exists s s1 e b, ex_step s s1 /\ same_frame ex_answer b
  /\ exec_step run_clock run_cfg e (hd s1) = Moves (set_phase e (Done (Ok b))) (hd s1).
Proof.
  destruct ex_waits_state as (s & e & ci & Hs & Ht & Hp & Hr & He & Hc & Hd & Hx).
  destruct (request_fate run_cfg run_all ex_topo run_clock s 0 e 0 1 0 run_range Hs Ht Hp Hr)
    as [[b Hm]|[Hm|(_ & _ & _ & Hread)]].
  1,2: exfalso; unfold exec_step in Hm; rewrite Hp, Hr, Hx in Hm; discriminate Hm.
  destruct (Hread [] ex_answer (mkHeader 1 x07 0) ex_answer [] [] He) as (s1 & b & H1 & _ & Hf & _ & Hgo);
    [vm_compute; reflexivity|reflexivity|].
  exists s, s1, e, b. split; [exact H1|split; [exact Hf|]]. apply Hgo. constructor.
Defined.
