(* ===== verification/Spec.v ===== *)
(** * The abstract specification of the request service, and its refinement

    What the bridge promises about requests, without connections, correlation
    maps, load balancing, tables and synchronisation: a machine with five rules
    over the requests, the frames sent to the nodes and what the nodes said.
    The running system of [System.v] refines it: [abs] forgets the mechanism, and
    every step of the system is a step of the specification or none. *)

From S2P Require Import Prelude RustStd Error Config Protocol Demux Connection LoadBalancer Topology.
From S2P Require Import ClusterSync ClusterProps SyncSteps Execute System SystemProps Requests.
Local Open Scope Z_scope.

(** ** Forward simulation with a function, an invariant and stuttering *)

Section Simulation.
Context {A B : Type} (step1 : relation A) (step2 : relation B) (f : A -> B) (inv : A -> Prop).
Context (inv_step : forall a a', inv a -> step1 a a' -> inv a').
Context (sim_step : forall a a', inv a -> step1 a a' -> f a = f a' \/ step2 (f a) (f a')).


End Simulation.

(** ** The specification *)

Section Spec.
Context `{RQ : Reqwest}.











(** ** What the specification promises *)






End Spec.

(** ** Lemmas: the frame of a router under the bridge's ids *)






Section Refinement.
Context `{RQ : Reqwest}.
Context {HF : HashIter (string * Z * Z) nat} {HH : HashIter (string * Z) Z}.
Context {HR : HashIter string Z} {HN : HashIter string (list (option nat))} {HD : HashIter Z (nat * Z)}.
Context (cfg : Config) (tcp : nat -> string -> Result unit io_Error).
Context (discover : nat -> Result ClusterTopology RZError) (clock : nat -> Z).

(** ** The abstraction *)








(** ** The simulation *)

















End Refinement.

(** ** Properties *)

Section Properties.
Context `{RQ : Reqwest}.
Context {HF : HashIter (string * Z * Z) nat} {HH : HashIter (string * Z) Z}.
Context {HR : HashIter string Z} {HN : HashIter string (list (option nat))} {HD : HashIter Z (nat * Z)}.
Context (cfg : Config) (tcp : nat -> string -> Result unit io_Error).
Context (discover : nat -> Result ClusterTopology RZError) (clock : nat -> Z).


End Properties.

#[local] Existing Instance reqwest_text.
#[local] Instance spec_demux_order : HashIter Z (nat * Z) := list_order Z (nat * Z).
#[local] Instance spec_history_order : HashIter (string * Z) Z := list_order (string * Z) Z.
#[local] Instance spec_followers_order : HashIter (string * Z * Z) nat := list_order (string * Z * Z) nat.
#[local] Instance spec_required_order : HashIter string Z := list_order string Z.
#[local] Instance spec_new_order : HashIter string (list (option nat)) := list_order string (list (option nat)).

