(* ===== verification/Discovered.v ===== *)
(** * Where requests go: the composition of discovery, synchronisation and execute

    Every address in the handler's tables comes from a discovery that was made
    earlier: the leader slots lead to the leader of some discovered topology, the
    follower table to followers of discovered topologies.  So every request that
    is registered is registered on a connection to such a node; and if the
    discoveries are those of [topology.rs], that node reported to be the active
    leader (an active follower) of a leader id that won the vote of its round. *)

From S2P Require Import Prelude RustStd Error Config Protocol Demux Connection LoadBalancer Http Rzid Resolver Topology App.
From S2P Require Import ClusterSync ClusterProps SyncSteps Execute System SystemProps Requests.
Local Open Scope Z_scope.

Section Provenance.
Context `{RQ : Reqwest}.
Context {HF : HashIter (string * Z * Z) nat} {HH : HashIter (string * Z) Z}.
Context {HR : HashIter string Z} {HN : HashIter string (list (option nat))} {HD : HashIter Z (nat * Z)}.
Context (cfg : Config) (tcp : nat -> string -> Result unit io_Error).
Context (discover : nat -> Result ClusterTopology RZError) (clock : nat -> Z).

(** Discovered before suspension point [n]. *)
Definition discovered_leader (n : nat) (host : string) : Prop :=
  exists k topo, (k < n)%nat /\ discover k = Ok topo /\ leader topo = host.
Definition discovered_follower (n : nat) (host : string) : Prop :=
  exists k topo, (k < n)%nat /\ discover k = Ok topo /\ host ∈ topo_followers topo.

Lemma discovered_leader_mono n m host : (n <= m)%nat -> discovered_leader n host -> discovered_leader m host.
Proof. intros Hle (k & topo & Hk & H). exists k, topo. split; [lia|done]. Qed.

Lemma discovered_follower_mono n m host : (n <= m)%nat -> discovered_follower n host -> discovered_follower m host.
Proof. intros Hle (k & topo & Hk & H). exists k, topo. split; [lia|done]. Qed.

(** Every name in the tables has been discovered. *)
Record prov (h : HandlerInner) : Prop := {
  prov_leader : forall l, leader_host h = Some l -> discovered_leader (awaits h) l;
  prov_follower : forall key c, followers h !! key = Some c -> discovered_follower (awaits h) (fst (fst key))
}.

(** What time and the other tasks leave of that. *)
Record since (h h' : HandlerInner) : Prop := {
  since_host : leader_host h' = leader_host h;
  since_followers : followers h' ⊆ followers h;
  since_awaits : awaits h' = awaits h
}.

#[export] Instance since_preorder : PreOrder since.
Proof.
  split; [by intros h; split|]. intros a b c [H1 F1 A1] [H2 F2 A2]. split; [congruence|by etrans|congruence].
Qed.

Lemma prov_later h h' :
  leader_host h' = leader_host h -> followers h' ⊆ followers h -> (awaits h <= awaits h')%nat -> prov h -> prov h'.
Proof.
  intros H F A [L P]. split.
  - intros l. rewrite H. intros Hl%L. by eapply discovered_leader_mono.
  - intros key c Hk. eapply discovered_follower_mono; [exact A|]. eapply P, lookup_weaken; [exact Hk|done].
Qed.

Lemma prov_since h h' : since h h' -> prov h -> prov h'.
Proof. intros [H F A]. apply prov_later; [done|done|lia]. Qed.

(** From [h0], [p] keeps [prov] at every suspension and ends in [Q], when the
    others go on from a state since the one it was left in; the count of
    suspensions only grows. *)
Fixpoint always {A} (Q : A -> HandlerInner -> Prop) (h0 : HandlerInner) (p : Prog A) : Prop :=
  match p with
  | Ret None => True
  | Ret (Some (a, h)) => (awaits h0 <= awaits h)%nat /\ prov h /\ Q a h
  | Susp b h k => (awaits h0 <= awaits h)%nat /\ prov h /\ forall h', since h h' -> always Q h' (k h')
  end.

Lemma always_pre {A} (Q : A -> HandlerInner -> Prop) h0 h p :
  (awaits h0 <= awaits h)%nat -> always Q h p -> always Q h0 p.
Proof. intros Hle. destruct p as [[[a g]|]|b g k]; simpl; [|done|]; intros (H & ?); (split; [lia|done]). Qed.

Lemma always_bind {A B} (Q : B -> HandlerInner -> Prop) h0 (p : Prog A) (f : A -> HandlerInner -> Prog B) :
  always (fun a h => always Q h (f a h)) h0 p -> always Q h0 (pbind p f).
Proof.
  revert h0. induction p as [[[a h]|]|b h k IH]; intros h0; simpl; [|done|].
  - intros (A1 & _ & Hf). by eapply always_pre.
  - intros (A1 & P & Hk). split_and!; [done|done|]. auto.
Qed.

Lemma always_mono {A} (Q Q' : A -> HandlerInner -> Prop) h0 p :
  (forall a h, prov h -> Q a h -> Q' a h) -> always Q h0 p -> always Q' h0 p.
Proof.
  intros HQ. revert h0. induction p as [[[a h]|]|b h k IH]; intros h0; simpl; [|done|]; intros (A1 & P & Hk); split_and!; auto.
Qed.

Lemma always_ret {A} (Q : A -> HandlerInner -> Prop) a h : prov h -> Q a h -> always Q h (Ret (Some (a, h))).
Proof. intros P HQ. simpl. auto. Qed.

(** A suspension point: later, one point on. *)
Lemma always_await (Q : unit -> HandlerInner -> Prop) h :
  prov h -> (forall h', prov h' -> (awaits h < awaits h')%nat -> Q tt h') -> always Q h (await_p h).
Proof.
  intros P HQ. split_and!; [done|done|]. intros h' [H F A].
  assert (P' : prov (set_net h' (net h') (S (awaits h)))) by (by apply (prov_later h); [..|simpl; lia|]).
  split_and!; [simpl; lia|done|]. apply HQ; [done|simpl; lia].
Qed.

Lemma always_await_held (Q : unit -> HandlerInner -> Prop) h :
  prov h -> (forall h', prov h' -> (awaits h < awaits h')%nat -> Q tt h') -> always Q h (await_held_p h).
Proof. exact (always_await Q h). Qed.

Lemma always_dial host h (Q : Result nat RZError -> HandlerInner -> Prop) :
  prov h -> (forall r h', prov h' -> (awaits h <= awaits h')%nat -> Q r h') -> always Q h (dial_p cfg tcp host h).
Proof.
  intros P HQ. unfold dial_p. apply always_bind, always_await; [done|]. intros h1 P1 A1.
  destruct (connect _ _ _ _) as [res st]. assert (P2 : prov (set_net h1 st (awaits h1))) by (by apply (prov_later h1)).
  split_and!; [done|done|]. apply HQ; [done|simpl; lia].
Qed.

(** ** The synchronisation *)

Lemma always_fill_slots slots host h :
  prov h -> discovered_leader (awaits h) host ->
  always (fun _ h' => (awaits h <= awaits h')%nat) h (fill_slots_p cfg tcp slots host h).
Proof.
  revert h. induction slots as [|i r IH]; intros h P L; cbn [fill_slots_p]; [by apply always_ret|].
  apply always_bind, always_dial; [done|]. intros res h1 P1 A1.
  assert (Hnext : forall g, prov g -> (awaits h <= awaits g)%nat ->
    always (fun _ h' => (awaits h <= awaits h')%nat) g (fill_slots_p cfg tcp r host g)).
  { intros g Pg Ag. eapply always_mono; [|apply IH; [done|by eapply discovered_leader_mono]]. simpl. lia. }
  destruct res as [c|e]; [|by apply Hnext]. apply always_bind, always_await; [done|]. intros h2 P2 A2.
  destruct (leader_conns h2 !! i); [|done]. eapply always_pre; [|apply Hnext]; [done| |simpl; lia].
  split; [|apply P2]. simpl. intros l [= <-]. eapply discovered_leader_mono; [|exact L]. lia.
Qed.

Lemma always_sync_leader host h :
  prov h -> discovered_leader (awaits h) host ->
  always (fun _ h' => (awaits h <= awaits h')%nat) h (sync_leader_p cfg tcp host h).
Proof.
  intros P L. unfold sync_leader_p. apply always_bind.
  assert (Hgo : forall g, prov g -> (awaits h <= awaits g)%nat ->
    always (fun _ h' => (awaits h <= awaits h')%nat) g (do (_, h) <- await_p g; fill_slots_p cfg tcp (required_slots h) host h)).
  { intros g Pg Ag. apply always_bind, always_await; [done|]. intros g1 P1 A1.
    eapply always_mono; [|apply always_fill_slots; [done|eapply discovered_leader_mono; [|exact L]; lia]]. simpl. lia. }
  destruct (leader_changed host h); [|apply always_ret; [done|by apply Hgo]].
  apply always_bind, always_await; [done|]. intros h1 P1 A1.
  assert (P2 : prov (set_leader_host (set_leader_conns h1 (map (fun _ => None) (leader_conns h1))) (Some host))).
  { split; [|apply P1]. simpl. intros l [= <-]. eapply discovered_leader_mono; [|exact L]. lia. }
  split_and!; [done|done|]. apply Hgo; [done|simpl; lia].
Qed.

(** The new connections are under discovered names. *)
Definition names_ok (m : gmap string (list (option nat))) (h : HandlerInner) : Prop :=
  forall name, is_Some (m !! name) -> discovered_follower (awaits h) name.

Lemma always_dial_n k host m h (Q : gmap string (list (option nat)) -> HandlerInner -> Prop) :
  prov h -> discovered_follower (awaits h) host -> names_ok m h ->
  (forall m' h', prov h' -> (awaits h <= awaits h')%nat -> names_ok m' h' -> Q m' h') ->
  always Q h (dial_n_p cfg tcp k host m h).
Proof.
  revert m h. induction k as [|k IH]; intros m h P F M HQ; cbn [dial_n_p]; [apply always_ret; [done|by apply HQ]|].
  apply always_bind, always_dial; [done|]. intros res h1 P1 A1.
  assert (F1 : discovered_follower (awaits h1) host) by by eapply discovered_follower_mono.
  apply IH; [done|done| |].
  - assert (M1 : names_ok m h1) by (intros name Hn; eapply discovered_follower_mono; [exact A1|auto]).
    destruct res; [|done]. intros name [l Hl]. unfold push_conn in Hl.
    apply lookup_insert_Some in Hl as [[<- _]|[_ Hl]]; [done|]. apply M1. eauto.
  - intros m' h' P' A' M'. apply HQ; [done|lia|done].
Qed.

Lemma always_dial_all l m h (Q : gmap string (list (option nat)) -> HandlerInner -> Prop) :
  prov h -> (forall host n, (host, n) ∈ l -> discovered_follower (awaits h) host) -> names_ok m h ->
  (forall m' h', prov h' -> (awaits h <= awaits h')%nat -> names_ok m' h' -> Q m' h') ->
  always Q h (dial_all_p cfg tcp l m h).
Proof.
  revert m h. induction l as [|[host n] l IH]; intros m h P F M HQ; cbn [dial_all_p]; [apply always_ret; [done|by apply HQ]|].
  apply always_bind, always_dial_n; [done|eapply F; left|done|]. intros m1 h1 P1 A1 M1.
  apply IH; [done| |done|].
  - intros host' n' Hin. eapply discovered_follower_mono; [exact A1|]. eapply F. by right.
  - intros m' h' P' A' M'. apply HQ; [done|lia|done].
Qed.

Lemma always_file_conns l i name nidx free h :
  prov h -> discovered_follower (awaits h) name ->
  always (fun _ h' => (awaits h <= awaits h')%nat) h (file_conns_p i l name nidx free h).
Proof.
  revert i h. induction l as [|[c|] l IH]; intros i h P F; cbn [file_conns_p]; [by apply always_ret| |by apply IH].
  destruct (free !! i) as [j|]; [|done]. apply always_bind, always_await_held; [done|]. intros h1 P1 A1.
  assert (F1 : discovered_follower (awaits h1) name) by (eapply discovered_follower_mono; [|exact F]; lia).
  eapply always_mono; [|eapply always_pre; [|apply IH]]; simpl; [lia|done| |done].
  split; [apply P1|]. simpl. intros key d [[<- _]|[_ Hk]]%lookup_insert_Some; [done|]. by eapply P1.
Qed.

Lemma always_file_nodes l free a h :
  prov h -> (forall name cs, (name, cs) ∈ l -> discovered_follower (awaits h) name) ->
  always (fun _ _ => True) h (file_nodes_p cfg l free a h).
Proof.
  revert free a h. induction l as [|[name cs] l IH]; intros free a h P F; cbn [file_nodes_p]; [by apply always_ret|].
  assert (Hrest : forall g, (awaits h <= awaits g)%nat -> forall n c, (n, c) ∈ l -> discovered_follower (awaits g) n).
  { intros g Ag n c Hin. eapply discovered_follower_mono; [exact Ag|]. eapply F. by right. }
  destruct (assign_node name free a h) as [[[nidx|] free'] a']; [|by apply IH; [|apply Hrest]].
  apply always_bind. eapply always_mono; [|apply always_file_conns; [done|eapply F; left]].
  intros u g Pg Ag. apply IH; [done|by apply Hrest].
Qed.

(** What is dialled is a follower of the topology or of the table. *)
Lemma required_more_names l ids m m' name :
  required_more cfg l ids m = Some m' -> is_Some (m' !! name) -> is_Some (m !! name) \/ name ∈ l.*1.
Proof.
  revert m. induction l as [|[i x] l IH]; intros m; cbn [required_more]; [intros [= ->]; by left|].
  destruct (_ <? _); [done|]. intros Hm Hs. destruct (IH _ Hm Hs) as [Hl|Hl]; [|right; by right].
  destruct (0 <? _); [|by left]. apply lookup_insert_is_Some in Hl as [<-|[_ Hl]]; [right; by left|by left].
Qed.

Lemma required_conns_names fl h m name :
  required_conns cfg fl h = Some m -> is_Some (m !! name) ->
  name ∈ fl \/ exists key c, followers h !! key = Some c /\ fst (fst key) = name.
Proof.
  unfold required_conns. intros Hm Hs. destruct (required_more_names _ _ _ _ _ Hm Hs) as [[r Hr]|Hin].
  - left. by apply required_new_spec in Hr as [? _].
  - right. apply list_elem_of_fmap in Hin as ([n i] & -> & Hin). unfold cur_nodes in Hin.
    apply elem_of_map in Hin as ([key c] & Heq & Hin%hiter_lookup). exists key, c. split; [done|].
    simpl in Heq |- *. by rewrite <- Heq.
Qed.

Lemma always_sync_followers fl h :
  prov h -> (forall name, name ∈ fl -> discovered_follower (awaits h) name) ->
  always (fun _ _ => True) h (sync_followers_p cfg tcp fl h).
Proof.
  intros P F. unfold sync_followers_p. apply always_bind, always_await; [done|]. intros h1 P1 A1.
  destruct (required_conns cfg fl h1) as [req|] eqn:Er; [|done].
  apply always_bind, always_dial_all; [done| |by intros name [? Hn]|].
  { intros host n Hin%hiter_lookup.
    destruct (required_conns_names fl h1 req host Er ltac:(eauto)) as [Hf|(key & c & Hk & <-)]; [|by eapply P1].
    eapply discovered_follower_mono; [|by apply F]. lia. }
  intros m h2 P2 A2 M2. apply always_bind, always_await; [done|]. intros h3 P3 A3.
  apply always_bind, always_await_held; [done|]. intros h4 P4 A4. apply always_file_nodes; [done|].
  intros name cs Hin%hiter_lookup. eapply discovered_follower_mono; [|apply M2; eauto]. lia.
Qed.

Lemma prov_set_syncing h b : prov h -> prov (set_syncing h b).
Proof. by apply prov_later. Qed.

Lemma always_sync h : prov h -> always (fun _ _ => True) h (sync_with_cluster_p cfg tcp discover h).
Proof.
  intros P. unfold sync_with_cluster_p. destruct (syncing h); [by apply always_ret|]. set (h0 := set_syncing h true).
  apply always_pre with h0; [done|]. apply always_bind, always_await; [by apply prov_set_syncing|]. intros h1 P1 A1. simpl in A1.
  assert (Hend : forall g, prov g -> always (fun _ _ => True) g (Ret (Some (tt, set_syncing g false)))).
  { intros g Pg. apply always_pre with (set_syncing g false); [done|]. apply always_ret; [by apply prov_set_syncing|done]. }
  apply always_bind. destruct (discover (awaits h0)) as [topo|e] eqn:Ed; [|apply always_ret; [done|by apply Hend]].
  apply always_bind. eapply always_mono; [|apply always_sync_leader; [done|]].
  - intros u h2 P2 A2. simpl in A2. eapply always_mono; [|apply always_sync_followers; [done|]]; [intros _ h3 P3 _; by apply Hend|].
    intros name Hn. exists (awaits h0), topo. split; [simpl; lia|done].
  - exists (awaits h0), topo. split; [done|done].
Qed.

Lemma always_tick t h : prov h -> always (fun _ _ => True) h (sync_tick_p cfg tcp discover t h).
Proof.
  intros P. unfold sync_tick_p. destruct t; [|by apply always_sync].
  apply always_bind, always_await; [done|]. intros h1 P1 _. apply always_bind, always_await; [done|]. intros h2 P2 _.
  destruct (_ || _); [by apply always_sync|by apply always_ret].
Qed.

(** ** The running system *)

Context (cfg_range : 0 < conn_per_roomzin_node cfg < 2 ^ 32).

Abbreviation step := (sys_step cfg tcp discover clock).

(** A step of a request changes neither the names nor the count. *)
Lemma exec_step_awaits e h e' h' : exec_step clock cfg e h = Moves e' h' -> awaits h' = awaits h.
Proof.
  unfold exec_step, moves. destruct (phase e) as [|n|c|now| | |d|res].
  - unfold exec_pick. destruct (is_write e); [|by intros [= _ <-]].
    destruct (next_leader_conn _ _ _) as [[conn h1]|] eqn:El; cbn [mbind option_bind]; [|done].
    apply next_leader_conn_effect in El as [[_ _ E] _]. by destruct conn; intros [= _ <-].
  - unfold exec_scan. destruct n as [|n]; [by intros [= _ <-]|].
    destruct (follower_turn _ _ _) as [[conn h1]|] eqn:El; cbn [mbind option_bind]; [|done].
    apply follower_turn_effect in El as [[_ _ E] _]. by destruct conn; intros [= _ <-].
  - unfold exec_chosen. destruct (negb _); [|by intros [= _ <-]].
    destruct (next_corr_id _ _) as [[k st]|]; [|done]. cbn [mbind option_bind].
    destruct (patch _ _ _); [|done]. cbn [mbind option_bind]. simpl. by intros [= _ <-].
  - destruct (registered e) as [[[c k] tx]|]; [|done]. by intros [= _ <-].
  - destruct (registered e) as [[[c k] tx]|]; [|done]. destruct (send_raw _ _ _) as [[[| |] st]|]; try done; by intros [= _ <-].
  - destruct (registered e) as [[[c k] tx]|]; [|done]. destruct (shots _ !! tx) as [[|v|]|]; try done.
    + destruct (restore_clrid _ v); [|done]. by intros [= _ <-].
    + by intros [= _ <-].
  - by intros [= _ <-].
  - by destruct (registered e) as [[[? ?] ?]|].
Qed.

Lemma rely_since h h' : rely cfg h h' -> awaits h' = awaits h -> since h h'.
Proof. intros R A. split; [apply R|apply R|done]. Qed.

(** The synchronisation goes on under the same discipline. *)
Definition sync_always (s : Sys) : Prop :=
  match syncer s with
  | None => True
  | Some (b, k) => exists h, since h (hd s) /\ forall h', since h h' -> always (fun _ _ => True) h' (k h')
  end.

Definition sys_prov (s : Sys) : Prop := prov (hd s) /\ sync_always s.

Lemma sys_prov_since s s' : syncer s' = syncer s -> since (hd s) (hd s') -> sys_prov s -> sys_prov s'.
Proof.
  intros Hy S [P Y]. split; [by eapply prov_since|]. unfold sync_always in *. rewrite Hy.
  destruct (syncer s) as [[b k]|]; [|done]. destruct Y as (h & S0 & Hk). exists h. split; [by etrans|done].
Qed.

Lemma settle_prov s p s' :
  always (fun _ _ => True) (hd s) p -> settle s p = Some s' -> sys_prov s' /\ (awaits (hd s) <= awaits (hd s'))%nat.
Proof.
  destruct p as [[[u h]|]|b h k]; simpl; [|done|].
  - intros (A & P & _) [= <-]. done.
  - intros (A & P & Hk) [= <-]. split; [|done]. split; [done|]. exists h. done.
Qed.

Lemma sys_step_prov s s' :
  sys_inv cfg s -> sys_prov s -> step s s' -> sys_prov s' /\ (awaits (hd s) <= awaits (hd s'))%nat.
Proof.
  intros [I D T _ _ _] P Hs. destruct Hs as
    [s t w frame e Hn He|s t e e' h' Ht Hg He|s c ci hdr frame go ci' out Hr Hc Hs|s c Hr [ci Hc]|s c ci ok frame ci' Hc Hw
    |s t s' Hb Hk Hs|s b k s' Hk Hs].
  - done.
  - pose proof (exec_step_ok clock cfg (responses s) e (hd s) cfg_range I D (T _ _ Ht)) as Ho. rewrite He in Ho.
    pose proof (exec_step_awaits _ _ _ _ He) as A. simpl. rewrite A. split; [|done].
    apply (sys_prov_since s); [done|apply rely_since; [apply Ho|done]|done].
  - split; [|done]. by apply (sys_prov_since s).
  - split; [|done]. by apply (sys_prov_since s).
  - split; [|done]. by apply (sys_prov_since s).
  - eapply settle_prov; [|exact Hs]. apply always_tick, P.
  - eapply settle_prov; [|exact Hs]. destruct P as [_ Y]. unfold sync_always in Y. rewrite Hk in Y.
    destruct Y as (h & S & Hk'). by apply Hk'.
Qed.

(** Where a request goes: the connection it has chosen, or is registered on. *)
Definition routed_to (s : Sys) (e : Exec) (a : string) : Prop :=
  if is_write e then discovered_leader (awaits (hd s)) a else discovered_follower (awaits (hd s)) a.

Definition holds_conn (e : Exec) (c : nat) : Prop :=
  phase e = Chosen c \/ exists k tx, registered e = Some (c, k, tx).

Definition routed (s : Sys) : Prop :=
  forall t e c, tasks s !! t = Some e -> holds_conn e c ->
    exists ci, conns (net (hd s)) !! c = Some ci /\ routed_to s e (addr ci).

Lemma routed_to_mono s s' e e' a :
  (awaits (hd s) <= awaits (hd s'))%nat -> is_write e' = is_write e -> routed_to s e a -> routed_to s' e' a.
Proof.
  intros A W. unfold routed_to. rewrite W. destruct (is_write e); [by apply discovered_leader_mono|by apply discovered_follower_mono].
Qed.

(** What a request holds after a step it held before, or the tables did. *)
Lemma exec_step_routes s e e' h' c :
  cluster_inv cfg (hd s) -> prov (hd s) -> (forall n, phase e = Scanning n -> is_write e = false) ->
  exec_step clock cfg e (hd s) = Moves e' h' -> holds_conn e' c ->
  holds_conn e c \/ exists ci, conns (net (hd s)) !! c = Some ci /\ routed_to s e (addr ci).
Proof.
  intros I P Hw He [Hp|(k & tx & Hr)].
  - right. destruct (exec_step_chooses _ _ _ _ _ _ _ He Hp) as [_ Hsrc]. unfold routed_to.
    destruct (phase e) as [|n|d|now| | |d|res] eqn:Ep; try done.
    + destruct Hsrc as (-> & i & Hi). destruct (inv_slot _ _ I _ _ Hi) as (ci & Hc & Hh). exists ci. split; [done|by apply P].
    + destruct Hsrc as [[[n' i] j] Hk]. destruct (inv_key _ _ I _ _ _ _ Hk) as (_ & _ & ci & Hc & Ha). exists ci. split; [done|].
      rewrite (Hw n eq_refl), Ha. by apply (prov_follower _ P _ _ Hk).
  - left. destruct (exec_step_registered clock cfg _ _ _ _ He) as [Hs|(d & k' & Hp & Hs)]; [right; exists k, tx; congruence|].
    left. rewrite Hp. congruence.
Qed.

Lemma step_net s s' : sys_inv cfg s -> step s s' -> net_le (net (hd s)) (net (hd s')).
Proof.
  intros Inv Hs. pose proof Inv as [I D T [n Y] _ _]. destruct Hs as
    [s t w frame e Hn He|s t e e' h' Ht Hg He|s c ci hdr frame go ci' out Hr Hc Hs|s c Hr [ci Hc]|s c ci ok frame ci' Hc Hw
    |s t s' Hb Hk Hs|s b k s' Hk Hs].
  - apply net_le_refl.
  - pose proof (exec_step_ok clock cfg (responses s) e (hd s) cfg_range I D (T _ _ Ht)) as Ho. rewrite He in Ho. apply Ho.
  - eapply (ss_net _ _ _ _), (deliver_sstep ((c, clr_id hdr, frame) :: responses s)); [done|done|done|set_solver].
  - simpl. unfold close. rewrite (on_conn_const _ _ _ _ Hc). by eapply ss_net, (on_conn_sstep []).
  - apply write_loop_step_inv in Hw as (Ha & Hcl & Hd). simpl. eapply ss_net, (on_conn_sstep []); [done..|by rewrite Hd].
  - pose proof (settle_segment cfg _ _ _ _ (tick_rg cfg tcp discover cfg_range s t Inv) Hs) as (S & I' & _).
    eapply ss_net, (extends_sstep []); [apply I'|apply S].
  - pose proof (settle_segment cfg _ _ _ _ (resume_rg cfg n s b k Hk Y) Hs) as (S & I' & _).
    eapply ss_net, (extends_sstep []); [apply I'|apply S].
Qed.

Lemma routed_step s s' : sys_inv cfg s -> sys_prov s -> routed s -> step s s' -> routed s'.
Proof.
  intros Inv P R Hs. pose proof (step_net _ _ Inv Hs) as N. destruct (sys_step_prov _ _ Inv P Hs) as [_ A].
  assert (Hold : forall e e' c, is_write e' = is_write e ->
    (exists ci, conns (net (hd s)) !! c = Some ci /\ routed_to s e (addr ci)) ->
    exists ci, conns (net (hd s')) !! c = Some ci /\ routed_to s' e' (addr ci)).
  { intros e e' c Hw (ci & Hc & Hci). destruct (N _ _ Hc) as (ci' & Hc' & Ha & _). exists ci'. split; [done|].
    rewrite Ha. by eapply routed_to_mono. }
  assert (Hsame : tasks s' = tasks s -> routed s').
  { intros He t e c Ht Hr. rewrite He in Ht. by eapply Hold, R. }
  destruct Hs as [s t w frame e Hn He|s t e e' h' Ht Hg He|s c ci hdr frame go ci' out Hr Hc Hs|s c Hr [ci Hc]|s c ci ok frame ci' Hc Hw
    |s t s' Hb Hk Hs|s b k s' Hk Hs]; try (by apply Hsame).
  - intros t' e' c Ht Hr. simpl in Ht. apply lookup_insert_Some in Ht as [[<- <-]|[_ Ht]]; [|by eapply Hold, R].
    exfalso. revert He Hr. unfold exec_start, holds_conn. destruct (_ <? 9); [intros [= <-]; simpl; naive_solver|].
    destruct frame.[0]; [|done]. cbn [mbind option_bind]. destruct (negb _); [intros [= <-]; simpl; naive_solver|].
    destruct frame.[1; 5]; [|done]. intros [= <-]. simpl. naive_solver.
  - intros t' e2 c Ht' Hr. simpl in Ht'. apply lookup_insert_Some in Ht' as [[<- <-]|[_ Ht']]; [|by eapply Hold, R].
    pose proof (exec_step_kept clock cfg _ _ _ _ He) as K. apply Hold with e; [apply K|].
    destruct (exec_step_routes s e e' h' c (sys_cluster _ _ Inv) (proj1 P)) as [Hh|Hn]; [|done|done|by eapply R|done].
    intros n Hp. destruct (sys_tasks _ _ Inv _ _ Ht) as [_ Ho]. rewrite Hp in Ho. apply Ho.
  - apply Hsame. by destruct (settle_tasks _ _ _ Hs).
  - apply Hsame. by destruct (settle_tasks _ _ _ Hs).
Qed.

Lemma reachable_routed s : rtc step (sys_new cfg) s -> routed s /\ sys_prov s.
Proof.
  intros Hr. enough (routed s /\ sys_prov s /\ sys_inv cfg s) as (? & ? & _) by done.
  eapply (rtc_ind_r (fun s => routed s /\ sys_prov s /\ sys_inv cfg s) (sys_new cfg)); [| |exact Hr].
  - split_and!; [by intros t e c Ht| |by apply sys_new_inv]. split; [by split|done].
  - intros s1 s2 _ Hs (R & P & I). split_and!; [by eapply routed_step|by eapply sys_step_prov|by eapply sys_step_inv].
Qed.

End Provenance.

(** ** Discoveries of [topology.rs] *)

Section Elections.
Context `{RQ : Reqwest}.
Context {HN : HashIter string NodeData} {HV : HashIter string Z} {HS : HashSetIter string}.

(** The round a discovery took its topology from: the one from the known ids,
    or, when that failed, the one from the list of RzID. *)
Definition round_of (td : TopologyDiscovery) (nets : nat -> Get) (rz : Get) (nets' : nat -> Get)
    (ns : nat -> Get) (seeds : list string) : Prop :=
  ns = nets /\ seeds = known_node_ids td
  \/ is_ok (discover_from_seeds (td_resolver td) (td_node_client td) nets (known_node_ids td)) = false
     /\ ns = nets' /\ fetch_shard_nodes rz (td_rzid td) = Ok seeds.

(** The topology of a discovery is elected by the nodes probed in that round. *)
Lemma td_discover_round td nets rz nets' topo :
  fst (td_discover nets rz nets' td) = Ok topo ->
  exists ns seeds, round_of td nets rz nets' ns seeds
    /\ elected (fst (survey (td_resolver td) (td_node_client td) ns seeds)) topo.
Proof.
  unfold td_discover.
  pose proof (discover_remembers (td_rzid td) (td_resolver td) (td_node_client td) nets rz nets' (known_node_ids td)) as Hd.
  destruct (Topology.discover _ _ _ _ _ _ _) as [res known]. simpl. intros ->.
  destruct Hd as [_ [Hr|(Hf & seeds & Hz & Hr)]]; apply discover_from_seeds_elected in Hr.
  - exists nets, (known_node_ids td). split; [by left|done].
  - exists nets', seeds. split; [by right|done].
Qed.

(** [host] was probed in the round and reported the health [role]. *)
Definition reported (td : TopologyDiscovery) (ns : nat -> Get) (seeds : list string) (role host : string) : Prop :=
  exists k n, fst (survey (td_resolver td) (td_node_client td) ns seeds) !! host = Some n /\ health n = role
    /\ probed (td_resolver td) (td_node_client td) (ns k) host n.

Lemma node_with_reported td ns seeds lid role host :
  node_with (fst (survey (td_resolver td) (td_node_client td) ns seeds)) lid role host -> reported td ns seeds role host.
Proof. intros (n & Hn & _ & Hh). destruct (survey_probed _ _ _ _ _ _ Hn) as [k Hk]. by exists k, n. Qed.

End Elections.

(** ** Properties *)

Section Properties.
Context `{RQ : Reqwest}.
Context {HF : HashIter (string * Z * Z) nat} {HH : HashIter (string * Z) Z}.
Context {HR : HashIter string Z} {HN : HashIter string (list (option nat))} {HD : HashIter Z (nat * Z)}.
Context {HND : HashIter string NodeData} {HS : HashSetIter string}.
Context (cfg : Config) (tcp : nat -> string -> Result unit io_Error).
Context (discover : nat -> Result ClusterTopology RZError) (clock : nat -> Z).

(** C7. Writes go to the elected leader, reads to its followers, from the probes
    of the nodes to the connection a frame is put on.  Let the discovery at
    suspension point [n] be that of [topology.rs], with the ids known then and
    the answers the network and RzID gave then.  Then in every reachable state
    the connection a request has chosen, or is or was last registered on, goes
    to a host of a topology discovered before: its leader for a write, one of
    its followers for a read.  And that topology is elected by the nodes probed
    in the very round of that discovery, the one from the ids known then or,
    when that failed, the one from RzID's list: no leader id had more votes
    among them than its own; the host's name was resolved in that round, and it
    reported itself to be the active leader (an active follower). *)
Theorem requests_reach_elected nets rz nets' tds s t e c :
  (forall n, discover n = fst (td_discover (nets n) (rz n) (nets' n) (tds n))) ->
  0 < conn_per_roomzin_node cfg < 2 ^ 32 -> rtc (sys_step cfg tcp discover clock) (sys_new cfg) s ->
  tasks s !! t = Some e -> holds_conn e c ->
  exists ci n topo ns seeds, conns (net (hd s)) !! c = Some ci /\ (n < awaits (hd s))%nat /\ discover n = Ok topo
  /\ round_of (tds n) (nets n) (rz n) (nets' n) ns seeds
  /\ elected (fst (survey (td_resolver (tds n)) (td_node_client (tds n)) ns seeds)) topo
  /\ if is_write e then addr ci = leader topo /\ reported (tds n) ns seeds "active_leader" (addr ci)
     else addr ci ∈ topo_followers topo /\ reported (tds n) ns seeds "active_follower" (addr ci).
Proof.
  intros Hdisc Hn Hr Ht Hreg.
  destruct (proj1 (reachable_routed cfg tcp discover clock Hn s Hr) t e c Ht Hreg) as (ci & Hc & Hto).
  exists ci. unfold routed_to in Hto.
  destruct (is_write e); destruct Hto as (n & topo & Hlt & Hd & Ha);
    pose proof Hd as Hr'; rewrite Hdisc in Hr'; apply td_discover_round in Hr' as (ns & seeds & Ho & El);
    exists n, topo, ns, seeds; split_and!; try done.
  - destruct El as (lid & _ & _ & _ & Hl & _). rewrite <- Ha. by eapply node_with_reported.
  - destruct El as (lid & _ & _ & _ & _ & Hf). by apply Hf, node_with_reported in Ha.
Qed.

End Properties.

#[local] Existing Instance reqwest_text.
#[local] Instance disc_demux_order : HashIter Z (nat * Z) := list_order Z (nat * Z).
#[local] Instance disc_history_order : HashIter (string * Z) Z := list_order (string * Z) Z.
#[local] Instance disc_followers_order : HashIter (string * Z * Z) nat := list_order (string * Z * Z) nat.
#[local] Instance disc_required_order : HashIter string Z := list_order string Z.
#[local] Instance disc_new_order : HashIter string (list (option nat)) := list_order string (list (option nat)).
#[local] Instance disc_nodes_order : HashIter string NodeData := list_order string NodeData.
#[local] Instance disc_peers_order : HashSetIter string := set_order string.

(** A write to the cluster of [Topology.v]: discovery, connection, request. *)
Definition demo_td : TopologyDiscovery := topology_new demo_rzid demo_resolver demo_client ["n1"; "n2"].
Definition demo_discover (_ : nat) : Result ClusterTopology RZError :=
  fst (td_discover (fun _ => demo_get) demo_get (fun _ => demo_get) demo_td).
Definition demo_write : option Sys :=
  run [do_sync run_cfg run_all demo_discover Fast; do_start 0 true ex_frame;
       do_exec run_cfg run_clock 0; do_exec run_cfg run_clock 0] (sys_new run_cfg).

Lemma demo_write_reach s : demo_write = Some s -> rtc (sys_step run_cfg run_all demo_discover run_clock) (sys_new run_cfg) s.
Proof.
  apply run_reaches. repeat constructor; [apply do_sync_step|apply do_start_step|apply do_exec_step..].
Qed.

Lemma requests_reach_elected_witness :
  exists s e ci topo ns seeds, tasks s !! 0%nat = Some e /\ registered e = Some (0%nat, 1, 0%nat)
  /\ conns (net (hd s)) !! 0%nat = Some ci /\ addr ci = leader topo
  /\ elected (fst (survey demo_resolver demo_client ns seeds)) topo.
Proof.
  assert (Ht : (demo_write ≫= fun s => tasks s !! 0%nat ≫= fun e => Some (is_write e, registered e)) = Some (true, Some (0%nat, 1, 0%nat)))
    by (vm_compute; reflexivity).
  destruct demo_write as [s|] eqn:E; [|discriminate Ht]. simpl in Ht.
  destruct (tasks s !! 0%nat) as [e|] eqn:Ee; [|discriminate Ht]. simpl in Ht. injection Ht as Hw Hreg.
  destruct (requests_reach_elected run_cfg run_all demo_discover run_clock
    (fun _ _ => demo_get) (fun _ => demo_get) (fun _ _ => demo_get) (fun _ => demo_td) s 0 e 0)
    as (ci & n & topo & ns & seeds & Hc & _ & _ & _ & El & Hx).
  - intros n. reflexivity.
  - exact run_range.
  - exact (demo_write_reach s E).
  - exact Ee.
  - right. exists 1, 0%nat. exact Hreg.
  - rewrite Hw in Hx. exists s, e, ci, topo, ns, seeds.
    split; [exact Ee|split; [exact Hreg|split; [exact Hc|split; [exact (proj1 Hx)|exact El]]]].
Defined.
