(* ===== verification/Bridge.v ===== *)
(** * The bridge as a whole: router connections over the running system

    [TcpServer.v] proves the handler of a router connection against the
    interface [HandlerEnv].  Here the interface is the running system: a
    world is a state of [System.v], [execute] starts a request in it and runs
    it, step by step, to its end, and between any two steps the rest of the
    bridge (the other handlers' requests, the read and write loops, the
    synchronisation) does whatever it likes.  [Answers] is what a handler needs
    of its world to answer its router properly; the running system meets it. *)

From stdpp Require Import infinite.
From S2P Require Import Prelude RustStd Error Config Protocol Demux Connection TcpServer LoadBalancer Topology.
From S2P Require Import ClusterSync ClusterProps SyncSteps Execute System SystemProps Requests.
Local Open Scope Z_scope.

(** ** What the handler needs of the cluster *)

(** From the worlds [good] a run only goes on to later ones, [le], which are
    good as well; a successful answer is [ok] for the request in the world it is
    given in, and stays so. *)
Class Answers `{HandlerEnv W} (good : W -> Prop) (le : W -> W -> Prop) (ok : W -> bytes -> bytes -> Prop) : Prop := {
  ans_preorder :: PreOrder le;
  ans_good w w' : good w -> le w w' -> good w';
  ans_mono w w' f b : le w w' -> ok w f b -> ok w' f b;
  ans_execute isw f w : good w ->
    le w (snd (execute isw f w))
    /\ forall r, fst (execute isw f w) = Some (Ok r) -> ok (snd (execute isw f w)) f r;
  ans_write b w : le w (snd (write_all b w));
  ans_flush w : le w (flush w);
  ans_now w : le w (snd (now w))
}.

(** The reply to a request: an answer, or the error reply under the id of the
    request's frame. *)
Definition reply_to (ok : bytes -> bytes -> Prop) (e : bool * bytes) (b : bytes) : Prop :=
  ok (snd e) b \/ exists id code, (snd e).[1; 5] = Some (le_bytes 4 id) /\ b = build_error_response id code.

(** All the requests of a trace are answered, in order, but for the last one
    if it is [pending]. *)
Definition answered (ok : bytes -> bytes -> Prop) (pending : bool) (es : list Effect) : Prop :=
  exists l rest, executed es = l ++ rest /\ length rest = (if pending then 1 else 0)%nat
  /\ Forall2 (reply_to ok) l (written es).

Lemma answered_app ok p es es' : answered ok false es -> answered ok p es' -> answered ok p (es ++ es').
Proof.
  intros (l & [|] & He & Hr & Hf) (l' & rest' & He' & Hr' & Hf'); [|done]. rewrite app_nil_r in He.
  exists (l ++ l'), rest'. rewrite executed_app, written_app, He, He', <- app_assoc. split_and!; [done|done|].
  by apply Forall2_app.
Qed.

Lemma answered_none ok es : executed es = [] -> written es = [] -> answered ok false es.
Proof. intros He Hw. exists [], []. by rewrite He, Hw. Qed.

Lemma answered_one ok es e b : executed es = [e] -> written es = [b] -> reply_to ok e b -> answered ok false es.
Proof. intros He Hw Hr. exists [e], []. rewrite He, Hw. split_and!; [done|done|]. by constructor. Qed.

Lemma answered_mono (ok ok' : bytes -> bytes -> Prop) p es :
  (forall f b, ok f b -> ok' f b) -> answered ok p es -> answered ok' p es.
Proof.
  intros Hok (l & rest & He & Hr & Hf). exists l, rest. split_and!; [done|done|].
  eapply Forall2_impl; [exact Hf|]. intros e b [Hb|Hb]; [left; auto|by right].
Qed.

Section Replies.
Context `{HandlerEnv W} (cfg : Config).
Context (good : W -> Prop) (le : W -> W -> Prop) (ok : W -> bytes -> bytes -> Prop) `{!Answers good le ok}.

Lemma now_le w t w' : now w = (t, w') -> le w w'.
Proof. intros Hn. pose proof (ans_now (ok := ok) w) as Hle. by rewrite Hn in Hle. Qed.

Lemma write_le b w k w' : write_all b w = (k, w') -> le w w'.
Proof. intros Hn. pose proof (ans_write (ok := ok) b w) as Hle. by rewrite Hn in Hle. Qed.

Lemma execute_le isw f w r w' :
  good w -> execute isw f w = (r, w') -> le w w' /\ forall b, r = Some (Ok b) -> ok w' f b.
Proof. intros Hg Hn. pose proof (ans_execute (ok := ok) isw f w Hg) as Hx. by rewrite Hn in Hx. Qed.

(** The request of a pass: reading the clock, executing, writing the reply. *)
Lemma request_le isw f w t w1 r w2 b k w3 :
  good w -> now w = (t, w1) -> execute isw f w1 = (r, w2) -> write_all b w2 = (k, w3) ->
  le w w3 /\ forall v, r = Some (Ok v) -> ok w3 f v.
Proof.
  intros Hg Hn%now_le Hx Hw%write_le. pose proof (ans_good (ok := ok) _ _ Hg Hn) as Hg1.
  apply execute_le in Hx as [Hx Hok]; [|done]. split; [etrans; [exact Hn|by etrans]|].
  intros v Hv. eapply ans_mono; [exact Hw|auto].
Qed.

(** One pass of the inner loop. *)
Lemma drained_answered buf last w d :
  drained cfg buf last w d -> good w ->
  le w (d_world d) /\ answered (ok (d_world d)) (bool_decide (d_exit d = Pending)) (d_trace d).
Proof.
  induction 1; intros Hg; cbn [d_world d_exit d_trace emit].
  - split; [done|by apply answered_none].
  - split; [by eapply now_le|by apply answered_none].
  - split; [by eapply now_le|by apply answered_none].
  - split; [done|by apply answered_none].
  - assert (Hle : le w w1) by by eapply now_le. destruct IHdrained as [Hl Ha]; [by eapply ans_good|]. split; [by etrans|].
    apply answered_app; [by apply answered_none|done].
  - split; [|by exists [], [(isw, sf)]]. assert (Hle : le w w1) by by eapply now_le.
    etrans; [exact Hle|]. eapply execute_le; [by eapply ans_good|done].
  - destruct (request_le _ _ _ _ _ _ _ _ _ _ Hg H5 H6 H7) as [Hle _]. split; [etrans; [exact Hle|apply ans_flush]|].
    eapply answered_one; [done|done|]. right. exists c, 4. split; [|done]. by eapply (decode_id buf).
  - destruct (request_le _ _ _ _ _ _ _ _ _ _ Hg H5 H6 H7) as [Hle Hok]. split; [done|].
    eapply answered_one; [done|done|]. left. by apply Hok.
  - destruct (request_le _ _ _ _ _ _ _ _ _ _ Hg H5 H6 H7) as [Hle Hok].
    assert (Hle2 : le w (flush w3)) by (etrans; [exact Hle|apply ans_flush]).
    destruct IHdrained as [Hl Ha]; [by eapply ans_good|]. split; [by etrans|].
    apply answered_app; [|done]. eapply answered_one; [done|done|]. left.
    eapply ans_mono; [|by apply Hok]. etrans; [apply ans_flush|exact Hl].
  - destruct IHdrained as [Hl Ha]; [done|]. split; [done|]. apply answered_app; [by apply answered_none|done].
  - split; [done|by apply answered_none].
Qed.

(** The outer loop; a handler that is stuck waits for an [execute]. *)
Lemma serve_answered evs buf last w e d :
  serve cfg evs buf last w = (e, d) -> good w ->
  le w (d_world d) /\ answered (ok (d_world d)) (match e with Stuck => true | _ => false end) (d_trace d).
Proof.
  revert buf last w e d. induction evs as [|[|[|x c]| |] evs IH]; intros buf last w e d; cbn [serve];
    try (by intros [= <- <-] Hg; split; [|apply answered_none]).
  set (chunk := x :: c). pose proof (drained_answered _ _ _ _ (drain_drained cfg (buf ++ chunk) last w)) as Hd.
  pose proof (drained_exit cfg _ _ _ _ (drain_drained cfg (buf ++ chunk) last w)) as (Hp & Hf & _).
  intros Hs Hg. destruct (Hd Hg) as [Hl Ha]. destruct (drain cfg (buf ++ chunk) last w) as [ex b l w' tr].
  cbn [d_exit d_buf d_last d_world d_trace] in *. destruct ex; try done.
  - destruct (serve cfg evs b l w') as [e' d'] eqn:Es. injection Hs as <- <-.
    destruct (IH _ _ _ _ _ Es ltac:(by eapply ans_good)) as [Hl2 Ha2]. split; [by etrans|].
    apply (answered_app _ _ (Incr bytes_received (zlen chunk) :: tr)); [|exact Ha2].
    eapply answered_mono; [|exact Ha]. intros f r. by apply ans_mono.
  - injection Hs as <- <-. split; [exact Hl|exact Ha].
  - injection Hs as <- <-. split; [exact Hl|exact Ha].
Qed.

Lemma handler_answered evs w e d :
  good w -> handle_connection cfg evs w = (e, d) ->
  le w (d_world d) /\ answered (ok (d_world d)) (match e with Stuck => true | _ => false end) (d_trace d).
Proof.
  intros Hg. unfold handle_connection. destruct (now w) as [t w1] eqn:En. intros Hs. apply now_le in En.
  apply serve_answered in Hs as [Hl Ha]; [|by eapply ans_good]. split; [by etrans|done].
Qed.

End Replies.

(** ** The running system as a handler's world *)

Section World.
Context `{RQ : Reqwest}.
Context {HF : HashIter (string * Z * Z) nat} {HH : HashIter (string * Z) Z}.
Context {HR : HashIter string Z} {HN : HashIter string (list (option nat))} {HD : HashIter Z (nat * Z)}.
Context (cfg : Config) (tcp : nat -> string -> Result unit io_Error).
Context (discover : nat -> Result ClusterTopology RZError) (clock : nat -> Z).
(** What the rest of the bridge does at this handler's [n]th suspension, what
    time it is then, whether the socket takes a write, and how many turns
    [execute] is given. *)
Context (others_do : nat -> Sys -> Sys) (time : nat -> Z) (takes : nat -> bool) (turns : nat).

Record World := mkWorld {
  w_sys : Sys;
  w_turn : nat       (* suspensions so far *)
}.

(** The handler is suspended. *)
Definition pass (w : World) : World := mkWorld (others_do (w_turn w) (w_sys w)) (S (w_turn w)).

(** The next step of a request; it may have to wait for the guard. *)
Definition request_step (s : Sys) (e : Exec) : Outcome :=
  if waits_guard s e then Blocked else exec_step clock cfg e (hd s).

(** The request [t] is run to its end; [None] if it has not ended in [n]
    turns. *)
Fixpoint run_request (n : nat) (t : nat) (w : World) : option (Result bytes RZError) * World :=
  match n with
  | O => (None, w)
  | S k =>
      match tasks (w_sys w) !! t with
      | None => (None, w)
      | Some e =>
          match phase e with
          | Done r => (Some r, w)
          | _ =>
              match request_step (w_sys w) e with
              | Moves e' h' => run_request k t (pass (mkWorld (exec_to (w_sys w) t e e' h') (w_turn w)))
              | Blocked => run_request k t (pass w)
              | Panicked => (None, w)
              end
          end
      end
  end.

(** [cluster.execute(is_write, shard_frame).await] *)
Definition cluster_execute (isw : bool) (frame : bytes) (w : World) : option (Result bytes RZError) * World :=
  let t := fresh (dom (tasks (w_sys w))) in
  match exec_start isw frame with
  | None => (None, w)
  | Some e => run_request turns t (mkWorld (set_task (w_sys w) t e) (w_turn w))
  end.

Definition bridge_env : HandlerEnv World := {|
  now w := (time (w_turn w), w);
  execute := cluster_execute;
  write_all _ w := (takes (w_turn w), pass w);
  flush := pass
|}.

Abbreviation step := (sys_step cfg tcp discover clock).
Context (others_ok : forall n s, rtc step s (others_do n s)).

Lemma pass_path w : rtc step (w_sys w) (w_sys (pass w)).
Proof. apply others_ok. Qed.

(** A request in progress: its steps are steps of the system, and its answer is
    that of the task. *)
Lemma run_request_path n t w r w' :
  run_request n t w = (r, w') ->
  rtc step (w_sys w) (w_sys w')
  /\ forall res, r = Some res -> exists e, tasks (w_sys w') !! t = Some e /\ phase e = Done res.
Proof.
  revert w. induction n as [|n IH]; intros w; cbn [run_request]; [by intros [= <- <-]|].
  destruct (tasks (w_sys w) !! t) as [e|] eqn:Et; [|by intros [= <- <-]].
  assert (Hgo : match request_step (w_sys w) e with
    | Moves e' h' => run_request n t (pass (mkWorld (exec_to (w_sys w) t e e' h') (w_turn w)))
    | Blocked => run_request n t (pass w)
    | Panicked => (None, w) end = (r, w') ->
    rtc step (w_sys w) (w_sys w')
    /\ forall res, r = Some res -> exists e, tasks (w_sys w') !! t = Some e /\ phase e = Done res).
  { unfold request_step. destruct (waits_guard (w_sys w) e) eqn:Eg.
    { intros [Hp Hr]%IH. split; [|done]. etrans; [apply pass_path|done]. }
    destruct (exec_step _ _ e _) as [e' h'| |] eqn:Ee; [| |by intros [= <- <-]].
    - intros [Hp Hr]%IH. split; [|done]. eapply rtc_l; [by eapply sys_exec|].
      etrans; [|exact Hp]. apply (pass_path (mkWorld _ (w_turn w))).
    - intros [Hp Hr]%IH. split; [|done]. etrans; [apply pass_path|done]. }
  destruct (phase e) as [| | | | | | |res] eqn:Ep; try exact Hgo. intros [= <- <-]. split; [done|]. intros ? [= <-]. eauto.
Qed.

(** A call of [execute] is a path of the system on which a new request is
    started and ends; its answer carries the id of the frame. *)
Lemma cluster_execute_path isw frame w r w' :
  cluster_execute isw frame w = (r, w') ->
  rtc step (w_sys w) (w_sys w')
  /\ forall res, r = Some res -> exists t e0 e, tasks (w_sys w) !! t = None /\ exec_start isw frame = Some e0
       /\ tasks (w_sys w') !! t = Some e /\ kept e0 e /\ phase e = Done res.
Proof.
  unfold cluster_execute. set (t := fresh _). destruct (exec_start isw frame) as [e0|] eqn:E0; [|by intros [= <- <-]].
  assert (Ht : tasks (w_sys w) !! t = None) by (apply not_elem_of_dom, is_fresh).
  intros Hrun. destruct (run_request_path _ _ _ _ _ Hrun) as [Hp Hr]. split.
  - eapply rtc_l; [by eapply sys_start|]. exact Hp.
  - intros res Hres. destruct (Hr res Hres) as (e & He & Hd). exists t, e0, e. split_and!; try done.
    destruct (steps_keep cfg tcp discover clock _ _ t e0 Hp) as (e' & He' & K); [simpl; by rewrite lookup_insert_eq|].
    by simplify_eq.
Qed.

(** *** The running system answers properly *)

Definition reachable (w : World) : Prop := rtc step (sys_new cfg) (w_sys w).
Definition later (w w' : World) : Prop := rtc step (w_sys w) (w_sys w').

(** What a router gets is what a node sent: the answer is a response that the
    read loop read from a connection on which the router's frame had been
    queued, under the id it had there (or the empty one of an expired request),
    with the id of the router's frame put in; responses too short for an id are
    passed on as they are. *)
Definition passed_on (w : World) (frame b : bytes) : Prop :=
  exists c k v f, (c, f) ∈ sends (w_sys w) /\ same_frame frame f /\ f.[1; 5] = Some (le_bytes 4 k)
  /\ (v = [] \/ (c, k, v) ∈ responses (w_sys w)) /\ same_frame v b
  /\ (9 <= zlen v -> b.[1; 5] = frame.[1; 5]) /\ (zlen v < 9 -> b = v).

Context (cfg_range : 0 < conn_per_roomzin_node cfg < 2 ^ 32).

Lemma run_request_failed n t e0 err w r w' :
  tasks (w_sys w) !! t = Some e0 -> phase e0 = Done (Err err) -> run_request n t w = (r, w') ->
  r = None \/ r = Some (Err err).
Proof.
  intros Ht Hp. destruct n as [|n]; cbn [run_request]; [intros [= <- <-]; by left|].
  rewrite Ht, Hp. intros [= <- <-]. by right.
Qed.

Lemma cluster_answers isw frame w r w' b :
  reachable w -> cluster_execute isw frame w = (r, w') -> r = Some (Ok b) -> passed_on w' frame b.
Proof.
  intros Hw Hx ->. pose proof Hx as Hrun.
  apply cluster_execute_path in Hx as [Hp Hr]. destruct (Hr _ eq_refl) as (t & e0 & e & Ht0 & H0 & Ht & K & Hd).
  assert (Hw' : rtc step (sys_new cfg) (w_sys w')) by (by etrans).
  destruct (exec_start_id _ _ _ H0) as (_ & Hf0 & [(_ & _ & Hid)|(err & He0)]).
  - destruct (answer_source cfg tcp discover clock cfg_range _ t e b Hw' Ht Hd) as (c & k & tx & v & _ & Hf & Hq & Hv & Hb).
    apply restore_spec in Hb as (Hsf & H9 & Hs). exists c, k, v, (shard_frame_buf e).
    split_and!; [done|rewrite <- Hf0; apply K|done|done|done| |done].
    intros Hl. rewrite Hid, <- (kept_clrid _ _ K). by apply H9.
  - revert Hrun. unfold cluster_execute. rewrite H0. intros Hrun.
    eapply run_request_failed in Hrun as [?|?]; [done|done| |exact He0]. simpl. by rewrite lookup_insert_eq.
Qed.

Lemma later_preorder : PreOrder later.
Proof. split; [intros w; constructor|intros a b c Hab Hbc; unfold later; by etrans]. Qed.

Lemma bridge_answers : @Answers _ World bridge_env reachable later passed_on.
Proof.
  split; [apply later_preorder|intros w w' Hw Hl; unfold reachable; etrans; [exact Hw|exact Hl]| | | | |].
  - intros w w' frame b Hl (c & k & v & f & Hq & Hf & Hk & Hv & Hrest).
    destruct (steps_logs cfg tcp discover clock _ _ Hl) as [HR1 HS]. exists c, k, v, f.
    split_and!; [by apply HS|done|done|destruct Hv as [->|Hv]; [by left|right; by apply HR1]|apply Hrest..].
  - intros isw f w Hw. cbn [execute bridge_env]. destruct (cluster_execute isw f w) as [r w'] eqn:Ex. simpl.
    split; [by eapply cluster_execute_path|]. intros b Hb. by eapply cluster_answers.
  - intros b w. apply pass_path.
  - intros w. apply pass_path.
  - intros w. constructor.
Qed.

End World.

(** ** Properties *)

Section Properties.
Context `{RQ : Reqwest}.
Context {HF : HashIter (string * Z * Z) nat} {HH : HashIter (string * Z) Z}.
Context {HR : HashIter string Z} {HN : HashIter string (list (option nat))} {HD : HashIter Z (nat * Z)}.
Context (cfg : Config) (tcp : nat -> string -> Result unit io_Error).
Context (discover : nat -> Result ClusterTopology RZError) (clock : nat -> Z).
Context (others_do : nat -> Sys -> Sys) (time : nat -> Z) (takes : nat -> bool) (turns : nat).

(** C1. End to end: whatever bytes a router sends, however they are cut, and
    whatever the rest of the bridge, the nodes and the synchronisation do
    meanwhile, every request that reaches the cluster gets one reply, in
    order, before the handler ends (the one it is stuck in excepted).  The
    reply is either the error reply under the id of the request, or was
    [passed_on]: it is a response read from a connection on which this very
    frame had been queued, under the id the frame had there (or the empty one
    of an expired request), and both are passed on unchanged but for the id,
    which in the reply is the router's again. *)
Theorem bridge_replies evs w e d :
  0 < conn_per_roomzin_node cfg < 2 ^ 32 ->
  (forall n s, rtc (sys_step cfg tcp discover clock) s (others_do n s)) ->
  rtc (sys_step cfg tcp discover clock) (sys_new cfg) (w_sys w) ->
  @handle_connection _ World (bridge_env cfg clock others_do time takes turns) cfg evs w = (e, d) ->
  rtc (sys_step cfg tcp discover clock) (w_sys w) (w_sys (d_world d))
  /\ exists l rest, executed (d_trace d) = l ++ rest
       /\ length rest = (match e with Stuck => 1 | _ => 0 end)%nat
       /\ Forall2 (fun x b =>
            (exists id code, (snd x).[1; 5] = Some (le_bytes 4 id) /\ b = build_error_response id code)
            \/ passed_on (d_world d) (snd x) b)
          l (written (d_trace d)).
Proof.
  intros Hn Hoth Hw Hs.
  pose proof (bridge_answers cfg tcp discover clock others_do time takes turns Hoth Hn) as Hans.
  destruct (@handler_answered _ World (bridge_env cfg clock others_do time takes turns) cfg _ _ _ Hans evs w e d Hw Hs)
    as [Hg (l & rest & He & Hr & Hf)].
  split; [exact Hg|]. exists l, rest. split; [done|]. split; [by destruct e|].
  eapply Forall2_impl; [exact Hf|]. intros x b [Hb|Hb]; [by right|by left].
Qed.

End Properties.

#[local] Existing Instance reqwest_text.
#[local] Instance bridge_demux_order : HashIter Z (nat * Z) := list_order Z (nat * Z).
#[local] Instance bridge_history_order : HashIter (string * Z) Z := list_order (string * Z) Z.
#[local] Instance bridge_followers_order : HashIter (string * Z * Z) nat := list_order (string * Z * Z) nat.
#[local] Instance bridge_required_order : HashIter string Z := list_order string Z.
#[local] Instance bridge_new_order : HashIter string (list (option nat)) := list_order string (list (option nat)).

(** ** A run: connected to the leader, which answers when the request waits *)

Definition live_sys : Sys := default (sys_new run_cfg) (do_sync run_cfg run_all ex_topo Fast (sys_new run_cfg)).
Definition live_others (n : nat) (s : Sys) : Sys :=
  if decide (n = 3%nat) then default s (do_read 0 (mkHeader 1 x07 0) ex_answer s) else s.
Definition live_world : World := mkWorld live_sys 0.

(** A router's write with id 7. *)
Definition live_events : list Select :=
  [SelRead (prepend_router_header "segment_1" true 7 (response_payload (str_bytes "SETROOM") 0 []))].
Abbreviation live_run := (@handle_connection _ World
  (bridge_env run_cfg run_clock live_others run_clock (fun _ => true) 12) run_cfg live_events live_world).

Lemma live_reach : rtc ex_step (sys_new run_cfg) (w_sys live_world).
Proof.
  cbn [w_sys live_world]. unfold live_sys. destruct (do_sync _ _ _ _ _) as [s|] eqn:E; [|constructor].
  exact (do_sync_step run_cfg run_all ex_topo run_clock Fast _ _ E).
Qed.

Lemma live_others_ok n s : rtc ex_step s (live_others n s).
Proof.
  unfold live_others. case_decide; [|constructor]. destruct (do_read _ _ _ s) as [s'|] eqn:E; [|constructor].
  exact (do_read_step run_cfg run_all ex_topo run_clock _ _ _ _ _ E).
Qed.

(** The only reply is not an error reply: it is the leader's answer. *)
Lemma bridge_replies_witness :
  written (d_trace (snd live_run)) = [prepend_header 7 (response_payload (str_bytes "SUCCESS") 0 [])]
  /\ exists x, executed (d_trace (snd live_run)) = [x]
     /\ ((exists id code, (snd x).[1; 5] = Some (le_bytes 4 id)
           /\ prepend_header 7 (response_payload (str_bytes "SUCCESS") 0 []) = build_error_response id code)
         \/ exists c f, (c, f) ∈ sends (w_sys (d_world (snd live_run))) /\ same_frame (snd x) f).
Proof.
  assert (Hw : written (d_trace (snd live_run)) = [prepend_header 7 (response_payload (str_bytes "SUCCESS") 0 [])])
    by (vm_compute; reflexivity).
  split; [exact Hw|].
  assert (Hend : match fst live_run with Running => true | _ => false end = true) by (vm_compute; reflexivity).
  destruct live_run as [e d] eqn:E. destruct e; try discriminate Hend.
  destruct (bridge_replies run_cfg run_all ex_topo run_clock live_others run_clock (fun _ => true) 12 live_events live_world
    Running d run_range live_others_ok live_reach E) as (_ & l & rest & He & Hr & Hf).
  simpl in Hw. rewrite Hw in Hf. destruct rest as [|]; [|discriminate Hr]. rewrite app_nil_r in He.
  apply Forall2_cons_inv_r in Hf as (x & l1 & Hx & Hl & El). apply Forall2_nil_inv_r in Hl. rewrite Hl in El.
  rewrite El in He. exists x. split; [exact He|].
  destruct Hx as [Hx|(c & k & v & f & Hq & Hsf & _)]; [left; exact Hx|right; exists c, f; split; [exact Hq|exact Hsf]].
Defined.
