(* ===== verification/Locks.v ===== *)
(** * [cluster_handler.rs]: the locks of the handler

    The handler's state is behind four kinds of locks: the load balancer's
    mutex, the two tables' read-write locks and the lock of a connection's
    correlation map.  Each operation is the sequence of its acquisitions and
    releases in program order, read off its run from the state it starts in and
    what the others do meanwhile; guards are released where they go out of
    scope, also by a panic.  A read-write lock admits a
    reader when nobody else writes and a writer when nobody else holds it; the
    order of the waiting queue is left open.  All correlation maps are one lock
    here, which only makes waiting more likely. *)

From S2P Require Import Prelude Config Demux Connection LoadBalancer.

Inductive Lock := LB | LeaderConns | Followers | DemuxEntries.
Inductive Mode := Read | Write.
Inductive Action := Acq (l : Lock) (m : Mode) | Rel (l : Lock).

#[export] Instance Lock_eq_dec : EqDecision Lock.
Proof. solve_decision. Defined.
#[export] Instance Mode_eq_dec : EqDecision Mode.
Proof. solve_decision. Defined.

(** ** The operations *)

(** [store], [load_remove] and [cleanup] of a correlation map. *)
Definition demux_locks : list Action := [Acq DemuxEntries Write; Rel DemuxEntries].

Section Operations.
Context {HD : HashIter Z (nat * Z)} {HH : HashIter (string * Z) Z} (clock : nat -> Z) (cfg : Config).
Local Open Scope Z_scope.

(** The scan of the leader slots: a cleanup for every closed connection met,
    which may panic before it locks the map. *)
Fixpoint leader_scan_locks (n : nat) (next : Z) (h : HandlerInner) : list Action :=
  match n with
  | O => []
  | S k =>
      match mjoin (leader_conns h !! Z.to_nat next) with
      | None => leader_scan_locks k (bump (conn_per_roomzin_node cfg) next) h
      | Some c =>
          if is_closed c (net h)
          then match cleanup_conn clock cfg c h with
               | Some h => demux_locks ++ leader_scan_locks k (bump (conn_per_roomzin_node cfg) next) h
               | None => []
               end
          else []
      end
  end.

Definition next_leader_conn_locks (h : HandlerInner) : list Action :=
  let next := w32 (last_leader_id (load_balancer h) + 1) in
  let next := if conn_per_roomzin_node cfg <=? next then 0 else next in
  [Acq LB Write; Acq LeaderConns Write]
  ++ (if bool_decide (leader_conns h = []) || negb (existsb (fun s => bool_decide (is_Some s)) (leader_conns h)) then []
      else leader_scan_locks (Z.to_nat (Z.min (conn_per_roomzin_node cfg) (zlen (leader_conns h)))) next h)
  ++ [Rel LeaderConns; Rel LB].

(** The connections of one node. *)
Fixpoint node_scan_locks (n : nat) (name : string) (nidx next_conn_id : Z) (h : HandlerInner) : list Action :=
  match n with
  | O => []
  | S k =>
      let key := (name, nidx, next_conn_id) in
      let cpr := w32 (conn_per_roomzin_node cfg) in
      match followers h !! key with
      | Some c =>
          if is_closed c (net h)
          then match cleanup_conn clock cfg c h with
               | Some h => demux_locks
                   ++ node_scan_locks k name nidx (bump cpr next_conn_id) (set_followers h (delete key (followers h)))
               | None => []
               end
          else []
      | None => node_scan_locks k name nidx (bump cpr next_conn_id) h
      end
  end.

(** The iterations of [next_follower_conn], [others] as in [follower_scan]: each
    locks the load balancer and, if a node has the index, the follower table. *)
Fixpoint follower_scan_locks (others : nat -> HandlerInner -> HandlerInner) (n : nat) (h : HandlerInner) : list Action :=
  match n with
  | O => []
  | S k =>
      let h := others k h in
      let lb := load_balancer h in
      let next := w32 (last_node_id lb + 1) in
      let next := if Z.of_nat (size (follower_history lb)) <=? next then 0 else next in
      let h := set_lb h (set_last_node lb next) in
      match List.find (fun e => snd (fst e) =? next) (hiter (follower_history lb)) with
      | None => [Acq LB Write; Rel LB] ++ follower_scan_locks others k h
      | Some ((name, nidx), conn_id) =>
          let next_conn_id := if w32 (conn_per_roomzin_node cfg) <=? conn_id then 0 else conn_id in
          let n := Z.to_nat (conn_per_roomzin_node cfg) in
          [Acq LB Write; Acq Followers Write] ++ node_scan_locks n name nidx next_conn_id h ++ [Rel Followers; Rel LB]
          ++ match node_scan clock cfg n name nidx next_conn_id h with
             | Some (None, h) => follower_scan_locks others k h
             | Some (Some _, _) | None => []
             end
      end
  end.

Definition next_follower_conn_locks (others : nat -> HandlerInner -> HandlerInner) (h : HandlerInner) : list Action :=
  [Acq LB Write; Rel LB] ++ follower_scan_locks others (size (follower_history (load_balancer h))) h.

(** An attempt of [execute]: the selection, and [store] if it found a
    connection that is [still_open] after it. *)
Definition attempt_locks (others : nat -> HandlerInner -> HandlerInner) (still_open is_write : bool) (h : HandlerInner)
    : list Action :=
  (if is_write then next_leader_conn_locks h else next_follower_conn_locks others h)
  ++ match (if is_write then next_leader_conn clock cfg h else next_follower_conn clock cfg others h) with
     | Some (Some _, _) => if still_open then demux_locks else []
     | Some (None, _) | None => []
     end.

End Operations.

(** What the fast timer looks at. *)
Definition fast_tick_locks : list Action :=
  [Acq LeaderConns Read; Rel LeaderConns; Acq Followers Read; Rel Followers].

(** [sync_leader], when [slots] attempts to connect succeed. *)
Definition sync_leader_locks (changed : bool) (slots : nat) : list Action :=
  (if changed then [Acq LeaderConns Write; Rel LeaderConns] else [])
  ++ [Acq LeaderConns Read; Rel LeaderConns]
  ++ concat (replicate slots [Acq LeaderConns Write; Rel LeaderConns]).

(** [sync_followers], filing [n] connections: the write guard of the table is
    held while the load balancer is locked, for its keys and per connection. *)
Definition sync_followers_locks (n : nat) : list Action :=
  [Acq Followers Read; Rel Followers; Acq Followers Write; Acq LB Write; Rel LB]
  ++ concat (replicate n [Acq LB Write; Rel LB]) ++ [Rel Followers].

(** ** Tasks and their steps *)

Record Task := mkTask { holds : list (Lock * Mode); todo : list Action }.

Definition task_of (p : list Action) : Task := mkTask [] p.

Definition conflicts (l : Lock) (m : Mode) (t : Task) : bool :=
  existsb (fun h => bool_decide (fst h = l) && (bool_decide (m = Write) || bool_decide (snd h = Write))) (holds t).

(** Nobody is in the way; the locks are not reentrant, so a task can be in its
    own. *)
Definition available (l : Lock) (m : Mode) (ts : list Task) : bool := forallb (fun t => negb (conflicts l m t)) ts.

Definition release (l : Lock) (hs : list (Lock * Mode)) : list (Lock * Mode) :=
  List.filter (fun h => negb (bool_decide (fst h = l))) hs.

(** A step of task [i]; [None] when it is done or has to wait. *)
Definition lock_step (i : nat) (ts : list Task) : option (list Task) :=
  t ← ts !! i;
  match todo t with
  | [] => None
  | Acq l m :: r => if available l m ts then Some (<[i := mkTask ((l, m) :: holds t) r]> ts) else None
  | Rel l :: r => Some (<[i := mkTask (release l (holds t)) r]> ts)
  end.

Definition lstep (ts ts' : list Task) : Prop := exists i, lock_step i ts = Some ts'.

Definition finished (ts : list Task) : Prop := Forall (fun t => todo t = []) ts.

(** The actions still to make. *)
Definition remaining (ts : list Task) : nat := list_sum (map (fun t => length (todo t)) ts).

Fixpoint lock_run (is_ : list nat) (ts : list Task) : option (list Task) :=
  match is_ with
  | [] => Some ts
  | i :: r => ts ← lock_step i ts; lock_run r ts
  end.

Lemma lock_run_reaches is_ ts ts' : lock_run is_ ts = Some ts' -> rtc lstep ts ts'.
Proof.
  revert ts. induction is_ as [|i r IH]; intros ts; simpl; [by intros [= ->]|].
  destruct (lock_step i ts) eqn:E; [|done]. cbn [mbind option_bind]. intros H. eapply rtc_l; [by exists i|auto].
Qed.

(** ** Waiting in a circle *)

(** Task [i] holds the load balancer and asks for the follower table, task [j]
    holds the table and asks for the load balancer. *)
Record deadlocked (i j : nat) (ts : list Task) : Prop := {
  dl_neq : i <> j;
  dl_i : exists hs r, ts !! i = Some (mkTask hs (Acq Followers Write :: r)) /\ (LB, Write) ∈ hs;
  dl_j : exists hs r, ts !! j = Some (mkTask hs (Acq LB Write :: r)) /\ (Followers, Write) ∈ hs
}.

(** A lock somebody holds for writing is not available. *)
Lemma held_unavailable l m k t ts : ts !! k = Some t -> (l, Write) ∈ holds t -> available l m ts = false.
Proof.
  intros Hk Hin. unfold available. apply not_true_iff_false. rewrite forallb_forall. intros Hall.
  specialize (Hall t). rewrite <- list_elem_of_In in Hall. specialize (Hall (list_elem_of_lookup_2 _ _ _ Hk)).
  apply negb_true_iff, not_true_iff_false in Hall. apply Hall, existsb_exists.
  exists (l, Write). split; [by apply list_elem_of_In|]. simpl. rewrite !bool_decide_true by done. by rewrite orb_true_r.
Qed.

Lemma lock_step_other k i ts ts' : lock_step k ts = Some ts' -> k <> i -> ts' !! i = ts !! i.
Proof.
  unfold lock_step. destruct (ts !! k) as [t|]; [|done]. cbn [mbind option_bind].
  destruct (todo t) as [|[l m|l] r]; [done| |].
  - destruct (available l m ts); [|done]. intros [= <-] Hne. by rewrite list_lookup_insert_ne.
  - intros [= <-] Hne. by rewrite list_lookup_insert_ne.
Qed.

(** A step uses up an action. *)
Lemma remaining_insert i t t' ts :
  ts !! i = Some t -> length (todo t) = S (length (todo t')) -> (remaining (<[i := t']> ts) < remaining ts)%nat.
Proof.
  revert i. induction ts as [|x ts IH]; intros [|i]; simpl; [done|done|intros [= ->]; unfold remaining; simpl; lia|].
  intros Ht Hl. specialize (IH i Ht Hl). unfold remaining in *. simpl in *. lia.
Qed.

Lemma lstep_remaining ts ts' : lstep ts ts' -> (remaining ts' < remaining ts)%nat.
Proof.
  intros [i Hs]. unfold lock_step in Hs. destruct (ts !! i) as [t|] eqn:Et; [|done]. cbn [mbind option_bind] in Hs.
  destruct (todo t) as [|[l m|l] p] eqn:Ep; [done| |].
  - destruct (available l m ts); [|done]. injection Hs as <-. eapply remaining_insert; [exact Et|by rewrite Ep].
  - injection Hs as <-. eapply remaining_insert; [exact Et|by rewrite Ep].
Qed.

Lemma blocked_step k t l m r ts ts' :
  ts !! k = Some t -> todo t = Acq l m :: r -> available l m ts = false -> lock_step k ts <> Some ts'.
Proof. intros Hk Ht Ha. unfold lock_step. rewrite Hk. cbn [mbind option_bind]. by rewrite Ht, Ha. Qed.

Lemma deadlocked_step i j ts ts' : deadlocked i j ts -> lstep ts ts' -> deadlocked i j ts'.
Proof.
  intros [Hne (hs & r & Hi & Hin) (hs' & r' & Hj & Hin')] [k Hk].
  assert (k <> i).
  { intros ->. eapply blocked_step; [exact Hi|done| |exact Hk]. by eapply held_unavailable; [exact Hj|]. }
  assert (k <> j).
  { intros ->. eapply blocked_step; [exact Hj|done| |exact Hk]. by eapply held_unavailable; [exact Hi|]. }
  split; [done| |]; rewrite (lock_step_other _ _ _ _ Hk) by done; eauto.
Qed.

Lemma deadlocked_forever i j ts ts' : deadlocked i j ts -> rtc lstep ts ts' -> deadlocked i j ts'.
Proof. intros Hd Hr. revert Hd. induction Hr; intros Hd; [done|]. eauto using deadlocked_step. Qed.

(** A task that holds nothing is in nobody's way. *)
Lemma available_free l m ts : Forall (fun t => holds t = []) ts -> available l m ts = true.
Proof.
  intros Ho. apply forallb_forall. intros t Hin%list_elem_of_In.
  apply negb_true_iff. unfold conflicts. by rewrite (proj1 (Forall_forall _ _) Ho t Hin).
Qed.

Section Selection.
Context {HD : HashIter Z (nat * Z)} {HH : HashIter (string * Z) Z} (clock : nat -> Z) (cfg : Config).

(** Every attempt begins with the load balancer. *)
Lemma attempt_starts o b w h : exists r, attempt_locks clock cfg o b w h = Acq LB Write :: r.
Proof. unfold attempt_locks, next_leader_conn_locks, next_follower_conn_locks. by destruct w; eexists. Qed.

(** The state in which the first iteration of a read's search runs. *)
Definition first_turn (others : nat -> HandlerInner -> HandlerInner) (h : HandlerInner) : HandlerInner :=
  others (pred (size (follower_history (load_balancer h)))) h.

(** A read that finds a node at the index it starts from goes for the follower
    table with the load balancer locked. *)
Lemma read_starts others b h :
  follower_history (load_balancer h) <> ∅ -> is_Some (node_of (first_turn others h) (first_node (first_turn others h))) ->
  exists r, attempt_locks clock cfg others b false h = [Acq LB Write; Rel LB; Acq LB Write; Acq Followers Write] ++ r.
Proof.
  intros Hne [[[name i] v] Hn]. unfold attempt_locks, next_follower_conn_locks. unfold first_turn in Hn.
  destruct (size (follower_history (load_balancer h))) as [|k] eqn:Es; [by apply map_size_empty_inv in Es|].
  cbn [follower_scan_locks pred] in *. fold (node_count (others k h)). fold (first_node (others k h)).
  fold (node_of (others k h) (first_node (others k h))). rewrite Hn. rewrite <- !app_assoc. by eexists.
Qed.

Lemma deadlock_run r others n :
  Forall (fun t => holds t = []) others ->
  lock_run [0; 0; 0; 1; 1; 1]
    (task_of ([Acq LB Write; Rel LB; Acq LB Write; Acq Followers Write] ++ r) :: task_of (sync_followers_locks n) :: others)
  = Some (mkTask [(LB, Write)] (Acq Followers Write :: r)
          :: mkTask [(Followers, Write)] (Acq LB Write :: Rel LB :: concat (replicate n [Acq LB Write; Rel LB]) ++ [Rel Followers])
          :: others).
Proof.
  intros Ho. unfold lock_run, lock_step. cbn [mbind option_bind]. simpl.
  by repeat (rewrite available_free by done; simpl).
Qed.

(** A task that begins with the load balancer stays where it is. *)
Lemma deadlock_blocks i j ts ts' k t r :
  deadlocked i j ts -> rtc lstep ts ts' -> k <> i -> ts !! k = Some t -> todo t = Acq LB Write :: r ->
  ts' !! k = Some t.
Proof.
  intros Hd Hr Hki. revert Hd. induction Hr as [ts|ts ts1 ts2 Hs _ IH]; intros Hd Hk Ht; [done|].
  apply IH; [by eapply deadlocked_step| |done]. destruct Hs as [k' Hs].
  destruct (decide (k' = k)) as [->|Hne]; [|by rewrite (lock_step_other _ _ _ _ Hs)].
  exfalso. destruct Hd as [_ (hs & r' & Hi & Hin) _]. eapply blocked_step; [exact Hk|exact Ht| |exact Hs].
  by eapply held_unavailable; [exact Hi|].
Qed.

(** ** Properties *)

(** C14. A read choosing its connection and a synchronisation filing its
    followers can block each other for good, and the whole bridge with them: the
    one holds the load balancer and waits for the follower table, the other holds
    the table and waits for the load balancer.  This is reachable from the start
    of both, in whatever company and whatever the others do to the handler
    meanwhile, whenever the read meets a node in the first iteration of its
    search; from then on neither ever finishes and no attempt of any other
    request, read or write, that has not begun gets anywhere. *)
Theorem read_sync_deadlock others b (h : HandlerInner) (company : list Task) n :
  follower_history (load_balancer h) <> ∅ -> is_Some (node_of (first_turn others h) (first_node (first_turn others h))) ->
  Forall (fun t => holds t = []) company ->
  exists ts, rtc lstep (task_of (attempt_locks clock cfg others b false h) :: task_of (sync_followers_locks n) :: company) ts
  /\ deadlocked 0 1 ts
  /\ forall ts', rtc lstep ts ts' -> deadlocked 0 1 ts' /\ ~ finished ts'
     /\ forall k o b' w g, ts !! k = Some (task_of (attempt_locks clock cfg o b' w g)) ->
          ts' !! k = Some (task_of (attempt_locks clock cfg o b' w g)).
Proof.
  intros Hne Hn Ho. destruct (read_starts others b h Hne Hn) as [r ->].
  eexists. split; [apply (lock_run_reaches [0; 0; 0; 1; 1; 1]); by apply deadlock_run|].
  match goal with |- deadlocked 0 1 ?x /\ _ => set (ts := x) end.
  assert (Hd0 : deadlocked 0 1 ts) by (split; [done| |]; do 2 eexists; (split; [reflexivity|set_solver])).
  split; [done|]. intros ts' Hr. pose proof (deadlocked_forever _ _ _ _ Hd0 Hr) as Hd. split_and!; [done| |].
  - destruct Hd as [_ (hs & r' & Hi & _) _]. intros Hf.
    apply (proj1 (Forall_lookup _ _)) with (i := 0%nat) (x := mkTask hs (Acq Followers Write :: r')) in Hf; done.
  - intros k o b' w g Hk. destruct (attempt_starts o b' w g) as [r' Hs].
    apply (deadlock_blocks 0 1 ts ts' k _ r'); [done|done| |done|by rewrite Hs].
    intros ->. rewrite Hs in Hk. discriminate Hk.
Qed.

End Selection.

#[local] Instance lock_demux_order : HashIter Z (nat * Z) := list_order Z (nat * Z).
#[local] Instance lock_history_order : HashIter (string * Z) Z := list_order (string * Z) Z.

(** The handler of [LoadBalancer.demo_handler], and a write in company. *)
Lemma read_sync_deadlock_witness :
  exists ts, deadlocked 0 1 ts
  /\ forall ts', rtc lstep ts ts' ->
       ts !! 2%nat = Some (task_of (attempt_locks (fun _ => 0%Z) demo_cfg alone true true demo_handler)) -> ts' !! 2%nat = ts !! 2%nat.
Proof.
  destruct (read_sync_deadlock (fun _ => 0%Z) demo_cfg alone true demo_handler
    [task_of (attempt_locks (fun _ => 0%Z) demo_cfg alone true true demo_handler)] 1) as (ts & _ & Hd & Hall).
  - intros Hx. vm_compute in Hx. discriminate Hx.
  - vm_compute. eexists. reflexivity.
  - constructor; [reflexivity|constructor].
  - exists ts. split; [exact Hd|]. intros ts' Hr Hk. rewrite Hk. destruct (Hall ts' Hr) as (_ & _ & Hw). exact (Hw _ _ _ _ _ Hk).
Defined.

(** ** Acquiring in order

    Operations that lock upwards, from the load balancer through the tables to
    the correlation maps, cannot block each other. *)
Definition rank (l : Lock) : nat := match l with LB => 0 | LeaderConns => 1 | Followers => 2 | DemuxEntries => 3 end.

Fixpoint ordered (hs : list (Lock * Mode)) (p : list Action) : bool :=
  match p with
  | [] => match hs with [] => true | _ => false end
  | Acq l m :: r => forallb (fun h => (rank (fst h) <? rank l)%nat) hs && ordered ((l, m) :: hs) r
  | Rel l :: r => ordered (release l hs) r
  end.

Definition all_ordered (ts : list Task) : Prop := Forall (fun t => ordered (holds t) (todo t) = true) ts.

Lemma ordered_step ts ts' : all_ordered ts -> lstep ts ts' -> all_ordered ts'.
Proof.
  intros Ho [i Hs]. unfold lock_step in Hs. destruct (ts !! i) as [t|] eqn:Et; [|done]. cbn [mbind option_bind] in Hs.
  pose proof (proj1 (Forall_lookup _ _) Ho i t Et) as Ht.
  assert (Hi : exists t', ts' = <[i := t']> ts /\ ordered (holds t') (todo t') = true).
  { destruct (todo t) as [|[l m|l] r] eqn:Ep; [done| |]; cbn beta in Ht; rewrite Ep in Ht.
    - destruct (available l m ts); [|done]. injection Hs as <-. eexists. split; [done|]. simpl in *.
      by apply andb_true_iff in Ht as [_ ->].
    - injection Hs as <-. eexists. split; [done|]. simpl in *. done. }
  destruct Hi as (t' & -> & Ht'). by apply Forall_insert.
Qed.

Lemma list_max_elem (l : list nat) : l = [] \/ exists x, x ∈ l /\ forall y, y ∈ l -> (y <= x)%nat.
Proof.
  induction l as [|a l [->|(x & Hx & Hm)]]; [by left| |]; right.
  - exists a. split; [set_solver|]. intros y ->%list_elem_of_singleton. done.
  - destruct (decide (a <= x)%nat).
    + exists x. split; [set_solver|]. intros y [->|Hy]%elem_of_cons; [done|auto].
    + exists a. split; [set_solver|]. intros y [->|Hy]%elem_of_cons; [done|]. specialize (Hm y Hy). lia.
Qed.

Definition held_ranks (ts : list Task) : list nat := concat (map (fun t => map (fun h => rank (fst h)) (holds t)) ts).

Lemma held_ranks_elem ts r : r ∈ held_ranks ts <-> exists i t h, ts !! i = Some t /\ h ∈ holds t /\ r = rank (fst h).
Proof.
  unfold held_ranks. rewrite list_elem_of_In, in_concat. split.
  - intros (x & Hx & Hr). apply in_map_iff in Hx as (t & <- & Ht). apply in_map_iff in Hr as (h & <- & Hh).
    apply list_elem_of_In, list_elem_of_lookup in Ht as [i Hi]. exists i, t, h. by rewrite list_elem_of_In.
  - intros (i & t & h & Hi & Hh & ->). exists (map (fun h => rank (fst h)) (holds t)). split.
    + apply in_map_iff. exists t. split; [done|]. apply list_elem_of_In. by eapply list_elem_of_lookup_2.
    + apply in_map_iff. exists h. by rewrite <- list_elem_of_In.
Qed.

(** A lock above everything held is available. *)
Lemma available_above l m ts :
  (forall r, r ∈ held_ranks ts -> (r < rank l)%nat) -> available l m ts = true.
Proof.
  intros Hr. unfold available. apply forallb_forall. intros t Hin. apply list_elem_of_In, list_elem_of_lookup in Hin as [k Hk].
  apply negb_true_iff. unfold conflicts. apply not_true_iff_false. rewrite existsb_exists. intros (h & Hh & Hc).
  apply andb_true_iff in Hc as [Hc _]. apply bool_decide_eq_true in Hc.
  specialize (Hr (rank (fst h))). rewrite Hc in Hr. enough (rank l < rank l)%nat by lia. apply Hr.
  apply held_ranks_elem. exists k, t, h. split; [done|]. split; [by apply list_elem_of_In|congruence].
Qed.

Lemma ordered_progress ts : all_ordered ts -> finished ts \/ exists ts', lstep ts ts'.
Proof.
  intros Ho.
  assert (Hmove : forall i t a r, ts !! i = Some t -> todo t = a :: r ->
    (forall l m, a = Acq l m -> available l m ts = true) -> exists ts', lstep ts ts').
  { intros i t a r Hi Ht Ha. unfold lstep, lock_step. destruct a as [l m|l].
    - eexists. exists i. rewrite Hi. cbn [mbind option_bind]. rewrite Ht, (Ha l m eq_refl). done.
    - eexists. exists i. rewrite Hi. cbn [mbind option_bind]. by rewrite Ht. }
  destruct (list_max_elem (held_ranks ts)) as [Hnone|(r & Hin & Hmax)].
  - destruct (decide (Forall (fun t => bool_decide (length (todo t) = 0%nat) = true) ts)) as [Hf|Hf].
    + left. eapply Forall_impl; [exact Hf|]. intros t Ht%bool_decide_eq_true. simpl in Ht. by destruct (todo t).
    + right. apply not_Forall_Exists in Hf; [|intros t; apply _]. apply Exists_exists in Hf as (t & Ht & Hne).
      apply list_elem_of_lookup in Ht as [i Hi]. cbn beta in Hne. destruct (todo t) as [|a p] eqn:Ep; [by destruct Hne; rewrite Ep|].
      eapply Hmove; [exact Hi|exact Ep|]. intros l m _. apply available_above. rewrite Hnone. by intros ? ?%elem_of_nil.
  - right. apply held_ranks_elem in Hin as (i & t & h & Hi & Hh & ->).
    pose proof (proj1 (Forall_lookup _ _) Ho i t Hi) as Ht. cbn beta in Ht.
    destruct (todo t) as [|a p] eqn:Ep; try rewrite Ep in Ht.
    { simpl in Ht. by destruct (holds t); [apply elem_of_nil in Hh|]. }
    eapply Hmove; [exact Hi|exact Ep|]. intros l m ->. simpl in Ht. apply andb_true_iff in Ht as [Hl _].
    rewrite forallb_forall in Hl. apply list_elem_of_In in Hh. apply Hl, Nat.ltb_lt in Hh.
    apply available_above. intros r Hr%Hmax. lia.
Qed.

(** The operations that lock in order. *)
Lemma ordered_app hs p q : ordered hs p = true -> ordered [] q = true -> ordered hs (p ++ q) = true.
Proof.
  revert hs. induction p as [|[l m|l] p IH]; intros hs; simpl; [by destruct hs| |by apply IH].
  intros [-> Hp]%andb_true_iff Hq. by apply IH.
Qed.

(** A piece of program that locks correlation maps only, with lower locks held. *)
Definition demux_only (p : list Action) : Prop :=
  forall hs q, forallb (fun h => (rank (fst h) <? 3)%nat) hs = true -> ordered hs q = true -> ordered hs (p ++ q) = true.

Lemma demux_only_nil : demux_only [].
Proof. by intros hs q _. Qed.

Lemma demux_only_locks p : demux_only p -> demux_only (demux_locks ++ p).
Proof.
  intros Hp hs q Hhs Hq. assert (Hrel : release DemuxEntries ((DemuxEntries, Write) :: hs) = hs).
  { unfold release. simpl. clear Hq. induction hs as [|[l m] hs IH]; simpl in *; [done|].
    apply andb_true_iff in Hhs as [Hl Hhs]. rewrite bool_decide_false by (by intros ->). simpl. by rewrite IH. }
  simpl. rewrite Hhs. simpl. simpl in Hrel. unfold release in *. simpl in *. rewrite Hrel. by apply Hp.
Qed.

Section Ordered.
Context {HD : HashIter Z (nat * Z)} {HH : HashIter (string * Z) Z} (clock : nat -> Z) (cfg : Config).

Lemma leader_scan_ordered n next h : demux_only (leader_scan_locks clock cfg n next h).
Proof.
  revert next h. induction n as [|n IH]; intros next h; cbn [leader_scan_locks]; [apply demux_only_nil|].
  destruct (mjoin _) as [c|]; [|apply IH]. destruct (is_closed c (net h)); [|apply demux_only_nil].
  destruct (cleanup_conn _ _ _ _); [apply demux_only_locks, IH|apply demux_only_nil].
Qed.

Lemma node_scan_ordered n name nidx next h : demux_only (node_scan_locks clock cfg n name nidx next h).
Proof.
  revert next h. induction n as [|n IH]; intros next h; cbn [node_scan_locks]; [apply demux_only_nil|].
  destruct (followers h !! _) as [c|]; [|apply IH]. destruct (is_closed c (net h)); [|apply demux_only_nil].
  destruct (cleanup_conn _ _ _ _); [apply demux_only_locks, IH|apply demux_only_nil].
Qed.

Lemma follower_scan_ordered o n h : ordered [] (follower_scan_locks clock cfg o n h) = true.
Proof.
  revert h. induction n as [|n IH]; intros h; cbn [follower_scan_locks]; [done|]. cbv zeta.
  destruct (List.find _ _) as [[[name nidx] v]|]; [|apply IH]. simpl. apply node_scan_ordered; [done|]. simpl.
  destruct (node_scan _ _ _ _ _ _ _) as [[[c|] h']|]; [done|apply IH|done].
Qed.

Lemma attempt_ordered o b w h : ordered [] (attempt_locks clock cfg o b w h) = true.
Proof.
  unfold attempt_locks. apply ordered_app; [|by repeat case_match]. destruct w.
  - unfold next_leader_conn_locks. simpl. destruct (_ || _); [done|]. by apply leader_scan_ordered.
  - unfold next_follower_conn_locks. simpl. apply follower_scan_ordered.
Qed.

End Ordered.

Lemma sync_leader_ordered c n : ordered [] (sync_leader_locks c n) = true.
Proof. unfold sync_leader_locks. destruct c; simpl; by induction n. Qed.

Section Progress.
Context {HD : HashIter Z (nat * Z)} {HH : HashIter (string * Z) Z} (clock : nat -> Z) (cfg : Config).

(** The programs without [sync_followers]: attempts of requests, the read loops'
    access to the correlation maps, the looks of the fast timer and leader
    synchronisations. *)
Inductive harmless : list Action -> Prop :=
| h_attempt others still_open w h : harmless (attempt_locks clock cfg others still_open w h)
| h_demux : harmless demux_locks
| h_fast : harmless fast_tick_locks
| h_leader c n : harmless (sync_leader_locks c n).

(** C29. Without [sync_followers] there is no deadlock: attempts of requests, from
    whatever states, read loops, ticks of the fast timer and leader
    synchronisations in any number and interleaving always have a step to make
    until all are finished; and as every step uses up an action, every way to go
    on ends there. *)
Theorem requests_and_leader_sync_progress ps ts :
  Forall harmless ps -> rtc lstep (map task_of ps) ts ->
  (finished ts \/ exists ts', lstep ts ts') /\ forall ts', lstep ts ts' -> (remaining ts' < remaining ts)%nat.
Proof.
  intros Hps Hr. split; [|apply lstep_remaining]. apply ordered_progress. assert (Ho : all_ordered (map task_of ps)).
  { apply Forall_map. eapply Forall_impl; [exact Hps|]. simpl. intros p [o b w h| | |c n];
      [apply attempt_ordered|done|done|apply sync_leader_ordered]. }
  clear Hps. induction Hr as [|x y z Hs _ IH]; [done|]. apply IH. by eapply ordered_step.
Qed.

End Progress.

Lemma requests_and_leader_sync_progress_witness :
  exists ts', lstep (map task_of [attempt_locks (fun _ => 0%Z) demo_cfg alone true true demo_handler; demux_locks; sync_leader_locks true 1]) ts'.
Proof.
  destruct (requests_and_leader_sync_progress (fun _ => 0%Z) demo_cfg
    [attempt_locks (fun _ => 0%Z) demo_cfg alone true true demo_handler; demux_locks; sync_leader_locks true 1]
    (map task_of [attempt_locks (fun _ => 0%Z) demo_cfg alone true true demo_handler; demux_locks; sync_leader_locks true 1])) as [[Hf|Hs] _].
  - constructor; [constructor|]. constructor; [constructor|]. constructor; [constructor|constructor].
  - apply rtc_refl.
  - exfalso. inversion Hf. discriminate.
  - exact Hs.
Defined.
